(* ===== verification/_CoqProject ===== *)
-Q . S2P
Prelude.v
Frame.v
Huffman.v
Hpack.v
HpackFacts.v
HpackProps.v
HpackTable.v
HpackRfc.v
Probe.v
RustStd.v
NetAddr.v
Uri.v
Cookies.v
CookiesProps.v
CookieDates.v
Config.v
ClientError.v
Batch.v
Dispatch.v
Paced.v
Wire.v
Proxy.v
ProxyProps.v
Decompress.v
DecompressProps.v
Request.v
RequestProps.v
Utf8.v
Raw.v
Response.v
MockClient.v
Conn.v
SharedCache.v
Client.v
ClientProps.v
ConnectProps.v
Send.v
SendProps.v
SendExamples.v
SendLog.v
PyValue.v
Headers.v
Multipart.v
PyApi.v
RawConnect.v
Blast.v
PyH2.v
PyResponses.v
Json.v
Cli.v
Connector.v
Streams.v
Process.v
Mock.v
MockProps.v
MockExamples.v
PyTexts.v
Whole.v
RepoTests.v
RepoTestsWire.v
