(* ===== verification/Prelude.v ===== *)
(** * A verified model of blasthttp

    blasthttp is an HTTP client in Rust with Python bindings, written for security
    testing: it sends what the caller asks for, follows redirects, carries cookies
    along a redirect chain, goes through HTTP and SOCKS5 proxies, runs batches under
    a rate limit, undoes content codings under a size cap, hands out raw
    connections, and builds deliberately malformed HTTP/2 probes.  This library is a
    shallow embedding of that program: every function of the modelled files is a
    Definition or Fixpoint of the same name (methods of a type too; a prefix such as
    [Cookies.] is the file), and the theorems are about those definitions.

    ** How the parts interact

    [send] (client/hyper.rs) is the entry point.  It validates the configuration
    (config.rs), and in a retry loop calls [send_inner], which parses the URL, then
    either opens one direct stream (raw path, request target or fixed address) or
    runs the redirect loop: choose a connection mode for the hop's URI (direct,
    forward proxy, tunnel, SOCKS5), take the pooled client cached for that mode or
    build one with the TLS settings of the configuration, send, read the body under
    the cap, undo its codings, and on a redirect store the answer's cookies
    (cookies.rs), resolve the Location and go on.  client/proxy.rs performs the
    proxy handshakes on a byte stream.  batch.rs runs many [send]s under a semaphore
    and a rate limiter, and client/raw.rs is a bare stream.  The h2/ files are
    independent of all that: frames, HPACK, Huffman coding, and a probe builder that
    combines them.  Two front ends use all of it: the command line (main.rs), and the
    Python classes (python.rs), which turn arguments into a configuration, pace every
    operation by the object's limiter, and wrap what comes back; mock.rs is a stand-in
    for the Python client that answers from registered handlers and passes on the rest.

    ** Files

    - [Prelude]: byte strings, machine integers, outcomes ([exec]: value, error or
      panic), the hint databases [wf] and [zlen], the tactics, shared lemmas.
    - [RustStd], [NetAddr], [Utf8]: the standard library text operations the program
      uses ([trim], [split], integer parsing, [IpAddr] parsing, UTF-8).
    - [Frame], [Huffman], [Hpack] (with [HpackFacts], [HpackProps], [HpackTable],
      [HpackRfc]), [Probe]: h2/frame.rs, h2/huffman.rs, h2/header.rs and h2/hpack.rs, h2/probe.rs.
    - [Uri]: what the program reads of an [http::Uri].
    - [Cookies] (with [CookiesProps], [CookieDates]): cookies.rs.
    - [Config]: config.rs.   - [ClientError]: client/mod.rs and debug.rs.
    - [Batch], [Dispatch], [Paced]: the rate limiter and the two batch drivers of
      batch.rs, and the drivers under the limiter; [Whole]: a batch over the real client.
    - [Wire], [Proxy] (with [ProxyProps]): a byte stream, and client/proxy.rs over it.
    - [Decompress] (with [DecompressProps]), [Request] (with [RequestProps]), [Conn],
      [Client] (with [ClientProps]), [Send] (with [SendProps], [SendExamples], [SendLog]):
      client/hyper.rs, in this order: bodies, the pure part of requests, connection
      modes and the client cache, dispatching one request, redirects and retries.
      [Connector] is the connector of the pooled clients step by step, [SharedCache]
      the cache under interleaved calls, [ConnectProps] what opening a stream does,
      [Streams] what hyper polls, the one-shot senders and the OpenSSL providers,
      [Process] the clients of a process with the providers and the poisoning of locks,
      [SendLog] what a call writes to standard error.
    - [MockClient]: the test doubles of client/mock.rs.
    - [Raw], [RawConnect]: client/raw.rs.   - [Response], [Json]: response.rs.
    - [PyValue], [Multipart], [Headers], [PyApi], [Blast], [PyResponses], [PyH2],
      [PyTexts]: the
      Python side: values and exceptions, multipart.rs, and of python.rs the header
      mapping, arguments and outcomes, the client object with its running operations,
      the response objects, the HTTP/2 functions, the repr texts and the names that
      the module registers.
    - [Mock] (with [MockProps], [MockExamples]): mock.rs.   - [Cli]: main.rs.
    - [RepoTests], [RepoTestsWire]: the repository's own unit tests, evaluated on the
      model.

    ** How state corresponds

    A Rust struct is a Record with its fields, an enum an Inductive with its
    variants.  Text and bytes are [bytes], lists of integers in [0, 256).  A [u32] is
    an integer with the wrap-around, saturation or checked operation the code uses
    written out ([u32], [saturating_add], [checked_shl]).  A [&mut self] method takes
    and returns the record.  [Result] and panics are [exec].  Mutation of a socket is
    the state monad [io] of [Wire] over the chunks still to arrive, the outcomes of
    the writes to come, and everything written.  The client's effects are the monad
    [net] of [Client]: it threads the client cache, the debug log, and the trace of
    what was done to the outside (dials, handshakes, requests, sleeps), with the
    answers; the environment is a function of that trace, so it may answer
    differently each time, hang until the timer fires, or lie.  The batch drivers and
    the limiter are step relations over any interleaving; the limiter's includes
    spurious compare-exchange failures and a clock that only grows.

    ** What is shown

    - Sending ([SendProps]): five theorems quantify over every environment, cache and
      configuration: [send] returns without a panic, and a response is the answer of
      the end of a really answered redirect chain within its limit; every event takes
      the route that the proxy and no_proxy settings require for its own host, down to
      the kind of client that was built for a cached mode ([inner_fits], part of the
      invariant [cache_ok] of the cache); Cookie
      text never comes from anything but this call's responses and the RFC 6265
      rules for that hop; a pooled client has exactly the caller's TLS settings
      whatever filled the cache before; retries follow the policy.  They are proved
      once, from one invariant over the trace (the logic of [ClientProps]).
    - Cookies: nothing leaks to a host the setter's registrable domain does not
      cover; the store's limits are invariant; the store refines a specification over
      replacement by key; the header is the specified selection and order, and each
      cookie sent comes from a Set-Cookie of a response whose host covers it; the date
      parser reads back every HTTP date, and the calendar counts days.
    - Bodies: the cap holds, each outcome of [decompress] is classified by what the
      decoders themselves deliver, layer by layer ([reading], [peeled], written apart
      from the code), and encoded bodies come back under any reads a decoder makes.
    - HTTP/2: frames and probes parse back to what was asked for under an RFC 9113
      reader; Huffman decoding is exactly the inverse of encoding; header blocks
      round-trip through encoder and decoder; the decoder survives every input and keeps
      its table bound; against a grammar written from RFC 7541 it accepts every block
      with the RFC's fields and table, but for the departures that the theorem states
      (a lowered table size cannot be raised again, updates are taken anywhere in a
      block, bits of over-long integers are lost), and refuses the rest ([HpackRfc]).
    - Batches: slot spacing and aggregate rate of the limiter under all
      interleavings; either driver, under a limiter or not, terminates, returns every
      result and paces every start ([Paced]); with the real client every request of a
      batch meets what is shown of [send] ([Whole]).
    - Proxies: a SOCKS5 tunnel starts exactly after the reply, the CONNECT verdict is
      independent of chunking and accepts only what is read as status 200, proxy URLs
      parse back; NO_PROXY matching meets its
      declarative specification.
    - Requests, responses, raw connections: headers (through [HeaderMap], the contract
      of http's map: lower-case names, the values of a name in order), sanitising,
      back-off, multipart bodies that any reader of the format takes apart, cached
      views that agree with the uncached ones; a raw connection goes where the URL and
      the proxy settings say and is a transparent byte stream from then on; the JSON of
      a response meets one schema.
    - Connections ([Connector], [SharedCache]): a connector call does to the shared
      slots exactly what [Conn] says, and however calls interleave, an entry keeps its
      own TLS settings and reports only peers and certificates of its own mode; where
      the OpenSSL providers load, locks and providers never show, and where they do not,
      a client panics once and then reports its poisoned lock ([Process]).
    - Python: [Headers] objects refine a map from case-folded names; a rate limit paces
      all that is started through an object ([Blast]); batches agree with single
      requests; streams are handed out whole, in chunks; response objects keep their
      identity and the received data; encoder and Decoder objects round-trip.
    - Mock: no handler is lost, the first unused match answers, redirects end within
      their limit, a batch answers what is to be intercepted and passes on the rest, or
      drops what it cannot pass on.  The handlers' mutex is modelled apart from the
      picking ([lock_step]): it excludes, and it can deadlock with the interpreter lock.
    - Command line: what is printed, where, in which order, debug lines included, and
      the exit code, against an interface ([CliClient]) that the real client implements.

    ** Fuel

    Every fuel is enough and shown to be: [loop_fuel] is [max_redirects + 1], running
    out would be a panic and [send_returns_good] excludes it; [read_to_end] needs one
    round per byte of its limit ([read_to_end_fuel]); the CONNECT reader one per byte
    of its 8 KB buffer; the HPACK decoder one per byte of the block
    ([decoder_invariant] says the result is never the exhausted one); [mock_fuel] is
    two more than the redirect limit ([mock_request] excludes the panic); chunks and
    mocked batches need one round per item and the theorems say how many; the limiter
    and the drivers are relations and need none.

    ** Parameters

    Code outside the repository is an argument of the definitions that use it: the
    Public Suffix List ([domain_str]), [http::Uri] parsing and the request builder's
    checks ([parse_uri], [builder_error]), OpenSSL's refusals ([refuses]), hyper and
    the network ([Env]), the decoders of flate2 and brotli ([Read], [new_decoder]),
    digests, the header map of the http crate ([HeaderMap]), the JSON printer, the clock, the file system and environment variables
    ([system]), and the Python interpreter: conversions, callables and modules
    ([Python], [MockPython], [Interpreter]).  The hypotheses on them are named ([third_party],
    [delivers], [encoder_law], ...), state documented behaviour, and are discharged
    for concrete instances in the witnesses.

    ** What is not modelled

    The asyncio bridge of PyO3; clap's parsing and help; build.rs and the module
    declarations of lib.rs and h2/mod.rs; attribute getters of mock.rs that copy a
    field; the OpenSSL providers beyond [ensure_legacy_provider], so what is shown of
    [send] is of a process where they load (what happens where they do not is in
    [Process]); hyper's own pooling, beyond which connections it opens. Other calls on
    the same client are environment steps of [Client] ([env_others]), which
    [third_party] bounds by the steps of [SharedCache]. In [Blast] a batch's semaphore
    only delays its operations ([Dispatch] has it). The text of an error is modelled
    where it is ASCII formatting; Debug renderings of errors and lossy conversions are
    parameters. *)
From stdpp Require Export base tactics numbers list relations strings pretty.
From Stdlib Require Export ZArith Lia.

#[global] Open Scope Z_scope.

(** ** Byte strings *)

(** A byte string is a list of integers; [is_byte] bounds its elements.  Rust's
    [Vec<u8>], [&[u8]], [String] and [&str] (UTF-8) are all byte strings. *)
Abbreviation bytes := (list Z).

Definition is_byte (b : Z) : Prop := 0 ≤ b < 256.
Abbreviation wf_bytes := (Forall is_byte).

#[export] Instance is_byte_dec b : Decision (is_byte b).
Proof. unfold is_byte. apply _. Defined.

(** The bytes of an ASCII literal. *)
Definition ascii_byte (a : Ascii.ascii) : Z := Z.of_N (Ascii.N_of_ascii a).
Definition bs (s : string) : bytes := map ascii_byte (String.list_ascii_of_string s).
Definition ch (s : string) : Z := default 0 (head (bs s)).

(** Length as a machine integer ([usize]). *)
Definition zlen {A} (l : list A) : Z := Z.of_nat (length l).

(** ** Machine-width integers *)

Definition u8 (x : Z) : Z := x mod 2 ^ 8.
Definition u16 (x : Z) : Z := x mod 2 ^ 16.
Definition u32 (x : Z) : Z := x mod 2 ^ 32.
Definition u64 (x : Z) : Z := x mod 2 ^ 64.

Definition u16_max : Z := 2 ^ 16 - 1.
Definition u32_max : Z := 2 ^ 32 - 1.
Definition u64_max : Z := 2 ^ 64 - 1.
Definition u128_max : Z := 2 ^ 128 - 1.
Definition i64_max : Z := 2 ^ 63 - 1.
Definition i64_min : Z := - 2 ^ 63.

(** [to_be_bytes] of a [u32] and of a [u16]. *)
Definition be32 (x : Z) : bytes :=
  [u8 (Z.shiftr x 24); u8 (Z.shiftr x 16); u8 (Z.shiftr x 8); u8 x].
Definition be16 (x : Z) : bytes := [u8 (Z.shiftr x 8); u8 x].

(** The value of a big-endian byte string. *)
Definition be_value (l : bytes) : Z := fold_left (λ acc b, acc * 256 + b) l 0.

(** ** Outcomes *)

(** A computation of the program returns a value, returns an error, or panics
    (an [assert!], an [unwrap] of [None], a slice out of range). *)
Inductive exec (E A : Type) : Type :=
  | Ok (a : A)
  | Err (e : E)
  | Panic.
Arguments Ok {E A} _.
Arguments Err {E A} _.
Arguments Panic {E A}.

#[export] Instance exec_ret E : MRet (exec E) := λ _ a, Ok a.
#[export] Instance exec_bind E : MBind (exec E) := λ _ _ k m,
  match m with Ok a => k a | Err e => Err e | Panic => Panic end.
#[export] Instance exec_fmap E : FMap (exec E) := λ _ _ f m,
  match m with Ok a => Ok (f a) | Err e => Err e | Panic => Panic end.

#[export] Instance exec_eq_dec `{EqDecision E, EqDecision A} : EqDecision (exec E A).
Proof. solve_decision. Defined.

(** [ok_or], [map_err] and [Result::ok]. *)
Definition ok_or {E A} (o : option A) (e : E) : exec E A :=
  match o with Some a => Ok a | None => Err e end.
Definition map_err {E E' A} (f : E → E') (m : exec E A) : exec E' A :=
  match m with Ok a => Ok a | Err e => Err (f e) | Panic => Panic end.
Definition unwrap {E A} (o : option A) : exec E A :=
  match o with Some a => Ok a | None => Panic end.
Definition exec_ok {E A} (m : exec E A) : option A :=
  match m with Ok a => Some a | _ => None end.

Definition is_panic {E A} (m : exec E A) : bool :=
  match m with Panic => true | _ => false end.

Lemma bind_Ok {E A B} (m : exec E A) (k : A → exec E B) b :
  (m ≫= k) = Ok b ↔ ∃ a, m = Ok a ∧ k a = Ok b.
Proof. destruct m as [a| |]; cbn; split; naive_solver. Qed.

Lemma bind_Err {E A B} (m : exec E A) (k : A → exec E B) e :
  (m ≫= k) = Err e ↔ m = Err e ∨ ∃ a, m = Ok a ∧ k a = Err e.
Proof. destruct m; cbn; naive_solver. Qed.

(** ** Automation *)

Create HintDb wf discriminated.
#[export] Hint Constants Opaque : wf.
#[export] Hint Constructors Forall : wf.

Create Rewrite HintDb zlen.

(** Split every [bind] of a successful computation in the context. *)
Ltac inv_bind :=
  repeat match goal with
    | H : (_ ≫= _) = Ok _ |- _ =>
        let a := fresh "r" in let H1 := fresh H in
        apply bind_Ok in H as (a & H1 & H)
    | H : mret _ = Ok _ |- _ => unfold mret, exec_ret in H
    | H : Ok _ = Ok _ |- _ => injection H as H; subst
    | H : Err _ = Ok _ |- _ => discriminate H
    | H : Panic = Ok _ |- _ => discriminate H
    end.

(** Case analysis on every match or conditional of the goal. *)
Ltac split_matches := repeat (case_match; try done).

(** ** List lemmas *)

Lemma zlen_nonneg {A} (l : list A) : 0 ≤ zlen l.
Proof. unfold zlen. lia. Qed.
Lemma zlen_nil {A} : zlen (@nil A) = 0.
Proof. done. Qed.
Lemma zlen_cons {A} (x : A) l : zlen (x :: l) = 1 + zlen l.
Proof. unfold zlen. cbn [length]. lia. Qed.
Lemma zlen_app {A} (l k : list A) : zlen (l ++ k) = zlen l + zlen k.
Proof. unfold zlen. rewrite length_app. lia. Qed.
Lemma zlen_replicate {A} n (x : A) : zlen (replicate n x) = Z.of_nat n.
Proof. unfold zlen. by rewrite length_replicate. Qed.
Lemma zlen_0_inv {A} (l : list A) : zlen l = 0 → l = [].
Proof. destruct l; [done|]. rewrite zlen_cons. pose proof (zlen_nonneg l). lia. Qed.

#[export] Hint Rewrite @zlen_nil @zlen_cons @zlen_app @zlen_replicate : zlen.

Ltac simp_len := autorewrite with zlen in *.

Lemma take_app_exact {A} (l k : list A) n : n = length l → take n (l ++ k) = l.
Proof. intros ->. apply take_app_length. Qed.
Lemma drop_app_exact {A} (l k : list A) n : n = length l → drop n (l ++ k) = k.
Proof. intros ->. apply drop_app_length. Qed.

(** ** Byte lemmas *)

Lemma u8_byte x : is_byte (u8 x).
Proof. unfold is_byte, u8. apply Z.mod_pos_bound. lia. Qed.
Lemma u8_small x : is_byte x → u8 x = x.
Proof. apply Z.mod_small. Qed.
Lemma u32_small x : 0 ≤ x < 2 ^ 32 → u32 x = x.
Proof. apply Z.mod_small. Qed.
Lemma u32_range x : 0 ≤ u32 x < 2 ^ 32.
Proof. apply Z.mod_pos_bound. lia. Qed.
Lemma u64_small x : 0 ≤ x < 2 ^ 64 → u64 x = x.
Proof. apply Z.mod_small. Qed.

Lemma ascii_byte_wf a : is_byte (ascii_byte a).
Proof.
  unfold is_byte, ascii_byte. pose proof (Ascii.N_ascii_bounded a). lia.
Qed.
Lemma bs_wf s : wf_bytes (bs s).
Proof. unfold bs. apply Forall_map, Forall_true, ascii_byte_wf. Qed.

Lemma wf_bytes_app l k : wf_bytes l → wf_bytes k → wf_bytes (l ++ k).
Proof. intros. by apply Forall_app. Qed.
Lemma wf_bytes_replicate n b : is_byte b → wf_bytes (replicate n b).
Proof. intros. by apply Forall_replicate. Qed.
Lemma byte_0 : is_byte 0. Proof. done. Qed.

#[export] Hint Resolve u8_byte bs_wf wf_bytes_app wf_bytes_replicate byte_0 : wf.

Lemma be32_wf x : wf_bytes (be32 x).
Proof. unfold be32. auto with wf. Qed.
Lemma be16_wf x : wf_bytes (be16 x).
Proof. unfold be16. auto with wf. Qed.
#[export] Hint Resolve be32_wf be16_wf : wf.

Lemma u8_shiftr x k : 0 ≤ k → u8 (Z.shiftr x k) = x / 2 ^ k mod 256.
Proof. intros. unfold u8. by rewrite Z.shiftr_div_pow2. Qed.

Lemma be32_value x : 0 ≤ x < 2 ^ 32 → be_value (be32 x) = x.
Proof.
  intros. unfold be_value, be32. cbn [fold_left].
  rewrite !u8_shiftr by lia. unfold u8. change (2 ^ 8) with 256.
  Z.div_mod_to_equations. lia.
Qed.
Lemma be16_value x : 0 ≤ x < 2 ^ 16 → be_value (be16 x) = x.
Proof.
  intros. unfold be_value, be16. cbn [fold_left].
  rewrite !u8_shiftr by lia. unfold u8. change (2 ^ 8) with 256.
  Z.div_mod_to_equations. lia.
Qed.

Lemma land_ones_low x n : 0 ≤ n → Z.land x (2 ^ n - 1) = x mod 2 ^ n.
Proof. intros. rewrite <- Z.land_ones by done. f_equal. rewrite Z.ones_equiv. lia. Qed.

Lemma be32_length x : length (be32 x) = 4%nat.
Proof. done. Qed.

(** A boolean fact about bytes is established by evaluating it on all of them. *)
Lemma byte_forall (P : Z → bool) :
  forallb P (map Z.of_nat (seq 0 256)) = true → ∀ b, is_byte b → P b = true.
Proof.
  intros H b Hb. rewrite forallb_forall in H. apply H, in_map_iff.
  exists (Z.to_nat b). unfold is_byte in Hb. split; [lia|]. apply in_seq. lia.
Qed.

(** Reading at the end of a prefix. *)
Lemma nth_zlen_app {A} (pre l : list A) x d : nth (Z.to_nat (zlen pre)) (pre ++ x :: l) d = x.
Proof. unfold zlen. rewrite Nat2Z.id. apply nth_middle. Qed.
Lemma drop_zlen_app {A} (pre l : list A) : drop (Z.to_nat (zlen pre)) (pre ++ l) = l.
Proof. apply drop_app_exact. unfold zlen. lia. Qed.
Lemma take_zlen_app {A} (pre l : list A) : take (Z.to_nat (zlen pre)) (pre ++ l) = pre.
Proof. apply take_app_exact. unfold zlen. lia. Qed.

(** Rule induction for an invariant of the reachable states. *)
Lemma rtc_invariant {A} (R : A → A → Prop) (P : A → Prop) s0 s :
  P s0 → (∀ a b, R a b → P a → P b) → rtc R s0 s → P s.
Proof. intros H0 Hstep Hr. revert H0. induction Hr; eauto. Qed.
