(* ===== verification/Frame.v ===== *)
(** * HTTP/2 frame builders (src/h2/frame.rs)

    Every builder of the file as an executable definition, a reference parser of
    the frame layout of RFC 9113 and of the payloads, and the theorems that a
    built frame parses back to exactly the arguments it was built from. *)
From S2P Require Import Prelude.

(** ** Constants *)

Definition PREFACE : bytes :=
  bs "PRI * HTTP/2.0" ++ [13; 10; 13; 10] ++ bs "SM" ++ [13; 10; 13; 10].

Definition FRAME_DATA : Z := 0x00.
Definition FRAME_HEADERS : Z := 0x01.
Definition FRAME_PRIORITY : Z := 0x02.
Definition FRAME_RST_STREAM : Z := 0x03.
Definition FRAME_SETTINGS : Z := 0x04.
Definition FRAME_PUSH_PROMISE : Z := 0x05.
Definition FRAME_PING : Z := 0x06.
Definition FRAME_GOAWAY : Z := 0x07.
Definition FRAME_WINDOW_UPDATE : Z := 0x08.
Definition FRAME_CONTINUATION : Z := 0x09.

Definition FLAG_END_STREAM : Z := 0x01.
Definition FLAG_ACK : Z := 0x01.
Definition FLAG_END_HEADERS : Z := 0x04.
Definition FLAG_PADDED : Z := 0x08.
Definition FLAG_PRIORITY : Z := 0x20.

Definition SETTINGS_HEADER_TABLE_SIZE : Z := 0x01.
Definition SETTINGS_ENABLE_PUSH : Z := 0x02.
Definition SETTINGS_MAX_CONCURRENT_STREAMS : Z := 0x03.
Definition SETTINGS_INITIAL_WINDOW_SIZE : Z := 0x04.
Definition SETTINGS_MAX_FRAME_SIZE : Z := 0x05.
Definition SETTINGS_MAX_HEADER_LIST_SIZE : Z := 0x06.

(** ** Builders *)

(** The [assert!] on the length is the only panic of the file. *)
Definition build_raw_frame {E} (frame_type flags stream_id : Z) (payload : bytes) : exec E bytes :=
  let len := zlen payload in
  if bool_decide (len < Z.shiftl 1 24) then
    let sid := Z.land stream_id 0x7FFFFFFF in
    Ok ([u8 (Z.land (Z.shiftr len 16) 0xFF); u8 (Z.land (Z.shiftr len 8) 0xFF); u8 (Z.land len 0xFF)]
        ++ [frame_type; flags]
        ++ [u8 (Z.land (Z.shiftr sid 24) 0xFF); u8 (Z.land (Z.shiftr sid 16) 0xFF);
            u8 (Z.land (Z.shiftr sid 8) 0xFF); u8 (Z.land sid 0xFF)]
        ++ payload)
  else Panic.

Definition settings_payload (settings : list (Z * Z)) : bytes :=
  flat_map (λ '(id, val), [u8 (Z.shiftr id 8); u8 id] ++ be32 val) settings.

Definition build_settings_frame {E} (settings : list (Z * Z)) (ack : bool) : exec E bytes :=
  let flags := if ack then FLAG_ACK else 0 in
  build_raw_frame FRAME_SETTINGS flags 0 (settings_payload settings).

Record HeadersFrameOpts := {
  header_block : bytes;
  stream_id : Z;
  end_stream : bool;
  end_headers : bool;
  padding : Z;
  priority : option (Z * Z * bool)
}.

(** The dependency word shared by HEADERS and PRIORITY. *)
Definition dep_word (dep : Z) (exclusive : bool) : Z :=
  let w := Z.land dep 0x7FFFFFFF in
  if exclusive then Z.lor w 0x80000000 else w.

Definition headers_payload (opts : HeadersFrameOpts) : bytes :=
  (if bool_decide (opts.(padding) > 0) then [opts.(padding)] else [])
  ++ (match opts.(priority) with
      | Some (dep, weight, exclusive) => be32 (dep_word dep exclusive) ++ [weight]
      | None => []
      end)
  ++ opts.(header_block)
  ++ replicate (Z.to_nat opts.(padding)) 0.

Definition headers_flags (opts : HeadersFrameOpts) : Z :=
  let f0 := 0 in
  let f1 := if opts.(end_stream) then Z.lor f0 FLAG_END_STREAM else f0 in
  let f2 := if opts.(end_headers) then Z.lor f1 FLAG_END_HEADERS else f1 in
  let f3 := if bool_decide (opts.(padding) > 0) then Z.lor f2 FLAG_PADDED else f2 in
  if opts.(priority) then Z.lor f3 FLAG_PRIORITY else f3.

Definition build_headers_frame {E} (opts : HeadersFrameOpts) : exec E bytes :=
  build_raw_frame FRAME_HEADERS (headers_flags opts) opts.(stream_id) (headers_payload opts).

Definition build_continuation_frame {E} (header_block : bytes) (stream_id : Z) (end_headers : bool)
    : exec E bytes :=
  let flags := if end_headers then FLAG_END_HEADERS else 0 in
  build_raw_frame FRAME_CONTINUATION flags stream_id header_block.

Definition build_data_frame {E} (data : bytes) (stream_id : Z) (end_stream : bool) (padding : Z)
    : exec E bytes :=
  let payload :=
    (if bool_decide (padding > 0) then [padding] else []) ++ data
      ++ replicate (Z.to_nat padding) 0 in
  let flags := if end_stream then Z.lor 0 FLAG_END_STREAM else 0 in
  let flags := if bool_decide (padding > 0) then Z.lor flags FLAG_PADDED else flags in
  build_raw_frame FRAME_DATA flags stream_id payload.

Definition build_window_update_frame {E} (increment stream_id : Z) : exec E bytes :=
  build_raw_frame FRAME_WINDOW_UPDATE 0 stream_id (be32 increment).

(** [data] is a [[u8; 8]]. *)
Definition build_ping_frame {E} (data : bytes) (ack : bool) : exec E bytes :=
  let flags := if ack then FLAG_ACK else 0 in
  build_raw_frame FRAME_PING flags 0 data.

Definition build_rst_stream_frame {E} (stream_id error_code : Z) : exec E bytes :=
  build_raw_frame FRAME_RST_STREAM 0 stream_id (be32 error_code).

Definition build_goaway_frame {E} (last_stream_id error_code : Z) (debug_data : bytes) : exec E bytes :=
  build_raw_frame FRAME_GOAWAY 0 0
    (be32 (Z.land last_stream_id 0x7FFFFFFF) ++ be32 error_code ++ debug_data).

Definition build_priority_frame {E} (stream_id dep_stream weight : Z) (exclusive : bool) : exec E bytes :=
  build_raw_frame FRAME_PRIORITY 0 stream_id (be32 (dep_word dep_stream exclusive) ++ [weight]).

(** ** Reference parser (RFC 9113 section 4.1 and the payload layouts of section 6) *)

Record frame := Frame {
  f_type : Z;
  f_flags : Z;
  f_reserved : bool;
  f_stream : Z;
  f_payload : bytes
}.

#[export] Instance frame_eq_dec : EqDecision frame.
Proof. solve_decision. Defined.

Definition parse_frame (b : bytes) : option (frame * bytes) :=
  match b with
  | l2 :: l1 :: l0 :: t :: fl :: s3 :: s2 :: s1 :: s0 :: rest =>
      let len := be_value [l2; l1; l0] in
      let word := be_value [s3; s2; s1; s0] in
      if bool_decide (len ≤ zlen rest) then
        Some (Frame t fl (Z.testbit word 31) (word mod 2 ^ 31) (take (Z.to_nat len) rest),
              drop (Z.to_nat len) rest)
      else None
  | _ => None
  end.

(** Remove the padding announced by the PADDED flag. *)
Definition unpad (flags : Z) (payload : bytes) : option bytes :=
  if Z.testbit flags 3 then
    match payload with
    | pad :: rest =>
        if bool_decide (pad ≤ zlen rest) then Some (take (length rest - Z.to_nat pad) rest) else None
    | [] => None
    end
  else Some payload.

(** Stream dependency word: the E bit and the 31-bit stream. *)
Definition parse_dep (w : bytes) : Z * bool :=
  (be_value w mod 2 ^ 31, Z.testbit (be_value w) 31).

Definition parse_headers_payload (flags : Z) (payload : bytes)
    : option (option (Z * Z * bool) * bytes) :=
  body ← unpad flags payload;
  if Z.testbit flags 5 then
    match body with
    | a :: b :: c :: d :: weight :: block =>
        let '(dep, excl) := parse_dep [a; b; c; d] in Some (Some (dep, weight, excl), block)
    | _ => None
    end
  else Some (None, body).

Fixpoint parse_settings (payload : bytes) : option (list (Z * Z)) :=
  match payload with
  | [] => Some []
  | i1 :: i0 :: a :: b :: c :: d :: rest =>
      l ← parse_settings rest; Some ((be_value [i1; i0], be_value [a; b; c; d]) :: l)
  | _ => None
  end.

(** ** The frame header *)

Lemma land_ff x : u8 (Z.land x 0xFF) = x mod 256.
Proof.
  unfold u8. change 0xFF with (2 ^ 8 - 1). rewrite land_ones_low by lia.
  by rewrite Z.mod_mod.
Qed.

Lemma land_31 x : Z.land x 0x7FFFFFFF = x mod 2 ^ 31.
Proof. change 0x7FFFFFFF with (2 ^ 31 - 1). by rewrite land_ones_low. Qed.

Lemma be24_value len : 0 ≤ len < 2 ^ 24 →
  be_value [u8 (Z.land (Z.shiftr len 16) 0xFF); u8 (Z.land (Z.shiftr len 8) 0xFF);
            u8 (Z.land len 0xFF)] = len.
Proof.
  intros. rewrite !land_ff, !Z.shiftr_div_pow2 by lia. unfold be_value. cbn [fold_left].
  change (2 ^ 16) with 65536. change (2 ^ 8) with 256. Z.div_mod_to_equations. lia.
Qed.

Lemma be32_land_value x : 0 ≤ x < 2 ^ 32 →
  be_value [u8 (Z.land (Z.shiftr x 24) 0xFF); u8 (Z.land (Z.shiftr x 16) 0xFF);
            u8 (Z.land (Z.shiftr x 8) 0xFF); u8 (Z.land x 0xFF)] = x.
Proof.
  intros. rewrite !land_ff, !Z.shiftr_div_pow2 by lia. unfold be_value. cbn [fold_left].
  change (2 ^ 24) with 16777216. change (2 ^ 16) with 65536. change (2 ^ 8) with 256.
  Z.div_mod_to_equations. lia.
Qed.

Lemma testbit_31_small x : 0 ≤ x < 2 ^ 31 → Z.testbit x 31 = false.
Proof. intros. apply Z.bits_above_log2; [lia|]. destruct (decide (x = 0)); [by subst|].
  apply Z.log2_lt_pow2; lia. Qed.

Lemma parse_dep_word dep exclusive :
  parse_dep (be32 (dep_word dep exclusive)) = (dep mod 2 ^ 31, exclusive).
Proof.
  unfold dep_word, parse_dep. rewrite land_31.
  pose proof (Z.mod_pos_bound dep (2 ^ 31)) as Hm.
  assert (0 ≤ dep mod 2 ^ 31 < 2 ^ 31) as Hr by lia. clear Hm.
  destruct exclusive.
  - assert (Z.lor (dep mod 2 ^ 31) 0x80000000 = dep mod 2 ^ 31 + 2 ^ 31) as ->.
    { change 0x80000000 with (2 ^ 31). symmetry.
      rewrite <- Z.lxor_lor, Z.add_nocarry_lxor; try done.
      all: apply Z.bits_inj'; intros n Hn; rewrite Z.land_spec, Z.bits_0, Z.pow2_bits_eqb by lia;
        destruct (Z.eqb_spec 31 n) as [<-|]; [by rewrite testbit_31_small|apply andb_false_r]. }
    rewrite be32_value by lia. f_equal; [Z.div_mod_to_equations; lia|].
    rewrite Z.testbit_odd, Z.shiftr_div_pow2 by lia.
    replace ((dep mod 2 ^ 31 + 2 ^ 31) / 2 ^ 31) with 1; [done|].
    Z.div_mod_to_equations. lia.
  - rewrite be32_value by lia. f_equal; [by rewrite Z.mod_mod|by apply testbit_31_small].
Qed.

(** A builder panics exactly when the payload does not fit the 24-bit length
    field, and otherwise writes a frame that parses back to its arguments. *)
Lemma raw_frame_ok {E} t fl sid payload (out : bytes) :
  @build_raw_frame E t fl sid payload = Ok out →
  zlen payload < 2 ^ 24 ∧
  ∀ rest, parse_frame (out ++ rest) = Some (Frame t fl false (sid mod 2 ^ 31) payload, rest).
Proof.
  unfold build_raw_frame. change (Z.shiftl 1 24) with (2 ^ 24).
  case_bool_decide as Hlen; [|done]. intros [= <-]. split; [done|]. intros rest.
  pose proof (zlen_nonneg payload) as Hp. rewrite land_31.
  pose proof (Z.mod_pos_bound sid (2 ^ 31) ltac:(lia)) as Hs.
  cbn [app parse_frame]. rewrite be24_value, be32_land_value by lia.
  rewrite bool_decide_true by (simp_len; pose proof (zlen_nonneg rest); lia).
  rewrite take_app_exact, drop_app_exact by (unfold zlen; lia).
  by rewrite testbit_31_small, Z.mod_mod by lia.
Qed.

Lemma raw_frame_total {E} t fl sid payload :
  zlen payload < 2 ^ 24 → ∃ out, @build_raw_frame E t fl sid payload = Ok out.
Proof.
  intros H. unfold build_raw_frame. change (Z.shiftl 1 24) with (2 ^ 24).
  rewrite bool_decide_true by done. eauto.
Qed.

(** ** Payloads *)

Lemma unpad_padded flags pad l :
  Z.testbit flags 3 = bool_decide (pad > 0) → 0 ≤ pad →
  unpad flags ((if bool_decide (pad > 0) then [pad] else []) ++ l ++ replicate (Z.to_nat pad) 0)
  = Some l.
Proof.
  intros Hf Hp. unfold unpad. rewrite Hf. case_bool_decide.
  - cbn [app]. rewrite bool_decide_true.
    + rewrite length_app, length_replicate. f_equal. apply take_app_exact. lia.
    + simp_len. pose proof (zlen_nonneg l). lia.
  - replace pad with 0 by lia. cbn [app Z.to_nat replicate]. by rewrite app_nil_r.
Qed.

Lemma headers_flags_bits opts :
  Z.testbit (headers_flags opts) 0 = opts.(end_stream) ∧
  Z.testbit (headers_flags opts) 2 = opts.(end_headers) ∧
  Z.testbit (headers_flags opts) 3 = bool_decide (opts.(padding) > 0) ∧
  Z.testbit (headers_flags opts) 5 = bool_decide (is_Some opts.(priority)).
Proof.
  unfold headers_flags. destruct opts.(end_stream), opts.(end_headers);
    case_bool_decide; destruct opts.(priority) as [?|]; done.
Qed.

(** What [priority] becomes on the wire: the reserved bit of the dependency is dropped. *)
Definition norm_priority (p : option (Z * Z * bool)) : option (Z * Z * bool) :=
  (λ '(dep, weight, excl), (dep mod 2 ^ 31, weight, excl)) <$> p.

Lemma parse_headers_payload_ok opts :
  0 ≤ opts.(padding) →
  parse_headers_payload (headers_flags opts) (headers_payload opts)
  = Some (norm_priority opts.(priority), opts.(header_block)).
Proof.
  intros Hp. destruct (headers_flags_bits opts) as (_ & _ & H3 & H5).
  unfold parse_headers_payload, headers_payload. rewrite (assoc_L (++) _ opts.(header_block)).
  rewrite unpad_padded by done. cbn [mbind option_bind]. rewrite H5.
  destruct opts.(priority) as [[[dep weight] excl]|]; [|done].
  cbn [norm_priority fmap option_fmap option_map]. unfold be32. cbn -[parse_dep dep_word].
  change [u8 _; u8 _; u8 _; u8 _] with (be32 (dep_word dep excl)).
  by rewrite parse_dep_word.
Qed.

Lemma settings_entry id val rest :
  0 ≤ id < 2 ^ 16 → 0 ≤ val < 2 ^ 32 →
  parse_settings (([u8 (Z.shiftr id 8); u8 id] ++ be32 val) ++ rest)
  = l ← parse_settings rest; Some ((id, val) :: l).
Proof.
  intros Hid Hval. unfold be32. cbn -[be_value].
  change [u8 _; u8 _; u8 _; u8 _] with (be32 val).
  change [u8 _; u8 _] with (be16 id). by rewrite be32_value, be16_value.
Qed.

Lemma parse_settings_payload settings :
  Forall (λ '(id, val), 0 ≤ id < 2 ^ 16 ∧ 0 ≤ val < 2 ^ 32) settings →
  parse_settings (settings_payload settings) = Some settings.
Proof.
  induction 1 as [|[id val] l [Hid Hval] _ IH]; [done|].
  unfold settings_payload. cbn [flat_map]. rewrite settings_entry by done.
  fold (settings_payload l). by rewrite IH.
Qed.

Lemma settings_payload_length settings : zlen (settings_payload settings) = 6 * zlen settings.
Proof.
  induction settings as [|[id val] l IH]; [done|]. unfold settings_payload. cbn [flat_map].
  fold (settings_payload l). unfold be32. simp_len. lia.
Qed.

(** ** Properties *)

(** For every type, flags, stream identifier and payload, [build_raw_frame]
    panics exactly when the payload does not fit the 24-bit length field, and
    otherwise writes bytes that the RFC 9113 parser splits back into the same
    type, flags and payload, with the reserved bit clear and the stream
    identifier reduced to 31 bits, leaving whatever follows untouched. *)
Theorem raw_frame_roundtrip (t fl sid : Z) (payload rest : bytes) :
  match @build_raw_frame Empty_set t fl sid payload with
  | Ok out => zlen payload < 2 ^ 24 ∧
              parse_frame (out ++ rest) = Some (Frame t fl false (sid mod 2 ^ 31) payload, rest)
  | Err _ => False
  | Panic => 2 ^ 24 ≤ zlen payload
  end.
Proof.
  destruct (build_raw_frame t fl sid payload) as [out|[]|] eqn:Hb.
  - apply raw_frame_ok in Hb as [Hl Hp]. auto.
  - destruct (decide (zlen payload < 2 ^ 24)) as [Hl|]; [|lia].
    destruct (@raw_frame_total Empty_set t fl sid _ Hl) as [out Ho]. congruence.
Qed.

(** A HEADERS frame built from any options whose padding is a byte
    carries exactly the options: the END_STREAM and END_HEADERS bits, the
    priority fields (dependency reduced to 31 bits) and the header block are
    what an RFC 9113 receiver reads after removing the padding. *)
Theorem headers_frame_roundtrip (opts : HeadersFrameOpts) (out rest : bytes) :
  is_byte opts.(padding) →
  @build_headers_frame Empty_set opts = Ok out →
  ∃ fr, parse_frame (out ++ rest) = Some (fr, rest) ∧
    fr.(f_type) = FRAME_HEADERS ∧ fr.(f_reserved) = false ∧
    fr.(f_stream) = opts.(stream_id) mod 2 ^ 31 ∧
    Z.testbit fr.(f_flags) 0 = opts.(end_stream) ∧
    Z.testbit fr.(f_flags) 2 = opts.(end_headers) ∧
    parse_headers_payload fr.(f_flags) fr.(f_payload)
      = Some (norm_priority opts.(priority), opts.(header_block)).
Proof.
  intros [Hpad _] Hb. apply raw_frame_ok in Hb as [_ Hp].
  destruct (headers_flags_bits opts) as (H0 & H2 & _).
  eexists. rewrite Hp. cbn. repeat split; try done. by apply parse_headers_payload_ok.
Qed.

Lemma headers_frame_roundtrip_witness :
  ∃ fr, parse_frame [0; 0; 10; 1; 45; 0; 0; 0; 3; 2; 128; 0; 0; 7; 16; 130; 132; 0; 0; 9; 9]
          = Some (fr, [9; 9]) ∧
    fr.(f_type) = FRAME_HEADERS ∧ fr.(f_reserved) = false ∧ fr.(f_stream) = 3 mod 2 ^ 31 ∧
    Z.testbit fr.(f_flags) 0 = true ∧ Z.testbit fr.(f_flags) 2 = true ∧
    parse_headers_payload fr.(f_flags) fr.(f_payload)
      = Some (norm_priority (Some (7, 16, true)), [130; 132]).
Proof.
  apply (headers_frame_roundtrip
    {| header_block := [130; 132]; stream_id := 3; end_stream := true; end_headers := true;
       padding := 2; priority := Some (7, 16, true) |}
    [0; 0; 10; 1; 45; 0; 0; 0; 3; 2; 128; 0; 0; 7; 16; 130; 132; 0; 0] [9; 9]).
  - split; [discriminate|reflexivity].
  - vm_compute. reflexivity.
Defined.

(** A DATA frame with any byte of padding carries exactly the data and
    the END_STREAM bit. *)
Theorem data_frame_roundtrip (data : bytes) (sid pad : Z) (es : bool) (out rest : bytes) :
  is_byte pad →
  @build_data_frame Empty_set data sid es pad = Ok out →
  ∃ fr, parse_frame (out ++ rest) = Some (fr, rest) ∧
    fr.(f_type) = FRAME_DATA ∧ fr.(f_stream) = sid mod 2 ^ 31 ∧
    Z.testbit fr.(f_flags) 0 = es ∧ unpad fr.(f_flags) fr.(f_payload) = Some data.
Proof.
  intros [Hpad _] Hb. apply raw_frame_ok in Hb as [_ Hp].
  eexists. rewrite Hp. cbn [f_type f_stream f_flags f_payload]. repeat split; try done.
  - by destruct es; case_bool_decide.
  - apply unpad_padded; [|done]. by destruct es; case_bool_decide.
Qed.

Lemma data_frame_roundtrip_witness :
  ∃ fr, parse_frame [0; 0; 5; 0; 9; 0; 0; 0; 1; 2; 104; 105; 0; 0] = Some (fr, []) ∧
    fr.(f_type) = FRAME_DATA ∧ fr.(f_stream) = 1 mod 2 ^ 31 ∧
    Z.testbit fr.(f_flags) 0 = true ∧ unpad fr.(f_flags) fr.(f_payload) = Some [104; 105].
Proof.
  apply (data_frame_roundtrip [104; 105] 1 2 true
    [0; 0; 5; 0; 9; 0; 0; 0; 1; 2; 104; 105; 0; 0] []).
  - split; [discriminate|reflexivity].
  - vm_compute. reflexivity.
Defined.

(** Every list of (u16, u32) settings that fits one frame is read back
    from the SETTINGS frame in the same order, on stream 0, six bytes each. *)
Theorem settings_frame_roundtrip (settings : list (Z * Z)) (ack : bool) (rest : bytes) :
  Forall (λ '(id, val), 0 ≤ id < 2 ^ 16 ∧ 0 ≤ val < 2 ^ 32) settings →
  6 * zlen settings < 2 ^ 24 →
  ∃ out fr, @build_settings_frame Empty_set settings ack = Ok out ∧
    parse_frame (out ++ rest) = Some (fr, rest) ∧
    fr.(f_type) = FRAME_SETTINGS ∧ fr.(f_stream) = 0 ∧ Z.testbit fr.(f_flags) 0 = ack ∧
    parse_settings fr.(f_payload) = Some settings.
Proof.
  intros Hs Hl. destruct (@raw_frame_total Empty_set FRAME_SETTINGS (if ack then FLAG_ACK else 0) 0
    (settings_payload settings)) as [out Ho]; [by rewrite settings_payload_length|].
  exists out. pose proof (raw_frame_ok _ _ _ _ _ Ho) as [_ Hp].
  eexists. split; [exact Ho|]. split; [apply Hp|]. cbn. repeat split; [by destruct ack|].
  by apply parse_settings_payload.
Qed.

Lemma settings_frame_roundtrip_witness :
  ∃ out fr, @build_settings_frame Empty_set [(1, 4096); (5, 16384)] false = Ok out ∧
    parse_frame (out ++ []) = Some (fr, []) ∧
    fr.(f_type) = FRAME_SETTINGS ∧ fr.(f_stream) = 0 ∧ Z.testbit fr.(f_flags) 0 = false ∧
    parse_settings fr.(f_payload) = Some [(1, 4096); (5, 16384)].
Proof.
  apply (settings_frame_roundtrip [(1, 4096); (5, 16384)] false []).
  - repeat constructor; lia.
  - vm_compute. reflexivity.
Defined.

(** The control frames carry their arguments: PING its eight bytes and ACK
    bit, WINDOW_UPDATE, RST_STREAM and GOAWAY their 32-bit words (the last
    stream reduced to 31 bits) and PRIORITY its dependency, exclusive bit and
    weight, each on the stream it belongs to. *)
Theorem control_frames_roundtrip (data debug rest : bytes) (ack excl : bool) (sid word last dep weight : Z) :
  0 ≤ word < 2 ^ 32 → zlen data = 8 → zlen debug < 2 ^ 24 - 8 →
  (∃ out, @build_ping_frame Empty_set data ack = Ok out ∧
     parse_frame (out ++ rest) = Some (Frame FRAME_PING (if ack then FLAG_ACK else 0) false 0 data, rest)) ∧
  (∃ out fr, @build_window_update_frame Empty_set word sid = Ok out ∧ parse_frame (out ++ rest) = Some (fr, rest) ∧
     f_type fr = FRAME_WINDOW_UPDATE ∧ f_stream fr = sid mod 2 ^ 31 ∧ be_value (f_payload fr) = word) ∧
  (∃ out fr, @build_rst_stream_frame Empty_set sid word = Ok out ∧ parse_frame (out ++ rest) = Some (fr, rest) ∧
     f_type fr = FRAME_RST_STREAM ∧ f_stream fr = sid mod 2 ^ 31 ∧ be_value (f_payload fr) = word) ∧
  (∃ out fr, @build_goaway_frame Empty_set last word debug = Ok out ∧ parse_frame (out ++ rest) = Some (fr, rest) ∧
     f_type fr = FRAME_GOAWAY ∧ f_stream fr = 0 ∧ be_value (take 4 (f_payload fr)) = last mod 2 ^ 31 ∧
     be_value (take 4 (drop 4 (f_payload fr))) = word ∧ drop 8 (f_payload fr) = debug) ∧
  (∃ out fr, @build_priority_frame Empty_set sid dep weight excl = Ok out ∧ parse_frame (out ++ rest) = Some (fr, rest) ∧
     f_type fr = FRAME_PRIORITY ∧ f_stream fr = sid mod 2 ^ 31 ∧
     parse_dep (take 4 (f_payload fr)) = (dep mod 2 ^ 31, excl) ∧ drop 4 (f_payload fr) = [weight]).
Proof.
  intros Hw Hd Hg. pose proof (zlen_nonneg debug).
  assert (∀ t fl s p, zlen p < 2 ^ 24 → ∃ out, @build_raw_frame Empty_set t fl s p = Ok out ∧
    parse_frame (out ++ rest) = Some (Frame t fl false (s mod 2 ^ 31) p, rest)) as Hraw.
  { intros t fl s p Hp. destruct (@raw_frame_total Empty_set t fl s p Hp) as [out Ho]. exists out.
    split; [done|]. by apply raw_frame_ok in Ho as [_ ?]. }
  pose proof (Z.mod_pos_bound last (2 ^ 31) ltac:(lia)).
  split_and!.
  - unfold build_ping_frame. apply (Hraw _ _ 0). lia.
  - edestruct (Hraw FRAME_WINDOW_UPDATE 0 sid (be32 word)) as (out & Ho & Hp); [done|].
    exists out. eexists. split_and!; [exact Ho|exact Hp|done..|by apply be32_value].
  - edestruct (Hraw FRAME_RST_STREAM 0 sid (be32 word)) as (out & Ho & Hp); [done|].
    exists out. eexists. split_and!; [exact Ho|exact Hp|done..|by apply be32_value].
  - edestruct (Hraw FRAME_GOAWAY 0 0 (be32 (Z.land last 0x7FFFFFFF) ++ be32 word ++ debug)) as (out & Ho & Hp).
    { unfold be32. simp_len. lia. }
    exists out. eexists. split_and!; [exact Ho|exact Hp|done..| | |done].
    + cbn [f_payload]. rewrite take_app_exact by done. rewrite land_31. apply be32_value. lia.
    + cbn [f_payload]. rewrite drop_app_exact, take_app_exact by done. by apply be32_value.
  - edestruct (Hraw FRAME_PRIORITY 0 sid (be32 (dep_word dep excl) ++ [weight])) as (out & Ho & Hp); [done|].
    exists out. eexists. split_and!; [exact Ho|exact Hp|done..| |done].
    cbn [f_payload]. rewrite take_app_exact by done. apply parse_dep_word.
Qed.

Lemma control_frames_roundtrip_witness :
  (0 ≤ 65535 < 2 ^ 32) ∧ ∃ out, @build_ping_frame Empty_set (bs "pingpong") true = Ok out ∧
     parse_frame (out ++ []) = Some (Frame FRAME_PING FLAG_ACK false 0 (bs "pingpong"), []).
Proof.
  split; [lia|]. apply (control_frames_roundtrip (bs "pingpong") [] [] true false 1 65535 5 0 16);
    [lia|reflexivity|reflexivity].
Defined.
