(* ===== verification/Huffman.v ===== *)
(** * HPACK Huffman coding (src/h2/huffman.rs)

    The code table, the encoder with its 64-bit buffer, the decode tree built by
    [insert_symbol] and the decoder that walks it bit by bit.  The theorems state
    that decoding is exactly the inverse of encoding. *)
From S2P Require Import Prelude.

(** ** The code table of RFC 7541 Appendix B: (code, code length) *)

Definition HUFFMAN_TABLE : list (Z * Z) := [
  (0x1ff8, 13); (0x7fffd8, 23); (0xfffffe2, 28); (0xfffffe3, 28);
  (0xfffffe4, 28); (0xfffffe5, 28); (0xfffffe6, 28); (0xfffffe7, 28);
  (0xfffffe8, 28); (0xffffea, 24); (0x3ffffffc, 30); (0xfffffe9, 28);
  (0xfffffea, 28); (0x3ffffffd, 30); (0xfffffeb, 28); (0xfffffec, 28);
  (0xfffffed, 28); (0xfffffee, 28); (0xfffffef, 28); (0xffffff0, 28);
  (0xffffff1, 28); (0xffffff2, 28); (0x3ffffffe, 30); (0xffffff3, 28);
  (0xffffff4, 28); (0xffffff5, 28); (0xffffff6, 28); (0xffffff7, 28);
  (0xffffff8, 28); (0xffffff9, 28); (0xffffffa, 28); (0xffffffb, 28);
  (0x14, 6); (0x3f8, 10); (0x3f9, 10); (0xffa, 12);
  (0x1ff9, 13); (0x15, 6); (0xf8, 8); (0x7fa, 11);
  (0x3fa, 10); (0x3fb, 10); (0xf9, 8); (0x7fb, 11);
  (0xfa, 8); (0x16, 6); (0x17, 6); (0x18, 6);
  (0x0, 5); (0x1, 5); (0x2, 5); (0x19, 6);
  (0x1a, 6); (0x1b, 6); (0x1c, 6); (0x1d, 6);
  (0x1e, 6); (0x1f, 6); (0x5c, 7); (0xfb, 8);
  (0x7ffc, 15); (0x20, 6); (0xffb, 12); (0x3fc, 10);
  (0x1ffa, 13); (0x21, 6); (0x5d, 7); (0x5e, 7);
  (0x5f, 7); (0x60, 7); (0x61, 7); (0x62, 7);
  (0x63, 7); (0x64, 7); (0x65, 7); (0x66, 7);
  (0x67, 7); (0x68, 7); (0x69, 7); (0x6a, 7);
  (0x6b, 7); (0x6c, 7); (0x6d, 7); (0x6e, 7);
  (0x6f, 7); (0x70, 7); (0x71, 7); (0x72, 7);
  (0xfc, 8); (0x73, 7); (0xfd, 8); (0x1ffb, 13);
  (0x7fff0, 19); (0x1ffc, 13); (0x3ffc, 14); (0x22, 6);
  (0x7ffd, 15); (0x3, 5); (0x23, 6); (0x4, 5);
  (0x24, 6); (0x5, 5); (0x25, 6); (0x26, 6);
  (0x27, 6); (0x6, 5); (0x74, 7); (0x75, 7);
  (0x28, 6); (0x29, 6); (0x2a, 6); (0x7, 5);
  (0x2b, 6); (0x76, 7); (0x2c, 6); (0x8, 5);
  (0x9, 5); (0x2d, 6); (0x77, 7); (0x78, 7);
  (0x79, 7); (0x7a, 7); (0x7b, 7); (0x7ffe, 15);
  (0x7fc, 11); (0x3ffd, 14); (0x1ffd, 13); (0xffffffc, 28);
  (0xfffe6, 20); (0x3fffd2, 22); (0xfffe7, 20); (0xfffe8, 20);
  (0x3fffd3, 22); (0x3fffd4, 22); (0x3fffd5, 22); (0x7fffd9, 23);
  (0x3fffd6, 22); (0x7fffda, 23); (0x7fffdb, 23); (0x7fffdc, 23);
  (0x7fffdd, 23); (0x7fffde, 23); (0xffffeb, 24); (0x7fffdf, 23);
  (0xffffec, 24); (0xffffed, 24); (0x3fffd7, 22); (0x7fffe0, 23);
  (0xffffee, 24); (0x7fffe1, 23); (0x7fffe2, 23); (0x7fffe3, 23);
  (0x7fffe4, 23); (0x1fffdc, 21); (0x3fffd8, 22); (0x7fffe5, 23);
  (0x3fffd9, 22); (0x7fffe6, 23); (0x7fffe7, 23); (0xffffef, 24);
  (0x3fffda, 22); (0x1fffdd, 21); (0xfffe9, 20); (0x3fffdb, 22);
  (0x3fffdc, 22); (0x7fffe8, 23); (0x7fffe9, 23); (0x1fffde, 21);
  (0x7fffea, 23); (0x3fffdd, 22); (0x3fffde, 22); (0xfffff0, 24);
  (0x1fffdf, 21); (0x3fffdf, 22); (0x7fffeb, 23); (0x7fffec, 23);
  (0x1fffe0, 21); (0x1fffe1, 21); (0x3fffe0, 22); (0x1fffe2, 21);
  (0x7fffed, 23); (0x3fffe1, 22); (0x7fffee, 23); (0x7fffef, 23);
  (0xfffea, 20); (0x3fffe2, 22); (0x3fffe3, 22); (0x3fffe4, 22);
  (0x7ffff0, 23); (0x3fffe5, 22); (0x3fffe6, 22); (0x7ffff1, 23);
  (0x3ffffe0, 26); (0x3ffffe1, 26); (0xfffeb, 20); (0x7fff1, 19);
  (0x3fffe7, 22); (0x7ffff2, 23); (0x3fffe8, 22); (0x1ffffec, 25);
  (0x3ffffe2, 26); (0x3ffffe3, 26); (0x3ffffe4, 26); (0x7ffffde, 27);
  (0x7ffffdf, 27); (0x3ffffe5, 26); (0xfffff1, 24); (0x1ffffed, 25);
  (0x7fff2, 19); (0x1fffe3, 21); (0x3ffffe6, 26); (0x7ffffe0, 27);
  (0x7ffffe1, 27); (0x3ffffe7, 26); (0x7ffffe2, 27); (0xfffff2, 24);
  (0x1fffe4, 21); (0x1fffe5, 21); (0x3ffffe8, 26); (0x3ffffe9, 26);
  (0xffffffd, 28); (0x7ffffe3, 27); (0x7ffffe4, 27); (0x7ffffe5, 27);
  (0xfffec, 20); (0xfffff3, 24); (0xfffed, 20); (0x1fffe6, 21);
  (0x3fffe9, 22); (0x1fffe7, 21); (0x1fffe8, 21); (0x7ffff3, 23);
  (0x3fffea, 22); (0x3fffeb, 22); (0x1ffffee, 25); (0x1ffffef, 25);
  (0xfffff4, 24); (0xfffff5, 24); (0x3ffffea, 26); (0x7ffff4, 23);
  (0x3ffffeb, 26); (0x7ffffe6, 27); (0x3ffffec, 26); (0x3ffffed, 26);
  (0x7ffffe7, 27); (0x7ffffe8, 27); (0x7ffffe9, 27); (0x7ffffea, 27);
  (0x7ffffeb, 27); (0xffffffe, 28); (0x7ffffec, 27); (0x7ffffed, 27);
  (0x7ffffee, 27); (0x7ffffef, 27); (0x7fffff0, 27); (0x3ffffee, 26)
].

Definition table_at (b : Z) : Z * Z := nth (Z.to_nat b) HUFFMAN_TABLE (0, 0).

(** ** Encoder *)

(** [while bits_in_buf >= 8]: the buffer holds at most 37 meaningful bits, so
    eight rounds are more than the loop takes. *)
Fixpoint encode_flush (fuel : nat) (bit_buf bits_in_buf : Z) (out : bytes) : Z * bytes :=
  match fuel with
  | O => (bits_in_buf, out)
  | S fuel =>
      if bool_decide (bits_in_buf >= 8) then
        let bits_in_buf := bits_in_buf - 8 in
        encode_flush fuel bit_buf bits_in_buf
          (out ++ [u8 (Z.land (Z.shiftr bit_buf bits_in_buf) 0xFF)])
      else (bits_in_buf, out)
  end.

(** One iteration of the loop over the input: state (bit_buf, bits_in_buf, out). *)
Definition encode_step (st : Z * Z * bytes) (b : Z) : Z * Z * bytes :=
  let '(bit_buf, bits_in_buf, out) := st in
  let '(code, code_len) := table_at b in
  let bit_buf := Z.lor (u64 (Z.shiftl bit_buf code_len)) code in
  let bits_in_buf := bits_in_buf + code_len in
  let '(bits_in_buf, out) := encode_flush 8 bit_buf bits_in_buf out in
  (bit_buf, bits_in_buf, out).

Definition encode_pad (st : Z * Z * bytes) : bytes :=
  let '(bit_buf, bits_in_buf, out) := st in
  if bool_decide (bits_in_buf > 0) then
    let pad := 8 - bits_in_buf in
    let bit_buf := Z.lor (u64 (Z.shiftl bit_buf pad)) (Z.shiftl 1 pad - 1) in
    out ++ [u8 (Z.land bit_buf 0xFF)]
  else out.

Definition encode (input : bytes) : bytes := encode_pad (fold_left encode_step input (0, 0, [])).

Definition encoded_bits (input : bytes) : Z :=
  fold_left (λ bits b, bits + (table_at b).2) input 0.

(** [bits.div_ceil(8)]. *)
Definition encoded_len (input : bytes) : Z := (encoded_bits input + 7) / 8.

(** ** Decode tree *)

Inductive HuffmanError := EosInStream | BadPadding.

#[export] Instance HuffmanError_eq_dec : EqDecision HuffmanError.
Proof. solve_decision. Defined.

Record HuffNode := mkNode {
  left : nat;
  right : nat;
  symbol : option Z;
  all_ones_depth : Z;
  prefix_of_eos : bool
}.

Definition root_node : HuffNode := mkNode 0 0 None 0 true.

Definition node_at (tree : list HuffNode) (i : nat) : HuffNode := nth i tree root_node.

Definition set_left (tree : list HuffNode) (i new : nat) : list HuffNode :=
  let n := node_at tree i in
  <[i := mkNode new n.(right) n.(symbol) n.(all_ones_depth) n.(prefix_of_eos)]> tree.
Definition set_right (tree : list HuffNode) (i new : nat) : list HuffNode :=
  let n := node_at tree i in
  <[i := mkNode n.(left) new n.(symbol) n.(all_ones_depth) n.(prefix_of_eos)]> tree.
Definition set_symbol (tree : list HuffNode) (i : nat) (sym : Z) : list HuffNode :=
  let n := node_at tree i in
  <[i := mkNode n.(left) n.(right) (Some sym) n.(all_ones_depth) n.(prefix_of_eos)]> tree.

(** One step of the descent of [insert_symbol] along one bit of the code. *)
Definition insert_bit (st : list HuffNode * nat) (bit : bool) : list HuffNode * nat :=
  let '(tree, idx) := st in
  let node := node_at tree idx in
  if negb bit then
    if negb (Nat.eqb node.(left) 0) then (tree, node.(left))
    else
      let new_idx := length tree in
      (set_left (tree ++ [mkNode 0 0 None 0 false]) idx new_idx, new_idx)
  else
    if negb (Nat.eqb node.(right) 0) then (tree, node.(right))
    else
      let new_idx := length tree in
      (set_right (tree ++ [mkNode 0 0 None (node.(all_ones_depth) + 1) node.(prefix_of_eos)])
         idx new_idx, new_idx).

(** The bits [code >> i & 1] for [i] from [code_len - 1] down to [0]. *)
Fixpoint bits_msb (n : nat) (code : Z) : list bool :=
  match n with
  | O => []
  | S m => Z.testbit code (Z.of_nat m) :: bits_msb m code
  end.

Definition insert_symbol (tree : list HuffNode) (code code_len sym : Z) : list HuffNode :=
  let '(tree, idx) := fold_left insert_bit (bits_msb (Z.to_nat code_len) code) (tree, O) in
  set_symbol tree idx sym.

Definition huffman_tree : list HuffNode :=
  let tree := [root_node] in
  let tree :=
    fold_left (λ tree '(sym, (code, code_len)), insert_symbol tree code code_len sym)
      (combine (map Z.of_nat (seq 0 256)) HUFFMAN_TABLE) tree in
  insert_symbol tree 0x3FFFFFFF 30 256.

(** ** Decoder *)

(** The body of the loop once the bit is known: descend, then emit a symbol. *)
Definition decode_bit (tree : list HuffNode) (node_idx : nat) (bit : Z) (out : bytes)
    : exec HuffmanError (nat * bytes) :=
  let node_idx := if bool_decide (bit = 0) then (node_at tree node_idx).(left)
                  else (node_at tree node_idx).(right) in
  let node := node_at tree node_idx in
  match node.(symbol) with
  | Some sym =>
      if bool_decide (sym = 256) then Err EosInStream
      else Ok (O, out ++ [u8 sym])
  | None => Ok (node_idx, out)
  end.

(** The loop over the bits of one byte, [bits_consumed_in_byte] from 0 to 7. *)
Fixpoint decode_byte (tree : list HuffNode) (shifts : list Z) (b : Z) (node_idx : nat) (out : bytes)
    : exec HuffmanError (nat * bytes) :=
  match shifts with
  | [] => Ok (node_idx, out)
  | s :: shifts =>
      '(node_idx, out) ← decode_bit tree node_idx (Z.land (Z.shiftr b s) 1) out;
      decode_byte tree shifts b node_idx out
  end.

Fixpoint decode_loop (tree : list HuffNode) (input : bytes) (node_idx : nat) (out : bytes)
    : exec HuffmanError (nat * bytes) :=
  match input with
  | [] => Ok (node_idx, out)
  | b :: input =>
      '(node_idx, out) ← decode_byte tree [7; 6; 5; 4; 3; 2; 1; 0] b node_idx out;
      decode_loop tree input node_idx out
  end.

Definition decode (input : bytes) : exec HuffmanError bytes :=
  let tree := huffman_tree in
  '(node_idx, out) ← decode_loop tree input O [];
  if negb (Nat.eqb node_idx 0) then
    let node := node_at tree node_idx in
    if bool_decide (node.(all_ones_depth) > 7) || negb node.(prefix_of_eos) then Err BadPadding
    else Ok out
  else Ok out.

(** The RFC 7541 C.4 vectors of the test module. *)
Example encode_www :
  encode (bs "www.example.com") = [0xf1; 0xe3; 0xc2; 0xe5; 0xf2; 0x3a; 0x6b; 0xa0; 0xab; 0x90; 0xf4; 0xff].
Proof. vm_compute. reflexivity. Qed.
Example encode_no_cache : encode (bs "no-cache") = [0xa8; 0xeb; 0x10; 0x64; 0x9c; 0xbf].
Proof. vm_compute. reflexivity. Qed.
Example decode_no_cache : decode [0xa8; 0xeb; 0x10; 0x64; 0x9c; 0xbf] = Ok (bs "no-cache").
Proof. vm_compute. reflexivity. Qed.

(** ** Bits *)

Definition bits_of (l : bytes) : list bool := flat_map (bits_msb 8) l.
Definition code_bits (b : Z) : list bool :=
  let '(code, code_len) := table_at b in bits_msb (Z.to_nat code_len) code.
Definition codes (l : bytes) : list bool := flat_map code_bits l.

Lemma bits_msb_length n x : length (bits_msb n x) = n.
Proof. induction n; cbn; congruence. Qed.

Lemma bits_msb_ext n x y :
  (∀ i, 0 ≤ i < Z.of_nat n → Z.testbit x i = Z.testbit y i) → bits_msb n x = bits_msb n y.
Proof. induction n as [|n IH]; intros H; [done|]. cbn. f_equal; [apply H; lia|apply IH; intros; apply H; lia]. Qed.

Lemma bits_msb_inj n x y :
  bits_msb n x = bits_msb n y → ∀ i, 0 ≤ i < Z.of_nat n → Z.testbit x i = Z.testbit y i.
Proof.
  induction n as [|n IH]; intros H i Hi; [lia|]. cbn in H. injection H as H0 H.
  destruct (decide (i = Z.of_nat n)) as [->|]; [done|]. apply IH; [done|lia].
Qed.

Lemma bits_msb_app a b x :
  bits_msb (a + b) x = bits_msb a (Z.shiftr x (Z.of_nat b)) ++ bits_msb b x.
Proof.
  induction a as [|a IH]; [done|]. cbn. rewrite IH. f_equal.
  rewrite Z.shiftr_spec by lia. f_equal. lia.
Qed.

Lemma testbit_small x n i : 0 ≤ x < 2 ^ n → n ≤ i → Z.testbit x i = false.
Proof.
  intros Hx Hi. destruct (decide (x = 0)) as [->|]; [apply Z.bits_0|].
  apply Z.bits_above_log2; [lia|]. apply Z.lt_le_trans with n; [|done].
  apply Z.log2_lt_pow2; lia.
Qed.

Lemma byte_ext x y : is_byte x → is_byte y → bits_msb 8 x = bits_msb 8 y → x = y.
Proof.
  intros Hx Hy H. apply Z.bits_inj'. intros i Hi. destruct (decide (i < 8)).
  - eapply bits_msb_inj; [exact H|]. lia.
  - by rewrite !(testbit_small _ 8) by (unfold is_byte in *; lia).
Qed.

Lemma bits_of_app l k : bits_of (l ++ k) = bits_of l ++ bits_of k.
Proof. apply flat_map_app. Qed.
Lemma bits_of_length l : length (bits_of l) = (8 * length l)%nat.
Proof.
  induction l as [|b l IH]; [done|]. unfold bits_of in *. cbn [flat_map length].
  rewrite length_app, IH, bits_msb_length. lia.
Qed.
Lemma codes_app l k : codes (l ++ k) = codes l ++ codes k.
Proof. apply flat_map_app. Qed.

Lemma bits_of_inj l k : wf_bytes l → wf_bytes k → bits_of l = bits_of k → l = k.
Proof.
  intros Hl. revert k. induction Hl as [|x l Hx Hl IH]; intros k Hk H.
  { destruct k; [done|]. apply (f_equal length) in H. by rewrite !bits_of_length in H. }
  destruct Hk as [|y k Hy Hk].
  { apply (f_equal length) in H. by rewrite !bits_of_length in H. }
  unfold bits_of in H. cbn [flat_map] in H. apply app_inj_1 in H as [H1 H2].
  - f_equal; [by apply byte_ext|by apply IH].
  - by rewrite !bits_msb_length.
Qed.

Lemma u8_bits x : bits_msb 8 (u8 (Z.land x 0xFF)) = bits_msb 8 x.
Proof.
  apply bits_msb_ext. intros i Hi. unfold u8.
  rewrite Z.mod_pow2_bits_low by lia. change 0xFF with (Z.ones 8).
  by rewrite Z.land_spec, Z.ones_spec_low, andb_true_r by lia.
Qed.

(** Shifting the buffer and adding a code appends the bits of the code; the
    64-bit truncation is harmless as long as at most 64 bits are meaningful. *)
Lemma push_bits n len buf code :
  0 ≤ len → Z.of_nat n + len ≤ 64 → 0 ≤ code < 2 ^ len →
  bits_msb (n + Z.to_nat len) (Z.lor (u64 (Z.shiftl buf len)) code)
  = bits_msb n buf ++ bits_msb (Z.to_nat len) code.
Proof.
  intros Hl Hn Hc. rewrite bits_msb_app. f_equal; apply bits_msb_ext; intros i Hi; unfold u64.
  - rewrite Z2Nat.id, Z.shiftr_spec, Z.lor_spec by lia.
    rewrite Z.mod_pow2_bits_low, Z.shiftl_spec by lia.
    rewrite (testbit_small code len), orb_false_r by lia. f_equal. lia.
  - rewrite Z.lor_spec, Z.mod_pow2_bits_low, Z.shiftl_spec_low by lia. done.
Qed.

(** Every code of the table fits its length, which is between 5 and 30 bits. *)
Definition entry_ok (e : Z * Z) : bool :=
  let '(code, len) := e in (5 <=? len) && (len <=? 30) && (0 <=? code) && (code <? 2 ^ len).

Lemma table_ok b : let '(code, len) := table_at b in b < 256 → 5 ≤ len ≤ 30 ∧ 0 ≤ code < 2 ^ len.
Proof.
  destruct (table_at b) as [code len] eqn:H. intros Hb.
  assert (forallb entry_ok HUFFMAN_TABLE = true) as Hall by (vm_compute; reflexivity).
  rewrite forallb_forall in Hall. specialize (Hall (code, len)). unfold entry_ok in Hall.
  assert (In (code, len) HUFFMAN_TABLE) as Hin.
  { rewrite <- H. apply nth_In. change (length HUFFMAN_TABLE) with 256%nat. lia. }
  specialize (Hall Hin). lia.
Qed.

(** ** The encoder writes the codes of its input, padded with ones *)

Lemma encode_flush_spec fuel buf n out n' out' :
  0 ≤ n < 8 * (Z.of_nat fuel + 1) → encode_flush fuel buf n out = (n', out') →
  0 ≤ n' < 8 ∧ bits_of out' ++ bits_msb (Z.to_nat n') buf = bits_of out ++ bits_msb (Z.to_nat n) buf
  ∧ (wf_bytes out → wf_bytes out').
Proof.
  revert n out. induction fuel as [|fuel IH]; intros n out Hn H; cbn in H.
  { injection H as <- <-. split; [lia|done]. }
  case_bool_decide as Hc; [|injection H as <- <-; split; [lia|done]].
  apply IH in H as (Hn' & Hb & Hw); [|lia]. split; [done|]. split.
  - rewrite Hb, bits_of_app, <- (assoc_L (++)). f_equal.
    unfold bits_of. cbn [flat_map]. rewrite app_nil_r, u8_bits.
    replace (Z.to_nat n) with (8 + Z.to_nat (n - 8))%nat by lia.
    rewrite bits_msb_app. by rewrite Z2Nat.id by lia.
  - auto with wf.
Qed.

Definition enc_inv (input : bytes) (st : Z * Z * bytes) : Prop :=
  let '(buf, n, out) := st in
  0 ≤ n < 8 ∧ bits_of out ++ bits_msb (Z.to_nat n) buf = codes input ∧ wf_bytes out.

Lemma encode_step_inv input st b :
  is_byte b → enc_inv input st → enc_inv (input ++ [b]) (encode_step st b).
Proof.
  destruct st as [[buf n] out]. intros [Hb0 Hb] (Hn & Hbits & Hw). unfold encode_step.
  pose proof (table_ok b) as Ht. pose proof (eq_refl (code_bits b)) as Hcode.
  unfold code_bits at 1 in Hcode. destruct (table_at b) as [code len].
  specialize (Ht Hb) as [Hlen Hc].
  destruct (encode_flush 8 _ _ _) as [n' out'] eqn:Hf.
  apply encode_flush_spec in Hf as (Hn' & Hb' & Hw'); [|lia]. cbn.
  split; [done|]. split; [|auto]. rewrite Hb', codes_app, <- Hbits, <- (assoc_L (++)). f_equal.
  replace (Z.to_nat (n + len)) with (Z.to_nat n + Z.to_nat len)%nat by lia.
  rewrite push_bits by lia. f_equal. unfold codes. cbn. by rewrite app_nil_r.
Qed.

Lemma encode_fold_inv input pre st :
  wf_bytes input → enc_inv pre st → enc_inv (pre ++ input) (fold_left encode_step input st).
Proof.
  intros Hw. revert pre st. induction Hw as [|b l Hb Hl IH]; intros pre st Hst.
  - by rewrite app_nil_r.
  - cbn [fold_left]. rewrite (cons_middle b pre l), (assoc_L (++)). by apply IH, encode_step_inv.
Qed.

Lemma bits_msb_ones n : bits_msb n (Z.shiftl 1 (Z.of_nat n) - 1) = replicate n true.
Proof.
  rewrite Z.shiftl_mul_pow2, Z.mul_1_l by lia.
  replace (2 ^ Z.of_nat n - 1) with (Z.ones (Z.of_nat n))
    by (rewrite Z.ones_equiv; lia).
  assert (∀ m, (m ≤ n)%nat → bits_msb m (Z.ones (Z.of_nat n)) = replicate m true) as H.
  { induction m as [|m IH]; intros; [done|]. cbn. rewrite Z.ones_spec_low by lia. f_equal. apply IH. lia. }
  by apply H.
Qed.

Lemma encode_bits input : wf_bytes input →
  wf_bytes (encode input) ∧
  ∃ k, (k < 8)%nat ∧ bits_of (encode input) = codes input ++ replicate k true.
Proof.
  intros Hw. pose proof (encode_fold_inv input [] (0, 0, []) Hw) as Hinv.
  unfold encode. destruct (fold_left encode_step input (0, 0, [])) as [[buf n] out].
  destruct Hinv as (Hn & Hb & Hwo). { split; [lia|done]. }
  rewrite app_nil_l in Hb. unfold encode_pad. case_bool_decide as Hc.
  - split; [auto with wf|]. exists (Z.to_nat (8 - n)). split; [lia|].
    rewrite bits_of_app, <- Hb, <- (assoc_L (++)). f_equal.
    unfold bits_of. cbn [flat_map]. rewrite app_nil_r, u8_bits.
    replace 8%nat with (Z.to_nat n + Z.to_nat (8 - n))%nat by lia.
    rewrite push_bits.
    + f_equal. rewrite <- bits_msb_ones. by rewrite Z2Nat.id by lia.
    + lia.
    + lia.
    + rewrite Z.shiftl_mul_pow2 by lia. pose proof (Z.pow_pos_nonneg 2 (8 - n)). lia.
  - split; [done|]. exists O. split; [lia|]. replace (Z.to_nat n) with O in Hb by lia.
    by rewrite app_nil_r in *.
Qed.

(** ** The decoder as a walk over bits *)

Fixpoint walk (tree : list HuffNode) (bits : list bool) (node_idx : nat) (out : bytes)
    : exec HuffmanError (nat * bytes) :=
  match bits with
  | [] => Ok (node_idx, out)
  | b :: bits =>
      '(node_idx, out) ← decode_bit tree node_idx (Z.b2z b) out; walk tree bits node_idx out
  end.

Lemma walk_app tree l k n out :
  walk tree (l ++ k) n out = '(n', out') ← walk tree l n out; walk tree k n' out'.
Proof.
  revert n out. induction l as [|b l IH]; intros n out; [done|]. cbn.
  destruct (decode_bit tree n (Z.b2z b) out) as [[n' out']| |]; [apply IH|done|done].
Qed.

Lemma land_shiftr_bit b s : 0 ≤ s → Z.land (Z.shiftr b s) 1 = Z.b2z (Z.testbit b s).
Proof.
  intros. change 1 with (2 ^ 1 - 1). rewrite land_ones_low by lia.
  change (2 ^ 1) with 2. rewrite <- Z.bit0_mod, Z.shiftr_spec by lia. done.
Qed.

Lemma decode_shifts_walk tree b m n out :
  decode_byte tree (map Z.of_nat (rev (seq 0 m))) b n out = walk tree (bits_msb m b) n out.
Proof.
  revert n out. induction m as [|m IH]; intros n out; [done|].
  rewrite seq_S, rev_app_distr. cbn. rewrite land_shiftr_bit by lia.
  destruct (decode_bit tree n _ out) as [[n' out']| |]; [apply IH|done|done].
Qed.

Lemma decode_loop_walk tree input n out :
  decode_loop tree input n out = walk tree (bits_of input) n out.
Proof.
  revert n out. induction input as [|b l IH]; intros n out; [done|].
  change (bits_of (b :: l)) with (bits_msb 8 b ++ bits_of l). rewrite walk_app.
  cbn [decode_loop]. change [7; 6; 5; 4; 3; 2; 1; 0] with (map Z.of_nat (rev (seq 0 8))).
  rewrite decode_shifts_walk.
  destruct (walk tree (bits_msb 8 b) n out) as [[n' out']| |]; [apply IH|done|done].
Qed.

Lemma walk_out tree bits n out :
  walk tree bits n out = (λ '(n', o), (n', out ++ o)) <$> walk tree bits n [].
Proof.
  revert n out. induction bits as [|b bits IH]; intros n out; cbn.
  { by rewrite app_nil_r. }
  unfold decode_bit. destruct (symbol _) as [sym|]; cbn; [case_bool_decide; cbn; [done|]|].
  - rewrite IH. symmetry. rewrite IH. destruct (walk tree bits 0 []) as [[n' o]| |]; cbn; [|done|done].
    by rewrite <- (assoc_L (++)).
  - rewrite IH. done.
Qed.

(** ** Facts about the tree, established by evaluation *)

(** The tree in normal form. *)
Definition tree_nf : list HuffNode := Eval vm_compute in huffman_tree.
Lemma huffman_tree_nf : huffman_tree = tree_nf.
Proof. vm_compute. reflexivity. Qed.

(** The bit path from the root to every node: children come after their parent
    in the vector, so one pass suffices. *)
Definition add_paths (tree : list HuffNode) (paths : list (list bool)) (i : nat) : list (list bool) :=
  let n := node_at tree i in
  match n.(symbol) with
  | Some _ => paths
  | None =>
      let p := nth i paths [] in
      <[n.(right) := p ++ [true]]> (<[n.(left) := p ++ [false]]> paths)
  end.
Definition paths_of (tree : list HuffNode) : list (list bool) :=
  fold_left (add_paths tree) (seq 0 (length tree)) (replicate (length tree) []).
Definition paths : list (list bool) := Eval vm_compute in paths_of tree_nf.
Definition path_at (i : nat) : list bool := nth i paths [].

Definition bits_eqb (l k : list bool) : bool := bool_decide (l = k).

(** Descending from an internal node by a bit reaches either the leaf whose
    symbol has exactly the code spelled so far, or an internal node. *)
Definition child_ok (i : nat) (b : bool) : bool :=
  let c := if b then (node_at tree_nf i).(right) else (node_at tree_nf i).(left) in
  let p := path_at i ++ [b] in
  match (node_at tree_nf c).(symbol) with
  | Some s => (s =? 256) || ((0 <=? s) && (s <? 256) && bits_eqb p (code_bits s))
  | None => negb (Nat.eqb c 0) && Nat.ltb c (length tree_nf) && bits_eqb p (path_at c)
  end.

(** An accepted final node spells at most seven ones. *)
Definition final_ok (i : nat) : bool :=
  let n := node_at tree_nf i in
  if (bool_decide (n.(all_ones_depth) > 7) || negb n.(prefix_of_eos)) then true
  else bits_eqb (path_at i) (replicate (length (path_at i)) true) && Nat.leb (length (path_at i)) 7.

Definition node_ok (i : nat) : bool :=
  match (node_at tree_nf i).(symbol) with
  | Some _ => true
  | None => child_ok i false && child_ok i true && final_ok i
  end.

Lemma nodes_ok : forallb node_ok (seq 0 (length tree_nf)) = true.
Proof. vm_compute. reflexivity. Qed.

(** Walking the code of a symbol from the root emits the symbol. *)
Definition sym_ok (s : Z) : bool :=
  bool_decide (walk tree_nf (code_bits s) 0 [] = Ok (0%nat, [s])).

Lemma syms_ok : forallb sym_ok (map Z.of_nat (seq 0 256)) = true.
Proof. vm_compute. reflexivity. Qed.

(** Up to seven ones are accepted padding. *)
Definition pad_ok (k : nat) : bool :=
  match walk tree_nf (replicate k true) 0 [] with
  | Ok (n, []) => Nat.eqb n 0 || negb (bool_decide ((node_at tree_nf n).(all_ones_depth) > 7)
                                       || negb (node_at tree_nf n).(prefix_of_eos))
  | _ => false
  end.
Lemma pads_ok : forallb pad_ok (seq 0 8) = true.
Proof. vm_compute. reflexivity. Qed.

#[local] Arguments path_at : simpl never.
#[local] Arguments node_at : simpl never.
#[local] Arguments decode_bit : simpl never.
#[local] Opaque tree_nf.

Lemma node_in_tree i : (i < length tree_nf)%nat → node_ok i = true.
Proof.
  intros Hi. pose proof nodes_ok as H. rewrite forallb_forall in H. apply H, in_seq. lia.
Qed.

Definition internal (i : nat) : Prop :=
  (i < length tree_nf)%nat ∧ (node_at tree_nf i).(symbol) = None.

Lemma root_internal : internal 0.
Proof. split; [apply Nat.ltb_lt|]; vm_compute; reflexivity. Qed.

(** One step of the walk from an internal node. *)
Lemma step_ok i b out :
  internal i →
  match decode_bit tree_nf i (Z.b2z b) out with
  | Ok (n, out') =>
      internal n ∧ ∃ o, out' = out ++ o ∧ wf_bytes o ∧ path_at i ++ [b] = codes o ++ path_at n
  | Err e => e = EosInStream
  | Panic => False
  end.
Proof.
  intros [Hi Hs]. pose proof (node_in_tree i Hi) as Hok. unfold node_ok in Hok. rewrite Hs in Hok.
  apply andb_true_iff in Hok as [Hok _]. apply andb_true_iff in Hok as [Hf Ht].
  assert (child_ok i b = true) as Hc by (by destruct b). clear Hf Ht.
  unfold child_ok in Hc. unfold decode_bit.
  assert ((if bool_decide (Z.b2z b = 0) then left (node_at tree_nf i) else right (node_at tree_nf i))
          = (if b then right (node_at tree_nf i) else left (node_at tree_nf i))) as -> by (by destruct b).
  set (c := if b then _ else _) in *.
  destruct (symbol (node_at tree_nf c)) as [s|] eqn:Hsym.
  - case_bool_decide as H256; [done|]. split; [apply root_internal|].
    assert (s ≠ 256) as Hne by done. apply Z.eqb_neq in Hne. rewrite Hne in Hc. cbn in Hc.
    apply andb_true_iff in Hc as [Hr Hp]. unfold bits_eqb in Hp. apply bool_decide_eq_true in Hp.
    exists [s]. assert (is_byte s) as Hb by (unfold is_byte; lia).
    rewrite u8_small by done. split; [done|]. split; [auto with wf|].
    rewrite Hp. unfold codes. cbn. by rewrite !app_nil_r.
  - apply andb_true_iff in Hc as [Hc Hp]. apply andb_true_iff in Hc as [_ Hl].
    unfold bits_eqb in Hp. apply bool_decide_eq_true in Hp. apply Nat.ltb_lt in Hl.
    split; [done|]. exists []. rewrite app_nil_r. split; [done|]. split; [constructor|]. done.
Qed.

Lemma walk_sound bits i out :
  internal i →
  match walk tree_nf bits i out with
  | Ok (n, out') =>
      internal n ∧ ∃ o, out' = out ++ o ∧ wf_bytes o ∧ path_at i ++ bits = codes o ++ path_at n
  | Err e => e = EosInStream
  | Panic => False
  end.
Proof.
  revert i out. induction bits as [|b bits IH]; intros i out Hi; cbn.
  { split; [done|]. exists []. rewrite !app_nil_r. split; [done|]. split; [constructor|done]. }
  pose proof (step_ok i b out Hi) as Hstep.
  destruct (decode_bit tree_nf i (Z.b2z b) out) as [[n out']| |]; cbn; [|done|done].
  destruct Hstep as (Hn & o & -> & Hw & Hp). specialize (IH n (out ++ o) Hn).
  destruct (walk tree_nf bits n _) as [[n' out']| |]; [|done|done].
  destruct IH as (Hn' & o' & -> & Hw' & Hp'). split; [done|].
  exists (o ++ o'). split; [by rewrite (assoc_L (++))|]. split; [auto with wf|].
  rewrite cons_middle, (assoc_L (++)), Hp, codes_app, <- !(assoc_L (++)), Hp'. done.
Qed.

Lemma final_sound i :
  internal i →
  (bool_decide ((node_at tree_nf i).(all_ones_depth) > 7) || negb (node_at tree_nf i).(prefix_of_eos)) = false →
  path_at i = replicate (length (path_at i)) true ∧ (length (path_at i) ≤ 7)%nat.
Proof.
  intros [Hi Hs] Hf. pose proof (node_in_tree i Hi) as Hok. unfold node_ok in Hok. rewrite Hs in Hok.
  apply andb_true_iff in Hok as [_ Hok]. unfold final_ok in Hok. rewrite Hf in Hok.
  apply andb_true_iff in Hok as [Hp Hl]. unfold bits_eqb in Hp. apply bool_decide_eq_true in Hp.
  apply Nat.leb_le in Hl. done.
Qed.

Lemma walk_codes s out : wf_bytes s → walk tree_nf (codes s) 0 out = Ok (0%nat, out ++ s).
Proof.
  intros Hw. revert out. induction Hw as [|b l Hb Hl IH]; intros out; cbn; [by rewrite app_nil_r|].
  rewrite walk_app. pose proof syms_ok as Hs. rewrite forallb_forall in Hs.
  assert (sym_ok b = true) as Hk.
  { apply Hs. apply in_map_iff. exists (Z.to_nat b). unfold is_byte in Hb.
    split; [lia|]. apply in_seq. lia. }
  unfold sym_ok in Hk. apply bool_decide_eq_true in Hk. rewrite walk_out, Hk. cbn.
  rewrite IH, <- (assoc_L (++)). done.
Qed.

Lemma bits_length_mod s k : length (bits_of s) = k → (k mod 8 = 0)%nat.
Proof. rewrite bits_of_length. intros <-. rewrite Nat.mul_comm. apply Nat.Div0.mod_mul. Qed.

Lemma decode_encode s : wf_bytes s → decode (encode s) = Ok s.
Proof.
  intros Hw. unfold decode. rewrite huffman_tree_nf, decode_loop_walk.
  destruct (encode_bits s Hw) as (_ & k & Hk & Hbits).
  rewrite Hbits, walk_app, walk_codes by done. cbn [mbind exec_bind app].
  pose proof pads_ok as Hpad. rewrite forallb_forall in Hpad.
  specialize (Hpad k ltac:(apply in_seq; lia)). unfold pad_ok in Hpad. rewrite walk_out.
  destruct (walk tree_nf (replicate k true) 0 []) as [[n [|? ?]]| |]; [|done|done|done].
  cbn. rewrite app_nil_r. destruct (negb (n =? 0)%nat) eqn:Hz; [|done].
  apply negb_true_iff in Hz. rewrite Hz in Hpad. cbn in Hpad. apply negb_true_iff in Hpad.
  by rewrite Hpad.
Qed.

(** ** Properties *)

Lemma decode_exact (wire out : bytes) :
  wf_bytes wire → decode wire = Ok out ↔ wf_bytes out ∧ encode out = wire.
Proof.
  intros Hwire. unfold decode. rewrite huffman_tree_nf, decode_loop_walk. split.
  - intros H. pose proof (walk_sound (bits_of wire) 0 [] root_internal) as Hs.
    destruct (walk tree_nf (bits_of wire) 0 []) as [[n o]| |]; cbn in H; [|done|done].
    destruct Hs as (Hn & o' & -> & Hw & Hp). cbn [app] in *. change (path_at 0) with (@nil bool) in Hp.
    assert (o' = out ∧ path_at n = replicate (length (path_at n)) true ∧ (length (path_at n) ≤ 7)%nat)
      as (-> & Hones & Hlen).
    { destruct (negb (n =? 0)%nat) eqn:Hz.
      - destruct (bool_decide _ || _) eqn:Hf in H; [done|]. injection H as ->.
        split; [done|]. by apply final_sound.
      - injection H as ->. apply negb_false_iff, Nat.eqb_eq in Hz. subst n.
        change (path_at 0) with (@nil bool). split_and!; [done|done|cbn; lia]. }
    split; [done|]. destruct (encode_bits out Hw) as (Hwe & k & Hk & Hbits).
    apply bits_of_inj; [done|done|]. rewrite Hbits. cbn [app] in Hp. rewrite Hp, Hones.
    assert (k = length (path_at n)) as ->; [|done].
    apply (f_equal length) in Hp, Hbits. rewrite length_app in Hp, Hbits.
    apply bits_length_mod in Hp, Hbits. apply Nat.Div0.mod_divides in Hp as [a Ha], Hbits as [b Hb].
    rewrite length_replicate in Hb. lia.
  - intros [Hw <-]. pose proof (decode_encode out Hw) as H.
    unfold decode in H. by rewrite huffman_tree_nf, decode_loop_walk in H.
Qed.

(** C34: the decoder is exactly the inverse of the encoder.  For every byte
    string on the wire, decoding succeeds with a given result if and only if the
    result is a byte string whose encoding is that wire string: every encoding
    decodes, no two strings share an encoding, and padding longer than seven
    bits, padding that is not all ones, and an embedded EOS are all refused. *)
Theorem huffman_decode_iff_encode (wire out : bytes) :
  wf_bytes wire → decode wire = Ok out ↔ wf_bytes out ∧ encode out = wire.
Proof. apply decode_exact. Qed.

Lemma huffman_decode_iff_encode_witness :
  decode [0xa8; 0xeb; 0x10; 0x64; 0x9c; 0xbf] = Ok (bs "no-cache").
Proof.
  apply (huffman_decode_iff_encode [0xa8; 0xeb; 0x10; 0x64; 0x9c; 0xbf] (bs "no-cache")).
  - repeat constructor; vm_compute; congruence.
  - split; [apply bs_wf|vm_compute; reflexivity].
Defined.

Lemma code_bits_length b : is_byte b → zlen (code_bits b) = (table_at b).2.
Proof.
  intros [_ Hb]. unfold code_bits. pose proof (table_ok b) as Ht.
  destruct (table_at b) as [code len]. specialize (Ht Hb) as [? _].
  unfold zlen. rewrite bits_msb_length. cbn. lia.
Qed.

Lemma encoded_bits_codes input : wf_bytes input → encoded_bits input = zlen (codes input).
Proof.
  intros Hw. unfold encoded_bits.
  enough (∀ acc, fold_left (λ bits b, bits + (table_at b).2) input acc = acc + zlen (codes input)) as H
    by (by rewrite H).
  induction Hw as [|b l Hb Hl IH]; intros acc; cbn [fold_left]; [change (codes []) with (@nil bool); rewrite zlen_nil; lia|].
  rewrite IH. change (codes (b :: l)) with (code_bits b ++ codes l).
  rewrite zlen_app, code_bits_length by done. lia.
Qed.

Lemma encoded_len_eq (input : bytes) :
  wf_bytes input → encoded_len input = zlen (encode input).
Proof.
  intros Hw. unfold encoded_len. rewrite encoded_bits_codes by done.
  destruct (encode_bits input Hw) as (_ & k & Hk & Hbits).
  apply (f_equal length) in Hbits. rewrite length_app, bits_of_length in Hbits.
  rewrite length_replicate in Hbits. unfold zlen. Z.div_mod_to_equations. lia.
Qed.

(** A code is at most 30 bits, so encoding at most quadruples a string. *)
Lemma encode_length_bound (input : bytes) : wf_bytes input → zlen (encode input) ≤ 4 * zlen input.
Proof.
  intros Hw. rewrite <- encoded_len_eq by done. unfold encoded_len.
  rewrite encoded_bits_codes by done.
  enough (zlen (codes input) ≤ 30 * zlen input) by (pose proof (zlen_nonneg input); Z.div_mod_to_equations; lia).
  induction Hw as [|b l Hb Hl IH]; [done|]. change (codes (b :: l)) with (code_bits b ++ codes l).
  rewrite zlen_app, zlen_cons, code_bits_length by done. pose proof (table_ok b) as Ht.
  destruct (table_at b) as [code len]. destruct Hb as [_ Hb]. specialize (Ht Hb) as [? _]. cbn. lia.
Qed.

(** [encoded_len], which decides between the raw and the Huffman
    form of a string, is the length of what [encode] would write, and that is at
    most four times the input. *)
Theorem encoded_len_exact (input : bytes) :
  wf_bytes input → encoded_len input = zlen (encode input) ∧ zlen (encode input) ≤ 4 * zlen input.
Proof. intros Hw. split; [by apply encoded_len_eq|by apply encode_length_bound]. Qed.

Lemma encoded_len_exact_witness :
  encoded_len (bs "www.example.com") = zlen (encode (bs "www.example.com"))
  ∧ zlen (encode (bs "www.example.com")) ≤ 4 * zlen (bs "www.example.com").
Proof. apply (encoded_len_exact (bs "www.example.com")), bs_wf. Defined.

(** Decoding never panics: every index it follows is inside the tree. *)
Lemma decode_no_panic wire : is_panic (decode wire) = false.
Proof.
  unfold decode. rewrite huffman_tree_nf, decode_loop_walk.
  pose proof (walk_sound (bits_of wire) 0 [] root_internal) as Hs.
  destruct (walk tree_nf (bits_of wire) 0 []) as [[n o]| |]; cbn; [|done|done].
  by repeat case_match.
Qed.
