(* ===== verification/Hpack.v ===== *)
(** * HPACK encoder and decoder (src/h2/header.rs, src/h2/hpack.rs)

    The permissive encoder with all its knobs, and the stateful decoder with its
    dynamic table.  The theorems: integers and whole header blocks round-trip,
    the dynamic table keeps its size account and its bound whatever the input,
    decoding is total, and what the validation gate lets through is clean. *)
From S2P Require Import Prelude Huffman.

(** ** Headers (header.rs) *)

Inductive Indexing := With | Without | Never.

#[export] Instance Indexing_eq_dec : EqDecision Indexing.
Proof. solve_decision. Defined.

Record Header := mkHeader {
  name : bytes;
  value : bytes;
  indexing : Indexing;
  huffman_name : option bool;
  huffman_value : option bool;
  allow_invalid_value : bool;
  allow_invalid_name : bool;
  length_bloat_name : Z;
  length_bloat_value : Z;
  force_static_index : option Z
}.

Definition Header_new (name value : bytes) : Header :=
  mkHeader name value With None None false false 0 0 None.

(** ** Encoder *)

Inductive EncodeError :=
  | EmptyName
  | InvalidValue
  | InvalidName
  | BloatOutOfRange (b : Z)
  | StaticIndexOutOfRange (i : Z).

#[export] Instance EncodeError_eq_dec : EqDecision EncodeError.
Proof. solve_decision. Defined.

(** RFC 7230 token characters restricted to lowercase. *)
Definition is_lowercase_token_char (b : Z) : bool :=
  ((97 <=? b) && (b <=? 122)) || ((48 <=? b) && (b <=? 57))
  || existsb (Z.eqb b) (bs "!#$%&'" ++ bs "*+-.^_" ++ bs "`|~").

Definition is_name_valid (name : bytes) : bool :=
  match name with
  | [] => false
  | first :: rest =>
      (if first =? ch ":" then negb (zlen name =? 1) else is_lowercase_token_char first)
      && forallb is_lowercase_token_char rest
  end.

Definition is_value_valid (value : bytes) : bool :=
  negb (existsb (λ b, (b =? 0x00) || (b =? 0x0A) || (b =? 0x0D)) value).

(** [out.pop()]. *)
Definition pop (out : bytes) : option (bytes * Z) :=
  last_byte ← last out; Some (removelast out, last_byte).

(** [while remaining >= 128]: a [u32] needs at most four rounds. *)
Fixpoint write_continuation (fuel : nat) (out : bytes) (remaining : Z) : bytes * Z :=
  match fuel with
  | O => (out, remaining)
  | S fuel =>
      if bool_decide (remaining >= 128) then
        write_continuation fuel (out ++ [Z.lor (u8 (Z.land remaining 0x7F)) 0x80])
          (Z.shiftr remaining 7)
      else (out, remaining)
  end.

(** [for _ in 0..bloat]: move the terminator behind one more 0x80. *)
Fixpoint write_bloat {E} (bloat : nat) (out : bytes) : exec E bytes :=
  match bloat with
  | O => Ok out
  | S bloat =>
      '(out, last_byte) ← unwrap (pop out);
      write_bloat bloat ((out ++ [0x80]) ++ [last_byte])
  end.

Definition write_integer {E} (out : bytes) (value n prefix_pattern bloat : Z) : exec E bytes :=
  let max_prefix := Z.shiftl 1 n - 1 in
  if bool_decide (value < max_prefix) then
    Ok (out ++ [Z.lor prefix_pattern (u8 value)])
  else
    let out := out ++ [Z.lor prefix_pattern (u8 max_prefix)] in
    let '(out, remaining) := write_continuation 5 out (value - max_prefix) in
    write_bloat (Z.to_nat bloat) (out ++ [u8 remaining]).

Definition write_string {E} (out data : bytes) (huffman : option bool) (length_bloat : Z)
    : exec E bytes :=
  let use_huffman := match huffman with
                     | Some h => h
                     | None => bool_decide (encoded_len data < zlen data)
                     end in
  let '(encoded, h_flag) := if use_huffman then (encode data, 0x80) else (data, 0x00) in
  out ← write_integer out (u32 (zlen encoded)) 7 h_flag length_bloat;
  Ok (out ++ encoded).

Definition prefix_of (i : Indexing) : Z * Z :=
  match i with
  | With => (0x40, 6)
  | Without => (0x00, 4)
  | Never => (0x10, 4)
  end.

Definition encode_one (h : Header) (out : bytes) : exec EncodeError bytes :=
  if bool_decide (h.(name) = []) && negb (bool_decide (is_Some h.(force_static_index))) then
    Err EmptyName
  else if bool_decide (h.(length_bloat_name) > 3) then Err (BloatOutOfRange h.(length_bloat_name))
  else if bool_decide (h.(length_bloat_value) > 3) then Err (BloatOutOfRange h.(length_bloat_value))
  else if negb h.(allow_invalid_name) && negb (bool_decide (is_Some h.(force_static_index)))
          && negb (is_name_valid h.(name)) then Err InvalidName
  else if negb h.(allow_invalid_value) && negb (is_value_valid h.(value)) then Err InvalidValue
  else
    let '(prefix_pattern, prefix_bits) := prefix_of h.(indexing) in
    name_index ← match h.(force_static_index) with
                 | Some idx =>
                     if bool_decide (1 ≤ idx ≤ 61) then Ok idx else Err (StaticIndexOutOfRange idx)
                 | None => Ok 0
                 end;
    out ← write_integer out name_index prefix_bits prefix_pattern 0;
    out ← (if bool_decide (name_index = 0)
           then write_string out h.(name) h.(huffman_name) h.(length_bloat_name)
           else Ok out);
    write_string out h.(value) h.(huffman_value) h.(length_bloat_value).

Fixpoint encode_headers_loop (headers : list Header) (out : bytes) : exec EncodeError bytes :=
  match headers with
  | [] => Ok out
  | h :: headers => out ← encode_one h out; encode_headers_loop headers out
  end.

Definition encode_headers (headers : list Header) : exec EncodeError bytes :=
  encode_headers_loop headers [].

(** ** Decoder *)

Inductive DecodeError :=
  | UnexpectedEof (pos : Z)
  | IntegerOverflow
  | InvalidIndex (idx : Z)
  | TableSizeTooLarge (new max : Z)
  | Huffman (e : HuffmanError).

#[export] Instance DecodeError_eq_dec : EqDecision DecodeError.
Proof. solve_decision. Defined.

Abbreviation DecodedHeader := (bytes * bytes)%type.

Definition STATIC_TABLE : list DecodedHeader := [
  (bs ":authority", bs "");
  (bs ":method", bs "GET");
  (bs ":method", bs "POST");
  (bs ":path", bs "/");
  (bs ":path", bs "/index.html");
  (bs ":scheme", bs "http");
  (bs ":scheme", bs "https");
  (bs ":status", bs "200");
  (bs ":status", bs "204");
  (bs ":status", bs "206");
  (bs ":status", bs "304");
  (bs ":status", bs "400");
  (bs ":status", bs "404");
  (bs ":status", bs "500");
  (bs "accept-charset", bs "");
  (bs "accept-encoding", bs "gzip, deflate");
  (bs "accept-language", bs "");
  (bs "accept-ranges", bs "");
  (bs "accept", bs "");
  (bs "access-control-allow-origin", bs "");
  (bs "age", bs "");
  (bs "allow", bs "");
  (bs "authorization", bs "");
  (bs "cache-control", bs "");
  (bs "content-disposition", bs "");
  (bs "content-encoding", bs "");
  (bs "content-language", bs "");
  (bs "content-length", bs "");
  (bs "content-location", bs "");
  (bs "content-range", bs "");
  (bs "content-type", bs "");
  (bs "cookie", bs "");
  (bs "date", bs "");
  (bs "etag", bs "");
  (bs "expect", bs "");
  (bs "expires", bs "");
  (bs "from", bs "");
  (bs "host", bs "");
  (bs "if-match", bs "");
  (bs "if-modified-since", bs "");
  (bs "if-none-match", bs "");
  (bs "if-range", bs "");
  (bs "if-unmodified-since", bs "");
  (bs "last-modified", bs "");
  (bs "link", bs "");
  (bs "location", bs "");
  (bs "max-forwards", bs "");
  (bs "proxy-authenticate", bs "");
  (bs "proxy-authorization", bs "");
  (bs "range", bs "");
  (bs "referer", bs "");
  (bs "refresh", bs "");
  (bs "retry-after", bs "");
  (bs "server", bs "");
  (bs "set-cookie", bs "");
  (bs "strict-transport-security", bs "");
  (bs "transfer-encoding", bs "");
  (bs "user-agent", bs "");
  (bs "vary", bs "");
  (bs "via", bs "");
  (bs "www-authenticate", bs "")
].

Record Decoder := mkDecoder {
  dynamic_table : list DecodedHeader;  (* front first *)
  dynamic_table_size : Z;
  max_table_size : Z
}.

Definition Decoder_new : Decoder := mkDecoder [] 0 4096.
Definition with_max_table_size (max : Z) : Decoder := mkDecoder [] 0 max.

(** [buf[p]] for an index that was checked. *)
Definition byte_at (buf : bytes) (p : Z) : Z := nth (Z.to_nat p) buf 0.

(** [u32::checked_shl]: the shift amount is checked, the bits shifted out are not. *)
Definition checked_shl (x shift : Z) : option Z :=
  if bool_decide (shift < 32) then Some (u32 (Z.shiftl x shift)) else None.
Definition checked_add (x y : Z) : option Z :=
  if bool_decide (x + y ≤ u32_max) then Some (x + y) else None.

(** The continuation loop, on the bytes from position [p] on. *)
Fixpoint read_continuation (rest : bytes) (p value shift : Z) : exec DecodeError (Z * Z) :=
  match rest with
  | [] => Err (UnexpectedEof p)
  | b :: rest =>
      let p := p + 1 in
      contribution ← ok_or (checked_shl (Z.land b 0x7F) shift) IntegerOverflow;
      value ← ok_or (checked_add value contribution) IntegerOverflow;
      if bool_decide (Z.land b 0x80 = 0) then Ok (value, p)
      else
        shift ← ok_or (checked_add shift 7) IntegerOverflow;
        read_continuation rest p value shift
  end.

Definition read_integer (buf : bytes) (pos n : Z) : exec DecodeError (Z * Z) :=
  if bool_decide (pos >= zlen buf) then Err (UnexpectedEof pos)
  else
    let max_prefix := Z.shiftl 1 n - 1 in
    let first := Z.land (byte_at buf pos) max_prefix in
    if bool_decide (first < max_prefix) then Ok (first, pos + 1)
    else read_continuation (drop (Z.to_nat (pos + 1)) buf) (pos + 1) max_prefix 0.

Definition read_string (buf : bytes) (pos : Z) : exec DecodeError (bytes * Z) :=
  if bool_decide (pos >= zlen buf) then Err (UnexpectedEof pos)
  else
    let huffman := negb (bool_decide (Z.land (byte_at buf pos) 0x80 = 0)) in
    '(len, new_pos) ← read_integer buf pos 7;
    let end_ := new_pos + len in
    if bool_decide (end_ > zlen buf) then Err (UnexpectedEof end_)
    else
      let raw := take (Z.to_nat len) (drop (Z.to_nat new_pos) buf) in
      s ← (if huffman then map_err Huffman (decode raw) else Ok raw);
      Ok (s, end_).

Definition lookup_index (d : Decoder) (idx : Z) : exec DecodeError DecodedHeader :=
  if bool_decide (idx = 0) then Err (InvalidIndex 0)
  else if bool_decide (idx ≤ zlen STATIC_TABLE) then
    unwrap (STATIC_TABLE !! Z.to_nat (idx - 1))
  else
    let dyn_idx := idx - 1 - zlen STATIC_TABLE in
    if bool_decide (dyn_idx < zlen d.(dynamic_table)) then
      ok_or (d.(dynamic_table) !! Z.to_nat dyn_idx) (InvalidIndex idx)
    else Err (InvalidIndex idx).

(** [(name.len() + value.len() + 32) as u32]. *)
Definition entry_size (e : DecodedHeader) : Z := u32 (zlen e.1 + zlen e.2 + 32).

(** The eviction loops: pop the back while [over size], stop on an empty table. *)
Fixpoint evict (fuel : nat) (over : Z → bool) (table : list DecodedHeader) (size : Z)
    : list DecodedHeader * Z :=
  match fuel with
  | O => (table, size)
  | S fuel =>
      if over size then
        match last table with
        | Some e => evict fuel over (removelast table) (u32 (size - entry_size e))
        | None => (table, size)
        end
      else (table, size)
  end.

Definition add_to_dynamic_table (d : Decoder) (name value : bytes) : Decoder :=
  let entry_size := entry_size (name, value) in
  if bool_decide (entry_size > d.(max_table_size)) then mkDecoder [] 0 d.(max_table_size)
  else
    let '(table, size) :=
      evict (S (length d.(dynamic_table)))
        (λ size, bool_decide (u32 (size + entry_size) > d.(max_table_size)))
        d.(dynamic_table) d.(dynamic_table_size) in
    mkDecoder ((name, value) :: table) (u32 (size + entry_size)) d.(max_table_size).

Definition resize_table (d : Decoder) (new_size : Z) : Decoder :=
  let '(table, size) :=
    evict (S (length d.(dynamic_table))) (λ size, bool_decide (size > new_size))
      d.(dynamic_table) d.(dynamic_table_size) in
  mkDecoder table size new_size.

(** The name of a literal: a string for index 0, a table name otherwise. *)
Definition read_name (d : Decoder) (block : bytes) (idx pos : Z) : exec DecodeError (bytes * Z) :=
  if bool_decide (idx = 0) then read_string block pos
  else e ← lookup_index d idx; Ok (e.1, pos).

(** One iteration of the loop of [decode_headers]: the decoder, the position
    after the representation, and the field it yields, if any. *)
Definition decode_one (d : Decoder) (block : bytes) (pos : Z)
    : exec DecodeError (Decoder * Z * option DecodedHeader) :=
  let b := byte_at block pos in
  if negb (bool_decide (Z.land b 0x80 = 0)) then
    '(idx, pos) ← read_integer block pos 7;
    e ← lookup_index d idx;
    Ok (d, pos, Some e)
  else if bool_decide (Z.land b 0xC0 = 0x40) then
    '(idx, pos) ← read_integer block pos 6;
    '(name, pos) ← read_name d block idx pos;
    '(value, pos) ← read_string block pos;
    Ok (add_to_dynamic_table d name value, pos, Some (name, value))
  else if bool_decide (Z.land b 0xE0 = 0x20) then
    '(new_size, pos) ← read_integer block pos 5;
    if bool_decide (new_size > d.(max_table_size)) then
      Err (TableSizeTooLarge new_size d.(max_table_size))
    else Ok (resize_table d new_size, pos, None)
  else
    '(idx, pos) ← read_integer block pos 4;
    '(name, pos) ← read_name d block idx pos;
    '(value, pos) ← read_string block pos;
    Ok (d, pos, Some (name, value)).

(** The loop.  An error leaves the decoder as the finished iterations made it.
    Every iteration advances, so one unit of fuel per byte suffices; [None] is
    the exhausted fuel, shown unreachable below. *)
Fixpoint decode_headers_loop (fuel : nat) (d : Decoder) (block : bytes) (pos : Z)
    (out : list DecodedHeader) : option (Decoder * exec DecodeError (list DecodedHeader)) :=
  if bool_decide (pos < zlen block) then
    match fuel with
    | O => None
    | S fuel =>
        match decode_one d block pos with
        | Ok (d, pos, e) =>
            decode_headers_loop fuel d block pos (out ++ match e with Some e => [e] | None => [] end)
        | Err e => Some (d, Err e)
        | Panic => Some (d, Panic)
        end
    end
  else Some (d, Ok out).

Definition decode_headers (d : Decoder) (block : bytes)
    : option (Decoder * exec DecodeError (list DecodedHeader)) :=
  decode_headers_loop (length block) d block 0 [].

(** The RFC 7541 C.2 vectors of the test module. *)
Example rfc7541_c_2_1 :
  encode_headers [mkHeader (bs "custom-key") (bs "custom-header") With (Some false) (Some false)
                    false false 0 0 None]
  = Ok ([0x40; 0x0a] ++ bs "custom-key" ++ [0x0d] ++ bs "custom-header").
Proof. vm_compute. reflexivity. Qed.
Example rfc7541_c_2_2 :
  encode_headers [mkHeader (bs ":path") (bs "/sample/path") Without None (Some false)
                    false false 0 0 (Some 4)]
  = Ok ([0x04; 0x0c] ++ bs "/sample/path").
Proof. vm_compute. reflexivity. Qed.
Example decode_default :
  snd <$> (exec_ok (encode_headers [Header_new (bs ":method") (bs "GET")]) ≫= decode_headers Decoder_new)
  = Some (Ok [(bs ":method", bs "GET")]).
Proof. vm_compute. reflexivity. Qed.
