(* ===== verification/HpackFacts.v ===== *)
(** * HPACK: what the writers write and how the readers read it back

    Append normal forms of the integer, string and header writers of [Hpack], and
    the reading lemmas the round-trip theorems are made of. *)
From Stdlib Require Znumtheory Zpow_facts.
From S2P Require Import Prelude Huffman Hpack.

(** ** Bytes of the integer representation *)

Lemma continuation_byte r : Z.lor (u8 (Z.land r 0x7F)) 0x80 = r mod 128 + 128.
Proof.
  change 0x7F with (2 ^ 7 - 1). rewrite land_ones_low by lia. change (2 ^ 7) with 128.
  pose proof (Z.mod_pos_bound r 128 ltac:(lia)) as Hr. set (x := r mod 128) in *.
  rewrite u8_small by (unfold is_byte; lia).
  pose proof (byte_forall (λ x, (128 <=? x) || (Z.lor x 0x80 =? x + 128)) ltac:(vm_compute; reflexivity)
    x ltac:(unfold is_byte; lia)) as H. cbn beta in H. lia.
Qed.

Lemma continuation_byte_low x : 0 ≤ x < 128 → Z.land (x + 128) 0x7F = x ∧ Z.land (x + 128) 0x80 ≠ 0.
Proof.
  intros Hx.
  pose proof (byte_forall (λ x, (128 <=? x) || ((Z.land (x + 128) 0x7F =? x) && negb (Z.land (x + 128) 0x80 =? 0)))
    ltac:(vm_compute; reflexivity) x ltac:(unfold is_byte; lia)) as H. cbn beta in H. lia.
Qed.

Lemma final_byte_low x : 0 ≤ x < 128 → Z.land x 0x7F = x ∧ Z.land x 0x80 = 0.
Proof.
  intros Hx.
  pose proof (byte_forall (λ x, (128 <=? x) || ((Z.land x 0x7F =? x) && (Z.land x 0x80 =? 0)))
    ltac:(vm_compute; reflexivity) x ltac:(unfold is_byte; lia)) as H. cbn beta in H. lia.
Qed.

(** ** Append normal forms of the writers *)

Lemma write_continuation_app fuel out r :
  write_continuation fuel out r
  = (out ++ (write_continuation fuel [] r).1, (write_continuation fuel [] r).2).
Proof.
  revert out r. induction fuel as [|fuel IH]; intros out r; cbn; [by rewrite app_nil_r|].
  case_bool_decide; [|by rewrite app_nil_r].
  rewrite IH. rewrite (IH [_]). cbn. by rewrite <- (assoc_L (++)).
Qed.

Lemma pop_snoc out x : pop (out ++ [x]) = Some (out, x).
Proof. unfold pop. rewrite last_snoc. cbn. by rewrite removelast_last. Qed.

Lemma write_bloat_snoc {E} b out x :
  @write_bloat E b (out ++ [x]) = Ok (out ++ replicate b 0x80 ++ [x]).
Proof.
  revert out. induction b as [|b IH]; intros out; [done|]. cbn [write_bloat].
  rewrite pop_snoc. cbn [unwrap mbind exec_bind]. rewrite IH. by rewrite <- !(assoc_L (++)).
Qed.

(** The septets of a remainder: the continuation bytes and the terminator. *)
Definition leads (r : Z) : bytes := (write_continuation 5 [] r).1.
Definition final (r : Z) : Z := (write_continuation 5 [] r).2.

Definition int_enc (v n pat b : Z) : bytes :=
  let max_prefix := Z.shiftl 1 n - 1 in
  if bool_decide (v < max_prefix) then [Z.lor pat (u8 v)]
  else [Z.lor pat (u8 max_prefix)] ++ leads (v - max_prefix)
       ++ replicate (Z.to_nat b) 0x80 ++ [u8 (final (v - max_prefix))].

Lemma write_integer_enc {E} out v n pat b :
  @write_integer E out v n pat b = Ok (out ++ int_enc v n pat b).
Proof.
  unfold write_integer, int_enc. case_bool_decide; [done|].
  rewrite write_continuation_app. fold (leads (v - (Z.shiftl 1 n - 1))) (final (v - (Z.shiftl 1 n - 1))).
  rewrite write_bloat_snoc. by rewrite <- !(assoc_L (++)).
Qed.

Definition str_use (data : bytes) (huffman : option bool) : bool :=
  match huffman with Some h => h | None => bool_decide (encoded_len data < zlen data) end.
Definition str_body (data : bytes) (huffman : option bool) : bytes :=
  if str_use data huffman then encode data else data.
Definition str_enc (data : bytes) (huffman : option bool) (b : Z) : bytes :=
  int_enc (u32 (zlen (str_body data huffman))) 7 (if str_use data huffman then 0x80 else 0x00) b
  ++ str_body data huffman.

Lemma write_string_enc {E} out data h b :
  @write_string E out data h b = Ok (out ++ str_enc data h b).
Proof.
  unfold write_string, str_enc, str_body, str_use.
  destruct (match h with Some h => h | None => _ end);
    rewrite write_integer_enc; cbn; by rewrite <- (assoc_L (++)).
Qed.

(** ** Reading continuation bytes *)

Lemma checked_shl_small x s : 0 ≤ x → 0 ≤ s < 32 → x * 2 ^ s < 2 ^ 32 → checked_shl x s = Some (x * 2 ^ s).
Proof.
  intros Hx Hs Hm. unfold checked_shl. rewrite bool_decide_true by lia.
  rewrite Z.shiftl_mul_pow2 by lia. by rewrite u32_small by nia.
Qed.

Lemma checked_shl_big x s : 32 ≤ s → checked_shl x s = None.
Proof. intros. unfold checked_shl. by rewrite bool_decide_false by lia. Qed.

Lemma checked_add_small x y : x + y ≤ u32_max → checked_add x y = Some (x + y).
Proof. intros. unfold checked_add. by rewrite bool_decide_true. Qed.

(** Reading one continuation byte carrying [x] while the sum stays in range. *)
Lemma read_lead x rest p v s :
  0 ≤ x < 128 → 0 ≤ s < 32 → 0 ≤ v → v + x * 2 ^ s ≤ u32_max →
  read_continuation ((x + 128) :: rest) p v s
  = read_continuation rest (p + 1) (v + x * 2 ^ s) (s + 7).
Proof.
  intros Hx Hs Hv Hm. destruct (continuation_byte_low x Hx) as [Hl Hh].
  assert (x * 2 ^ s < 2 ^ 32) as Hx32 by (unfold u32_max in Hm; lia).
  cbn [read_continuation]. rewrite Hl, checked_shl_small by lia.
  cbn [ok_or mbind exec_bind]. rewrite (checked_add_small v) by done.
  cbn [ok_or mbind exec_bind]. rewrite bool_decide_false by done.
  rewrite (checked_add_small s) by (unfold u32_max; lia). done.
Qed.

Lemma shift_bound v r s : 0 ≤ v → 1 ≤ r → 0 ≤ s → v + r * 2 ^ s ≤ u32_max → s < 32.
Proof.
  intros Hv Hr Hs Hm. apply (Z.pow_lt_mono_r_iff 2); [lia|lia|].
  pose proof (Z.pow_pos_nonneg 2 s). unfold u32_max in Hm. nia.
Qed.

Lemma leads_spec fuel r :
  0 ≤ r < 128 ^ (Z.of_nat fuel + 1) →
  let '(ls, fin) := write_continuation fuel [] r in
  0 ≤ fin < 128 ∧ (1 ≤ r → 1 ≤ fin) ∧ 0 ≤ fin * 2 ^ (7 * zlen ls) ≤ r ∧
  ∀ rest p v s, 0 ≤ s < 32 → 0 ≤ v → v + r * 2 ^ s ≤ u32_max →
    s + 7 * zlen ls < 32 ∧
    read_continuation (ls ++ rest) p v s
    = read_continuation rest (p + zlen ls) (v + (r - fin * 2 ^ (7 * zlen ls)) * 2 ^ s)
        (s + 7 * zlen ls).
Proof.
  revert r. induction fuel as [|fuel IH]; intros r Hr; cbn [write_continuation].
  { change (128 ^ (Z.of_nat 0 + 1)) with 128 in Hr. change (zlen (@nil Z)) with 0. change (2 ^ (7 * 0)) with 1.
    split_and!; [lia..|]. intros rest p v s Hs Hv Hm. split; [lia|]. f_equal; lia. }
  case_bool_decide as Hc.
  2:{ change (zlen (@nil Z)) with 0. change (2 ^ (7 * 0)) with 1.
      split_and!; [lia..|]. intros rest p v s Hs Hv Hm. split; [lia|]. f_equal; lia. }
  rewrite continuation_byte, write_continuation_app. cbn [app].
  specialize (IH (Z.shiftr r 7)). rewrite Z.shiftr_div_pow2 in * by lia. change (2 ^ 7) with 128 in *.
  pose proof (Z.mod_pos_bound r 128 ltac:(lia)) as Hmod.
  pose proof (Z.div_mod r 128 ltac:(lia)) as Hdm.
  assert (1 ≤ r / 128) as Hq by (apply Z.div_le_lower_bound; lia).
  destruct (write_continuation fuel [] (r / 128)) as [ls fin]. cbn [fst snd].
  destruct IH as (Hfin & Hne & Hle & IH).
  { replace (Z.of_nat (S fuel) + 1) with (1 + (Z.of_nat fuel + 1)) in Hr by lia.
    rewrite Z.pow_add_r in Hr by lia. change (128 ^ 1) with 128 in Hr.
    split; [lia|]. apply Z.div_lt_upper_bound; lia. }
  pose proof (zlen_nonneg ls) as Hls. rewrite zlen_cons.
  replace (7 * (1 + zlen ls)) with (7 + 7 * zlen ls) by lia.
  rewrite Z.pow_add_r by lia. change (2 ^ 7) with 128. set (P := 2 ^ (7 * zlen ls)) in *.
  split_and!; [lia..|nia|nia|].
  intros rest p v s Hs Hv Hm.
  change (((r mod 128 + 128) :: ls) ++ rest) with ((r mod 128 + 128) :: (ls ++ rest)).
  assert (0 < 2 ^ s) as Hps by (apply Z.pow_pos_nonneg; lia).
  rewrite read_lead by nia.
  assert (2 ^ (s + 7) = 128 * 2 ^ s) as Hs7 by (rewrite Z.pow_add_r by lia; lia).
  assert (0 ≤ v + r mod 128 * 2 ^ s) as Hv' by nia.
  assert ((v + r mod 128 * 2 ^ s) + r / 128 * 2 ^ (s + 7) ≤ u32_max) as Hm' by (rewrite Hs7; nia).
  assert (0 ≤ s + 7 < 32) as Hs7'.
  { split; [lia|]. eapply (shift_bound _ (r / 128)); [exact Hv'|lia|lia|exact Hm']. }
  destruct (IH rest (p + 1) _ _ Hs7' Hv' Hm') as [Hlt ->].
  split; [lia|]. f_equal; [lia| |lia]. rewrite Hs7. nia.
Qed.

Lemma leads_final r : 0 ≤ r ≤ u32_max →
  0 ≤ final r < 128 ∧ (1 ≤ r → 1 ≤ final r) ∧ 0 ≤ final r * 2 ^ (7 * zlen (leads r)) ≤ r ∧
  ∀ rest p v s, 0 ≤ s < 32 → 0 ≤ v → v + r * 2 ^ s ≤ u32_max →
    s + 7 * zlen (leads r) < 32 ∧
    read_continuation (leads r ++ rest) p v s
    = read_continuation rest (p + zlen (leads r))
        (v + (r - final r * 2 ^ (7 * zlen (leads r))) * 2 ^ s) (s + 7 * zlen (leads r)).
Proof.
  intros Hr. unfold leads, final. pose proof (leads_spec 5 r) as H. unfold u32_max in Hr.
  change (128 ^ (Z.of_nat 5 + 1)) with (2 ^ 42) in H.
  destruct (write_continuation 5 [] r) as [ls fin]. apply H. lia.
Qed.

(** The terminator: the last septet, shifted to its position. *)
Lemma read_final x rest p v s :
  0 ≤ x < 128 → 0 ≤ s < 32 → 0 ≤ v → v + x * 2 ^ s ≤ u32_max →
  read_continuation (x :: rest) p v s = Ok (v + x * 2 ^ s, p + 1).
Proof.
  intros Hx Hs Hv Hm. destruct (final_byte_low x Hx) as [Hl Hh].
  assert (x * 2 ^ s < 2 ^ 32) as Hx32 by (unfold u32_max in Hm; lia).
  cbn [read_continuation]. rewrite Hl, checked_shl_small by lia.
  cbn [ok_or mbind exec_bind]. rewrite (checked_add_small v) by done.
  cbn [ok_or mbind exec_bind]. by rewrite bool_decide_true.
Qed.

Lemma read_continuation_roundtrip r rest p v :
  0 ≤ r → 0 ≤ v → v + r ≤ u32_max →
  read_continuation (leads r ++ [u8 (final r)] ++ rest) p v 0
  = Ok (v + r, p + zlen (leads r) + 1).
Proof.
  intros Hr Hv Hm. destruct (leads_final r ltac:(lia)) as (Hf & _ & Hle & Hread).
  destruct (Hread ([u8 (final r)] ++ rest) p v 0 ltac:(lia) Hv ltac:(lia)) as [Hs ->].
  pose proof (zlen_nonneg (leads r)). cbn [app].
  rewrite u8_small by (unfold is_byte; lia). change (2 ^ 0) with 1. rewrite Z.mul_1_r, Z.add_0_l.
  rewrite read_final by lia. do 2 f_equal. lia.
Qed.

(** ** Integers *)

Lemma shiftl_1 n : 0 ≤ n → Z.shiftl 1 n = 2 ^ n.
Proof. intros. rewrite Z.shiftl_mul_pow2 by done. lia. Qed.

Lemma prefix_pow n : 1 ≤ n ≤ 7 → 2 ≤ 2 ^ n ≤ 128.
Proof.
  intros Hn. split.
  - apply (Z.pow_le_mono_r 2 1); lia.
  - apply (Z.pow_le_mono_r 2 n 7); lia.
Qed.

Lemma prefix_low pat x n :
  0 ≤ n → Z.land pat (2 ^ n - 1) = 0 → 0 ≤ x < 2 ^ n → Z.land (Z.lor pat x) (2 ^ n - 1) = x.
Proof.
  intros Hn Hp Hx. rewrite Z.land_lor_distr_l, Hp, Z.lor_0_l, land_ones_low by done.
  by apply Z.mod_small.
Qed.

Lemma read_integer_cons pre b l n :
  read_integer (pre ++ b :: l) (zlen pre) n
  = let max_prefix := Z.shiftl 1 n - 1 in
    let first := Z.land b max_prefix in
    if bool_decide (first < max_prefix) then Ok (first, zlen pre + 1)
    else read_continuation l (zlen pre + 1) max_prefix 0.
Proof.
  unfold read_integer. pose proof (zlen_nonneg pre) as Hp. pose proof (zlen_nonneg l) as Hl.
  rewrite bool_decide_false by (rewrite zlen_app, zlen_cons; lia).
  unfold byte_at. rewrite nth_zlen_app. cbn zeta. case_bool_decide; [done|]. f_equal.
  rewrite cons_middle, (assoc_L (++)). replace (zlen pre + 1) with (zlen (pre ++ [b])).
  - apply drop_zlen_app.
  - rewrite zlen_app, zlen_cons. done.
Qed.

(** Reading back an integer written without bloat. *)
Lemma read_integer_enc pre v n pat post :
  1 ≤ n ≤ 7 → Z.land pat (2 ^ n - 1) = 0 → 0 ≤ v ≤ u32_max →
  read_integer (pre ++ int_enc v n pat 0 ++ post) (zlen pre) n
  = Ok (v, zlen pre + zlen (int_enc v n pat 0)).
Proof.
  intros Hn Hp Hv. unfold int_enc. rewrite shiftl_1 by lia.
  pose proof (prefix_pow n Hn) as Hpow.
  case_bool_decide as Hc.
  - cbn [app]. rewrite read_integer_cons, shiftl_1 by lia. cbn zeta.
    rewrite u8_small by (unfold is_byte; lia). rewrite prefix_low by lia.
    by rewrite bool_decide_true.
  - cbn [app Z.to_nat replicate]. rewrite read_integer_cons, shiftl_1 by lia. cbn zeta.
    rewrite u8_small by (unfold is_byte; lia). rewrite prefix_low by lia.
    rewrite bool_decide_false by lia. rewrite <- (assoc_L (++)).
    rewrite read_continuation_roundtrip by lia. simp_len. f_equal. f_equal; lia.
Qed.

(** ** Bloat *)

(** Filler bytes only move the shift, until it leaves the 32-bit range. *)
Lemma read_fillers b rest p v s :
  0 ≤ s → 0 ≤ v ≤ u32_max →
  read_continuation (replicate b 0x80 ++ rest) p v s = Err IntegerOverflow ∨
  read_continuation (replicate b 0x80 ++ rest) p v s
  = read_continuation rest (p + Z.of_nat b) v (s + 7 * Z.of_nat b).
Proof.
  revert p s. induction b as [|b IH]; intros p s Hs Hv.
  { right. cbn. f_equal; lia. }
  destruct (decide (s < 32)) as [Hlt|Hge].
  - change (replicate (S b) 128 ++ rest) with ((0 + 128) :: (replicate b 128 ++ rest)).
    rewrite read_lead by lia. rewrite Z.mul_0_l, Z.add_0_r.
    destruct (IH (p + 1) (s + 7) ltac:(lia) Hv) as [->| ->]; [by left|right].
    f_equal; lia.
  - left. cbn [replicate app read_continuation]. by rewrite checked_shl_big by lia.
Qed.

Lemma odd_pow_rel_prime k m : 1 ≤ k → 0 ≤ m → Znumtheory.rel_prime (2 ^ m) (2 ^ k - 1).
Proof.
  intros Hk Hm. apply Znumtheory.rel_prime_sym, Zpow_facts.rel_prime_Zpower_r; [done|].
  apply Znumtheory.rel_prime_sym, Znumtheory.prime_rel_prime; [apply Znumtheory.prime_2|].
  intros [q Hq]. replace k with (1 + (k - 1)) in Hq by lia. rewrite Z.pow_add_r in Hq by lia.
  change (2 ^ 1) with 2 in Hq. lia.
Qed.

(** Shifting a non-zero 32-bit quantity further left never gives it back modulo 2^32. *)
Lemma shift_moves x k : 1 ≤ x < 2 ^ 32 → 1 ≤ k → u32 (x * 2 ^ k) ≠ x.
Proof.
  intros Hx Hk H. unfold u32 in H.
  assert ((2 ^ 32 | (2 ^ k - 1) * x)) as Hd.
  { exists (x * 2 ^ k / 2 ^ 32). pose proof (Z.div_mod (x * 2 ^ k) (2 ^ 32) ltac:(lia)). lia. }
  apply Znumtheory.Gauss in Hd; [|by apply odd_pow_rel_prime].
  apply Z.divide_pos_le in Hd; lia.
Qed.

(** A bloated integer whose remainder is not zero never reads back as itself. *)
Lemma read_integer_bloat pre v n pat b post q :
  1 ≤ n ≤ 7 → Z.land pat (2 ^ n - 1) = 0 → 2 ^ n - 1 < v ≤ u32_max → 1 ≤ b →
  read_integer (pre ++ int_enc v n pat b ++ post) (zlen pre) n ≠ Ok (v, q).
Proof.
  intros Hn Hp Hv Hb. unfold int_enc. rewrite shiftl_1 by lia.
  pose proof (prefix_pow n Hn) as Hpow.
  rewrite bool_decide_false by lia. cbn [app]. rewrite read_integer_cons, shiftl_1 by lia. cbn zeta.
  rewrite u8_small by (unfold is_byte; lia). rewrite prefix_low by lia.
  rewrite bool_decide_false by lia. rewrite <- !(assoc_L (++)).
  set (r := v - (2 ^ n - 1)). destruct (leads_final r ltac:(lia)) as (Hf & Hf1 & Hle & Hread).
  specialize (Hf1 ltac:(lia)).
  destruct (Hread (replicate (Z.to_nat b) 128 ++ [u8 (final r)] ++ post) (zlen pre + 1) (2 ^ n - 1) 0
    ltac:(lia) ltac:(lia) ltac:(lia)) as [Hs ->].
  change (2 ^ 0) with 1. rewrite Z.mul_1_r, Z.add_0_l.
  pose proof (zlen_nonneg (leads r)) as Hz. set (L := 7 * zlen (leads r)) in *.
  set (v1 := 2 ^ n - 1 + (r - final r * 2 ^ L)).
  assert (0 ≤ v1 ≤ u32_max ∧ v = v1 + final r * 2 ^ L) as [Hv1 Hvv] by (unfold v1; lia).
  destruct (read_fillers (Z.to_nat b) ([u8 (final r)] ++ post) (zlen pre + 1 + zlen (leads r)) v1 L
    ltac:(lia) Hv1) as [->| ->]; [done|].
  rewrite u8_small by (unfold is_byte; lia). cbn [app read_continuation].
  destruct (final_byte_low (final r) Hf) as [-> Hh].
  rewrite (bool_decide_true (Z.land (final r) 128 = 0)) by done.
  destruct (checked_shl _ _) as [c|] eqn:Hsh; [|done]. cbn [ok_or mbind exec_bind].
  destruct (checked_add v1 c) as [w|] eqn:Hov; [|done]. cbn [ok_or mbind exec_bind].
  unfold checked_shl in Hsh. unfold checked_add in Hov.
  case_bool_decide; [|done]. case_bool_decide; [|done].
  injection Hsh as <-. injection Hov as <-. intros [= Heq _].
  rewrite Z.shiftl_mul_pow2, Z2Nat.id in Heq by lia.
  apply (shift_moves (final r * 2 ^ L) (7 * b)).
  - unfold u32_max in *. pose proof (Z.pow_pos_nonneg 2 L ltac:(lia) ltac:(lia)). nia.
  - lia.
  - rewrite <- Z.mul_assoc, <- Z.pow_add_r by lia. lia.
Qed.

(** ** Strings *)

Lemma str_body_wf data h : wf_bytes data → wf_bytes (str_body data h).
Proof. intros Hw. unfold str_body. case_match; [by apply encode_bits|done]. Qed.

Lemma str_body_length data h : wf_bytes data → zlen data < 2 ^ 30 → 0 ≤ zlen (str_body data h) < 2 ^ 32.
Proof.
  intros Hw Hl. pose proof (zlen_nonneg (str_body data h)). split; [done|]. unfold str_body.
  case_match; [|lia]. pose proof (encode_length_bound data Hw). lia.
Qed.

Lemma int_enc_head v n pat b : ∃ x l, int_enc v n pat b = Z.lor pat x :: l ∧ (0 ≤ v → 1 ≤ n ≤ 7 → 0 ≤ x < 2 ^ n).
Proof.
  unfold int_enc. case_bool_decide as Hc; do 2 eexists; (split; [reflexivity|]); intros Hv Hn;
    rewrite shiftl_1 in * by lia.
  all: pose proof (prefix_pow n Hn) as Hpow.
  all: rewrite u8_small by (unfold is_byte; lia); lia.
Qed.

Lemma huffman_flag x (use : bool) : 0 ≤ x < 128 →
  negb (bool_decide (Z.land (Z.lor (if use then 0x80 else 0x00) x) 0x80 = 0)) = use.
Proof.
  intros Hx.
  pose proof (byte_forall (λ x, (128 <=? x) || (negb (Z.land (Z.lor 0x80 x) 0x80 =? 0)
    && (Z.land (Z.lor 0x00 x) 0x80 =? 0))) ltac:(vm_compute; reflexivity) x ltac:(unfold is_byte; lia)) as H.
  cbn beta in H. case_bool_decide as Hd; destruct use; cbn; lia.
Qed.

Lemma byte_at_app pre x l : byte_at (pre ++ x :: l) (zlen pre) = x.
Proof. apply nth_zlen_app. Qed.

Lemma read_string_enc pre data h post :
  wf_bytes data → zlen data < 2 ^ 30 →
  read_string (pre ++ str_enc data h 0 ++ post) (zlen pre)
  = Ok (data, zlen pre + zlen (str_enc data h 0)).
Proof.
  intros Hw Hl. pose proof (str_body_length data h Hw Hl) as Hb. unfold str_enc.
  rewrite u32_small by lia. set (body := str_body data h) in *. set (use := str_use data h).
  destruct (int_enc_head (zlen body) 7 (if use then 0x80 else 0) 0) as (x & l & Hie & Hx).
  specialize (Hx ltac:(lia) ltac:(lia)). change (2 ^ 7) with 128 in Hx.
  set (ie := int_enc (zlen body) 7 _ 0) in *.
  unfold read_string. pose proof (zlen_nonneg pre). pose proof (zlen_nonneg ie). pose proof (zlen_nonneg post).
  rewrite bool_decide_false by (rewrite Hie; simp_len; pose proof (zlen_nonneg l); lia).
  assert (byte_at (pre ++ (ie ++ body) ++ post) (zlen pre) = Z.lor (if use then 0x80 else 0) x) as ->.
  { rewrite Hie. apply byte_at_app. }
  rewrite huffman_flag by done. rewrite <- (assoc_L (++) ie). unfold ie.
  rewrite read_integer_enc; [|lia|by destruct use|unfold u32_max; lia]. fold ie.
  cbn [mbind exec_bind]. rewrite bool_decide_false by (simp_len; lia).
  rewrite (assoc_L (++) pre ie). replace (zlen pre + zlen ie) with (zlen (pre ++ ie)) by (by rewrite zlen_app).
  rewrite drop_zlen_app, take_zlen_app.
  assert ((if use then map_err Huffman (decode body) else Ok body) = Ok data) as ->.
  { unfold body, str_body. fold use. destruct use; [|done]. by rewrite decode_encode. }
  cbn. do 2 f_equal. simp_len. lia.
Qed.
