(* ===== verification/HpackProps.v ===== *)
(** * HPACK: round trip, dynamic table, totality, validation gate *)
From S2P Require Import Prelude Huffman Hpack HpackFacts.

(** ** One header field representation *)

(** The (name, value) pair a conforming receiver must see. *)
Definition field (h : Header) : DecodedHeader :=
  match h.(force_static_index) with
  | Some idx => ((nth (Z.to_nat (idx - 1)) STATIC_TABLE ([], [])).1, h.(value))
  | None => (h.(name), h.(value))
  end.

Definition index_of (h : Header) : Z := default 0 h.(force_static_index).

Definition header_enc (h : Header) : bytes :=
  let '(pat, bits) := prefix_of h.(indexing) in
  int_enc (index_of h) bits pat 0
  ++ (match h.(force_static_index) with
      | Some _ => []
      | None => str_enc h.(name) h.(huffman_name) h.(length_bloat_name)
      end)
  ++ str_enc h.(value) h.(huffman_value) h.(length_bloat_value).

(** Everything [encode_one] checks. *)
Definition accepts (h : Header) : Prop :=
  (h.(name) ≠ [] ∨ is_Some h.(force_static_index)) ∧
  h.(length_bloat_name) ≤ 3 ∧ h.(length_bloat_value) ≤ 3 ∧
  (h.(allow_invalid_name) = true ∨ is_Some h.(force_static_index) ∨ is_name_valid h.(name) = true) ∧
  (h.(allow_invalid_value) = true ∨ is_value_valid h.(value) = true) ∧
  (∀ idx, h.(force_static_index) = Some idx → 1 ≤ idx ≤ 61).

Lemma encode_one_ok h out out' :
  encode_one h out = Ok out' → accepts h ∧ out' = out ++ header_enc h.
Proof.
  unfold encode_one, accepts, header_enc, index_of.
  destruct (bool_decide (name h = [])) eqn:Hn; destruct (force_static_index h) as [idx|] eqn:Hi; cbn;
    try done.
  all: destruct (bool_decide (length_bloat_name h > 3)) eqn:Hb1; [done|];
    destruct (bool_decide (length_bloat_value h > 3)) eqn:Hb2; [done|];
    apply bool_decide_eq_false in Hb1, Hb2.
  all: destruct (allow_invalid_name h) eqn:Han, (is_name_valid (name h)) eqn:Hnv; cbn; try done.
  all: destruct (allow_invalid_value h) eqn:Hav, (is_value_valid (value h)) eqn:Hvv; cbn; try done.
  all: destruct (prefix_of (indexing h)) as [pat bits].
  all: try (destruct (bool_decide (1 ≤ idx ≤ 61)) eqn:Hr; cbn; [apply bool_decide_eq_true in Hr|done]).
  all: rewrite ?write_integer_enc; cbn.
  all: try rewrite (bool_decide_false (idx = 0)) by lia.
  all: try rewrite (bool_decide_true (0 = 0)) by done; cbn.
  all: rewrite ?write_string_enc; cbn; rewrite ?write_string_enc; intros [= <-].
  all: (split; [|by rewrite <- ?(assoc_L (++))]).
  all: try apply bool_decide_eq_false in Hn.
  all: split_and!; try lia; try naive_solver.
Qed.

(** The first byte tells the decoder which representation follows. *)
Definition prefix_ok (pat bits x : Z) : bool :=
  (2 ^ bits <=? x) ||
  ((Z.land (Z.lor pat x) 0x80 =? 0)
   && (if pat =? 0x40 then Z.land (Z.lor pat x) 0xC0 =? 0x40
       else negb (Z.land (Z.lor pat x) 0xC0 =? 0x40) && negb (Z.land (Z.lor pat x) 0xE0 =? 0x20))).

Lemma prefix_bytes i x : let '(pat, bits) := prefix_of i in 0 ≤ x < 2 ^ bits →
  Z.land (Z.lor pat x) 0x80 = 0 ∧
  (if bool_decide (i = With) then Z.land (Z.lor pat x) 0xC0 = 0x40
   else Z.land (Z.lor pat x) 0xC0 ≠ 0x40 ∧ Z.land (Z.lor pat x) 0xE0 ≠ 0x20).
Proof.
  destruct i; cbn [prefix_of]; intros Hx.
  1: pose proof (byte_forall (prefix_ok 0x40 6) ltac:(vm_compute; reflexivity) x) as H.
  2: pose proof (byte_forall (prefix_ok 0x00 4) ltac:(vm_compute; reflexivity) x) as H.
  3: pose proof (byte_forall (prefix_ok 0x10 4) ltac:(vm_compute; reflexivity) x) as H.
  all: specialize (H ltac:(unfold is_byte; lia)); unfold prefix_ok in H.
  all: apply orb_true_iff in H as [H|H]; [apply Z.leb_le in H; lia|]; apply andb_true_iff in H as [H1 H2]; apply Z.eqb_eq in H1.
  all: split; [done|].
  - change (64 =? 64) with true in H2. rewrite bool_decide_true by done. by apply Z.eqb_eq.
  - change (0 =? 64) with false in H2. cbn iota in H2. rewrite bool_decide_false by done. lia.
  - change (16 =? 64) with false in H2. cbn iota in H2. rewrite bool_decide_false by done. lia.
Qed.

Lemma lookup_static d idx : 1 ≤ idx ≤ 61 →
  lookup_index d idx = Ok (nth (Z.to_nat (idx - 1)) STATIC_TABLE ([], [])).
Proof.
  intros Hi. unfold lookup_index. change (zlen STATIC_TABLE) with 61.
  rewrite bool_decide_false by lia. rewrite bool_decide_true by lia.
  rewrite (list_lookup_lookup_total_lt STATIC_TABLE) by (change (length STATIC_TABLE) with 61%nat; lia).
  cbn [unwrap]. f_equal. rewrite list_lookup_total_alt, nth_lookup.
  destruct (STATIC_TABLE !! _) eqn:E; [done|].
  apply lookup_ge_None in E. change (length STATIC_TABLE) with 61%nat in E. lia.
Qed.

Definition plain (h : Header) : Prop :=
  wf_bytes h.(name) ∧ wf_bytes h.(value) ∧ zlen h.(name) < 2 ^ 30 ∧ zlen h.(value) < 2 ^ 30 ∧
  h.(length_bloat_name) = 0 ∧ h.(length_bloat_value) = 0.

(** The decoder state after a field: only incremental indexing stores it. *)
Definition after (d : Decoder) (h : Header) : Decoder :=
  if bool_decide (h.(indexing) = With) then add_to_dynamic_table d (field h).1 (field h).2 else d.

Lemma read_name_enc d h pre post :
  plain h → accepts h →
  read_name d (pre ++ (match h.(force_static_index) with
                       | Some _ => []
                       | None => str_enc h.(name) h.(huffman_name) 0
                       end) ++ post) (index_of h) (zlen pre)
  = Ok ((field h).1, zlen pre + zlen (match h.(force_static_index) with
                       | Some _ => []
                       | None => str_enc h.(name) h.(huffman_name) 0
                       end)).
Proof.
  intros (Hwn & _ & Hln & _) (_ & _ & _ & _ & _ & Hidx). unfold read_name, index_of, field.
  destruct (force_static_index h) as [idx|]; cbn [from_option id].
  - specialize (Hidx idx eq_refl). rewrite bool_decide_false by lia. rewrite lookup_static by done.
    cbn. by rewrite Z.add_0_r.
  - rewrite bool_decide_true by done. by apply read_string_enc.
Qed.

Lemma decode_one_enc d h pre post :
  plain h → accepts h →
  decode_one d (pre ++ header_enc h ++ post) (zlen pre)
  = Ok (after d h, zlen pre + zlen (header_enc h), Some (field h)).
Proof.
  intros Hp Ha. pose proof Hp as (_ & Hwv & _ & Hlv & Hbn & Hbv).
  assert (0 ≤ index_of h ≤ 61) as Hidx.
  { destruct Ha as (_ & _ & _ & _ & _ & Hi). unfold index_of.
    destruct (force_static_index h) as [idx|]; [specialize (Hi idx eq_refl)|]; cbn; lia. }
  unfold header_enc, after. rewrite Hbn, Hbv. pose proof (prefix_bytes (indexing h)) as Hpre.
  set (nm := match force_static_index h with Some _ => [] | None => str_enc (name h) (huffman_name h) 0 end).
  set (vl := str_enc (value h) (huffman_value h) 0).
  assert (∃ pat bits, prefix_of (indexing h) = (pat, bits) ∧ 1 ≤ bits ≤ 7 ∧ Z.land pat (2 ^ bits - 1) = 0
    ∧ bits = (if bool_decide (indexing h = With) then 6 else 4))
    as (pat & bits & Hpb & Hbits & Hpat & Hbv') by (by destruct (indexing h); do 2 eexists).
  rewrite Hpb. destruct (int_enc_head (index_of h) bits pat 0) as (x & l & Hie & Hx).
  specialize (Hpre x). rewrite Hpb in Hpre. destruct Hpre as [H80 Hsel]; [by apply Hx; lia|].
  set (ie := int_enc (index_of h) bits pat 0) in *. rewrite <- !(assoc_L (++)).
  assert (read_integer (pre ++ ie ++ nm ++ vl ++ post) (zlen pre) bits = Ok (index_of h, zlen (pre ++ ie))) as Hint.
  { unfold ie. rewrite read_integer_enc; [by rewrite zlen_app|done|done|unfold u32_max; lia]. }
  assert (read_name d (pre ++ ie ++ nm ++ vl ++ post) (index_of h) (zlen (pre ++ ie))
          = Ok ((field h).1, zlen (pre ++ ie ++ nm))) as Hname.
  { rewrite (assoc_L (++) pre ie). rewrite (read_name_enc d h) by done. fold nm. do 2 f_equal. simp_len. lia. }
  assert (read_string (pre ++ ie ++ nm ++ vl ++ post) (zlen (pre ++ ie ++ nm))
          = Ok (value h, zlen (pre ++ ie ++ nm) + zlen vl)) as Hval.
  { replace (pre ++ ie ++ nm ++ vl ++ post) with ((pre ++ ie ++ nm) ++ vl ++ post) by (by rewrite <- !(assoc_L (++))).
    by apply read_string_enc. }
  assert (field h = ((field h).1, value h)) as Hfield by (unfold field; by destruct (force_static_index h)).
  assert (zlen (pre ++ ie ++ nm) + zlen vl = zlen pre + zlen (ie ++ nm ++ vl)) as Hend by (simp_len; lia).
  unfold decode_one. assert (byte_at (pre ++ ie ++ nm ++ vl ++ post) (zlen pre) = Z.lor pat x) as ->.
  { rewrite Hie. apply byte_at_app. }
  rewrite (bool_decide_true (Z.land (Z.lor pat x) 128 = 0)) by done. cbn [negb].
  rewrite Hbv' in Hint. revert Hint Hsel. destruct (bool_decide (indexing h = With)); intros Hint Hsel.
  - rewrite (bool_decide_true (Z.land (Z.lor pat x) 192 = 64)) by done.
    rewrite Hint. cbn [mbind exec_bind]. rewrite Hname. cbn [mbind exec_bind]. rewrite Hval.
    cbn [mbind exec_bind]. by rewrite Hend, Hfield.
  - destruct Hsel as [Hs1 Hs2]. rewrite !bool_decide_false by done.
    rewrite Hint. cbn [mbind exec_bind]. rewrite Hname. cbn [mbind exec_bind]. rewrite Hval.
    cbn [mbind exec_bind]. by rewrite Hend, Hfield.
Qed.

(** ** Header blocks *)

Fixpoint block_enc (hs : list Header) : bytes :=
  match hs with [] => [] | h :: hs => header_enc h ++ block_enc hs end.

Lemma encode_headers_loop_ok hs out out' :
  encode_headers_loop hs out = Ok out' → Forall accepts hs ∧ out' = out ++ block_enc hs.
Proof.
  revert out. induction hs as [|h hs IH]; intros out; cbn [encode_headers_loop block_enc].
  - intros [= <-]. by rewrite app_nil_r.
  - intros (out1 & H1 & H)%bind_Ok. apply encode_one_ok in H1 as [Ha ->].
    apply IH in H as [Hf ->]. split; [by constructor|]. by rewrite <- (assoc_L (++)).
Qed.

Lemma header_enc_nonempty h : 1 ≤ zlen (header_enc h).
Proof.
  unfold header_enc. destruct (prefix_of (indexing h)) as [pat bits].
  destruct (int_enc_head (index_of h) bits pat 0) as (x & l & -> & _). rewrite zlen_app, zlen_cons.
  pose proof (zlen_nonneg l). match goal with |- context [_ + zlen ?k] => pose proof (zlen_nonneg k) end. lia.
Qed.

Lemma decode_block fuel d hs pre post out :
  Forall plain hs → Forall accepts hs → (length (block_enc hs) + length post ≤ fuel)%nat →
  decode_headers_loop fuel d (pre ++ block_enc hs ++ post) (zlen pre) out
  = decode_headers_loop (fuel - length hs) (fold_left after hs d)
      ((pre ++ block_enc hs) ++ post) (zlen (pre ++ block_enc hs)) (out ++ map field hs).
Proof.
  intros Hp. revert fuel d pre out. induction Hp as [|h hs Hh Hp IH]; intros fuel d pre out Ha Hf.
  { cbn. rewrite !app_nil_r. by rewrite Nat.sub_0_r. }
  inversion_clear Ha as [|? ? Hah Ha']. cbn [block_enc] in *. rewrite length_app in Hf.
  pose proof (header_enc_nonempty h) as Hne. unfold zlen in Hne.
  destruct fuel as [|fuel]; [lia|]. cbn [decode_headers_loop].
  rewrite bool_decide_true by (simp_len; unfold zlen; lia).
  rewrite <- (assoc_L (++) (header_enc h)). rewrite decode_one_enc by done.
  rewrite (assoc_L (++) pre (header_enc h)), <- zlen_app, IH by (done || lia).
  cbn [length fold_left map Nat.sub]. rewrite <- !(assoc_L (++)). cbn. done.
Qed.

Lemma decode_headers_block hs d :
  Forall plain hs → Forall accepts hs →
  decode_headers d (block_enc hs) = Some (fold_left after hs d, Ok (map field hs)).
Proof.
  intros Hp Ha. unfold decode_headers.
  pose proof (decode_block (length (block_enc hs)) d hs [] [] [] Hp Ha) as H.
  rewrite app_nil_r in H. cbn [app] in H. change (zlen []) with 0 in H. rewrite H by (cbn; lia).
  rewrite app_nil_r. destruct (length (block_enc hs) - length hs)%nat; cbn [decode_headers_loop];
    by rewrite bool_decide_false by lia.
Qed.

(** C13: every header block the encoder produces without length bloat, from names and
    values shorter than 2^30 bytes, decodes, on
    any decoder state, to exactly the fields that were asked for, in order: the
    given name (or the static-table name that replaces it) and the given value,
    whatever the choice of indexing and of Huffman or raw strings; and the
    decoder's table afterwards is the old one with the incrementally indexed
    fields added in order. *)
Theorem hpack_block_roundtrip (hs : list Header) (d : Decoder) (block : bytes) :
  Forall plain hs → encode_headers hs = Ok block →
  decode_headers d block = Some (fold_left after hs d, Ok (map field hs)).
Proof.
  intros Hp He. apply encode_headers_loop_ok in He as [Ha ->]. by apply decode_headers_block.
Qed.

Lemma hpack_block_roundtrip_witness :
  let hs := [mkHeader (bs "x-id") (bs "42") With (Some true) None false false 0 0 None;
             mkHeader [] (bs "/sample/path") Never None (Some false) false false 0 0 (Some 15)] in
  decode_headers Decoder_new
    ([64; 131; 242; 177; 164; 2; 52; 50; 31; 0; 12] ++ bs "/sample/path")
  = Some (fold_left after hs Decoder_new, Ok [(bs "x-id", bs "42"); (bs "accept-charset", bs "/sample/path")]).
Proof.
  intros hs. apply (hpack_block_roundtrip hs).
  - repeat constructor; cbn; try apply bs_wf; vm_compute; congruence.
  - vm_compute. reflexivity.
Defined.

(** ** Integers *)

Lemma int_enc_length v n pat : 1 ≤ n ≤ 7 → 0 ≤ v ≤ u32_max → 1 ≤ zlen (int_enc v n pat 0) ≤ 6.
Proof.
  intros Hn Hv. unfold int_enc. rewrite shiftl_1 by lia. pose proof (prefix_pow n Hn).
  case_bool_decide; [done|]. cbn [Z.to_nat replicate]. simp_len.
  destruct (leads_final (v - (2 ^ n - 1)) ltac:(lia)) as (_ & _ & _ & Hread).
  destruct (Hread [] 0 0 0 ltac:(lia) ltac:(lia) ltac:(lia)) as [Hs _].
  pose proof (zlen_nonneg (leads (v - (2 ^ n - 1)))). lia.
Qed.

(** Every 32-bit integer, for every prefix width from 1 to 7 bits and every
    representation pattern above the prefix, is written in at most six bytes and
    read back as itself, wherever it stands in the buffer. *)
Theorem hpack_integer_roundtrip (out post : bytes) (v n pat : Z) :
  1 ≤ n ≤ 7 → Z.land pat (2 ^ n - 1) = 0 → 0 ≤ v ≤ u32_max →
  ∃ enc, @write_integer Empty_set out v n pat 0 = Ok (out ++ enc) ∧ 1 ≤ zlen enc ≤ 6 ∧
    read_integer (out ++ enc ++ post) (zlen out) n = Ok (v, zlen out + zlen enc).
Proof.
  intros Hn Hp Hv. exists (int_enc v n pat 0). rewrite write_integer_enc.
  split; [done|]. split; [by apply int_enc_length|]. by apply read_integer_enc.
Qed.

Lemma hpack_integer_roundtrip_witness :
  ∃ enc, @write_integer Empty_set [7] 1337 5 0x20 0 = Ok ([7] ++ enc) ∧ 1 ≤ zlen enc ≤ 6 ∧
    read_integer ([7] ++ enc ++ [9]) (zlen [7]) 5 = Ok (1337, zlen [7] + zlen enc).
Proof.
  apply (hpack_integer_roundtrip [7] [9] 1337 5 0x20); [lia|reflexivity|unfold u32_max; lia].
Defined.

(** The bloat knob does not produce an overlong form of the same integer.
    A value inside the prefix is written as without bloat; a value past the
    prefix, with any bloat from 1 up, is never read back as itself. *)
Theorem hpack_bloat_changes_value (out post : bytes) (v n pat bloat : Z) (out' : bytes) :
  1 ≤ n ≤ 7 → Z.land pat (2 ^ n - 1) = 0 → 0 ≤ v ≤ u32_max → 1 ≤ bloat →
  @write_integer Empty_set out v n pat bloat = Ok out' →
  if bool_decide (v < 2 ^ n - 1) then @write_integer Empty_set out v n pat 0 = Ok out'
  else v ≠ 2 ^ n - 1 → ∀ q, read_integer (out' ++ post) (zlen out) n ≠ Ok (v, q).
Proof.
  intros Hn Hp Hv Hb. rewrite !write_integer_enc. intros [= <-]. case_bool_decide as Hc.
  - unfold int_enc. rewrite shiftl_1 by lia. by rewrite bool_decide_true.
  - intros Hne q. rewrite <- (assoc_L (++)). apply read_integer_bloat; [done|done|lia|done].
Qed.

Lemma hpack_bloat_changes_value_witness :
  @write_integer Empty_set [] 200 7 0 2 = Ok [127; 128; 128; 73] ∧
  if bool_decide (200 < 2 ^ 7 - 1) then @write_integer Empty_set [] 200 7 0 0 = Ok [127; 128; 128; 73]
  else 200 ≠ 2 ^ 7 - 1 → ∀ q, read_integer ([127; 128; 128; 73] ++ []) (zlen (@nil Z)) 7 ≠ Ok (200, q).
Proof.
  split; [reflexivity|].
  apply (hpack_bloat_changes_value [] [] 200 7 0 2); unfold u32_max; (lia || reflexivity).
Defined.

(** ** The validation gate *)

(** A lowercase token character of RFC 7230. *)
Definition token_char (c : Z) : Prop :=
  97 ≤ c ≤ 122 ∨ 48 ≤ c ≤ 57 ∨ c ∈ bs "!#$%&'*+-.^_`|~".

(** A field name as HTTP/2 wants it: a lowercase token, or a pseudo-header. *)
Definition name_ok (n : bytes) : Prop :=
  (n ≠ [] ∧ Forall token_char n) ∨ (∃ rest, n = ch ":" :: rest ∧ rest ≠ [] ∧ Forall token_char rest).

Definition value_ok (v : bytes) : Prop := 0 ∉ v ∧ 10 ∉ v ∧ 13 ∉ v.

Lemma existsb_elem (P : Z → bool) l : existsb P l = true ↔ ∃ x, x ∈ l ∧ P x = true.
Proof. rewrite existsb_exists. by setoid_rewrite list_elem_of_In. Qed.

Lemma is_lowercase_token_char_spec c : is_lowercase_token_char c = true ↔ token_char c.
Proof.
  unfold is_lowercase_token_char, token_char. rewrite !orb_true_iff, !andb_true_iff, !Z.leb_le, existsb_elem.
  change (bs "!#$%&'" ++ bs "*+-.^_" ++ bs "`|~") with (bs "!#$%&'*+-.^_`|~").
  setoid_rewrite Z.eqb_eq. naive_solver.
Qed.

Lemma forallb_token l : forallb is_lowercase_token_char l = true ↔ Forall token_char l.
Proof.
  rewrite forallb_forall, Forall_forall. setoid_rewrite list_elem_of_In.
  by setoid_rewrite is_lowercase_token_char_spec.
Qed.

Lemma is_name_valid_spec n : is_name_valid n = true ↔ name_ok n.
Proof.
  unfold name_ok, is_name_valid. destruct n as [|c n]; [naive_solver|].
  rewrite andb_true_iff, forallb_token, Forall_cons. destruct (Z.eqb_spec c (ch ":")) as [->|Hc].
  - assert (¬ token_char (ch ":")) as Ht by (rewrite <- is_lowercase_token_char_spec; done).
    rewrite negb_true_iff, Z.eqb_neq, zlen_cons. split.
    + intros [Hl Hf]. right. exists n. split_and!; try done. intros ->. by apply Hl.
    + intros [(_ & Hh & _)|(r & [= <-] & Hr & Hf)]; [done|]. split; [|done].
      destruct n; [done|]. rewrite zlen_cons. pose proof (zlen_nonneg n). lia.
  - rewrite is_lowercase_token_char_spec. naive_solver.
Qed.

Lemma is_value_valid_spec v : is_value_valid v = true ↔ value_ok v.
Proof.
  unfold is_value_valid, value_ok. rewrite negb_true_iff, <- not_true_iff_false, existsb_elem.
  setoid_rewrite orb_true_iff. setoid_rewrite orb_true_iff. setoid_rewrite Z.eqb_eq. naive_solver.
Qed.

(** Once the checks are passed, only a static index out of range fails. *)
Lemma encode_one_writes h out pat bits idx : ∃ out',
  (out ← write_integer out idx bits pat 0;
   out ← (if bool_decide (idx = 0)
          then write_string out h.(name) h.(huffman_name) h.(length_bloat_name)
          else Ok out);
   write_string out h.(value) h.(huffman_value) h.(length_bloat_value)) = @Ok EncodeError _ out'.
Proof.
  rewrite write_integer_enc. cbn. destruct (bool_decide (idx = 0)); rewrite ?write_string_enc; cbn;
    rewrite ?write_string_enc; eauto.
Qed.

Lemma encode_one_complete h out : accepts h → is_Some (exec_ok (encode_one h out)).
Proof.
  unfold encode_one, accepts. intros (H1 & H2 & H3 & H4 & H5 & H6).
  destruct (bool_decide (name h = []) && negb (bool_decide (is_Some (force_static_index h)))) eqn:Hn.
  { apply andb_true_iff in Hn as [Hn Hs]. apply bool_decide_eq_true in Hn.
    apply negb_true_iff, bool_decide_eq_false in Hs. naive_solver. }
  rewrite (bool_decide_false (length_bloat_name h > 3)), (bool_decide_false (length_bloat_value h > 3)) by lia.
  destruct (negb (allow_invalid_name h) && negb (bool_decide (is_Some (force_static_index h)))
    && negb (is_name_valid (name h))) eqn:Hnm.
  { apply andb_true_iff in Hnm as [[Hn1 Hs]%andb_true_iff Hv].
    apply negb_true_iff in Hn1, Hs, Hv. apply bool_decide_eq_false in Hs. naive_solver congruence. }
  destruct (negb (allow_invalid_value h) && negb (is_value_valid (value h))) eqn:Hvl.
  { apply andb_true_iff in Hvl as [Hn1 Hv]. apply negb_true_iff in Hn1, Hv. destruct H5; congruence. }
  destruct (prefix_of (indexing h)) as [pat bits].
  destruct (force_static_index h) as [idx|]; [rewrite bool_decide_true by auto|]; cbn [mbind exec_bind].
  - destruct (encode_one_writes h out pat bits idx) as [o Ho]. cbn [mbind exec_bind] in Ho. rewrite Ho. eauto.
  - destruct (encode_one_writes h out pat bits 0) as [o Ho]. cbn [mbind exec_bind] in Ho. rewrite Ho. eauto.
Qed.

Lemma encode_one_no_panic h out : is_panic (encode_one h out) = false.
Proof.
  unfold encode_one. repeat (case_match; [done|]). destruct (prefix_of (indexing h)) as [pat bits].
  destruct (force_static_index h) as [idx|]; [case_match; [|done]|]; cbn [mbind exec_bind].
  - destruct (encode_one_writes h out pat bits idx) as [o Ho]. cbn [mbind exec_bind] in Ho. by rewrite Ho.
  - destruct (encode_one_writes h out pat bits 0) as [o Ho]. cbn [mbind exec_bind] in Ho. by rewrite Ho.
Qed.

(** What a header must be for the encoder to take it, independently of the code:
    each [allow_invalid_*] knob lifts one requirement, a static index replaces
    the name. *)
Definition admissible (h : Header) : Prop :=
  (h.(name) ≠ [] ∨ is_Some h.(force_static_index)) ∧
  h.(length_bloat_name) ≤ 3 ∧ h.(length_bloat_value) ≤ 3 ∧
  (h.(allow_invalid_name) = true ∨ is_Some h.(force_static_index) ∨ name_ok h.(name)) ∧
  (h.(allow_invalid_value) = true ∨ value_ok h.(value)) ∧
  (∀ idx, h.(force_static_index) = Some idx → 1 ≤ idx ≤ 61).

Lemma accepts_admissible h : accepts h ↔ admissible h.
Proof. unfold accepts, admissible. by rewrite is_name_valid_spec, is_value_valid_spec. Qed.

(** C37: the encoder is a gate.  It never panics, and it accepts a header list
    exactly when every header is admissible: a non-empty lowercase token (or
    pseudo-header) name, a value without NUL, LF and CR, bloat at most 3, a
    static index between 1 and 61, each requirement lifted only by its own knob. *)
Theorem encoder_gate (hs : list Header) :
  match encode_headers hs with
  | Ok _ => Forall admissible hs
  | Err _ => ¬ Forall admissible hs
  | Panic => False
  end.
Proof.
  unfold encode_headers. generalize (@nil Z). induction hs as [|h hs IH]; intros out; [constructor|].
  cbn [encode_headers_loop]. pose proof (encode_one_no_panic h out) as Hp.
  pose proof (encode_one_complete h out) as Hc. rewrite accepts_admissible in Hc.
  destruct (encode_one h out) as [o|e|] eqn:Ho; cbn [mbind exec_bind].
  - apply encode_one_ok in Ho as [Ha%accepts_admissible _]. specialize (IH o).
    destruct (encode_headers_loop hs o); rewrite ?Forall_cons; naive_solver.
  - intros [Ha _]%Forall_cons. by destruct (Hc Ha).
  - done.
Qed.
