(* ===== verification/HpackTable.v ===== *)
(** * HPACK: the decoder's dynamic table (src/h2/hpack.rs)

    The size account and the bound of the dynamic table as an invariant of the
    decoder under every input, the table as a refinement of RFC 7541's
    "longest recent prefix that fits", totality of decoding, and what the
    in-stream size update does to later updates. *)
From S2P Require Import Prelude Huffman Hpack HpackFacts.

(** ** The specification of the table *)

#[local] Arguments entry_size : simpl never.
#[local] Arguments u32 : simpl never.

Fixpoint table_size (table : list DecodedHeader) : Z :=
  match table with [] => 0 | e :: table => entry_size e + table_size table end.

(** The most recent entries whose sizes fit in [max] (RFC 7541 section 4.4). *)
Fixpoint fitting (max : Z) (table : list DecodedHeader) : list DecodedHeader :=
  match table with
  | [] => []
  | e :: table => if bool_decide (entry_size e ≤ max) then e :: fitting (max - entry_size e) table else []
  end.

Definition wf_decoder (d : Decoder) : Prop :=
  d.(dynamic_table_size) = table_size d.(dynamic_table) ∧
  d.(dynamic_table_size) ≤ d.(max_table_size) < 2 ^ 31.

Lemma entry_size_range e : 0 ≤ entry_size e < 2 ^ 32.
Proof. apply u32_range. Qed.

Lemma table_size_nonneg t : 0 ≤ table_size t.
Proof. induction t as [|e t IH]; cbn; [lia|]. pose proof (entry_size_range e). lia. Qed.

Lemma table_size_snoc t e : table_size (t ++ [e]) = table_size t + entry_size e.
Proof. induction t as [|x t IH]; cbn; [lia|]. rewrite IH. lia. Qed.

Lemma fitting_all max t : table_size t ≤ max → fitting max t = t.
Proof.
  revert max. induction t as [|e t IH]; intros max H; [done|]. cbn in *.
  pose proof (table_size_nonneg t). rewrite bool_decide_true by lia. f_equal. apply IH. lia.
Qed.

Lemma fitting_snoc max t e : max < table_size (t ++ [e]) → fitting max (t ++ [e]) = fitting max t.
Proof.
  revert max. induction t as [|x t IH]; intros max H.
  - cbn in *. by rewrite bool_decide_false by lia.
  - cbn in *. case_bool_decide; [|done]. f_equal. apply IH. lia.
Qed.

Lemma fitting_size max t : 0 ≤ max → table_size (fitting max t) ≤ max.
Proof.
  revert max. induction t as [|e t IH]; intros max H; cbn; [lia|].
  case_bool_decide; cbn; [|lia]. specialize (IH (max - entry_size e)). lia.
Qed.

(** The eviction loop computes the fitting prefix. *)
Lemma evict_fitting fuel over max t :
  (∀ s, 0 ≤ s ≤ table_size t → over s = bool_decide (max < s)) →
  table_size t < 2 ^ 32 → 0 ≤ max → (length t < fuel)%nat →
  evict fuel over t (table_size t) = (fitting max t, table_size (fitting max t)).
Proof.
  revert fuel. induction t as [|e t IH] using rev_ind; intros fuel Ho Hb Hm Hf.
  - destruct fuel; [cbn in Hf; lia|]. cbn. by destruct (over 0).
  - destruct fuel; [lia|]. cbn [evict]. pose proof (table_size_nonneg t). rewrite Ho by (pose proof (table_size_nonneg (t ++ [e])); lia).
    rewrite table_size_snoc in *. pose proof (entry_size_range e).
    destruct (bool_decide (max < table_size t + entry_size e)) eqn:Hd.
    + apply bool_decide_eq_true in Hd. rewrite last_snoc, removelast_last.
      replace (u32 (table_size t + entry_size e - entry_size e)) with (table_size t)
        by (symmetry; rewrite u32_small; lia).
      rewrite fitting_snoc by (by rewrite table_size_snoc).
      rewrite length_app in Hf. cbn in Hf. apply IH; try lia. intros s Hs. apply Ho. lia.
    + apply bool_decide_eq_false in Hd. rewrite fitting_all; [by rewrite table_size_snoc|].
      rewrite table_size_snoc. lia.
Qed.

Lemma add_fitting d n v : wf_decoder d →
  add_to_dynamic_table d n v
  = let t := fitting d.(max_table_size) ((n, v) :: d.(dynamic_table)) in
    mkDecoder t (table_size t) d.(max_table_size).
Proof.
  intros [Hs Hb]. unfold add_to_dynamic_table. cbn [fitting].
  pose proof (entry_size_range (n, v)). pose proof (table_size_nonneg (dynamic_table d)).
  destruct (bool_decide (entry_size (n, v) > max_table_size d)) eqn:Hd.
  - apply bool_decide_eq_true in Hd. by rewrite bool_decide_false by lia.
  - apply bool_decide_eq_false in Hd. rewrite (bool_decide_true (entry_size (n, v) ≤ _)) by lia.
    rewrite Hs, (evict_fitting _ _ (max_table_size d - entry_size (n, v))).
    + cbn [table_size]. f_equal.
      pose proof (fitting_size (max_table_size d - entry_size (n, v)) (dynamic_table d) ltac:(lia)).
      pose proof (table_size_nonneg (fitting (max_table_size d - entry_size (n, v)) (dynamic_table d))).
      rewrite u32_small by lia. lia.
    + intros s Hr. rewrite u32_small by lia. apply bool_decide_ext. lia.
    + lia.
    + lia.
    + lia.
Qed.

Lemma resize_fitting d new : wf_decoder d → 0 ≤ new →
  resize_table d new
  = let t := fitting new d.(dynamic_table) in mkDecoder t (table_size t) new.
Proof.
  intros [Hs Hb] Hn. unfold resize_table. pose proof (table_size_nonneg (dynamic_table d)).
  rewrite Hs, (evict_fitting _ _ new); [done| |lia|lia|lia].
  intros s Hr. apply bool_decide_ext. lia.
Qed.

Lemma wf_mk t max : table_size t ≤ max < 2 ^ 31 → wf_decoder (mkDecoder t (table_size t) max).
Proof. by split. Qed.

Lemma add_wf d n v : wf_decoder d → wf_decoder (add_to_dynamic_table d n v).
Proof.
  intros Hw. rewrite add_fitting by done. apply wf_mk. destruct Hw as [Hs Hb].
  pose proof (table_size_nonneg (dynamic_table d)). split; [apply fitting_size; lia|lia].
Qed.

Lemma add_max d n v : max_table_size (add_to_dynamic_table d n v) = max_table_size d.
Proof. unfold add_to_dynamic_table. case_match; [done|]. by destruct (evict _ _ _ _). Qed.

Lemma resize_wf d new : wf_decoder d → 0 ≤ new ≤ d.(max_table_size) → wf_decoder (resize_table d new).
Proof.
  intros Hw Hn. rewrite resize_fitting by (done || lia). apply wf_mk. destruct Hw as [Hs Hb].
  split; [apply fitting_size; lia|lia].
Qed.

Lemma resize_max d new : max_table_size (resize_table d new) = new.
Proof. unfold resize_table. by destruct (evict _ _ _ _). Qed.

(** ** Readers: ranges, progress, no panic *)

Lemma read_continuation_spec rest p v s r q :
  0 ≤ v → 0 ≤ s → read_continuation rest p v s = Ok (r, q) → 0 ≤ r ∧ p < q.
Proof.
  revert p v s. induction rest as [|b rest IH]; intros p v s Hv Hs; cbn [read_continuation]; [done|].
  unfold checked_shl. destruct (bool_decide (s < 32)); cbn; [|done].
  pose proof (u32_range (Z.shiftl (Z.land b 127) s)) as Hr.
  unfold checked_add. destruct (bool_decide (v + _ ≤ u32_max)); cbn; [|done].
  case_match; [intros [= <- <-]; lia|].
  destruct (bool_decide (s + 7 ≤ u32_max)); cbn; [|done].
  intros H2%IH; lia.
Qed.

Lemma read_continuation_no_panic rest p v s : is_panic (read_continuation rest p v s) = false.
Proof.
  revert p v s. induction rest as [|b rest IH]; intros p v s; cbn [read_continuation]; [done|].
  destruct (checked_shl _ _); cbn; [|done]. destruct (checked_add v _); cbn; [|done].
  case_match; [done|]. destruct (checked_add s 7); cbn; [|done]. apply IH.
Qed.

Lemma read_integer_no_panic buf pos n : is_panic (read_integer buf pos n) = false.
Proof. unfold read_integer. repeat case_match; try done. apply read_continuation_no_panic. Qed.

Lemma read_integer_spec buf pos n r q :
  0 ≤ n → read_integer buf pos n = Ok (r, q) → 0 ≤ r ∧ pos < q.
Proof.
  intros Hn. unfold read_integer. rewrite shiftl_1 by done. pose proof (Z.pow_pos_nonneg 2 n).
  case_match; [done|]. case_match.
  - intros [= <- <-]. rewrite land_ones_low by done.
    pose proof (Z.mod_pos_bound (byte_at buf pos) (2 ^ n)). lia.
  - intros Hr%read_continuation_spec; lia.
Qed.

Lemma read_string_no_panic buf pos : is_panic (read_string buf pos) = false.
Proof.
  unfold read_string. case_match; [done|].
  pose proof (read_integer_no_panic buf pos 7). destruct (read_integer buf pos 7) as [[len p]| |]; cbn; try done.
  case_match; [done|]. case_match; cbn; [|done].
  match goal with |- context [decode ?w] => pose proof (decode_no_panic w); destruct (decode w) end; done.
Qed.

Lemma read_string_spec buf pos s q : read_string buf pos = Ok (s, q) → pos < q.
Proof.
  unfold read_string. case_match; [done|]. intros ([len p] & Hi & H0)%bind_Ok.
  apply read_integer_spec in Hi as [? ?]; [|lia]. revert H0. case_match; [done|].
  intros (s' & _ & [= <- <-])%bind_Ok. lia.
Qed.

Lemma lookup_index_no_panic d idx : 0 ≤ idx → is_panic (lookup_index d idx) = false.
Proof.
  intros Hi. unfold lookup_index. case_match; [done|]. case_match.
  - destruct (STATIC_TABLE !! _) eqn:E; [done|]. apply lookup_ge_None in E.
    rewrite bool_decide_eq_true in *. rewrite bool_decide_eq_false in *.
    match goal with H : idx ≤ zlen _ |- _ => unfold zlen in H end. lia.
  - case_match; [|done]. by destruct (_ !! _).
Qed.

Lemma read_name_no_panic d block idx pos : 0 ≤ idx → is_panic (read_name d block idx pos) = false.
Proof.
  intros Hi. unfold read_name. case_match; [apply read_string_no_panic|].
  pose proof (lookup_index_no_panic d idx Hi). by destruct (lookup_index d idx).
Qed.

Lemma read_name_spec d block idx pos s q : read_name d block idx pos = Ok (s, q) → pos ≤ q.
Proof.
  unfold read_name. case_match; [intros ?%read_string_spec; lia|].
  intros (e & _ & [= <- <-])%bind_Ok. lia.
Qed.

(** ** One representation *)

(** The transitions of the decoder: unchanged, an insertion, or a size update
    within the current bound. *)
Inductive table_step (d : Decoder) : Decoder → Prop :=
  | step_same : table_step d d
  | step_add n v : table_step d (add_to_dynamic_table d n v)
  | step_resize new : 0 ≤ new ≤ d.(max_table_size) → table_step d (resize_table d new).

Lemma table_step_wf d d' : table_step d d' → wf_decoder d → wf_decoder d' ∧ max_table_size d' ≤ max_table_size d.
Proof.
  intros [|n v|new Hn] Hw.
  - split; [done|lia].
  - split; [by apply add_wf|]. rewrite add_max. lia.
  - split; [by apply resize_wf|]. rewrite resize_max. lia.
Qed.

Lemma literal_no_panic (k : Decoder → bytes → bytes → Decoder) d block pos n :
  0 ≤ n → is_panic ('(idx, pos) ← read_integer block pos n;
    '(name, pos) ← read_name d block idx pos;
    '(value, pos) ← read_string block pos;
    Ok (k d name value, pos, Some (name, value))) = false.
Proof.
  intros Hn. pose proof (read_integer_no_panic block pos n).
  destruct (read_integer block pos n) as [[idx p]| |] eqn:Hi; cbn; try done.
  apply read_integer_spec in Hi as [? ?]; [|done]. pose proof (read_name_no_panic d block idx p ltac:(done)).
  destruct (read_name d block idx p) as [[nm q]| |]; cbn; try done.
  pose proof (read_string_no_panic block q). by destruct (read_string block q) as [[vl q']| |].
Qed.

Lemma decode_one_no_panic d block pos : is_panic (decode_one d block pos) = false.
Proof.
  unfold decode_one. case_match; [|case_match; [|case_match]].
  - pose proof (read_integer_no_panic block pos 7).
    destruct (read_integer block pos 7) as [[idx p]| |] eqn:Hi; cbn; try done.
    apply read_integer_spec in Hi as [? ?]; [|lia]. pose proof (lookup_index_no_panic d idx ltac:(done)).
    by destruct (lookup_index d idx).
  - apply (literal_no_panic add_to_dynamic_table). lia.
  - pose proof (read_integer_no_panic block pos 5).
    destruct (read_integer block pos 5) as [[idx p]| |]; cbn; try done. by case_match.
  - apply (literal_no_panic (λ d _ _, d)). lia.
Qed.

Lemma literal_spec (k : Decoder → bytes → bytes → Decoder) d block pos n d' q e :
  0 ≤ n → ('(idx, pos) ← read_integer block pos n;
    '(name, pos) ← read_name d block idx pos;
    '(value, pos) ← read_string block pos;
    Ok (k d name value, pos, Some (name, value))) = Ok (d', q, e) →
  pos < q ∧ ∃ n v, d' = k d n v ∧ e = Some (n, v).
Proof.
  intros Hn ([idx p] & Hi & ([nm p1] & H1 & ([vl p2] & H2 & [= <- <- <-])%bind_Ok)%bind_Ok)%bind_Ok.
  apply read_integer_spec in Hi as [? ?]; [|done]. apply read_name_spec in H1. apply read_string_spec in H2.
  split; [lia|eauto].
Qed.

Lemma decode_one_spec d block pos d' q e :
  decode_one d block pos = Ok (d', q, e) → pos < q ∧ table_step d d'.
Proof.
  unfold decode_one. case_match; [|case_match; [|case_match]].
  - intros ([idx p] & Hi & (e' & _ & [= <- <- <-])%bind_Ok)%bind_Ok.
    apply read_integer_spec in Hi as [? ?]; [|lia]. split; [done|constructor].
  - intros (? & n & v & -> & _)%(literal_spec add_to_dynamic_table); [|lia]. split; [done|constructor].
  - intros ([new p] & Hi & Hr)%bind_Ok. apply read_integer_spec in Hi as [? ?]; [|lia].
    destruct (bool_decide (new > max_table_size d)) eqn:Hd; [done|]. injection Hr as <- <- <-.
    apply bool_decide_eq_false in Hd. split; [done|]. constructor. lia.
  - intros (? & n & v & -> & _)%(literal_spec (λ d _ _, d)); [|lia]. split; [done|constructor].
Qed.

Lemma decode_loop_total fuel d block pos out :
  zlen block ≤ pos + Z.of_nat fuel →
  ∃ d' r, decode_headers_loop fuel d block pos out = Some (d', r) ∧ is_panic r = false ∧ rtc table_step d d'.
Proof.
  revert d pos out. induction fuel as [|fuel IH]; intros d pos out Hf; cbn [decode_headers_loop].
  - rewrite bool_decide_false by lia. do 2 eexists. split_and!; [done..|apply rtc_refl].
  - case_bool_decide; [|do 2 eexists; split_and!; [done..|apply rtc_refl]].
    pose proof (decode_one_no_panic d block pos) as Hp.
    destruct (decode_one d block pos) as [[[d1 q] e]| |] eqn:Hd; [|do 2 eexists; split_and!; [done..|apply rtc_refl]|done].
    apply decode_one_spec in Hd as [Hq Hs].
    destruct (IH d1 q (out ++ match e with Some e => [e] | None => [] end)) as (d' & r & Hl & Hr & Ht); [lia|].
    exists d', r. split_and!; [done..|]. by eapply rtc_l.
Qed.

Lemma table_steps_wf d d' : rtc table_step d d' → wf_decoder d → wf_decoder d' ∧ max_table_size d' ≤ max_table_size d.
Proof.
  induction 1 as [|d d1 d' Hs _ IH]; intros Hw; [split; [done|lia]|].
  apply table_step_wf in Hs as [Hw1 Hm]; [|done]. destruct (IH Hw1). split; [done|lia].
Qed.

(** ** Properties *)

(** C15: the decoder survives every input.  From a decoder whose size account is
    right and within its bound, [decode_headers] on any byte string terminates
    without a panic and leaves a decoder whose [dynamic_table_size] is again the
    sum of its entries' sizes, within a bound that never grew, whether the block
    was accepted or rejected in the middle. *)
Theorem decoder_invariant (d : Decoder) (block : bytes) :
  wf_decoder d →
  ∃ d' r, decode_headers d block = Some (d', r) ∧ is_panic r = false ∧
    wf_decoder d' ∧ max_table_size d' ≤ max_table_size d.
Proof.
  intros Hw. destruct (decode_loop_total (length block) d block 0 []) as (d' & r & Hd & Hr & Hs);
    [unfold zlen; lia|]. exists d', r. destruct (table_steps_wf d d' Hs Hw). done.
Qed.

Lemma decoder_invariant_witness :
  wf_decoder Decoder_new ∧
  ∃ d' r, decode_headers Decoder_new [0x40; 1; 97; 1; 98; 0xBE; 0xFF] = Some (d', r) ∧
    is_panic r = false ∧ wf_decoder d' ∧ max_table_size d' ≤ max_table_size Decoder_new.
Proof.
  assert (wf_decoder Decoder_new) as Hw by (split; [reflexivity|cbn; lia]).
  split; [exact Hw|]. apply (decoder_invariant Decoder_new _ Hw).
Defined.

(** The table operations implement RFC 7541 section 4.4: inserting keeps the
    longest run of most recent entries, the new one included, that fits the
    bound (so an entry larger than the table empties it), and a size update keeps
    the longest run that fits the new bound. *)
Theorem dynamic_table_refines_rfc (d : Decoder) (n v : bytes) (new : Z) :
  wf_decoder d → 0 ≤ new →
  dynamic_table (add_to_dynamic_table d n v)
    = fitting d.(max_table_size) ((n, v) :: d.(dynamic_table)) ∧
  dynamic_table (resize_table d new) = fitting new d.(dynamic_table).
Proof. intros Hw Hn. by rewrite add_fitting, resize_fitting. Qed.

Lemma dynamic_table_refines_rfc_witness :
  let d := mkDecoder [(bs "aa", bs "b"); (bs "c", bs "")] 68 80 in
  dynamic_table (add_to_dynamic_table d (bs "k") (bs "v"))
    = fitting 80 ((bs "k", bs "v") :: d.(dynamic_table)) ∧
  dynamic_table (resize_table d 40) = fitting 40 d.(dynamic_table).
Proof.
  intros d. apply (dynamic_table_refines_rfc d (bs "k") (bs "v") 40); [|lia].
  split; [reflexivity|cbn; lia].
Defined.

(** The bound of in-stream size updates is not the SETTINGS value but the
    last accepted update: after an update to [low], an update to any larger
    [high] is refused, even one the peer's SETTINGS allow. *)
Theorem size_update_cannot_grow_back (d : Decoder) (low high : Z) (rest : bytes) :
  0 ≤ low < high → high ≤ u32_max → low ≤ d.(max_table_size) →
  decode_headers d (int_enc low 5 0x20 0 ++ int_enc high 5 0x20 0 ++ rest)
  = Some (resize_table d low, Err (TableSizeTooLarge high low)).
Proof.
  intros Hlh Hh Hl.
  assert (∀ d v pre post, 0 ≤ v ≤ u32_max →
    decode_one d (pre ++ int_enc v 5 0x20 0 ++ post) (zlen pre)
    = if bool_decide (v > d.(max_table_size)) then Err (TableSizeTooLarge v d.(max_table_size))
      else Ok (resize_table d v, zlen pre + zlen (int_enc v 5 0x20 0), None)) as Hone.
  { intros d0 v pre post Hv. pose proof (read_integer_enc pre v 5 0x20 post ltac:(lia) eq_refl Hv) as Hr.
    destruct (int_enc_head v 5 0x20 0) as (x & l & Hie & Hx). rewrite Hie in *.
    unfold decode_one. rewrite <- app_comm_cons in *. rewrite byte_at_app.
    assert (0 ≤ x < 32) as Hx5 by (apply Hx; lia).
    pose proof (byte_forall (λ x, (32 <=? x) || ((Z.land (Z.lor 32 x) 128 =? 0) &&
      negb (Z.land (Z.lor 32 x) 192 =? 64) && (Z.land (Z.lor 32 x) 224 =? 32)))
      ltac:(vm_compute; reflexivity) x ltac:(unfold is_byte; lia)) as Hb. cbn beta in Hb.
    rewrite (bool_decide_true (Z.land (Z.lor 32 x) 128 = 0)) by lia. cbn [negb].
    rewrite (bool_decide_false (Z.land (Z.lor 32 x) 192 = 64)) by lia.
    rewrite (bool_decide_true (Z.land (Z.lor 32 x) 224 = 32)) by lia.
    rewrite Hr. done. }
  unfold decode_headers. destruct (int_enc_head low 5 0x20 0) as (x & l & Hie & _).
  destruct (int_enc_head high 5 0x20 0) as (y & k & Hke & _).
  assert (∃ f, length (int_enc low 5 0x20 0 ++ int_enc high 5 0x20 0 ++ rest) = S (S f)) as [f ->].
  { exists (length l + length k + length rest)%nat. rewrite !length_app, Hie, Hke. cbn [length]. lia. }
  cbn [decode_headers_loop]. rewrite bool_decide_true
    by (rewrite Hie; simp_len; pose proof (zlen_nonneg l); pose proof (zlen_nonneg (int_enc high 5 32 0 ++ rest)); simp_len; lia).
  pose proof (Hone d low [] (int_enc high 5 0x20 0 ++ rest) ltac:(lia)) as H1. cbn [app] in H1.
  change (zlen []) with 0 in H1. rewrite H1, bool_decide_false by lia. rewrite Z.add_0_l.
  rewrite bool_decide_true by (rewrite Hke; simp_len; pose proof (zlen_nonneg k); pose proof (zlen_nonneg rest); lia).
  rewrite (Hone (resize_table d low) high (int_enc low 5 0x20 0) rest) by lia.
  by rewrite resize_max, bool_decide_true by lia.
Qed.

Lemma size_update_cannot_grow_back_witness :
  decode_headers Decoder_new (int_enc 0 5 0x20 0 ++ int_enc 4096 5 0x20 0 ++ [])
  = Some (resize_table Decoder_new 0, Err (TableSizeTooLarge 4096 0)).
Proof. apply (size_update_cannot_grow_back Decoder_new 0 4096 []); unfold u32_max; cbn; lia. Defined.

(** Bits of a continuation byte that leave the 32-bit word are lost, not refused:
    a final group shifted by 28 contributes only its low four bits. *)
Definition drops_high_bits (b : Z) : bool :=
  negb (b mod 16 =? 0) ||
  bool_decide (read_integer [127; 128; 128; 128; 128; b] 0 7 = Ok (127, 6)).

Lemma read_integer_drops_high_bits b : 0 ≤ b < 128 → b mod 16 = 0 →
  read_integer [127; 128; 128; 128; 128; b] 0 7 = Ok (127, 6).
Proof.
  intros Hb Hm.
  pose proof (byte_forall (λ b, (128 <=? b) || drops_high_bits b)
    ltac:(vm_compute; reflexivity) b ltac:(unfold is_byte; lia)) as H.
  apply orb_true_iff in H as [H|H]; [lia|]. apply orb_true_iff in H as [H|H]; [lia|].
  by apply bool_decide_eq_true in H.
Qed.
