(* ===== verification/HpackRfc.v ===== *)
(** * HPACK: the decoder against the grammar of RFC 7541 (src/h2/hpack.rs)

    The wire format of RFC 7541 as a grammar on byte strings, written from the RFC and
    without positions, buffers or 32-bit words, and what [decode_headers] makes of the
    blocks it derives.  The code reads otherwise in three points: the high bits of the
    fifth octet of an integer, the sizes an update of the table may announce, and the
    place of such updates in a block.  The first two are parameters of the grammar, and
    the third is what tells a block of the RFC from a run of representations. *)
From S2P Require Import Prelude Huffman Hpack HpackFacts HpackTable.

(** ** Integers (section 5.1) *)

(** The octets that follow a full prefix: groups of seven bits, the least significant
    first, a high bit on all but the last. *)
Fixpoint octets (groups : list Z) : bytes :=
  match groups with [] => [] | [g] => [g] | g :: groups => g + 128 :: octets groups end.
Definition is_group (g : Z) : Prop := 0 ≤ g < 128.

(** The value of the groups as the RFC has it, and as the code computes it: what a group
    pushes out of a 32-bit word is lost. *)
Fixpoint exact_value (groups : list Z) : Z :=
  match groups with [] => 0 | g :: groups => g + 128 * exact_value groups end.
Fixpoint word_value (i : Z) (groups : list Z) : Z :=
  match groups with [] => 0 | g :: groups => u32 (g * 2 ^ (7 * i)) + word_value (i + 1) groups end.

(** The state between two blocks (sections 2.3 and 4): the dynamic table, the newest
    entry first, and the size that is in force. *)
Record rfc_state := mkRfc { r_table : list DecodedHeader; r_max : Z }.

Section grammar.
(** What the groups of an integer denote, and the largest size an update may announce:
    for the RFC the exact value, and a constant, the last acknowledged
    SETTINGS_HEADER_TABLE_SIZE (section 6.3). *)
Context (value : list Z → Z) (limit : rfc_state → Z).

(** [b] is the octet with the prefix of [n] bits, [l] what follows it, [l'] what is left.
    The limits are the implementation's: five more octets, 32 bits. *)
Inductive integer (n b : Z) (l : bytes) : Z → bytes → Prop :=
  | integer_short : b mod 2 ^ n < 2 ^ n - 1 → integer n b l (b mod 2 ^ n) l
  | integer_long groups l' :
      b mod 2 ^ n = 2 ^ n - 1 → l = octets groups ++ l' → groups ≠ [] → Forall is_group groups →
      zlen groups ≤ 5 → 2 ^ n - 1 + value groups ≤ u32_max →
      integer n b l (2 ^ n - 1 + value groups) l'.

(** ** Strings (section 5.2) *)

Inductive string_literal (w : bytes) : bytes → bytes → Prop :=
  | string_raw b l raw l' : w = b :: l → b < 128 → integer 7 b l (zlen raw) (raw ++ l') → string_literal w raw l'
  | string_huffman b l s l' : w = b :: l → 128 ≤ b → wf_bytes s →
      integer 7 b l (zlen (encode s)) (encode s ++ l') → string_literal w s l'.

(** ** The tables (sections 2.3 and 4) *)

(** One address space: the static table from 1, then the dynamic one. *)
Definition indexed (st : rfc_state) (i : Z) (e : DecodedHeader) : Prop :=
  1 ≤ i ∧ (STATIC_TABLE ++ r_table st) !! Z.to_nat (i - 1) = Some e.
Definition insert_entry (st : rfc_state) (e : DecodedHeader) : rfc_state :=
  mkRfc (fitting (r_max st) (e :: r_table st)) (r_max st).
Definition update_size (st : rfc_state) (new : Z) : rfc_state := mkRfc (fitting new (r_table st)) new.

(** ** Representations (section 6) *)

Inductive literal_name (st : rfc_state) (i : Z) (w : bytes) : bytes → bytes → Prop :=
  | name_new s w' : i = 0 → string_literal w s w' → literal_name st i w s w'
  | name_indexed e : indexed st i e → literal_name st i w e.1 w.

(** [n] and [v] after the octet with an index of [k] bits. *)
Definition literal_field (st : rfc_state) (k b : Z) (l n v l' : bytes) : Prop :=
  ∃ i l1 l2, integer k b l i l1 ∧ literal_name st i l1 n l2 ∧ string_literal l2 v l'.

(** The fields and the state that a representation gives, and what is left. *)
Inductive representation (st : rfc_state) : bytes → list DecodedHeader → rfc_state → bytes → Prop :=
  | indexed_field b l i e l' :
      128 ≤ b → integer 7 b l i l' → indexed st i e → representation st (b :: l) [e] st l'
  | incremental_field b l n v l' :
      64 ≤ b < 128 → literal_field st 6 b l n v l' → representation st (b :: l) [(n, v)] (insert_entry st (n, v)) l'
  | size_update b l new l' :
      32 ≤ b < 64 → integer 5 b l new l' → new ≤ limit st → representation st (b :: l) [] (update_size st new) l'
  | literal_only b l n v l' :
      b < 32 → literal_field st 4 b l n v l' → representation st (b :: l) [(n, v)] st l'.

Inductive representations (st : rfc_state) (w : bytes) : list DecodedHeader → rfc_state → bytes → Prop :=
  | rep_none : representations st w [] st w
  | rep_more fs1 st1 w1 fs st' w' :
      representation st w fs1 st1 w1 → representations st1 w1 fs st' w' → representations st w (fs1 ++ fs) st' w'.

(** ** Blocks (section 4.2)

    A header block: updates of the table size, and only then fields. *)
Inductive updates (st : rfc_state) (w : bytes) : list Z → rfc_state → bytes → Prop :=
  | updates_none : updates st w [] st w
  | updates_more st1 w1 sizes st' w' :
      representation st w [] st1 w1 → updates st1 w1 sizes st' w' → updates st w (r_max st1 :: sizes) st' w'.
Inductive fields (st : rfc_state) (w : bytes) : list DecodedHeader → rfc_state → bytes → Prop :=
  | fields_none : fields st w [] st w
  | fields_more e st1 w1 fs st' w' :
      representation st w [e] st1 w1 → fields st1 w1 fs st' w' → fields st w (e :: fs) st' w'.
Definition header_block (st : rfc_state) (block : bytes) (sizes : list Z) (fs : list DecodedHeader) (st' : rfc_state) : Prop :=
  ∃ st1 w1, updates st block sizes st1 w1 ∧ fields st1 w1 fs st' [].
End grammar.

(** No update announces more than is in force. *)
Fixpoint lowering (m : Z) (sizes : list Z) : Prop :=
  match sizes with [] => True | new :: sizes => new ≤ m ∧ lowering new sizes end.

Definition state_of (d : Decoder) : rfc_state := mkRfc (dynamic_table d) (max_table_size d).
Definition decoder_of (st : rfc_state) : Decoder := mkDecoder (r_table st) (table_size (r_table st)) (r_max st).

(** ** Integers and strings are read as the grammar has them *)

Abbreviation kept := (word_value 0).

Lemma low_bits b : is_byte b → Z.land b 0x7F = b mod 128 ∧ (Z.land b 0x80 = 0 ↔ b < 128).
Proof.
  intros Hb. pose proof (byte_forall (λ b, (Z.land b 0x7F =? b mod 128) && Bool.eqb (Z.land b 0x80 =? 0) (b <? 128))
    ltac:(vm_compute; reflexivity) b Hb) as H. cbn beta in H. apply andb_true_iff in H as [H1%Z.eqb_eq H2%eqb_prop].
  split; [done|]. rewrite <- Z.eqb_eq, H2, Z.ltb_lt. done.
Qed.

Lemma word_value_nonneg i gs : 0 ≤ word_value i gs.
Proof.
  revert i. induction gs as [|g gs IH]; intros i; cbn; [lia|].
  pose proof (u32_range (g * 2 ^ (7 * i))). specialize (IH (i + 1)). lia.
Qed.

Lemma octets_cons g gs l : gs ≠ [] → octets (g :: gs) ++ l = g + 128 :: octets gs ++ l.
Proof. by destruct gs. Qed.

Lemma octets_length gs : zlen (octets gs) = zlen gs.
Proof.
  induction gs as [|g gs IH]; [done|]. destruct gs as [|g' gs]; [done|].
  change (octets (g :: g' :: gs)) with (g + 128 :: octets (g' :: gs)). simp_len. by rewrite IH.
Qed.
#[local] Hint Rewrite octets_length : zlen.

(** The loop's group number [i] is shifted by [7 * i]. *)
Lemma read_group b rest p v i : is_byte b → 0 ≤ i → 
  read_continuation (b :: rest) p v (7 * i)
  = let g := b mod 128 in
    let v' := v + u32 (g * 2 ^ (7 * i)) in
    if bool_decide (i ≤ 4) && bool_decide (v' ≤ u32_max) then
      if bool_decide (b < 128) then Ok (v', p + 1) else read_continuation rest (p + 1) v' (7 * (i + 1))
    else Err IntegerOverflow.
Proof.
  intros Hb Hi. destruct (low_bits b Hb) as [Hl Hh]. cbn [read_continuation]. cbn zeta. rewrite Hl.
  unfold checked_shl. rewrite (bool_decide_ext (7 * i < 32) (i ≤ 4)) by lia.
  destruct (bool_decide (i ≤ 4)) eqn:H4; cbn [ok_or mbind exec_bind andb]; [|done].
  rewrite Z.shiftl_mul_pow2 by lia. unfold checked_add.
  destruct (bool_decide (v + _ ≤ u32_max)); cbn [ok_or mbind exec_bind]; [|done].
  rewrite (bool_decide_ext _ _ Hh). destruct (bool_decide (b < 128)); [done|].
  apply bool_decide_eq_true in H4. rewrite bool_decide_true by (unfold u32_max; lia).
  cbn [ok_or mbind exec_bind]. f_equal. lia.
Qed.

Lemma read_continuation_exact rest p v i r q : wf_bytes rest → 0 ≤ v → 0 ≤ i →
  read_continuation rest p v (7 * i) = Ok (r, q) ↔
  ∃ gs l', rest = octets gs ++ l' ∧ gs ≠ [] ∧ Forall is_group gs ∧ i + zlen gs ≤ 5 ∧
    r = v + word_value i gs ∧ r ≤ u32_max ∧ q = p + zlen gs.
Proof.
  intros Hw. revert p v i. induction Hw as [|b rest Hb Hw IH]; intros p v i Hv Hi.
  - split; [done|]. intros (gs & l' & He & Hne & _). destruct gs as [|g [|g' gs]]; done.
  - rewrite read_group by done. cbn zeta. pose proof (u32_range (b mod 128 * 2 ^ (7 * i))) as Hu.
    pose proof (Z.mod_pos_bound b 128 ltac:(lia)) as Hm. unfold is_byte in Hb. split.
    + destruct (bool_decide (i ≤ 4) && _) eqn:Hc; [|done]. apply andb_true_iff in Hc as [Hi4 Hv'].
      apply bool_decide_eq_true in Hi4, Hv'. case_bool_decide as Hb128.
      * intros [= <- <-]. rewrite Z.mod_small in * by lia. exists [b], rest. cbn [word_value octets app].
        split_and!; [done|done|by constructor|change (zlen [b]) with 1; lia|lia|lia|done].
      * intros (gs & l' & -> & Hne & Hgs & Hlen & -> & Hr & ->)%IH; [|lia..].
        exists (b mod 128 :: gs), l'. cbn [word_value]. rewrite octets_cons by done. simp_len.
        split_and!; [f_equal; Z.div_mod_to_equations; lia|done|by constructor|lia|lia|lia|lia].
    + intros (gs & l' & He & Hne & Hgs & Hlen & -> & Hr & ->). destruct gs as [|g gs]; [done|]. cbn [word_value] in *.
      apply Forall_cons in Hgs as [Hg Hgs]. unfold is_group in Hg. simp_len. pose proof (word_value_nonneg (i + 1) gs).
      pose proof (zlen_nonneg gs). destruct (decide (gs = [])) as [->|Hgs'].
      * cbn in He. injection He as <- <-. rewrite (Z.mod_small b) in * by lia. cbn [word_value] in *.
        rewrite !bool_decide_true by lia. cbn. f_equal. f_equal; lia.
      * rewrite octets_cons in He by done. injection He as -> ->.
        replace ((g + 128) mod 128) with g in * by (Z.div_mod_to_equations; lia).
        rewrite !(bool_decide_true) by lia. cbn [andb]. rewrite (bool_decide_false (g + 128 < 128)) by lia.
        apply IH; [lia..|]. exists gs, l'. split_and!; try done; lia.
Qed.

(** Where a reader stops when [l'] is left of [w]. *)
Abbreviation at_end pre w l' := (zlen (pre ++ w : bytes) - zlen (l' : bytes)).

Lemma read_integer_exact pre b l n v q : wf_bytes (b :: l) → 0 ≤ n →
  read_integer (pre ++ b :: l) (zlen pre) n = Ok (v, q) ↔
  ∃ l', integer kept n b l v l' ∧ q = at_end pre (b :: l) l'.
Proof.
  intros [Hb Hw]%Forall_cons Hn. rewrite read_integer_cons, shiftl_1 by done. cbn zeta. rewrite land_ones_low by done.
  pose proof (Z.mod_pos_bound b (2 ^ n) ltac:(apply Z.pow_pos_nonneg; lia)) as Hm.
  pose proof (Z.pow_pos_nonneg 2 n). case_bool_decide as Hc.
  - split.
    + intros [= <- <-]. exists l. split; [by constructor|]. simp_len. lia.
    + intros (l' & Hi & ->). inversion Hi; subst; [|lia]. f_equal. f_equal. simp_len. lia.
  - change 0 with (7 * 0) at 1. rewrite read_continuation_exact by (done || lia). split.
    + intros (gs & l' & -> & Hne & Hgs & Hlen & -> & Hr & ->). exists l'. split.
      * constructor 2 with (groups := gs); try done; lia.
      * simp_len. lia.
    + intros (l' & Hi & ->). inversion Hi as [|gs l1 Hb1 Hl Hne Hgs Hlen Hr]; subst; [lia|].
      exists gs, l'. split_and!; try done; simp_len; lia.
Qed.

(** What is left is the end of what was there. *)
Lemma integer_suffix val n b l v l' : integer val n b l v l' → l' `suffix_of` l.
Proof. intros []; subst; [done|by apply suffix_app_r]. Qed.
Lemma string_suffix val w s l' : string_literal val w s l' → ∃ b, l' `suffix_of` b ∧ ∃ x, w = x :: b.
Proof.
  intros [x l raw l'' -> _ Hi|x l s' l'' -> _ _ Hi]; apply integer_suffix in Hi;
    (exists l; split; [|by exists x]); (etrans; [|exact Hi]); by apply suffix_app_r.
Qed.

Lemma suffix_split {A} (l l' : list A) : l' `suffix_of` l → ∃ used, l = used ++ l'.
Proof. done. Qed.
Lemma suffix_wf (l l' : bytes) : l' `suffix_of` l → wf_bytes l → wf_bytes l'.
Proof. intros [k ->] [_ H]%Forall_app. done. Qed.

(** The position after [used] on the buffer [pre ++ used ++ l']. *)
Lemma at_end_split pre used (l' : bytes) : at_end pre (used ++ l') l' = zlen (pre ++ used).
Proof. simp_len. lia. Qed.

(** The buffer from the place where a reader stopped. *)
Lemma drop_at_end pre w (l1 : bytes) : l1 `suffix_of` w →
  drop (Z.to_nat (at_end pre w l1)) (pre ++ w) = l1.
Proof. intros [used ->]. by rewrite at_end_split, (assoc_L (++)), drop_zlen_app. Qed.

Lemma at_end_app pre w (raw l' : bytes) : at_end pre w (raw ++ l') + zlen raw = at_end pre w l'.
Proof. simp_len. lia. Qed.

(** The bytes of a string of which the length was read. *)
Lemma string_bytes pre w (raw l' : bytes) : raw ++ l' `suffix_of` w →
  at_end pre w (raw ++ l') + zlen raw ≤ zlen (pre ++ w) ∧
  take (Z.to_nat (zlen raw)) (drop (Z.to_nat (at_end pre w (raw ++ l'))) (pre ++ w)) = raw.
Proof.
  intros Hs. rewrite drop_at_end by done. split; [|apply take_zlen_app].
  rewrite at_end_app. pose proof (zlen_nonneg l'). lia.
Qed.
Lemma split_string pre w (l1 : bytes) len : l1 `suffix_of` w → 0 ≤ len →
  at_end pre w l1 + len ≤ zlen (pre ++ w) → ∃ raw l', l1 = raw ++ l' ∧ zlen raw = len.
Proof.
  intros Hs Hlen Hle. exists (take (Z.to_nat len) l1), (drop (Z.to_nat len) l1). split; [by rewrite take_drop|].
  unfold zlen in *. rewrite length_take. lia.
Qed.

Lemma read_string_exact pre w s q : wf_bytes w →
  read_string (pre ++ w) (zlen pre) = Ok (s, q) ↔ ∃ l', string_literal kept w s l' ∧ q = at_end pre w l'.
Proof.
  intros Hw. unfold read_string. destruct w as [|b l].
  { rewrite bool_decide_true by (simp_len; lia). split; [done|]. intros (l' & [] & _); done. }
  pose proof (zlen_nonneg l) as Hl. rewrite bool_decide_false by (simp_len; lia). rewrite byte_at_app.
  pose proof Hw as [Hb Hwl]%Forall_cons. destruct (low_bits b Hb) as [_ Hh]. rewrite (bool_decide_ext _ _ Hh).
  assert (∀ n v l1, integer kept n b l v l1 → l1 `suffix_of` b :: l) as Hsuf.
  { intros n v l1 Hi%integer_suffix. by apply suffix_cons_r. }
  split.
  - intros ([len q1] & Hr & H)%bind_Ok. pose proof (read_integer_spec _ _ 7 _ _ ltac:(lia) Hr) as [Hlen _].
    apply read_integer_exact in Hr as (l1 & Hi & ->); [|done|lia]. revert H.
    destruct (bool_decide (_ > zlen _)) eqn:He; [done|]. apply bool_decide_eq_false in He. destruct (split_string pre (b :: l) l1 len) as (raw & l' & -> & <-); [by eapply Hsuf|done|lia|].
    destruct (string_bytes pre (b :: l) raw l' (Hsuf _ _ _ Hi)) as [_ ->]. intros (s' & Hs & [= <- <-])%bind_Ok.
    exists l'. split; [|apply at_end_app]. revert Hs. case_bool_decide as Hb128; cbn [negb].
    + intros [= <-]. by eapply string_raw.
    + destruct (decode raw) as [x| |] eqn:Hd; try done. intros [= <-].
      apply decode_exact in Hd as [Hx <-]; [apply (string_huffman _ _ b l x l'); [done|lia|done|done]|].
      apply integer_suffix in Hi. apply suffix_wf in Hi; [|done]. by apply Forall_app in Hi as [? _].
  - assert (∀ raw l', integer kept 7 b l (zlen raw) (raw ++ l') →
      read_integer (pre ++ b :: l) (zlen pre) 7 = Ok (zlen raw, at_end pre (b :: l) (raw ++ l'))) as Hr.
    { intros raw l' Hi. apply read_integer_exact; [done|lia|eauto]. }
    intros (l' & Hl' & ->).
    assert (∀ raw l', integer kept 7 b l (zlen raw) (raw ++ l') → wf_bytes (raw ++ l')) as Hwf.
    { intros raw l1 Hi%integer_suffix. by eapply suffix_wf. }
    destruct Hl' as [b0 l0 raw l1 He Hb0 Hi|b0 l0 s l1 He Hb0 Hs Hi]; injection He as <- <-;
      pose proof (Hwf _ _ Hi) as Hwe; rewrite (Hr _ _ Hi); cbn [mbind exec_bind];
      destruct (string_bytes pre _ _ _ (Hsuf _ _ _ Hi)) as [Hle Ht];
      rewrite bool_decide_false by lia; rewrite Ht, at_end_app.
    + by rewrite bool_decide_true.
    + rewrite (bool_decide_false (b < 128)) by lia. cbn [negb]. rewrite (proj2 (decode_exact (encode s) s ltac:(by apply Forall_app in Hwe as [? _]))); [done|by split].
Qed.

(** ** Readers in sequence *)

(** A reader of a buffer from a position on reads what the grammar [P] has: from [w],
    a value and what is left. *)
Definition reads {A} (f : bytes → Z → exec DecodeError (A * Z)) (P : bytes → A → bytes → Prop) : Prop :=
  (∀ w a l', P w a l' → l' `suffix_of` w) ∧
  ∀ pre w a q, wf_bytes w → f (pre ++ w) (zlen pre) = Ok (a, q) ↔ ∃ l', P w a l' ∧ q = at_end pre w l'.

Definition followed_by {A B} (P : bytes → A → bytes → Prop) (Q : A → bytes → B → bytes → Prop)
    (w : bytes) (b : B) (l' : bytes) : Prop := ∃ a l1, P w a l1 ∧ Q a l1 b l'.

Lemma reads_bind {A B} f (g : A → bytes → Z → exec DecodeError (B * Z)) P Q :
  reads f P → (∀ w a l', P w a l' → reads (g a) (Q a)) →
  reads (λ buf pos, '(a, pos) ← f buf pos; g a buf pos) (followed_by P Q).
Proof.
  intros [Hp Hf] Hg. split.
  { intros w b l' (a & l1 & HP & HQ). etrans; [by eapply (Hg _ _ _ HP)|by eapply Hp]. }
  intros pre w b q Hw. split.
  - intros ([a q1] & (l1 & HP & ->)%Hf & Hr)%bind_Ok; [|done]. destruct (Hp _ _ _ HP) as [used ->].
    rewrite at_end_split, (assoc_L (++)) in Hr. apply Forall_app in Hw as [_ Hw]. apply (Hg _ _ _ HP) in Hr as (l' & HQ & ->); [|done].
    exists l'. split; [by exists a, l1|by rewrite (assoc_L (++))].
  - intros (l' & (a & l1 & HP & HQ) & ->). apply bind_Ok. exists (a, at_end pre w l1). split; [apply Hf; eauto|].
    destruct (Hp _ _ _ HP) as [used ->]. apply Forall_app in Hw as [_ Hw]. rewrite at_end_split, (assoc_L (++)).
    apply (Hg _ _ _ HP); [done|]. by exists l'.
Qed.

Definition integer_at (n : Z) (w : bytes) (v : Z) (l' : bytes) : Prop := ∃ b l, w = b :: l ∧ integer kept n b l v l'.

Lemma reads_integer n : 0 ≤ n → reads (λ buf pos, read_integer buf pos n) (integer_at n).
Proof.
  intros Hn. split.
  - intros w v l' (b & l & -> & Hi%integer_suffix). by apply suffix_cons_r.
  - intros pre w v q Hw. destruct w as [|b l].
    + unfold read_integer. rewrite bool_decide_true by (simp_len; lia). split; [done|]. by intros (l' & (b & l & [=] & _) & _).
    + rewrite read_integer_exact by done. split.
      * intros (l' & Hi & ->). exists l'. split; [by exists b, l|done].
      * intros (l' & (b' & l0 & [= <- <-] & Hi) & ->). by exists l'.
Qed.

Lemma reads_string : reads read_string (string_literal kept).
Proof.
  split; [|by intros; apply read_string_exact].
  intros w s l' (b & Hs & x & ->)%string_suffix. by apply suffix_cons_r.
Qed.

(** ** The tables *)

Lemma lookup_index_exact d i e : 0 ≤ i → lookup_index d i = Ok e ↔ indexed (state_of d) i e.
Proof.
  intros Hi. unfold lookup_index, indexed. cbn [r_table state_of]. case_bool_decide as H0; [split; [done|lia]|].
  rewrite lookup_app. case_bool_decide as Hs.
  - destruct (STATIC_TABLE !! Z.to_nat (i - 1)) as [x|] eqn:E; cbn.
    + split; [intros [= ->]; split; [lia|done]|by intros [_ [= ->]]].
    + apply lookup_ge_None in E. unfold zlen in Hs. lia.
  - rewrite (lookup_ge_None_2 STATIC_TABLE) by (unfold zlen in Hs; lia).
    replace (Z.to_nat (i - 1) - length STATIC_TABLE)%nat with (Z.to_nat (i - 1 - zlen STATIC_TABLE)) by (unfold zlen in *; lia).
    case_bool_decide as Hd.
    + destruct (dynamic_table d !! _) as [x|]; cbn; [split; [intros [= ->]; split; [lia|done]|by intros [_ [= ->]]]|].
      split; [done|by intros [_ ?]].
    + split; [done|]. intros [_ Hl]. apply lookup_lt_Some in Hl. unfold zlen in *. lia.
Qed.

Lemma reads_name d i : 0 ≤ i → reads (λ buf pos, read_name d buf i pos) (literal_name kept (state_of d) i).
Proof.
  intros Hi. destruct reads_string as [Hs Hr]. split.
  { intros w n l' [s w' _ Hl|e _]; [by eapply Hs|done]. }
  intros pre w n q Hw. unfold read_name. case_bool_decide as H0.
  - rewrite Hr by done. split; intros (l' & Hl & ->).
    + exists l'. split; [by constructor|done].
    + destruct Hl as [s w' _ Hl|e [? _]]; [by exists w'|lia].
  - split.
    + intros (e & He%lookup_index_exact & [= <- <-])%bind_Ok; [|done]. exists w. split; [by constructor|simp_len; lia].
    + intros (l' & Hl & ->). destruct Hl as [s w' ? _|e He]; [done|]. apply lookup_index_exact in He as ->; [|done].
      cbn. f_equal. f_equal. simp_len. lia.
Qed.

Lemma integer_nonneg n b l v l' : 0 ≤ n → integer kept n b l v l' → 0 ≤ v.
Proof.
  intros Hn. pose proof (Z.pow_pos_nonneg 2 n). intros []; [pose proof (Z.mod_pos_bound b (2 ^ n)); lia|].
  pose proof (word_value_nonneg 0 groups). lia.
Qed.

(** ** One representation *)

Lemma reads_literal d n : 0 ≤ n →
  reads (λ buf pos, '(idx, pos) ← read_integer buf pos n; '(name, pos) ← read_name d buf idx pos;
                    '(value, pos) ← read_string buf pos; Ok ((name, value), pos))
    (λ w (nv : bytes * bytes) l', ∃ b l, w = b :: l ∧ literal_field kept (state_of d) n b l nv.1 nv.2 l').
Proof.
  intros Hn.
  assert (∀ name, reads (λ buf pos, '(value, pos) ← read_string buf pos; Ok ((name, value), pos))
    (λ w (nv : bytes * bytes) l', nv.1 = name ∧ string_literal kept w nv.2 l')) as Hvalue.
  { intros name. destruct reads_string as [Hs Hr]. split; [intros w nv l' [_ H]; by eapply Hs|].
    intros pre w [nm v] q Hw. split.
    - intros ([v' q'] & (l' & Hl & ->)%Hr & [= <- <- <-])%bind_Ok; [|done]. by exists l'.
    - intros (l' & [<- Hl] & ->). apply bind_Ok. exists (v, at_end pre w l'). split; [|done]. apply Hr; eauto. }
  pose proof (reads_bind _ _ _ _ (reads_integer n Hn) (λ w i l1 Hi,
    reads_bind _ _ _ _ (reads_name d i ltac:(destruct Hi as (b & l & _ & Hi); by eapply integer_nonneg)) (λ _ name _ _, Hvalue name))) as [H1 H2].
  assert (∀ w (nv : bytes * bytes) l', followed_by (integer_at n) (λ i, followed_by (literal_name kept (state_of d) i)
      (λ name w (nv : bytes * bytes) l', nv.1 = name ∧ string_literal kept w nv.2 l')) w nv l' ↔
    ∃ b l, w = b :: l ∧ literal_field kept (state_of d) n b l nv.1 nv.2 l') as He.
  { intros w nv l'. unfold followed_by, literal_field, integer_at. naive_solver. }
  split; [intros w nv l' H%He; by eapply H1|]. intros pre w nv q Hw. rewrite H2 by done. by setoid_rewrite He.
Qed.

Lemma literal_result (k : Decoder → bytes → bytes → Decoder) d n pre w d' q e : 0 ≤ n → wf_bytes w →
  ('(idx, pos) ← read_integer (pre ++ w) (zlen pre) n; '(name, pos) ← read_name d (pre ++ w) idx pos;
   '(value, pos) ← read_string (pre ++ w) pos; Ok (k d name value, pos, Some (name, value))) = Ok (d', q, e) ↔
  ∃ b l nm v l', w = b :: l ∧ literal_field kept (state_of d) n b l nm v l' ∧ q = at_end pre w l' ∧
    d' = k d nm v ∧ e = Some (nm, v).
Proof.
  intros Hn Hw. pose proof (proj2 (reads_literal d n Hn) pre w) as Hr.
  transitivity (∃ nm v, ('(idx, pos) ← read_integer (pre ++ w) (zlen pre) n; '(name, pos) ← read_name d (pre ++ w) idx pos;
   '(value, pos) ← read_string (pre ++ w) pos; Ok ((name, value), pos)) = Ok ((nm, v), q) ∧ d' = k d nm v ∧ e = Some (nm, v)).
  - destruct (read_integer _ _ _) as [[i p1]| |]; cbn; [|naive_solver..].
    destruct (read_name _ _ _ _) as [[nm p2]| |]; cbn; [|naive_solver..].
    destruct (read_string _ _) as [[v p3]| |]; cbn; naive_solver.
  - setoid_rewrite Hr; [|done]. naive_solver.
Qed.

Lemma leading_bits b : is_byte b →
  (Z.land b 0x80 = 0 ↔ b < 128) ∧ (b < 128 → Z.land b 0xC0 = 0x40 ↔ 64 ≤ b) ∧
  (b < 64 → Z.land b 0xE0 = 0x20 ↔ 32 ≤ b).
Proof.
  intros Hb. pose proof (byte_forall (λ b, Bool.eqb (Z.land b 0x80 =? 0) (b <? 128) &&
      implb (b <? 128) (Bool.eqb (Z.land b 0xC0 =? 0x40) (64 <=? b)) &&
      implb (b <? 64) (Bool.eqb (Z.land b 0xE0 =? 0x20) (32 <=? b)))
    ltac:(vm_compute; reflexivity) b Hb) as H. cbn beta in H.
  apply andb_true_iff in H as [[H1%eqb_prop H2]%andb_true_iff H3].
  split_and!; [by rewrite <- Z.eqb_eq, H1, Z.ltb_lt|intros Hlt%Z.ltb_lt; rewrite Hlt in H2; apply eqb_prop in H2; by rewrite <- Z.eqb_eq, H2, Z.leb_le|].
  intros Hlt%Z.ltb_lt; rewrite Hlt in H3; apply eqb_prop in H3; by rewrite <- Z.eqb_eq, H3, Z.leb_le.
Qed.

Lemma state_decoder d : wf_decoder d → decoder_of (state_of d) = d.
Proof. destruct d as [t s m]. intros [Hs _]. cbn in Hs. unfold decoder_of. cbn. by rewrite Hs. Qed.
Lemma decoder_state st : state_of (decoder_of st) = st.
Proof. by destruct st. Qed.

Definition fields_of (e : option DecodedHeader) : list DecodedHeader := match e with Some e => [e] | None => [] end.

Lemma indexed_result d pre w d' q e : wf_bytes w →
  ('(i, pos) ← read_integer (pre ++ w) (zlen pre) 7; x ← lookup_index d i; Ok (d, pos, Some x)) = Ok (d', q, e) ↔
  ∃ b l i x l', w = b :: l ∧ integer kept 7 b l i l' ∧ indexed (state_of d) i x ∧ q = at_end pre w l' ∧
    d' = d ∧ e = Some x.
Proof.
  intros Hw. split.
  - intros ([i q1] & (l' & (b & l & -> & Hi) & ->)%(reads_integer 7) & (x & Hx & [= <- <- <-])%bind_Ok)%bind_Ok; [|lia|done].
    apply lookup_index_exact in Hx; [|by eapply (integer_nonneg 7)]. by exists b, l, i, x, l'.
  - intros (b & l & i & x & l' & -> & Hi & Hx & -> & -> & ->). apply bind_Ok. exists (i, at_end pre (b :: l) l'). split.
    + apply (reads_integer 7); [lia|done|]. exists l'. split; [by exists b, l|done].
    + apply bind_Ok. exists x. split; [|done]. apply lookup_index_exact; [by eapply (integer_nonneg 7)|done].
Qed.

Lemma update_result d pre w d' q e : wf_bytes w →
  ('(new, pos) ← read_integer (pre ++ w) (zlen pre) 5;
   if bool_decide (new > max_table_size d) then Err (TableSizeTooLarge new (max_table_size d))
   else Ok (resize_table d new, pos, @None DecodedHeader)) = Ok (d', q, e) ↔
  ∃ b l new l', w = b :: l ∧ integer kept 5 b l new l' ∧ new ≤ max_table_size d ∧ q = at_end pre w l' ∧
    d' = resize_table d new ∧ e = None.
Proof.
  intros Hw. split.
  - intros ([new q1] & (l' & (b & l & -> & Hi) & ->)%(reads_integer 5) & H)%bind_Ok; [|lia|done].
    destruct (bool_decide (new > _)) eqn:Hn; [done|]. injection H as <- <- <-. apply bool_decide_eq_false in Hn.
    exists b, l, new, l'. split_and!; (done || lia).
  - intros (b & l & new & l' & -> & Hi & Hn & -> & -> & ->). apply bind_Ok. exists (new, at_end pre (b :: l) l'). split.
    + apply (reads_integer 5); [lia|done|]. exists l'. split; [by exists b, l|done].
    + by rewrite bool_decide_false by lia.
Qed.

Lemma add_decoder d n v : wf_decoder d → add_to_dynamic_table d n v = decoder_of (insert_entry (state_of d) (n, v)).
Proof. intros Hd. by rewrite add_fitting. Qed.
Lemma resize_decoder d new : wf_decoder d → 0 ≤ new → resize_table d new = decoder_of (update_size (state_of d) new).
Proof. intros Hd Hn. by rewrite resize_fitting. Qed.

Lemma decode_one_exact d pre w d' q e : wf_decoder d → wf_bytes w → w ≠ [] →
  decode_one d (pre ++ w) (zlen pre) = Ok (d', q, e) ↔
  ∃ st' l', representation kept r_max (state_of d) w (fields_of e) st' l' ∧ d' = decoder_of st' ∧ q = at_end pre w l'.
Proof.
  intros Hd Hw Hne. destruct w as [|b0 l0]; [done|]. unfold decode_one. rewrite byte_at_app.
  assert (is_byte b0) as Hb by by apply Forall_cons in Hw as [? _]. destruct (leading_bits b0 Hb) as (H80 & Hc0 & He0).
  unfold is_byte in Hb. pose proof (state_decoder d Hd) as Hsd. rewrite (bool_decide_ext _ _ H80).
  case_bool_decide as H1; cbn [negb]; [rewrite (bool_decide_ext _ _ (Hc0 H1)); case_bool_decide as H2;
    [|rewrite (bool_decide_ext _ _ (He0 ltac:(lia))); case_bool_decide as H3]|].
  - rewrite (literal_result add_to_dynamic_table) by (lia || done). split.
    + intros (b & l & n & v & l' & [= <- <-] & Hl & -> & -> & ->). eexists _, l'. split_and!; [|by apply add_decoder|done].
      by apply incremental_field.
    + intros (st' & l' & Hr & -> & ->). inversion Hr; subst; try lia. destruct e as [e|]; simplify_eq/=.
      eexists _, _, n, v, l'. split_and!; try done. by rewrite add_decoder.
  - rewrite update_result by done. split.
    + intros (b & l & new & l' & [= <- <-] & Hi & Hn & -> & -> & ->). eexists _, l'.
      split_and!; [|apply resize_decoder; [done|by eapply (integer_nonneg 5)]|done]. apply size_update; [lia|done|done].
    + intros (st' & l' & Hr & -> & ->). inversion Hr; subst; try lia. destruct e as [e|]; simplify_eq/=.
      eexists _, _, new, l'. split_and!; try done. rewrite resize_decoder; [done..|by eapply (integer_nonneg 5)].
  - rewrite (literal_result (λ d _ _, d)) by (lia || done). split.
    + intros (b & l & n & v & l' & [= <- <-] & Hl & -> & -> & ->). eexists _, l'. split_and!; [|by rewrite Hsd|done].
      apply literal_only; [lia|done].
    + intros (st' & l' & Hr & -> & ->). inversion Hr; subst; try lia. destruct e as [e|]; simplify_eq/=.
      eexists _, _, n, v, l'. split_and!; done.
  - rewrite indexed_result by done. split.
    + intros (b & l & i & x & l' & [= <- <-] & Hi & Hx & -> & -> & ->). eexists _, l'. split_and!; [|by rewrite Hsd|done].
      eapply indexed_field; [lia|done..].
    + intros (st' & l' & Hr & -> & ->). inversion Hr; subst; try lia. destruct e as [e|]; simplify_eq/=.
      eexists _, _, i, _, l'. split_and!; done.
Qed.

(** ** A block *)

Lemma representation_fields val lim st w fs st' l' : representation val lim st w fs st' l' → ∃ e, fs = fields_of e.
Proof. intros [b l i e ? _ _ _|b l n v ? _ _|b l new ? _ _ _|b l n v ? _ _]; [by exists (Some e)|by exists (Some (n, v))|by exists None|by exists (Some (n, v))]. Qed.

Lemma representation_nil val lim st fs st' l' : ¬ representation val lim st [] fs st' l'.
Proof. inversion 1. Qed.

Lemma literal_suffix st n b l nm v l' : 0 ≤ n → literal_field kept st n b l nm v l' → l' `suffix_of` b :: l.
Proof.
  intros Hn Hl. apply (proj1 (reads_literal (decoder_of st) n Hn) _ (nm, v)). exists b, l. by rewrite decoder_state.
Qed.
Lemma representation_suffix st w fs st' l' : representation kept r_max st w fs st' l' → l' `suffix_of` w.
Proof.
  intros [b l i e ? _ Hi%integer_suffix _|b l n v ? _ Hl|b l new ? _ Hi%integer_suffix _|b l n v ? _ Hl];
    [by apply suffix_cons_r|by eapply (literal_suffix _ 6)|by apply suffix_cons_r|by eapply (literal_suffix _ 4)].
Qed.

(** The grammar is unambiguous. *)
Lemma representation_unique st w fs1 st1 l1 fs2 st2 l2 : wf_decoder (decoder_of st) → wf_bytes w →
  representation kept r_max st w fs1 st1 l1 → representation kept r_max st w fs2 st2 l2 → fs1 = fs2 ∧ st1 = st2 ∧ l1 = l2.
Proof.
  intros Hd Hw H1 H2. assert (w ≠ []) as Hne by (intros ->; by apply representation_nil in H1).
  destruct (representation_fields _ _ _ _ _ _ _ H1) as [e1 ->], (representation_fields _ _ _ _ _ _ _ H2) as [e2 ->].
  destruct (representation_suffix _ _ _ _ _ H1) as [u1 Hu1], (representation_suffix _ _ _ _ _ H2) as [u2 Hu2].
  assert (∀ e st' l', representation kept r_max st w (fields_of e) st' l' →
    decode_one (decoder_of st) ([] ++ w) (zlen (@nil Z)) = Ok (decoder_of st', at_end [] w l', e)) as Hx.
  { intros e st' l' Hr. apply decode_one_exact; [done..|]. exists st', l'. by rewrite decoder_state. }
  pose proof (Hx _ _ _ H1) as E1. rewrite (Hx _ _ _ H2) in E1. assert (decoder_of st2 = decoder_of st1 ∧ zlen l2 = zlen l1 ∧ e2 = e1) as (Hst & Hl & ->).
  { assert (at_end [] w l2 = at_end [] w l1) by congruence. split_and!; [congruence|lia|congruence]. }
  split; [done|]. split.
  - apply (f_equal state_of) in Hst. by rewrite !decoder_state in Hst.
  - assert (length l1 = length l2) as Hlen by (unfold zlen in Hl; lia).
    rewrite Hu1 in Hu2. by apply app_inj_2 in Hu2 as [_ ?].
Qed.

(** One turn of the loop. *)
Lemma decode_loop_step fuel d pre w out : wf_decoder d → wf_bytes w → w ≠ [] →
  (∃ fs st' used l', representation kept r_max (state_of d) w fs st' l' ∧ w = used ++ l' ∧ used ≠ [] ∧
     wf_decoder (decoder_of st') ∧ wf_bytes l' ∧
     decode_headers_loop (S fuel) d (pre ++ w) (zlen pre) out =
       decode_headers_loop fuel (decoder_of st') ((pre ++ used) ++ l') (zlen (pre ++ used)) (out ++ fs)) ∨
  ((∀ fs st' l', ¬ representation kept r_max (state_of d) w fs st' l') ∧
   ∃ e, decode_headers_loop (S fuel) d (pre ++ w) (zlen pre) out = Some (d, Err e)).
Proof.
  intros Hd Hw Hne. cbn [decode_headers_loop].
  assert (0 < zlen w) as Hlen by (destruct w as [|x w']; [done|rewrite zlen_cons; pose proof (zlen_nonneg w'); lia]).
  rewrite bool_decide_true by (rewrite zlen_app; lia).
  pose proof (decode_one_exact d pre w) as He. pose proof (decode_one_no_panic d (pre ++ w) (zlen pre)) as Hp.
  destruct (decode_one d (pre ++ w) (zlen pre)) as [[[d1 q] e]|e|] eqn:H1; [|right|done].
  - left. pose proof (decode_one_spec _ _ _ _ _ _ H1) as [Hq Hs]. apply table_step_wf in Hs as [Hwf _]; [|done].
    destruct (proj1 (He d1 q e Hd Hw Hne) eq_refl) as (st' & l' & Hr & -> & ->).
    destruct (representation_suffix _ _ _ _ _ Hr) as [used ->]. exists (fields_of e), st', used, l'.
    rewrite at_end_split in *. rewrite <- (assoc_L (++)). apply Forall_app in Hw as [_ Hw]. split_and!; try done.
    intros ->. rewrite app_nil_r in Hq. lia.
  - split; [|by eexists]. intros fs st' l' Hr. destruct (representation_fields _ _ _ _ _ _ _ Hr) as [x ->].
    pose proof (proj2 (He (decoder_of st') (at_end pre w l') x Hd Hw Hne) ltac:(by exists st', l')). done.
Qed.

Lemma representations_nil val lim st fs st' l' : representations val lim st [] fs st' l' ↔ fs = [] ∧ st' = st ∧ l' = [].
Proof.
  split; [|intros (-> & -> & ->); constructor].
  inversion 1 as [|fs1 st1 w1 fs2 ? ? H1]; [done|by apply representation_nil in H1].
Qed.

Lemma decode_loop_exact fuel d pre w out d' fs : wf_decoder d → wf_bytes w → (length w ≤ fuel)%nat →
  decode_headers_loop fuel d (pre ++ w) (zlen pre) out = Some (d', Ok fs) ↔
  ∃ fs' st', representations kept r_max (state_of d) w fs' st' [] ∧ d' = decoder_of st' ∧ fs = out ++ fs'.
Proof.
  revert d pre w out. induction fuel as [|fuel IH]; intros d pre w out Hd Hw Hf; destruct (decide (w = [])) as [->|Hne].
  1,3: (cbn [decode_headers_loop]; rewrite app_nil_r, bool_decide_false by lia; split;
    [intros [= <- <-]; exists [], (state_of d); split_and!; [constructor|by rewrite state_decoder|by rewrite app_nil_r]
    |intros (fs' & st' & (-> & -> & _)%representations_nil & -> & ->); by rewrite state_decoder, app_nil_r]).
  1: by destruct w; [|cbn in Hf; lia].
  destruct (decode_loop_step fuel d pre w out Hd Hw Hne) as [(fs1 & st1 & used & l1 & Hr & -> & Hu & Hd1 & Hw1 & ->)|[Hno [e ->]]].
  - rewrite length_app in Hf. destruct used as [|u used]; [done|]. cbn in Hf. rewrite IH by (done || lia). rewrite decoder_state. split.
    + intros (fs' & st' & Hrs & -> & ->). exists (fs1 ++ fs'), st'. split_and!; [by eapply rep_more|done|by rewrite (assoc_L (++))].
    + intros (fs' & st' & Hrs & -> & ->). inversion Hrs as [|fs2 st2 w2 fs3 ? ? H1 H2]; subst.
      assert (wf_decoder (decoder_of (state_of d))) as Hd' by by rewrite state_decoder.
      destruct (representation_unique _ _ _ _ _ _ _ _ Hd' Hw Hr H1) as (<- & <- & <-).
      exists fs3, st'. split_and!; [done..|by rewrite (assoc_L (++))].
  - split; [done|]. intros (fs' & st' & Hrs & _). inversion Hrs as [|fs2 st2 w2 fs3 ? ? H1 H2]; subst; [done|by apply Hno in H1].
Qed.

Lemma decode_loop_error fuel d pre w out d' e : wf_decoder d → wf_bytes w →
  decode_headers_loop fuel d (pre ++ w) (zlen pre) out = Some (d', Err e) →
  ∃ fs st' rest, representations kept r_max (state_of d) w fs st' rest ∧ d' = decoder_of st' ∧ rest ≠ [] ∧
    ∀ fs st l, ¬ representation kept r_max st' rest fs st l.
Proof.
  revert d pre w out. induction fuel as [|fuel IH]; intros d pre w out Hd Hw; (destruct (decide (w = [])) as [->|Hne];
    [cbn [decode_headers_loop]; by rewrite app_nil_r, bool_decide_false by lia|]).
  { cbn [decode_headers_loop]. by case_bool_decide. }
  destruct (decode_loop_step fuel d pre w out Hd Hw Hne) as [(fs1 & st1 & used & l1 & Hr & -> & Hu & Hd1 & Hw1 & ->)|[Hno [e' ->]]].
  - intros (fs & st' & rest & Hrs & Hx)%IH; [|done..]. rewrite decoder_state in Hrs.
    exists (fs1 ++ fs), st', rest. split; [by eapply rep_more|done].
  - intros [= <- <-]. exists [], (state_of d), w. split_and!; [constructor|by rewrite state_decoder|done|done].
Qed.

(** ** Exact integers *)

Lemma exact_value_nonneg gs : Forall is_group gs → 0 ≤ exact_value gs.
Proof. induction 1 as [|g gs Hg _ IH]; cbn; [lia|]. unfold is_group in Hg. lia. Qed.

Lemma word_value_exact gs i : Forall is_group gs → 0 ≤ i → exact_value gs * 2 ^ (7 * i) < 2 ^ 32 →
  word_value i gs = exact_value gs * 2 ^ (7 * i).
Proof.
  intros Hg. revert i. induction Hg as [|g gs Hg Hgs IH]; intros i Hi Hlt; cbn [word_value exact_value] in *; [lia|].
  pose proof (exact_value_nonneg gs Hgs) as Hn. unfold is_group in Hg. pose proof (Z.pow_pos_nonneg 2 (7 * i) ltac:(lia) ltac:(lia)).
  assert (2 ^ (7 * (i + 1)) = 128 * 2 ^ (7 * i)) as Hp.
  { replace (7 * (i + 1)) with (7 + 7 * i) by lia. by rewrite Z.pow_add_r by lia. }
  rewrite IH, Hp by nia. rewrite u32_small by nia. nia.
Qed.

(** The code computes another value only when the fifth octet has bits above its low
    four. *)
Lemma kept_exact gs : Forall is_group gs → zlen gs ≤ 5 → (∀ g, gs !! 4%nat = Some g → g < 16) → kept gs = exact_value gs.
Proof.
  intros Hg Hlen H4. rewrite (word_value_exact gs 0 Hg) by (lia || (rewrite Z.mul_0_r, Z.mul_1_r;
    destruct gs as [|g0 [|g1 [|g2 [|g3 [|g4 [|g5 gs]]]]]]; unfold zlen in Hlen; cbn [length exact_value] in *; try lia;
    repeat (apply Forall_cons in Hg as [? Hg]); unfold is_group in *; try lia; specialize (H4 g4 eq_refl); lia)).
  by rewrite Z.mul_0_r, Z.mul_1_r.
Qed.

Lemma integer_exact_kept n b l v l' : 0 ≤ n → integer exact_value n b l v l' → integer kept n b l v l'.
Proof.
  intros Hn [Hs|gs l1 Hb Hl Hne Hg Hlen Hv]; [by constructor|].
  pose proof (Z.pow_pos_nonneg 2 n ltac:(lia) Hn). assert (kept gs = exact_value gs) as He.
  { rewrite (word_value_exact gs 0 Hg) by (unfold u32_max in Hv; lia). lia. }
  rewrite <- He. apply (integer_long kept n b l gs l1); try done. by rewrite He.
Qed.

Lemma string_exact_kept w s l' : string_literal exact_value w s l' → string_literal kept w s l'.
Proof.
  intros [b l raw l1 Hw Hb Hi%integer_exact_kept|b l s1 l1 Hw Hb Hs Hi%integer_exact_kept]; try lia;
    [by eapply string_raw|by eapply string_huffman].
Qed.

Lemma literal_exact_kept st n b l nm v l' : 0 ≤ n → literal_field exact_value st n b l nm v l' → literal_field kept st n b l nm v l'.
Proof.
  intros Hn (i & l1 & l2 & Hi%integer_exact_kept & Hnm & Hv%string_exact_kept); [|done]. exists i, l1, l2. split_and!; [done| |done].
  destruct Hnm as [s w' ? Hs%string_exact_kept|e He]; by constructor.
Qed.

Lemma representations_exact_kept st w fs st' l' :
  representations exact_value r_max st w fs st' l' → representations kept r_max st w fs st' l'.
Proof.
  induction 1 as [st w|st w fs1 st1 w1 fs st' w' H1 _ IH]; [constructor|]. eapply rep_more; [|done].
  inversion H1; subst; [eapply indexed_field|eapply incremental_field|eapply size_update|eapply literal_only];
    try apply integer_exact_kept; try apply literal_exact_kept; try done; lia.
Qed.

(** ** Blocks of the RFC *)

(** Only an update gives no field, and what it may announce does not matter to a field. *)
Lemma field_limit val lim lim' st w e st' l' : representation val lim st w [e] st' l' → representation val lim' st w [e] st' l'.
Proof. inversion 1; subst; [by eapply indexed_field|by apply incremental_field|by apply literal_only]. Qed.
Lemma update_limit val lim lim' st w st' l' : representation val lim st w [] st' l' → r_max st' ≤ lim' st →
  representation val lim' st w [] st' l'.
Proof. inversion 1; subst. intros Hn. by apply size_update. Qed.

Lemma fields_run val lim lim' st w fs st' l' : fields val lim st w fs st' l' → representations val lim' st w fs st' l'.
Proof.
  induction 1 as [|st w e st1 w1 fs st' w' H _ IH]; [constructor|]. apply (rep_more _ _ _ _ [e]  st1 w1 fs); [|done].
  by eapply field_limit.
Qed.
Lemma updates_run val lim st w sizes st' l' : updates val lim st w sizes st' l' → lowering (r_max st) sizes →
  representations val r_max st w [] st' l'.
Proof.
  induction 1 as [|st w st1 w1 sizes st' w' H _ IH]; [constructor|]. intros [Hn Hl].
  apply (rep_more _ _ _ _ [] st1 w1 []); [by eapply update_limit|by apply IH].
Qed.
Lemma representations_app val lim st w fs st1 w1 fs' st' w' :
  representations val lim st w fs st1 w1 → representations val lim st1 w1 fs' st' w' → representations val lim st w (fs ++ fs') st' w'.
Proof.
  induction 1 as [|st w fs1 st1 w1 fs st2 w2 H _ IH]; [done|]. intros H'. rewrite <- (assoc_L (++)).
  eapply rep_more; [exact H|by apply IH].
Qed.
Lemma block_run val lim st block sizes fs st' : header_block val lim st block sizes fs st' → lowering (r_max st) sizes →
  representations val r_max st block fs st' [].
Proof.
  intros (st1 & w1 & Hu & Hf) Hl. apply (representations_app _ _ _ _ [] st1 w1 fs); [by eapply updates_run|by eapply fields_run].
Qed.

(** An update above the size in force is refused. *)
Lemma raise_decode d pre w st' l' L : wf_decoder d → wf_bytes w →
  representation exact_value (λ _, L) (state_of d) w [] st' l' → max_table_size d < r_max st' →
  decode_one d (pre ++ w) (zlen pre) = Err (TableSizeTooLarge (r_max st') (max_table_size d)).
Proof.
  intros Hd Hw H Hlt. inversion H as [| |b l new l1 Hb Hi Hn|]; subst. cbn [update_size r_max] in *. unfold decode_one.
  rewrite byte_at_app. assert (is_byte b) as Hby by by apply Forall_cons in Hw as [? _].
  destruct (leading_bits b Hby) as (H80 & Hc0 & He0).
  rewrite bool_decide_true by (apply H80; lia). cbn [negb].
  rewrite bool_decide_false by (rewrite Hc0 by lia; lia). rewrite bool_decide_true by (apply He0; lia).
  apply integer_exact_kept in Hi; [|lia].
  rewrite (proj2 (read_integer_exact pre b l 5 new (at_end pre (b :: l) l') Hw ltac:(lia))) by (by exists l').
  cbn [mbind exec_bind]. by rewrite bool_decide_true by lia.
Qed.

Lemma raise_refused L st w sizes st' w' : updates exact_value (λ _, L) st w sizes st' w' →
  wf_decoder (decoder_of st) → wf_bytes w → ¬ lowering (r_max st) sizes → ∀ fuel pre out, (length w ≤ fuel)%nat →
  ∃ d' new m, decode_headers_loop fuel (decoder_of st) (pre ++ w) (zlen pre) out = Some (d', Err (TableSizeTooLarge new m)) ∧ m < new.
Proof.
  induction 1 as [|st w st1 w1 sizes st' w' H _ IH]; intros Hd Hw Hl fuel pre out Hf; [by destruct Hl|].
  assert (w ≠ []) as Hne by (intros ->; by apply representation_nil in H).
  destruct fuel as [|fuel]; [by destruct w; [|cbn in Hf; lia]|]. destruct (decide (r_max st1 ≤ r_max st)) as [Hle|Hgt].
  - assert (representation kept r_max st w [] st1 w1) as Hk.
    { pose proof (update_limit _ _ r_max _ _ _ _ H Hle) as Hk. inversion Hk; subst. apply size_update; [done| |done].
      apply integer_exact_kept; [lia|done]. }
    destruct (decode_loop_step fuel (decoder_of st) pre w out Hd Hw Hne) as [(fs2 & st2 & used & l2 & Hr & -> & Hu & Hd2 & Hw2 & ->)|[Hno _]].
    2: { rewrite decoder_state in Hno. by apply Hno in Hk. }
    rewrite decoder_state in Hr. destruct (representation_unique _ _ _ _ _ _ _ _ Hd Hw Hk Hr) as (<- & <- & <-).
    apply IH; [done|done| |].
    + intros Hlow. apply Hl. by split.
    + rewrite length_app in Hf. destruct used; [done|]. cbn in Hf. lia.
  - eexists _, (r_max st1), (r_max st). split; [|lia]. cbn [decode_headers_loop].
    assert (0 < zlen w) by (destruct w as [|x w0]; [done|rewrite zlen_cons; pose proof (zlen_nonneg w0); lia]).
    rewrite bool_decide_true by (rewrite zlen_app; lia).
    rewrite (raise_decode (decoder_of st) pre w st1 w1 L Hd Hw); [done|by rewrite decoder_state|cbn; lia].
Qed.

(** ** The property *)


(** An update, an insertion that is used at once and a Huffman string; an update that
    raises the size again, within the setting; and an update behind a field. *)
Definition rfc_example : bytes := [0x3F; 0x21; 0x40; 1; 97; 0x81; 0x1F; 0xBE].
Definition raising_example : bytes := [0x20; 0x3F; 0x21; 0x82].
Definition trailing_example : bytes := [0x82; 0x20].
