(* ===== verification/Probe.v ===== *)
(** * The one-request probe (src/h2/probe.rs)

    [build_probe] glues preface, SETTINGS, HEADERS (optionally split into a
    CONTINUATION) and DATA.  The property reads the result back: an RFC 9113
    receiver that splits the bytes into frames, joins the header fragments and
    decodes them sees the request that was asked for. *)
From S2P Require Import Prelude Frame Huffman Hpack HpackFacts HpackProps.

Record ProbeOpts := mkProbeOpts {
  send_preface : bool;
  preface_override : option bytes;
  settings : option (list (Z * Z));
  p_stream_id : Z;
  body : option bytes;
  split_headers_after : option Z;
  pad_headers : Z;
  pad_data : Z;
  p_priority : option (Z * Z * bool);
  force_no_end_stream_on_headers : bool;
  extra_frames_before_headers : bytes;
  extra_frames_after : bytes
}.

Definition ProbeOpts_default : ProbeOpts :=
  mkProbeOpts true None (Some []) 1 None None 0 0 None false [] [].

Definition end_stream_on_headers (opts : ProbeOpts) : bool :=
  if opts.(force_no_end_stream_on_headers) then false else negb (bool_decide (is_Some opts.(body))).

Definition hdr_opts (opts : ProbeOpts) (block : bytes) (eh : bool) : HeadersFrameOpts :=
  {| header_block := block; stream_id := opts.(p_stream_id);
     end_stream := end_stream_on_headers opts; end_headers := eh;
     padding := opts.(pad_headers); priority := opts.(p_priority) |}.

(** The HEADERS frame, and the CONTINUATION that a split leaves. *)
Definition build_header_frames (block : bytes) (opts : ProbeOpts) : exec EncodeError bytes :=
  let hdr b eh := build_headers_frame (hdr_opts opts b eh) in
  match opts.(split_headers_after) with
  | Some split_after =>
      let split := Z.min split_after (zlen block) in
      let '(first, rest) := (take (Z.to_nat split) block, drop (Z.to_nat split) block) in
      let more_coming := negb (bool_decide (rest = [])) in
      out ← hdr first (negb more_coming);
      if more_coming then
        c ← build_continuation_frame rest opts.(p_stream_id) true;
        Ok (out ++ c)
      else Ok out
  | None => hdr block true
  end.

Definition build_probe (headers : list Header) (opts : ProbeOpts) : exec EncodeError bytes :=
  header_block ← encode_headers headers;
  let out := if opts.(send_preface) then
               match opts.(preface_override) with Some p => p | None => PREFACE end
             else [] in
  out ← match opts.(settings) with
        | Some settings => s ← build_settings_frame settings false; Ok (out ++ s)
        | None => Ok out
        end;
  let out := out ++ opts.(extra_frames_before_headers) in
  hs ← build_header_frames header_block opts;
  let out := out ++ hs in
  out ← match opts.(body) with
        | Some body => d ← build_data_frame body opts.(p_stream_id) true opts.(pad_data); Ok (out ++ d)
        | None => Ok out
        end;
  Ok (out ++ opts.(extra_frames_after)).

(** ** The receiver *)

(** The header fragment of a HEADERS or CONTINUATION frame. *)
Definition fragment (f : frame) : option bytes :=
  if f_type f =? FRAME_HEADERS then snd <$> parse_headers_payload (f_flags f) (f_payload f)
  else if f_type f =? FRAME_CONTINUATION then Some (f_payload f)
  else None.

(** Join the fragments of stream [sid] until END_HEADERS. *)
Fixpoint read_block (fuel : nat) (sid : Z) (b : bytes) : option (bytes * bytes) :=
  match fuel with
  | O => None
  | S fuel =>
      '(f, rest) ← parse_frame b;
      if f_stream f =? sid then
        frag ← fragment f;
        if Z.testbit (f_flags f) 2 then Some (frag, rest)
        else '(more, rest) ← read_block fuel sid rest; Some (frag ++ more, rest)
      else None
  end.

Record request := mkRequest {
  r_settings : option (list (Z * Z));
  r_headers_end_stream : bool;
  r_priority : option (Z * Z * bool);
  r_block : bytes;
  r_body : option bytes;
  r_rest : bytes
}.

(** Read one request on stream [sid]: SETTINGS if [with_settings], the header
    block, and DATA if [with_body]. *)
Definition read_request (with_settings with_body : bool) (sid : Z) (b : bytes) : option request :=
  '(st, b) ← (if with_settings then
                '(f, rest) ← parse_frame b;
                if (f_type f =? FRAME_SETTINGS) && (f_stream f =? 0) then
                  s ← parse_settings (f_payload f); Some (Some s, rest)
                else None
              else Some (None, b));
  '(f, _) ← parse_frame b;
  '(prio, _) ← parse_headers_payload (f_flags f) (f_payload f);
  '(block, b) ← read_block 2 sid b;
  '(bd, b) ← (if with_body then
                '(g, rest) ← parse_frame b;
                if (f_type g =? FRAME_DATA) && (f_stream g =? sid) && Z.testbit (f_flags g) 0 then
                  d ← unpad (f_flags g) (f_payload g); Some (Some d, rest)
                else None
              else Some (None, b));
  Some (mkRequest st (Z.testbit (f_flags f) 0) prio block bd b).

(** ** Facts *)

Lemma bind_Some_eq {A B} (m : option A) (k : A → option B) a : m = Some a → m ≫= k = k a.
Proof. by intros ->. Qed.

Lemma settings_frame_parse {E} ss ack out rest :
  Forall (λ '(id, val), 0 ≤ id < 2 ^ 16 ∧ 0 ≤ val < 2 ^ 32) ss →
  @build_settings_frame E ss ack = Ok out →
  ∃ fl, parse_frame (out ++ rest) = Some (Frame FRAME_SETTINGS fl false 0 (settings_payload ss), rest) ∧
    parse_settings (settings_payload ss) = Some ss.
Proof.
  intros Hs Hb. apply raw_frame_ok in Hb as [_ Hp]. eexists. rewrite Hp.
  split; [done|by apply parse_settings_payload].
Qed.

Lemma headers_frame_parse {E} opts out rest :
  is_byte opts.(padding) → @build_headers_frame E opts = Ok out →
  parse_frame (out ++ rest)
  = Some (Frame FRAME_HEADERS (headers_flags opts) false (opts.(stream_id) mod 2 ^ 31) (headers_payload opts), rest)
  ∧ parse_headers_payload (headers_flags opts) (headers_payload opts)
    = Some (norm_priority opts.(priority), opts.(header_block)).
Proof.
  intros [Hpad _] Hb. apply raw_frame_ok in Hb as [_ Hp]. split; [apply Hp|]. by apply parse_headers_payload_ok.
Qed.

(** One HEADERS frame in front of a block that continues with [more]. *)
Lemma read_block_headers {E} fuel opts out rest :
  is_byte opts.(padding) → @build_headers_frame E opts = Ok out →
  read_block (S fuel) (opts.(stream_id) mod 2 ^ 31) (out ++ rest)
  = if opts.(end_headers) then Some (opts.(header_block), rest)
    else '(more, rest) ← read_block fuel (opts.(stream_id) mod 2 ^ 31) rest;
         Some (opts.(header_block) ++ more, rest).
Proof.
  intros Hpad Hb. destruct (headers_frame_parse opts out rest Hpad Hb) as [Hp Hq].
  destruct (headers_flags_bits opts) as (_ & H2 & _).
  cbn [read_block]. rewrite Hp. cbn [mbind option_bind f_stream f_flags]. rewrite Z.eqb_refl.
  unfold fragment. cbn [f_type f_flags f_payload]. rewrite Z.eqb_refl, Hq.
  cbn [fmap option_fmap option_map snd mbind option_bind]. by rewrite H2.
Qed.

Lemma read_block_continuation {E} fuel block sid out rest :
  @build_continuation_frame E block sid true = Ok out →
  read_block (S fuel) (sid mod 2 ^ 31) (out ++ rest) = Some (block, rest).
Proof.
  intros Hb. apply raw_frame_ok in Hb as [_ Hp]. cbn [read_block]. rewrite Hp.
  cbn [mbind option_bind f_stream f_flags]. by rewrite Z.eqb_refl.
Qed.

(** The first header frame of a probe, as its receiver sees it. *)
Lemma first_frame {E} opts b eh o rest :
  is_byte opts.(pad_headers) → @build_headers_frame E (hdr_opts opts b eh) = Ok o →
  ∃ f r, parse_frame (o ++ rest) = Some (f, r) ∧
    Z.testbit (f_flags f) 0 = end_stream_on_headers opts ∧
    parse_headers_payload (f_flags f) (f_payload f) = Some (norm_priority opts.(p_priority), b).
Proof.
  intros Hpad Ho. destruct (headers_frame_parse (hdr_opts opts b eh) o rest Hpad Ho) as [Hp Hq].
  destruct (headers_flags_bits (hdr_opts opts b eh)) as [H0 _]. eauto.
Qed.

(** What the first frame says, and the block the frames carry. *)
Lemma header_frames_read block opts out rest :
  is_byte opts.(pad_headers) → (∀ n, opts.(split_headers_after) = Some n → 0 ≤ n) →
  build_header_frames block opts = Ok out →
  read_block 2 (opts.(p_stream_id) mod 2 ^ 31) (out ++ rest) = Some (block, rest) ∧
  ∃ f r b, parse_frame (out ++ rest) = Some (f, r) ∧
    Z.testbit (f_flags f) 0 = end_stream_on_headers opts ∧
    parse_headers_payload (f_flags f) (f_payload f) = Some (norm_priority opts.(p_priority), b).
Proof.
  intros Hpad Hsp. unfold build_header_frames.
  assert (∀ fuel b eh o rest, build_headers_frame (hdr_opts opts b eh) = @Ok EncodeError _ o →
    read_block (S fuel) (p_stream_id opts mod 2 ^ 31) (o ++ rest)
    = if eh then Some (b, rest)
      else '(more, rest) ← read_block fuel (p_stream_id opts mod 2 ^ 31) rest; Some (b ++ more, rest)) as Hrb.
  { intros fuel b eh o rest' Ho. exact (read_block_headers fuel (hdr_opts opts b eh) o rest' Hpad Ho). }
  destruct (split_headers_after opts) as [n|].
  - specialize (Hsp n eq_refl). set (sp := Z.to_nat (Z.min n (zlen block))).
    destruct (bool_decide (drop sp block = [])) eqn:Hd; cbn [negb].
    + intros (o & Ho & [= <-])%bind_Ok. apply bool_decide_eq_true in Hd.
      assert (take sp block = block) as Ht by (rewrite <- (take_drop sp block) at 2; by rewrite Hd, app_nil_r).
      rewrite (Hrb _ _ _ _ rest Ho), Ht. split; [done|].
      destruct (first_frame _ _ _ _ rest Hpad Ho) as (f & r & ?). eauto.
    + intros (o & Ho & (c & Hc & [= <-])%bind_Ok)%bind_Ok. rewrite <- (assoc_L (++)).
      rewrite (Hrb _ _ _ _ (c ++ rest) Ho), (read_block_continuation _ _ _ _ rest Hc). cbn [mbind option_bind].
      split; [by rewrite take_drop|]. destruct (first_frame _ _ _ _ (c ++ rest) Hpad Ho) as (f & r & ?). eauto.
  - intros Ho. rewrite (Hrb _ _ _ _ rest Ho). split; [done|].
    destruct (first_frame _ _ _ _ rest Hpad Ho) as (f & r & ?). eauto.
Qed.

(** The options of a well-formed probe: no injected frames, byte paddings. *)
Definition regular (opts : ProbeOpts) : Prop :=
  is_byte opts.(pad_headers) ∧ is_byte opts.(pad_data) ∧
  (∀ n, opts.(split_headers_after) = Some n → 0 ≤ n) ∧
  opts.(extra_frames_before_headers) = [] ∧
  (∀ ss, opts.(settings) = Some ss → Forall (λ '(id, val), 0 ≤ id < 2 ^ 16 ∧ 0 ≤ val < 2 ^ 32) ss).

Definition preface_of (opts : ProbeOpts) : bytes :=
  if opts.(send_preface) then match opts.(preface_override) with Some p => p | None => PREFACE end else [].

(** C38: a receiver that skips the preface reads from a probe without injected
    leading frames exactly the request asked for, on its stream (the identifier modulo
    2^31): the settings, the priority, the body, END_STREAM on HEADERS exactly when there
    is no body and it is not forced off (with a body it is on DATA), and a header block,
    joined from HEADERS and CONTINUATION at whatever split, that decodes to the given
    fields; only the trailing injected bytes remain.  The headers may use every knob but
    the length bloat, which lies about a length, and their names and values are shorter
    than 2^30 bytes. *)
Theorem probe_roundtrip (hs : list Header) (opts : ProbeOpts) (d : Decoder) (out : bytes) :
  regular opts → Forall plain hs → build_probe hs opts = Ok out →
  ∃ wire req, out = preface_of opts ++ wire ∧
    read_request (bool_decide (is_Some opts.(settings))) (bool_decide (is_Some opts.(body)))
      (opts.(p_stream_id) mod 2 ^ 31) wire = Some req ∧
    r_settings req = opts.(settings) ∧ r_body req = opts.(body) ∧
    (r_headers_end_stream req = true ↔ opts.(body) = None ∧ opts.(force_no_end_stream_on_headers) = false) ∧
    r_priority req = norm_priority opts.(p_priority) ∧
    r_rest req = opts.(extra_frames_after) ∧
    decode_headers d (r_block req) = Some (fold_left after hs d, Ok (map field hs)).
Proof.
  intros (Hph & Hpd & Hsp & Hex & Hset) Hpl (block & Hblk & H)%bind_Ok.
  apply encode_headers_loop_ok in Hblk as [Hacc Hblk]. cbn [app] in Hblk.
  assert (decode_headers d block = Some (fold_left after hs d, Ok (map field hs))) as Hdec
    by (subst; by apply decode_headers_block).
  fold (preface_of opts) in H. apply bind_Ok in H as (o1 & Hs & (hf & Hhf & (o2 & Hd & [= <-])%bind_Ok)%bind_Ok).
  rewrite Hex, app_nil_r in Hd.
  assert (∃ dw, o2 = (o1 ++ hf) ++ dw ∧ ∀ rest,
    (if bool_decide (is_Some opts.(body)) then
       '(g, rest) ← parse_frame (dw ++ rest);
       if (f_type g =? FRAME_DATA) && (f_stream g =? opts.(p_stream_id) mod 2 ^ 31) && Z.testbit (f_flags g) 0 then
         d ← unpad (f_flags g) (f_payload g); Some (Some d, rest)
       else None
     else Some (None, dw ++ rest)) = Some (opts.(body), rest)) as (dw & -> & Hdw).
  { destruct (body opts) as [bd|]; [|injection Hd as <-; exists []; by rewrite app_nil_r].
    apply bind_Ok in Hd as (dw & Hd & [= <-]). exists dw. split; [done|]. intros rest.
    rewrite bool_decide_true by eauto. apply raw_frame_ok in Hd as [_ Hp]. rewrite Hp.
    cbn [mbind option_bind f_type f_stream f_flags f_payload]. rewrite !Z.eqb_refl.
    rewrite unpad_padded; [by destruct (bool_decide (pad_data opts > 0))| |destruct Hpd; lia].
    by destruct (bool_decide (pad_data opts > 0)). }
  assert (∃ sw, o1 = preface_of opts ++ sw ∧ ∀ rest,
    (if bool_decide (is_Some opts.(settings)) then
       '(f, rest) ← parse_frame (sw ++ rest);
       if (f_type f =? FRAME_SETTINGS) && (f_stream f =? 0) then
         s ← parse_settings (f_payload f); Some (Some s, rest)
       else None
     else Some (None, sw ++ rest)) = Some (opts.(settings), rest)) as (sw & -> & Hsw).
  { destruct (settings opts) as [ss|]; [|injection Hs as <-; exists []; by rewrite app_nil_r].
    apply bind_Ok in Hs as (sw & Hs & [= <-]). exists sw. split; [done|]. intros rest.
    destruct (settings_frame_parse ss false sw rest (Hset ss eq_refl) Hs) as (fl & Hp & Hq).
    rewrite bool_decide_true by eauto. rewrite Hp. cbn [mbind option_bind f_type f_stream f_payload].
    by rewrite Hq. }
  exists (sw ++ hf ++ dw ++ opts.(extra_frames_after)).
  destruct (header_frames_read block opts hf (dw ++ opts.(extra_frames_after)) Hph Hsp Hhf)
    as [Hrb (f & r & b & Hpf & Hes & Hpp)].
  eexists. split; [by rewrite <- !(assoc_L (++))|]. unfold read_request.
  rewrite Hsw. cbn [mbind option_bind]. rewrite Hpf. cbn [mbind option_bind]. rewrite Hpp.
  cbn [mbind option_bind]. rewrite Hrb. cbn [mbind option_bind]. rewrite Hdw. cbn [mbind option_bind].
  split; [reflexivity|]. split; [done|]. split; [done|]. split; [|by split_and!].
  cbn [r_headers_end_stream]. rewrite Hes. unfold end_stream_on_headers.
  destruct (body opts), (force_no_end_stream_on_headers opts); cbn; naive_solver.
Qed.

Lemma probe_roundtrip_witness :
  let hs := [Header_new (bs ":method") (bs "GET"); Header_new (bs ":path") (bs "/")] in
  let opts := mkProbeOpts true None (Some [(1, 4096)]) 3 (Some (bs "hi")) (Some 2) 1 0
    (Some (0, 15, true)) false [] [] in
  ∃ out wire req, build_probe hs opts = Ok out ∧ out = PREFACE ++ wire ∧
    read_request true true 3 wire = Some req ∧
    r_settings req = Some [(1, 4096)] ∧ r_body req = Some (bs "hi") ∧
    (r_headers_end_stream req = true ↔ Some (bs "hi") = None ∧ false = false) ∧ r_priority req = Some (0, 15, true) ∧ r_rest req = [] ∧
    decode_headers Decoder_new (r_block req)
    = Some (fold_left after hs Decoder_new, Ok [(bs ":method", bs "GET"); (bs ":path", bs "/")]).
Proof.
  intros hs opts. destruct (build_probe hs opts) as [out| |] eqn:Hb; [|vm_compute in Hb; discriminate..].
  exists out. destruct (probe_roundtrip hs opts Decoder_new out) as (wire & req & H).
  - split_and!; try done. intros n [= <-]. done. intros ss [= <-]. repeat constructor; lia.
  - repeat constructor; cbn; try apply bs_wf; vm_compute; congruence.
  - exact Hb.
  - exists wire, req. split; [reflexivity|exact H].
Defined.
