(* ===== verification/RustStd.v ===== *)
(** * The standard-library text operations the program uses

    [&str] methods on UTF-8 byte strings, integer parsing and decimal printing,
    as Rust's standard library defines them. *)
From S2P Require Import Prelude.

(** ** ASCII *)

Definition lower (b : Z) : Z := if (65 <=? b) && (b <=? 90) then b + 32 else b.
Definition upper (b : Z) : Z := if (97 <=? b) && (b <=? 122) then b - 32 else b.
Definition is_digit (b : Z) : bool := (48 <=? b) && (b <=? 57).

Definition to_ascii_lowercase (s : bytes) : bytes := map lower s.
Definition to_ascii_uppercase (s : bytes) : bytes := map upper s.
Definition eq_ignore_ascii_case (s t : bytes) : bool :=
  bool_decide (to_ascii_lowercase s = to_ascii_lowercase t).

(** ** Searching and splitting *)

Definition starts_with (s p : bytes) : bool := bool_decide (take (length p) s = p).
Definition ends_with (s p : bytes) : bool :=
  bool_decide (length p ≤ length s)%nat && bool_decide (drop (length s - length p) s = p).
Definition strip_prefix (s p : bytes) : option bytes :=
  if starts_with s p then Some (drop (length p) s) else None.
Definition strip_suffix (s p : bytes) : option bytes :=
  if ends_with s p then Some (take (length s - length p) s) else None.

Definition contains (c : Z) (s : bytes) : bool := existsb (Z.eqb c) s.

(** [s.split(c)]: never empty. *)
Fixpoint split (c : Z) (s : bytes) : list bytes :=
  match s with
  | [] => [[]]
  | x :: s =>
      if x =? c then [] :: split c s
      else match split c s with
           | p :: ps => (x :: p) :: ps
           | [] => [[x]]
           end
  end.

(** [s.split_once(c)] and [s.rsplit_once(c)]. *)
Fixpoint split_once (c : Z) (s : bytes) : option (bytes * bytes) :=
  match s with
  | [] => None
  | x :: s =>
      if x =? c then Some ([], s)
      else '(a, b) ← split_once c s; Some (x :: a, b)
  end.
Definition rsplit_once (c : Z) (s : bytes) : option (bytes * bytes) :=
  '(a, b) ← split_once c (rev s); Some (rev b, rev a).

(** [s.split_once(pat)] and [s.find(pat)] for a string pattern. *)
Fixpoint split_once_str (pat s : bytes) : option (bytes * bytes) :=
  if starts_with s pat then Some ([], drop (length pat) s)
  else match s with
       | [] => None
       | x :: s => '(a, b) ← split_once_str pat s; Some (x :: a, b)
       end.

(** [s.rfind(c)]. *)
Definition rfind (c : Z) (s : bytes) : option Z :=
  '(a, _) ← rsplit_once c s; Some (zlen a).

(** ** Trimming *)

Fixpoint trim_start_matches (c : Z) (s : bytes) : bytes :=
  match s with
  | x :: s' => if x =? c then trim_start_matches c s' else s
  | [] => []
  end.
Definition trim_end_matches (c : Z) (s : bytes) : bytes := rev (trim_start_matches c (rev s)).
Definition trim_matches (c : Z) (s : bytes) : bytes := trim_end_matches c (trim_start_matches c s).

(** The UTF-8 encodings of the characters with the White_Space property. *)
Definition ws1 (a : Z) : bool := ((9 <=? a) && (a <=? 13)) || (a =? 32).
Definition ws2 (a b : Z) : bool := (a =? 0xC2) && ((b =? 0x85) || (b =? 0xA0)).
Definition ws3 (a b c : Z) : bool :=
  ((a =? 0xE1) && (b =? 0x9A) && (c =? 0x80))
  || ((a =? 0xE2) && (b =? 0x80)
      && (((0x80 <=? c) && (c <=? 0x8A)) || (c =? 0xA8) || (c =? 0xA9) || (c =? 0xAF)))
  || ((a =? 0xE2) && (b =? 0x81) && (c =? 0x9F))
  || ((a =? 0xE3) && (b =? 0x80) && (c =? 0x80)).

Fixpoint trim_start (s : bytes) : bytes :=
  match s with
  | [] => []
  | a :: s1 =>
      if ws1 a then trim_start s1
      else match s1 with
           | [] => s
           | b :: s2 =>
               if ws2 a b then trim_start s2
               else match s2 with
                    | [] => s
                    | c :: s3 => if ws3 a b c then trim_start s3 else s
                    end
           end
  end.

(** [trim_end] on the reversed string. *)
Fixpoint trim_rev (s : bytes) : bytes :=
  match s with
  | [] => []
  | a :: s1 =>
      if ws1 a then trim_rev s1
      else match s1 with
           | [] => s
           | b :: s2 =>
               if ws2 b a then trim_rev s2
               else match s2 with
                    | [] => s
                    | c :: s3 => if ws3 c b a then trim_rev s3 else s
                    end
           end
  end.
Definition trim_end (s : bytes) : bytes := rev (trim_rev (rev s)).
Definition trim (s : bytes) : bytes := trim_end (trim_start s).

(** [s.split_whitespace()]: [cur] is the token under way. *)
Definition push_token (cur : bytes) (rest : list bytes) : list bytes :=
  match cur with [] => rest | _ => cur :: rest end.
Fixpoint split_ws (cur s : bytes) : list bytes :=
  match s with
  | [] => push_token cur []
  | a :: s1 =>
      if ws1 a then push_token cur (split_ws [] s1)
      else match s1 with
           | b :: s2 =>
               if ws2 a b then push_token cur (split_ws [] s2)
               else match s2 with
                    | c :: s3 =>
                        if ws3 a b c then push_token cur (split_ws [] s3) else split_ws (cur ++ [a]) s1
                    | [] => split_ws (cur ++ [a]) s1
                    end
           | [] => split_ws (cur ++ [a]) s1
           end
  end.
Definition split_whitespace (s : bytes) : list bytes := split_ws [] s.

(** ** Slicing

    A [&str] is cut only at a character boundary; anywhere else is a panic. *)
Definition is_char_boundary (s : bytes) (i : Z) : bool :=
  if i =? 0 then true
  else match s !! Z.to_nat i with
       | Some b => (b <? 128) || (192 <=? b)
       | None => i =? zlen s
       end.
Definition str_to {E} (s : bytes) (i : Z) : exec E bytes :=
  if is_char_boundary s i then Ok (take (Z.to_nat i) s) else Panic.

(** ** Integers *)

Fixpoint digits_value (s : bytes) (acc : Z) : option Z :=
  match s with
  | [] => Some acc
  | c :: s => if is_digit c then digits_value s (acc * 10 + (c - 48)) else None
  end.

Definition in_range (lo hi : Z) (v : Z) : option Z := if (lo <=? v) && (v <=? hi) then Some v else None.

(** [str::parse] for an unsigned type with maximum [hi]. *)
Definition parse_unsigned (hi : Z) (s : bytes) : option Z :=
  match s with
  | [] => None
  | c :: rest =>
      if c =? 43 then (if bool_decide (rest = []) then None else digits_value rest 0 ≫= in_range 0 hi)
      else digits_value s 0 ≫= in_range 0 hi
  end.

(** [str::parse] for a signed type. *)
Definition parse_signed (lo hi : Z) (s : bytes) : option Z :=
  match s with
  | [] => None
  | c :: rest =>
      if (c =? 43) || (c =? 45) then
        if bool_decide (rest = []) then None
        else v ← digits_value rest 0; in_range lo hi (if c =? 45 then - v else v)
      else digits_value s 0 ≫= in_range lo hi
  end.

Definition parse_i64 : bytes → option Z := parse_signed i64_min i64_max.
Definition parse_u8 : bytes → option Z := parse_unsigned 255.
Definition parse_u16 : bytes → option Z := parse_unsigned u16_max.

(** Decimal printing of a non-negative integer below 10^20. *)
Fixpoint dec_digits (fuel : nat) (n : Z) (acc : bytes) : bytes :=
  let acc := (48 + n mod 10) :: acc in
  match fuel with
  | O => acc
  | S fuel => if n / 10 =? 0 then acc else dec_digits fuel (n / 10) acc
  end.
Definition dec (n : Z) : bytes := dec_digits 20 n [].

(** ** Lemmas *)

Lemma lower_byte b : is_byte b → is_byte (lower b).
Proof. unfold is_byte, lower. repeat case_match; lia. Qed.

Lemma lower_idem b : lower (lower b) = lower b.
Proof.
  unfold lower. destruct ((65 <=? b) && (b <=? 90)) eqn:E; [|by rewrite E].
  rewrite (proj2 (andb_false_iff (65 <=? b + 32) _)); [done|]. right. lia.
Qed.

Lemma to_ascii_lowercase_idem s : to_ascii_lowercase (to_ascii_lowercase s) = to_ascii_lowercase s.
Proof. unfold to_ascii_lowercase. rewrite map_map. apply map_ext, lower_idem. Qed.

Lemma to_ascii_lowercase_length s : length (to_ascii_lowercase s) = length s.
Proof. apply length_map. Qed.

Lemma starts_with_spec s p : starts_with s p = true ↔ ∃ k, s = p ++ k.
Proof.
  unfold starts_with. rewrite bool_decide_eq_true. split.
  - intros H. exists (drop (length p) s). rewrite <- H at 1. by rewrite take_drop.
  - intros [k ->]. by apply take_app_exact.
Qed.

Lemma ends_with_spec s p : ends_with s p = true ↔ ∃ k, s = k ++ p.
Proof.
  unfold ends_with. rewrite andb_true_iff, !bool_decide_eq_true. split.
  - intros [_ H]. exists (take (length s - length p) s). rewrite <- H at 2. by rewrite take_drop.
  - intros [k ->]. rewrite length_app. split; [lia|]. apply drop_app_exact. lia.
Qed.

Lemma contains_spec c s : contains c s = true ↔ c ∈ s.
Proof.
  unfold contains. rewrite existsb_exists. setoid_rewrite Z.eqb_eq. rewrite list_elem_of_In. naive_solver.
Qed.

Lemma split_once_spec c s a b : split_once c s = Some (a, b) ↔ s = a ++ c :: b ∧ c ∉ a.
Proof.
  revert a b. induction s as [|x s IH]; intros a b; cbn [split_once].
  - split; [done|]. intros [H _]. by destruct a.
  - destruct (Z.eqb_spec x c) as [->|Hx].
    + split; [intros [= <- <-]; split; [done|set_solver]|]. intros [H Hn].
      destruct a as [|y a]; cbn in H; [by injection H as ->|]. injection H as -> ->. set_solver.
    + split.
      * destruct (split_once c s) as [[a' b']|] eqn:E; cbn; [|done]. intros [= <- <-].
        destruct (proj1 (IH a' b') eq_refl) as [-> Hn]. split; [done|]. set_solver.
      * intros [H Hn]. destruct a as [|y a]; cbn in H; [by injection H as -> ->|]. injection H as -> ->.
        rewrite (proj2 (IH a b)); [done|]. split; [done|set_solver].
Qed.

Lemma split_once_none c s : split_once c s = None ↔ c ∉ s.
Proof.
  induction s as [|x s IH]; cbn [split_once]; [split; [intros _; set_solver|done]|].
  destruct (Z.eqb_spec x c) as [->|Hx].
  - split; [done|]. intros H. exfalso. apply H. set_solver.
  - rewrite not_elem_of_cons. destruct (split_once c s) as [[a' b']|]; cbn; naive_solver.
Qed.

Lemma rsplit_once_spec c s a b : rsplit_once c s = Some (a, b) ↔ s = a ++ c :: b ∧ c ∉ b.
Proof.
  unfold rsplit_once. split.
  - destruct (split_once c (rev s)) as [[x y]|] eqn:E; cbn; [|done]. intros [= <- <-].
    apply split_once_spec in E as [Hs Hn]. split.
    + rewrite <- (rev_involutive s), Hs, rev_app_distr. cbn. by rewrite <- (assoc_L (++)).
    + rewrite list_elem_of_In, <- in_rev, <- list_elem_of_In. done.
  - intros [-> Hn]. rewrite rev_app_distr. cbn. rewrite <- (assoc_L (++)). cbn.
    rewrite (proj2 (split_once_spec c (rev b ++ c :: rev a) (rev b) (rev a))).
    + cbn. by rewrite !rev_involutive.
    + split; [done|]. rewrite list_elem_of_In, <- in_rev, <- list_elem_of_In. done.
Qed.

Lemma elem_of_rev {A} (x : A) l : x ∈ rev l ↔ x ∈ l.
Proof. by rewrite !list_elem_of_In, <- in_rev. Qed.

Lemma rsplit_once_none c s : rsplit_once c s = None ↔ c ∉ s.
Proof.
  unfold rsplit_once. rewrite <- (elem_of_rev c s), <- split_once_none.
  destruct (split_once c (rev s)) as [[x y]|]; cbn; split; done.
Qed.

Lemma last_rev {A} (l : list A) : last (rev l) = head l.
Proof. destruct l; [done|]. cbn [rev]. by rewrite last_snoc. Qed.

Lemma trim_start_matches_suffix c s : ∃ n, s = replicate n c ++ trim_start_matches c s.
Proof.
  induction s as [|x s [n IH]]; [by exists 0%nat|]. cbn [trim_start_matches].
  destruct (Z.eqb_spec x c) as [->|]; [exists (S n); cbn; by rewrite <- IH|by exists 0%nat].
Qed.

Lemma trim_start_matches_head c s : head (trim_start_matches c s) ≠ Some c.
Proof.
  induction s as [|x s IH]; cbn; [done|]. destruct (Z.eqb_spec x c) as [->|]; [done|]. cbn. congruence.
Qed.

Lemma trim_end_matches_last c s : last (trim_end_matches c s) ≠ Some c.
Proof. unfold trim_end_matches. rewrite last_rev. apply trim_start_matches_head. Qed.

Lemma trim_end_matches_prefix c s : ∃ n, s = trim_end_matches c s ++ replicate n c.
Proof.
  unfold trim_end_matches. destruct (trim_start_matches_suffix c (rev s)) as [n H]. exists n.
  apply (f_equal (@rev Z)) in H. rewrite rev_involutive, rev_app_distr in H. rewrite H at 1. f_equal.
  clear H. induction n as [|n IH]; [done|]. cbn [replicate rev]. by rewrite IH, <- replicate_cons_app.
Qed.

Lemma trim_end_matches_id c s : last s ≠ Some c → trim_end_matches c s = s.
Proof.
  intros H. unfold trim_end_matches. destruct (rev s) as [|x l] eqn:E.
  - cbn. rewrite <- (rev_involutive s), E. done.
  - cbn [trim_start_matches]. rewrite <- (rev_involutive s), E, last_rev in H. cbn in H.
    destruct (Z.eqb_spec x c) as [->|]; [done|]. by rewrite <- E, rev_involutive.
Qed.

(** Splitting and the separator. *)
Lemma split_no_sep c s : Forall (λ p, c ∉ p) (split c s).
Proof.
  induction s as [|x s IH]; cbn; [constructor; [set_solver|constructor]|].
  destruct (Z.eqb_spec x c) as [->|Hx]; [constructor; [set_solver|done]|].
  destruct (split c s) as [|p ps]; [constructor; [set_solver|constructor]|].
  inversion_clear IH. constructor; [set_solver|done].
Qed.

Lemma split_cons c s : ∃ p ps, split c s = p :: ps.
Proof. destruct s as [|x s]; cbn; [eauto|]. case_match; [eauto|]. case_match; eauto. Qed.

Lemma split_wf c s : wf_bytes s → Forall wf_bytes (split c s).
Proof.
  induction 1 as [|x s Hx _ IH]; cbn; [by apply Forall_singleton|].
  case_match; [apply Forall_cons; split; [by apply Forall_nil|done]|].
  destruct (split c s) as [|p ps]; [by apply Forall_singleton, Forall_singleton|].
  apply Forall_cons in IH as [? ?]. apply Forall_cons. split; [by apply Forall_cons|done].
Qed.

(** Decimal printing reads back. *)
Lemma digits_value_app s t acc : digits_value (s ++ t) acc = digits_value s acc ≫= digits_value t.
Proof. revert acc. induction s as [|c s IH]; intros acc; cbn; [done|]. by case_match. Qed.

Lemma digit_is_digit d : 0 ≤ d < 10 → is_digit (48 + d) = true.
Proof. unfold is_digit. lia. Qed.

(** What [dec_digits] puts in front of [acc]. *)
Lemma dec_digits_spec fuel n acc : 0 ≤ n < 10 ^ (Z.of_nat fuel + 1) →
  ∃ ds, dec_digits fuel n acc = ds ++ acc ∧ ds ≠ [] ∧ Forall (λ c, 48 ≤ c ≤ 57) ds ∧
    digits_value ds 0 = Some n.
Proof.
  revert n acc. induction fuel as [|fuel IH]; intros n acc Hn; cbn [dec_digits].
  - exists [48 + n mod 10]. cbn [app]. change (10 ^ (Z.of_nat 0 + 1)) with 10 in Hn.
    split_and!; [done|done|constructor; [Z.div_mod_to_equations; lia|constructor]|].
    rewrite Z.mod_small by lia. cbn [digits_value]. rewrite digit_is_digit by lia. f_equal. lia.
  - pose proof (Z.mod_pos_bound n 10 ltac:(lia)) as Hm. pose proof (Z.div_mod n 10 ltac:(lia)) as Hd.
    destruct (Z.eqb_spec (n / 10) 0) as [Hz|Hz].
    + exists [48 + n mod 10]. cbn [app]. split_and!; [done|done|constructor; [lia|constructor]|].
      cbn [digits_value]. rewrite digit_is_digit by lia. f_equal. lia.
    + destruct (IH (n / 10) ((48 + n mod 10) :: acc)) as (ds & He & Hne & Hf & Hv).
      { split; [apply Z.div_pos; lia|]. apply Z.div_lt_upper_bound; [lia|].
        replace (Z.of_nat (S fuel) + 1) with (Z.succ (Z.of_nat fuel + 1)) in Hn by lia.
        rewrite Z.pow_succ_r in Hn by lia. lia. }
      exists (ds ++ [48 + n mod 10]). rewrite He, <- (assoc_L (++)). split_and!; [done|by destruct ds| |].
      * apply Forall_app. split; [done|]. constructor; [lia|constructor].
      * rewrite digits_value_app, Hv. cbn. rewrite digit_is_digit by lia. f_equal. lia.
Qed.

Lemma dec_spec n : 0 ≤ n < 10 ^ 21 →
  dec n ≠ [] ∧ Forall (λ c, 48 ≤ c ≤ 57) (dec n) ∧ digits_value (dec n) 0 = Some n.
Proof.
  intros Hn. destruct (dec_digits_spec 20 n [] Hn) as (ds & He & H). unfold dec.
  rewrite He, app_nil_r. exact H.
Qed.

Lemma parse_unsigned_dec hi n : 0 ≤ n ≤ hi → hi < 10 ^ 21 → parse_unsigned hi (dec n) = Some n.
Proof.
  intros Hn Hh. destruct (dec_spec n ltac:(lia)) as (Hne & Hf & Hv). unfold parse_unsigned.
  destruct (dec n) as [|c ds]; [done|]. inversion_clear Hf.
  destruct (Z.eqb_spec c 43); [lia|]. rewrite Hv. cbn. unfold in_range.
  destruct ((0 <=? n) && (n <=? hi)) eqn:E; [done|]. lia.
Qed.

Lemma parse_unsigned_range hi s v : parse_unsigned hi s = Some v → 0 ≤ v ≤ hi.
Proof.
  unfold parse_unsigned. destruct s as [|c s]; [done|].
  assert (∀ o, o ≫= in_range 0 hi = Some v → 0 ≤ v ≤ hi) as Hr.
  { intros [w|]; cbn; [|done]. unfold in_range. destruct ((0 <=? w) && (w <=? hi)) eqn:E; [|done].
    intros [= ->]. lia. }
  repeat case_match; try done; apply Hr.
Qed.

Lemma parse_signed_range lo hi s v : parse_signed lo hi s = Some v → lo ≤ v ≤ hi.
Proof.
  unfold parse_signed. destruct s as [|c s]; [done|].
  assert (∀ w, in_range lo hi w = Some v → lo ≤ v ≤ hi) as Hr.
  { unfold in_range. intros w. destruct ((lo <=? w) && (w <=? hi)) eqn:E; [|done]. intros [= ->]. lia. }
  case_match; [case_match; [done|]|].
  - destruct (digits_value s 0); cbn; [apply Hr|done].
  - destruct (digits_value (c :: s) 0); cbn; [apply Hr|done].
Qed.
