(* ===== verification/NetAddr.v ===== *)
(** * [std::net::IpAddr] parsing

    The recursive-descent parser of Rust's [core::net::parser], which the proxy
    bypass rules, the cookie domain rules and the SOCKS5 request rely on. *)
From S2P Require Import Prelude RustStd.

(** ** Addresses *)

(** Four octets, and eight 16-bit segments. *)
Definition Ipv4Addr : Type := list Z.
Definition Ipv6Addr : Type := list Z.
Inductive IpAddr := V4 (a : Ipv4Addr) | V6 (a : Ipv6Addr).

#[export] Instance IpAddr_eq_dec : EqDecision IpAddr.
Proof. solve_decision. Defined.

(** A parser of a prefix of the input. *)
Definition parser (A : Type) : Type := bytes → option (A * bytes).

Definition read_given_char (c : Z) : parser unit :=
  λ s, match s with x :: s => if x =? c then Some (tt, s) else None | [] => None end.

(** [read_separator]: the separator precedes every element but the first. *)
Definition read_separator {A} (sep : Z) (index : nat) (p : parser A) : parser A :=
  λ s, match index with
       | O => p s
       | S _ => '(_, s) ← read_given_char sep s; p s
       end.

Definition to_digit (radix c : Z) : option Z :=
  let d := if is_digit c then c - 48
           else if (97 <=? c) && (c <=? 102) then c - 87
           else if (65 <=? c) && (c <=? 70) then c - 55 else radix in
  if d <? radix then Some d else None.

(** The digit loop of [read_number] with a maximum digit count. *)
Fixpoint read_digits (radix : Z) (max_digits : nat) (s : bytes) (acc : Z) (count : nat)
    : option (Z * nat * bytes) :=
  match s with
  | c :: s' =>
      match to_digit radix c with
      | Some d =>
          match max_digits with
          | O => None
          | S m => read_digits radix m s' (acc * radix + d) (S count)
          end
      | None => Some (acc, count, s)
      end
  | [] => Some (acc, count, [])
  end.

Definition read_number (radix : Z) (max_digits : nat) (allow_zero_prefix : bool) (hi : Z) : parser Z :=
  λ s,
    let has_leading_zero := bool_decide (head s = Some 48) in
    '(v, count, rest) ← read_digits radix max_digits s 0 0;
    if Nat.eqb count 0 then None
    else if negb allow_zero_prefix && has_leading_zero && Nat.ltb 1 count then None
    else v ← in_range 0 hi v; Some (v, rest).

Definition read_ipv4_addr : parser Ipv4Addr :=
  λ s,
    '(a, s) ← read_separator 46 0 (read_number 10 3 false 255) s;
    '(b, s) ← read_separator 46 1 (read_number 10 3 false 255) s;
    '(c, s) ← read_separator 46 2 (read_number 10 3 false 255) s;
    '(d, s) ← read_separator 46 3 (read_number 10 3 false 255) s;
    Some ([a; b; c; d], s).

(** [read_groups]: up to [limit - i] more groups from index [i]; the boolean says
    that a trailing embedded IPv4 address was read. *)
Fixpoint read_groups (remaining : nat) (i : nat) (s : bytes) : list Z * bool * bytes :=
  match remaining with
  | O => ([], false, s)
  | S remaining =>
      let ipv4 := match remaining with
                  | O => None
                  | S _ => read_separator 58 i read_ipv4_addr s
                  end in
      match ipv4 with
      | Some (a, rest) =>
          ([be_value (take 2 a); be_value (drop 2 a)], true, rest)
      | None =>
          match read_separator 58 i (read_number 16 4 true 65535) s with
          | Some (g, rest) =>
              let '(gs, v4, rest) := read_groups remaining (S i) rest in (g :: gs, v4, rest)
          | None => ([], false, s)
          end
      end
  end.

Definition read_ipv6_addr : parser Ipv6Addr :=
  λ s,
    let '(front, head_ipv4, s) := read_groups 8 0 s in
    if Nat.eqb (length front) 8 then Some (front, s)
    else if (head_ipv4 : bool) then None
    else
      '(_, s) ← read_given_char 58 s;
      '(_, s) ← read_given_char 58 s;
      let '(tail, _, s) := read_groups (8 - (length front + 1)) 0 s in
      Some (front ++ replicate (8 - length front - length tail) 0 ++ tail, s).

Definition read_ip_addr : parser IpAddr :=
  λ s,
    match read_ipv4_addr s with
    | Some (a, s) => Some (V4 a, s)
    | None => '(a, s) ← read_ipv6_addr s; Some (V6 a, s)
    end.

(** The whole input must be consumed. *)
Definition parse_with {A} (p : parser A) (s : bytes) : option A :=
  '(a, rest) ← p s; if bool_decide (rest = []) then Some a else None.

Definition parse_ip : bytes → option IpAddr := parse_with read_ip_addr.
Definition parse_ipv4 (s : bytes) : option Ipv4Addr :=
  if bool_decide (zlen s > 15) then None else parse_with read_ipv4_addr s.
Definition parse_ipv6 : bytes → option Ipv6Addr := parse_with read_ipv6_addr.

(** [octets()] and the conversion to an integer. *)
Definition v6_octets (a : Ipv6Addr) : bytes := flat_map be16 a.
Definition v4_bits (a : Ipv4Addr) : Z := be_value a.
Definition v6_bits (a : Ipv6Addr) : Z := fold_left (λ acc g, acc * 2 ^ 16 + g) a 0.

Example parse_v4_ok : parse_ip (bs "10.0.0.1") = Some (V4 [10; 0; 0; 1]).
Proof. reflexivity. Qed.
Example parse_v4_zero : parse_ip (bs "010.0.0.1") = None.
Proof. reflexivity. Qed.
Example parse_v6_loop : parse_ip (bs "::1") = Some (V6 [0; 0; 0; 0; 0; 0; 0; 1]).
Proof. reflexivity. Qed.
Example parse_v6_full : parse_ip (bs "fd00:1::2:192.168.0.1") = Some (V6 [0xfd00; 1; 0; 0; 0; 2; 0xc0a8; 1]).
Proof. reflexivity. Qed.
Example parse_v6_bad : parse_ip (bs "1:2:3:4:5:6:7:8:9") = None.
Proof. reflexivity. Qed.

(** ** Shapes *)

Definition wf_ip (a : IpAddr) : Prop :=
  match a with
  | V4 a => length a = 4%nat ∧ Forall (λ x, 0 ≤ x < 256) a
  | V6 a => length a = 8%nat ∧ Forall (λ x, 0 ≤ x < 65536) a
  end.

Lemma read_number_range radix m z hi s v rest : read_number radix m z hi s = Some (v, rest) → 0 ≤ v ≤ hi.
Proof.
  unfold read_number. destruct (read_digits _ _ _ _ _) as [[[w c] r]|]; cbn; [|done].
  case_match; [done|]. case_match; [done|]. unfold in_range.
  destruct ((0 <=? w) && (w <=? hi)) eqn:E; cbn; [|done]. intros [= <- <-]. lia.
Qed.

Lemma read_separator_range sep i radix m z hi s v rest :
  read_separator sep i (read_number radix m z hi) s = Some (v, rest) → 0 ≤ v ≤ hi.
Proof.
  unfold read_separator. destruct i; [apply read_number_range|].
  destruct (read_given_char sep s) as [[? ?]|]; cbn; [apply read_number_range|done].
Qed.

Lemma read_ipv4_wf s a rest : read_ipv4_addr s = Some (a, rest) → wf_ip (V4 a).
Proof.
  unfold read_ipv4_addr. intros H.
  destruct (read_separator 46 0 _ s) as [[a0 s0]|] eqn:E0; [|done]. cbn [mbind option_bind] in H.
  destruct (read_separator 46 1 _ s0) as [[a1 s1]|] eqn:E1; [|done]. cbn [mbind option_bind] in H.
  destruct (read_separator 46 2 _ s1) as [[a2 s2]|] eqn:E2; [|done]. cbn [mbind option_bind] in H.
  destruct (read_separator 46 3 _ s2) as [[a3 s3]|] eqn:E3; [|done]. cbn [mbind option_bind] in H.
  injection H as <- <-. apply read_separator_range in E0, E1, E2, E3. split; [done|].
  repeat apply Forall_cons_2; try lia. apply Forall_nil_2.
Qed.

Lemma be_value_2 x y : 0 ≤ x < 256 → 0 ≤ y < 256 → 0 ≤ be_value [x; y] < 65536.
Proof. unfold be_value. cbn. lia. Qed.

Lemma read_groups_wf remaining i s gs v4 rest :
  read_groups remaining i s = (gs, v4, rest) →
  (length gs ≤ remaining)%nat ∧ Forall (λ x, 0 ≤ x < 65536) gs.
Proof.
  revert i s gs v4 rest. induction remaining as [|n IH]; intros i s gs v4 rest; cbn [read_groups].
  { intros [= <- <- <-]. split; [done|constructor]. }
  destruct (match n with O => None | S _ => read_separator 58 i read_ipv4_addr s end) as [[a r]|] eqn:E.
  - destruct n; [done|]. intros [= <- <- <-]. split; [cbn; lia|].
    assert (∃ s', read_ipv4_addr s' = Some (a, r)) as [s' Ha].
    { unfold read_separator in E. destruct i; [by exists s|].
      destruct (read_given_char 58 s) as [[? s']|]; cbn in E; [by exists s'|done]. }
    apply read_ipv4_wf in Ha as [Hl Hf].
    destruct a as [|a0 [|a1 [|a2 [|a3 [|]]]]]; try done.
    rewrite !Forall_cons in Hf. destruct Hf as (? & ? & ? & ? & _).
    cbn [take drop]. repeat apply Forall_cons_2; try (by apply be_value_2). apply Forall_nil_2.
  - destruct (read_separator 58 i (read_number 16 4 true 65535) s) as [[g r]|] eqn:Eg.
    + destruct (read_groups n (S i) r) as [[gs' v4'] r'] eqn:Er. intros [= <- <- <-].
      apply IH in Er as [Hl Hf]. apply read_separator_range in Eg. split; [cbn; lia|].
      apply Forall_cons_2; [lia|done].
    + intros [= <- <- <-]. split; [cbn; lia|constructor].
Qed.

Lemma read_ipv6_wf s a rest : read_ipv6_addr s = Some (a, rest) → wf_ip (V6 a).
Proof.
  unfold read_ipv6_addr. destruct (read_groups 8 0 s) as [[front v4] s1] eqn:E1.
  apply read_groups_wf in E1 as [Hl Hf]. destruct (Nat.eqb_spec (length front) 8) as [H8|H8].
  { intros [= <- <-]. by split. }
  destruct v4; [done|]. destruct (read_given_char 58 s1) as [[? s2]|]; cbn [mbind option_bind]; [|done].
  destruct (read_given_char 58 s2) as [[? s3]|]; cbn [mbind option_bind]; [|done].
  destruct (read_groups _ 0 s3) as [[tl v4'] s4] eqn:E2. intros [= <- <-].
  apply read_groups_wf in E2 as [Hl2 Hf2]. split.
  - rewrite !length_app, length_replicate. lia.
  - apply Forall_app. split; [done|]. apply Forall_app. split; [|done]. apply Forall_replicate. lia.
Qed.

Lemma parse_ip_wf s a : parse_ip s = Some a → wf_ip a.
Proof.
  unfold parse_ip, parse_with, read_ip_addr. destruct (read_ipv4_addr s) as [[v r]|] eqn:E4.
  - cbn [mbind option_bind]. case_bool_decide; [|done]. intros [= <-]. by eapply read_ipv4_wf.
  - destruct (read_ipv6_addr s) as [[v r]|] eqn:E6; cbn; [|done].
    case_bool_decide; [|done]. intros [= <-]. by eapply read_ipv6_wf.
Qed.

Lemma parse_ipv4_wf s a : parse_ipv4 s = Some a → wf_ip (V4 a).
Proof.
  unfold parse_ipv4, parse_with. case_bool_decide; [done|].
  destruct (read_ipv4_addr s) as [[v r]|] eqn:E4; cbn; [|done].
  case_bool_decide; [|done]. intros [= <-]. by eapply read_ipv4_wf.
Qed.

Lemma parse_ipv6_wf s a : parse_ipv6 s = Some a → wf_ip (V6 a).
Proof.
  unfold parse_ipv6, parse_with. destruct (read_ipv6_addr s) as [[v r]|] eqn:E4; cbn; [|done].
  case_bool_decide; [|done]. intros [= <-]. by eapply read_ipv6_wf.
Qed.

Lemma v6_octets_length a : length a = 8%nat → length (v6_octets a) = 16%nat.
Proof. do 9 (destruct a as [|? a]; try done). Qed.

Lemma be_value_app l k : be_value (l ++ k) = fold_left (λ acc b, acc * 256 + b) k (be_value l).
Proof. unfold be_value. by rewrite fold_left_app. Qed.

Lemma v4_bits_range a : length a = 4%nat → Forall (λ x, 0 ≤ x < 256) a → 0 ≤ v4_bits a < 2 ^ 32.
Proof.
  intros Hl Hf. destruct a as [|a0 [|a1 [|a2 [|a3 [|]]]]]; try done.
  rewrite !Forall_cons in Hf. unfold v4_bits, be_value. cbn. lia.
Qed.

Lemma v6_bits_range a : length a = 8%nat → Forall (λ x, 0 ≤ x < 65536) a → 0 ≤ v6_bits a < 2 ^ 128.
Proof.
  intros Hl Hf. do 8 (destruct a as [|? a]; [done|]). destruct a; [|done].
  rewrite !Forall_cons in Hf. unfold v6_bits. cbn. lia.
Qed.
