(* ===== verification/Uri.v ===== *)
(** * Request targets

    [http::Uri] is a third-party type.  What the program reads of a URI is the
    results of its accessors, so a URI is the record of them; parsing a string
    into one is a parameter of the definitions that do it. *)
From S2P Require Import Prelude.

Record Uri := mkUri {
  scheme_str : option bytes;
  host : option bytes;
  port_u16 : option Z;
  path : bytes;
  query : option bytes;
  authority : option bytes;
  uri_text : bytes  (* Display *)
}.

#[export] Instance Uri_eq_dec : EqDecision Uri.
Proof. solve_decision. Defined.
