(* ===== verification/Cookies.v ===== *)
(** * Cookies of a redirect chain (src/cookies.rs)

    The chain's store, the domain, path and [Secure] rules, the [Set-Cookie] and
    date parsers.  The Public Suffix List ([psl::domain_str]) and the clock are
    parameters. *)
From S2P Require Import Prelude RustStd NetAddr Uri.

Definition MAX_COOKIE_BYTES : Z := 4096.
Definition MAX_COOKIES : Z := 50.
Definition MAX_CHAIN_BYTES : Z := 8192.

(** ** Data *)

Definition entry_size (name value : bytes) : Z := zlen name + zlen value + 3.

Record Cookie := mkCookie {
  c_name : bytes;
  c_value : bytes;
  c_domain : bytes;
  host_only : bool;
  c_path : bytes;
  secure : bool
}.

#[export] Instance Cookie_eq_dec : EqDecision Cookie.
Proof. solve_decision. Defined.

Record Rejected := mkRejected { caller_owned : list bytes; over_limit : list bytes }.
Definition Rejected_default : Rejected := mkRejected [] [].

(** [Rejected::note]. *)
Definition note (l : list bytes) (name : bytes) : list bytes :=
  if bool_decide (name ∈ l) then l else l ++ [name].

Record ChainCookies := mkChain { cookies : list Cookie; caller_names : list bytes }.
Definition ChainCookies_new : ChainCookies := mkChain [] [].
Definition with_caller_cookies (caller_names : list bytes) : ChainCookies := mkChain [] caller_names.
Definition is_empty (c : ChainCookies) : bool := bool_decide (c.(cookies) = []).

(** ** Hosts, domains, paths *)

Definition canonical_host (host : bytes) : bytes :=
  let host := default host (strip_prefix host (bs "[") ≫= λ h, strip_suffix h (bs "]")) in
  to_ascii_lowercase (trim_end_matches (ch ".") host).

Definition is_ip (host : bytes) : bool := bool_decide (is_Some (parse_ip host)).

Definition domain_matches (host domain : bytes) : bool :=
  if bool_decide (host = domain) then true
  else if is_ip host then false
  else bool_decide (zlen host > zlen domain)
       && ends_with host domain
       && bool_decide (host !! Z.to_nat (zlen host - zlen domain - 1) = Some (ch ".")).

Definition path_matches (request_path cookie_path : bytes) : bool :=
  if bool_decide (request_path = cookie_path) then true
  else if negb (starts_with request_path cookie_path) then false
  else ends_with cookie_path (bs "/")
       || bool_decide (request_path !! length cookie_path = Some (ch "/")).

Definition default_path (request_path : bytes) : bytes :=
  if negb (starts_with request_path (bs "/")) then bs "/"
  else match rfind (ch "/") request_path with
       | None => bs "/"
       | Some i => if i =? 0 then bs "/" else take (Z.to_nat i) request_path
       end.

(** ** Dates *)

Definition days_from_civil (y m d : Z) : Z :=
  let y := if m <=? 2 then y - 1 else y in
  let era := Z.quot (if 0 <=? y then y else y - 399) 400 in
  let yoe := y - era * 400 in
  let mp := if 2 <? m then m - 3 else m + 9 in
  let doy := Z.quot (153 * mp + 2) 5 + d - 1 in
  let doe := yoe * 365 + Z.quot yoe 4 - Z.quot yoe 100 + doy in
  era * 146097 + doe - 719468.

Definition MONTHS : list bytes :=
  map bs ["jan"; "feb"; "mar"; "apr"; "may"; "jun"; "jul"; "aug"; "sep"; "oct"; "nov"; "dec"].

(** [iter().position(p)]. *)
Fixpoint position {A} (p : A → bool) (l : list A) : option nat :=
  match l with
  | [] => None
  | x :: l => if p x then Some O else S <$> position p l
  end.

Record DateFields := mkDate {
  day : option Z;
  month : option Z;
  year : option Z;
  time : option (Z * Z * Z)
}.

(** The [h:m[:s]] token; [None] is the early return of the whole parser. *)
Definition parse_time (token : bytes) : option (Z * Z * Z) :=
  match split (ch ":") token with
  | a :: b :: rest =>
      h ← parse_i64 a;
      m ← parse_i64 b;
      let sec := match rest with c :: _ => default 0 (parse_i64 c) | [] => 0 end in
      Some (h, m, sec)
  | _ => None
  end.

(** The number branch. *)
Definition take_number (token : bytes) (n : Z) (st : DateFields) : DateFields :=
  if bool_decide (st.(day) = None) && bool_decide (zlen token ≤ 2) && ((1 <=? n) && (n <=? 31)) then
    mkDate (Some n) st.(month) st.(year) st.(time)
  else if bool_decide (st.(year) = None) then
    mkDate st.(day) st.(month)
      (Some (if bool_decide (zlen token ≤ 2) then if n <? 70 then 2000 + n else 1900 + n else n)) st.(time)
  else st.

(** The month branch: [token[..3]] panics off a character boundary. *)
Definition find_month (token : bytes) (st : DateFields) : exec Empty_set (option Z) :=
  if bool_decide (st.(month) = None) && bool_decide (zlen token >= 3) then
    prefix ← str_to token 3;
    Ok ((λ i, Z.of_nat i + 1) <$> position (λ m, bool_decide (m = to_ascii_lowercase prefix)) MONTHS)
  else Ok None.

(** One token; the inner [None] is the early return. *)
Definition date_token (token : bytes) (st : DateFields) : exec Empty_set (option DateFields) :=
  if contains (ch ":") token && bool_decide (st.(time) = None) then
    Ok ((λ t, mkDate st.(day) st.(month) st.(year) (Some t)) <$> parse_time token)
  else
    m ← find_month token st;
    match m with
    | Some m => Ok (Some (mkDate st.(day) (Some m) st.(year) st.(time)))
    | None =>
        match parse_i64 token with
        | Some n => Ok (Some (take_number token n st))
        | None => Ok (Some st)
        end
    end.

Fixpoint date_tokens (tokens : list bytes) (st : DateFields) : exec Empty_set (option DateFields) :=
  match tokens with
  | [] => Ok (Some st)
  | token :: tokens =>
      r ← date_token token st;
      match r with Some st => date_tokens tokens st | None => Ok None end
  end.

(** From the fields to seconds since the epoch. *)
Definition date_seconds (st : DateFields) : option Z :=
  day ← st.(day);
  month ← st.(month);
  year ← st.(year);
  let '(h, m, sec) := default (0, 0, 0) st.(time) in
  if negb ((0 <=? h) && (h <=? 23)) || negb ((0 <=? m) && (m <=? 59)) || negb ((0 <=? sec) && (sec <=? 60))
  then None
  else if year <? 1601 then None
  else Some (days_from_civil (Z.min year 9999) month day * 86400 + h * 3600 + m * 60 + sec).

Definition parse_http_date (s : bytes) : exec Empty_set (option Z) :=
  let normalized := map (λ c, if (c =? ch "-") || (c =? ch ",") then ch " " else c) s in
  r ← date_tokens (split_whitespace normalized) (mkDate None None None None);
  Ok (r ≫= date_seconds).

(** ** Set-Cookie *)

Record Attrs := mkAttrs {
  a_domain : option bytes;
  a_path : option bytes;
  a_secure : bool;
  a_max_age : option Z;
  a_expires : option Z
}.

(** One attribute of the loop over the parts after the first. *)
Definition parse_attr (attr : bytes) (st : Attrs) : exec Empty_set Attrs :=
  let attr := trim attr in
  let '(key, aval) := match split_once (ch "=") attr with
                      | Some (k, v) => (trim k, trim v)
                      | None => (attr, [])
                      end in
  if eq_ignore_ascii_case key (bs "domain") then
    let d := canonical_host (trim_start_matches (ch ".") aval) in
    Ok (if bool_decide (d = []) then st
        else mkAttrs (Some d) st.(a_path) st.(a_secure) st.(a_max_age) st.(a_expires))
  else if eq_ignore_ascii_case key (bs "path") then
    Ok (if starts_with aval (bs "/")
        then mkAttrs st.(a_domain) (Some aval) st.(a_secure) st.(a_max_age) st.(a_expires)
        else st)
  else if eq_ignore_ascii_case key (bs "secure") then
    Ok (mkAttrs st.(a_domain) st.(a_path) true st.(a_max_age) st.(a_expires))
  else if eq_ignore_ascii_case key (bs "max-age") then
    Ok (mkAttrs st.(a_domain) st.(a_path) st.(a_secure) (parse_i64 aval) st.(a_expires))
  else if eq_ignore_ascii_case key (bs "expires") then
    d ← parse_http_date aval;
    Ok (mkAttrs st.(a_domain) st.(a_path) st.(a_secure) st.(a_max_age) d)
  else Ok st.

Fixpoint parse_attrs (parts : list bytes) (st : Attrs) : exec Empty_set Attrs :=
  match parts with
  | [] => Ok st
  | attr :: parts => st ← parse_attr attr st; parse_attrs parts st
  end.

Section psl.
(** [psl::domain_str]: the registrable domain of a name. *)
Context (domain_str : bytes → option bytes).

Definition is_public_suffix (domain : bytes) : bool := bool_decide (domain_str domain = None).
Definition registrable (host : bytes) : option bytes := domain_str host.

(** The scope of a cookie: its domain and whether it is host-only. *)
Definition cookie_scope (domain : option bytes) (request_host : bytes) : option (bytes * bool) :=
  match domain with
  | None => Some (request_host, true)
  | Some d =>
      if negb (domain_matches request_host d) then None
      else if is_ip request_host then Some (request_host, true)
      else if is_public_suffix d then
        if bool_decide (d = request_host) then Some (request_host, true) else None
      else if bool_decide (registrable request_host ≠ registrable d) then None
      else Some (d, false)
  end.

(** [now] is [now_unix()]. *)
Definition is_expired (now : Z) (max_age expires : option Z) : bool :=
  match max_age with
  | Some secs => secs <=? 0
  | None => match expires with Some when_ => when_ <=? now | None => false end
  end.

Definition parse_set_cookie (now : Z) (value request_host request_path : bytes)
    : exec Empty_set (option (Cookie * bool)) :=
  match split (ch ";") value with
  | [] => Ok None
  | first :: parts =>
      match split_once (ch "=") (trim first) with
      | None => Ok None
      | Some (name, val) =>
          let name := trim name in
          if bool_decide (name = []) then Ok None
          else
            st ← parse_attrs parts (mkAttrs None None false None None);
            Ok ('(domain, host_only) ← cookie_scope st.(a_domain) request_host;
                Some (mkCookie name (trim val) domain host_only
                        (default (default_path request_path) st.(a_path)) st.(a_secure),
                      is_expired now st.(a_max_age) st.(a_expires)))
      end
  end.

(** ** The store *)

Fixpoint bytes_held (l : list Cookie) : Z :=
  match l with [] => 0 | c :: l => entry_size c.(c_name) c.(c_value) + bytes_held l end.

Definition same_key (c c' : Cookie) : bool :=
  bool_decide (c.(c_name) = c'.(c_name)) && bool_decide (c.(c_domain) = c'.(c_domain))
  && bool_decide (c.(c_path) = c'.(c_path)).

(** [Vec::remove]. *)
Definition remove_at {A} (i : nat) (l : list A) : list A := take i l ++ drop (S i) l.

(** What the loop does with one parsed cookie. *)
Definition store_cookie (self : ChainCookies) (rejected : Rejected) (cookie : Cookie) (expired : bool)
    : ChainCookies * Rejected :=
  let over := mkRejected rejected.(caller_owned) (note rejected.(over_limit) cookie.(c_name)) in
  if bool_decide (cookie.(c_name) ∈ self.(caller_names)) then
    (self, mkRejected (note rejected.(caller_owned) cookie.(c_name)) rejected.(over_limit))
  else if bool_decide (entry_size cookie.(c_name) cookie.(c_value) > MAX_COOKIE_BYTES) then (self, over)
  else
    let replacing := position (λ c, same_key c cookie) self.(cookies) in
    let removed := match replacing with
                   | Some i => remove_at i self.(cookies)
                   | None => self.(cookies)
                   end in
    if expired then (mkChain removed self.(caller_names), rejected)
    else
      let freed := default 0 (i ← replacing; c ← self.(cookies) !! i;
                              Some (entry_size c.(c_name) c.(c_value))) in
      let held := zlen self.(cookies) - (if replacing then 1 else 0) in
      if bool_decide (held >= MAX_COOKIES)
         || bool_decide (bytes_held self.(cookies) - freed + entry_size cookie.(c_name) cookie.(c_value)
                         > MAX_CHAIN_BYTES)
      then (self, over)
      else (mkChain (removed ++ [cookie]) self.(caller_names), rejected).

Definition store_header (now : Z) (host request_path : bytes) (header : bytes * bytes)
    (st : ChainCookies * Rejected) : exec Empty_set (ChainCookies * Rejected) :=
  let '(name, value) := header in
  if negb (eq_ignore_ascii_case name (bs "set-cookie")) then Ok st
  else
    r ← parse_set_cookie now value host request_path;
    match r with
    | None => Ok st
    | Some (cookie, expired) => Ok (store_cookie st.1 st.2 cookie expired)
    end.

Fixpoint store_headers (now : Z) (host request_path : bytes) (headers : list (bytes * bytes))
    (st : ChainCookies * Rejected) : exec Empty_set (ChainCookies * Rejected) :=
  match headers with
  | [] => Ok st
  | h :: headers => st ← store_header now host request_path h st; store_headers now host request_path headers st
  end.

Definition store (now : Z) (self : ChainCookies) (headers : list (bytes * bytes)) (uri : Uri)
    : exec Empty_set (ChainCookies * Rejected) :=
  match uri.(Uri.host) with
  | None => Ok (self, Rejected_default)
  | Some host => store_headers now (canonical_host host) uri.(Uri.path) headers (self, Rejected_default)
  end.
End psl.

(** ** Sending *)

Definition applies (host request_path : bytes) (secure_transport : bool) (c : Cookie) : bool :=
  if c.(secure) && negb secure_transport then false
  else if c.(host_only) then
    if bool_decide (host ≠ c.(c_domain)) then false else path_matches request_path c.(c_path)
  else if negb (domain_matches host c.(c_domain)) then false
  else path_matches request_path c.(c_path).

(** The stable sort by decreasing path length. *)
Fixpoint insert_by_path (c : Cookie) (l : list Cookie) : list Cookie :=
  match l with
  | [] => [c]
  | e :: l' => if bool_decide (zlen e.(c_path) ≤ zlen c.(c_path)) then c :: l else e :: insert_by_path c l'
  end.
Definition sort_by_path (l : list Cookie) : list Cookie := foldr insert_by_path [] l.

Definition render (c : Cookie) : bytes := c.(c_name) ++ bs "=" ++ c.(c_value).

Fixpoint join (sep : bytes) (l : list bytes) : bytes :=
  match l with
  | [] => []
  | [x] => x
  | x :: l => x ++ sep ++ join sep l
  end.

Definition header_for (self : ChainCookies) (uri : Uri) : option bytes :=
  h ← uri.(Uri.host);
  let host := canonical_host h in
  let secure_transport := bool_decide (uri.(scheme_str) = Some (bs "https")) in
  let matched := List.filter (applies host uri.(Uri.path) secure_transport) self.(cookies) in
  if bool_decide (matched = []) then None
  else Some (join (bs "; ") (map render (sort_by_path matched))).

(** The names of the caller's own cookies. *)
Fixpoint pair_names (pairs : list bytes) (names : list bytes) : list bytes :=
  match pairs with
  | [] => names
  | p :: pairs =>
      pair_names pairs
        match split_once (ch "=") p with
        | None => names
        | Some (n, _) =>
            let n := trim n in
            if bool_decide (n ≠ []) && negb (bool_decide (n ∈ names)) then names ++ [n] else names
        end
  end.

Fixpoint caller_names_loop (headers : list (bytes * bytes)) (names : list bytes) : list bytes :=
  match headers with
  | [] => names
  | (name, value) :: headers =>
      caller_names_loop headers
        (if negb (eq_ignore_ascii_case name (bs "cookie")) then names
         else pair_names (split (ch ";") value) names)
  end.
Definition caller_cookie_names (headers : list (bytes * bytes)) : list bytes :=
  caller_names_loop headers [].

Example imf_fixdate : parse_http_date (bs "Sun, 06 Nov 1994 08:49:37 GMT") = Ok (Some 784111777).
Proof. vm_compute. reflexivity. Qed.
Example rfc850 : parse_http_date (bs "Sunday, 06-Nov-94 08:49:37 GMT") = Ok (Some 784111777).
Proof. vm_compute. reflexivity. Qed.
Example asctime : parse_http_date (bs "Sun Nov  6 08:49:37 1994") = Ok (Some 784111777).
Proof. vm_compute. reflexivity. Qed.
