(* ===== verification/CookiesProps.v ===== *)
(** * Cookies: the store's invariant, its abstract specification, who receives what *)
From Stdlib Require Import Sorting.Sorted.
From S2P Require Import Prelude RustStd NetAddr Uri Cookies.

#[local] Arguments entry_size : simpl never.

(** ** The store against its specification *)

Definition cookie_key (c : Cookie) : bytes * bytes * bytes := (c.(c_name), c.(c_domain), c.(c_path)).

Definition others (c : Cookie) (l : list Cookie) : list Cookie :=
  List.filter (λ k, negb (same_key k c)) l.

#[local] Arguments others : simpl never.

Lemma others_cons c k l : others c (k :: l) = if same_key k c then others c l else k :: others c l.
Proof. unfold others. cbn. by destruct (same_key k c). Qed.

(** What one parsed cookie is meant to do to the chain. *)
Definition store_spec (self : ChainCookies) (rejected : Rejected) (c : Cookie) (expired : bool)
    : ChainCookies * Rejected :=
  let rest := others c self.(cookies) in
  let size := entry_size c.(c_name) c.(c_value) in
  let refused := (self, mkRejected rejected.(caller_owned) (note rejected.(over_limit) c.(c_name))) in
  if bool_decide (c.(c_name) ∈ self.(caller_names)) then
    (self, mkRejected (note rejected.(caller_owned) c.(c_name)) rejected.(over_limit))
  else if bool_decide (MAX_COOKIE_BYTES < size) then refused
  else if expired then (mkChain rest self.(caller_names), rejected)
  else if bool_decide (MAX_COOKIES < zlen rest + 1) || bool_decide (MAX_CHAIN_BYTES < bytes_held rest + size)
  then refused
  else (mkChain (rest ++ [c]) self.(caller_names), rejected).

Definition wf_chain (s : ChainCookies) : Prop :=
  Forall (λ c, c.(c_name) ∉ s.(caller_names)) s.(cookies) ∧
  NoDup (map cookie_key s.(cookies)) ∧
  zlen s.(cookies) ≤ MAX_COOKIES ∧
  Forall (λ c, entry_size c.(c_name) c.(c_value) ≤ MAX_COOKIE_BYTES) s.(cookies) ∧
  bytes_held s.(cookies) ≤ MAX_CHAIN_BYTES.

Lemma same_key_spec c c' : same_key c c' = true ↔ cookie_key c = cookie_key c'.
Proof.
  unfold same_key, cookie_key. rewrite !andb_true_iff, !bool_decide_eq_true.
  split; [by intros [[-> ->] ->]|by intros [= -> -> ->]].
Qed.

Lemma entry_size_pos n v : 3 ≤ entry_size n v.
Proof. unfold entry_size. pose proof (zlen_nonneg n). pose proof (zlen_nonneg v). lia. Qed.

Lemma bytes_held_app l k : bytes_held (l ++ k) = bytes_held l + bytes_held k.
Proof. induction l as [|c l IH]; cbn; [lia|]. rewrite IH. lia. Qed.

Lemma bytes_held_nonneg l : 0 ≤ bytes_held l.
Proof. induction l as [|c l IH]; cbn; [lia|]. pose proof (entry_size_pos c.(c_name) c.(c_value)). lia. Qed.

Lemma position_none {A} (p : A → bool) l : position p l = None → Forall (λ x, p x = false) l.
Proof.
  induction l as [|x l IH]; cbn; [constructor|]. destruct (p x) eqn:E; [done|].
  destruct (position p l); cbn; [done|]. intros _. constructor; auto.
Qed.

Lemma position_some {A} (p : A → bool) l i : position p l = Some i →
  ∃ l1 x l2, l = l1 ++ x :: l2 ∧ i = length l1 ∧ p x = true.
Proof.
  revert i. induction l as [|x l IH]; intros i; cbn; [done|]. destruct (p x) eqn:E.
  - intros [= <-]. by exists [], x, l.
  - destruct (position p l) as [j|]; cbn; [|done]. intros [= <-].
    destruct (IH j eq_refl) as (l1 & y & l2 & -> & -> & Hy). by exists (x :: l1), y, l2.
Qed.

Lemma remove_at_middle {A} (l1 : list A) x l2 : remove_at (length l1) (l1 ++ x :: l2) = l1 ++ l2.
Proof.
  unfold remove_at. rewrite take_app_length. f_equal.
  replace (S (length l1)) with (length l1 + 1)%nat by lia. by rewrite <- drop_drop, drop_app_length.
Qed.

Lemma others_none c l : Forall (λ k, same_key k c = false) l → others c l = l.
Proof. induction 1 as [|k l Hk _ IH]; [done|]. by rewrite others_cons, Hk, IH. Qed.

Lemma others_app c l k : others c (l ++ k) = others c l ++ others c k.
Proof. apply List.filter_app. Qed.

(** Under the uniqueness of keys the removal by index is the filter. *)
Lemma replacing_spec c l : NoDup (map cookie_key l) →
  match position (λ k, same_key k c) l with
  | None => others c l = l
  | Some i => ∃ k, l !! i = Some k ∧ remove_at i l = others c l ∧
                zlen l = zlen (others c l) + 1 ∧
                bytes_held l = bytes_held (others c l) + entry_size k.(c_name) k.(c_value)
  end.
Proof.
  intros Hnd. destruct (position _ l) as [i|] eqn:E.
  - apply position_some in E as (l1 & k & l2 & -> & -> & Hk). exists k.
    assert (Forall (λ x, same_key x c = false) (l1 ++ l2)) as Hf.
    { apply Forall_forall. intros x Hx. apply not_true_iff_false. intros Hxc.
      apply same_key_spec in Hk, Hxc. rewrite map_app, map_cons in Hnd.
      assert (cookie_key k ∉ map cookie_key (l1 ++ l2)) as Hn.
      { apply (NoDup_Permutation_proper _ (cookie_key k :: map cookie_key (l1 ++ l2))) in Hnd.
        - by apply NoDup_cons in Hnd as [? _].
        - rewrite map_app. symmetry. apply Permutation_middle. }
      apply Hn. rewrite Hk, <- Hxc. apply list_elem_of_In, in_map, list_elem_of_In, Hx. }
    assert (others c (l1 ++ k :: l2) = l1 ++ l2) as ->.
    { rewrite others_app, others_cons, Hk, <- others_app.
      by apply others_none. }
    split_and!.
    + by apply list_lookup_middle.
    + apply remove_at_middle.
    + simp_len. lia.
    + rewrite !bytes_held_app. cbn. lia.
  - apply position_none in E. by apply others_none.
Qed.

Lemma store_cookie_spec self rejected c expired : wf_chain self →
  store_cookie self rejected c expired = store_spec self rejected c expired.
Proof.
  intros (_ & Hnd & _). pose proof (replacing_spec c self.(cookies) Hnd) as Hr.
  unfold store_cookie, store_spec. destruct (bool_decide (c_name c ∈ caller_names self)); [done|].
  rewrite (bool_decide_ext (entry_size (c_name c) (c_value c) > MAX_COOKIE_BYTES)
    (MAX_COOKIE_BYTES < entry_size (c_name c) (c_value c))) by lia.
  destruct (bool_decide (MAX_COOKIE_BYTES < _)); [done|].
  destruct (position _ (cookies self)) as [i|].
  - destruct Hr as (k & Hk & Hrem & Hlen & Hb). cbn [mbind option_bind]. rewrite Hk. cbn [mbind option_bind from_option id].
    rewrite Hrem. destruct expired; [done|]. rewrite Hlen, Hb.
    rewrite (bool_decide_ext _ (MAX_COOKIES < zlen (others c (cookies self)) + 1)) by lia.
    rewrite (bool_decide_ext (_ - _ + _ > _)
      (MAX_CHAIN_BYTES < bytes_held (others c (cookies self)) + entry_size (c_name c) (c_value c))) by lia.
    done.
  - rewrite Hr. destruct expired; [done|]. cbn [mbind option_bind from_option id].
    rewrite (bool_decide_ext _ (MAX_COOKIES < zlen (cookies self) + 1)) by lia.
    rewrite (bool_decide_ext (_ - _ + _ > _)
      (MAX_CHAIN_BYTES < bytes_held (cookies self) + entry_size (c_name c) (c_value c))) by lia.
    done.
Qed.

Lemma others_sublist c l : sublist (others c l) l.
Proof. induction l as [|k l IH]; [done|]. rewrite others_cons. case_match; by constructor. Qed.

Lemma sublist_bytes l k : sublist l k → bytes_held l ≤ bytes_held k.
Proof.
  induction 1 as [|c l k _ IH|c l k _ IH]; cbn; [lia|lia|].
  pose proof (entry_size_pos c.(c_name) c.(c_value)). lia.
Qed.

Lemma sublist_map {A B} (f : A → B) l k : sublist l k → sublist (map f l) (map f k).
Proof. induction 1; cbn; by constructor. Qed.

Lemma sublist_Forall {A} (P : A → Prop) l k : sublist l k → Forall P k → Forall P l.
Proof. induction 1; rewrite ?Forall_cons; naive_solver. Qed.

Lemma wf_sublist self l names : wf_chain self → names = self.(caller_names) → sublist l self.(cookies) →
  wf_chain (mkChain l names).
Proof.
  intros (H1 & H2 & H3 & H4 & H5) -> Hs. split_and!; cbn.
  - by eapply sublist_Forall.
  - eapply sublist_NoDup; [done|by apply sublist_map].
  - apply sublist_length in Hs. unfold zlen in *. lia.
  - by eapply sublist_Forall.
  - apply sublist_bytes in Hs. lia.
Qed.

Lemma others_no_key c l : cookie_key c ∉ map cookie_key (others c l).
Proof.
  intros H. apply list_elem_of_In, in_map_iff in H as (k & Hk & Hin).
  unfold others in Hin. apply List.filter_In in Hin as [_ Hn].
  rewrite (proj2 (same_key_spec k c) Hk) in Hn. done.
Qed.

Lemma store_spec_wf self rejected c expired : wf_chain self → wf_chain (store_spec self rejected c expired).1.
Proof.
  intros Hw. unfold store_spec.
  pose proof (wf_sublist self (others c (cookies self)) _ Hw eq_refl (others_sublist c _)) as Hrest.
  destruct (bool_decide (c_name c ∈ caller_names self)) eqn:Hc; [done|].
  destruct (bool_decide (MAX_COOKIE_BYTES < _)) eqn:Hs; [done|].
  destruct expired; [done|].
  destruct (bool_decide (MAX_COOKIES < _)) eqn:Hl; [done|].
  destruct (bool_decide (MAX_CHAIN_BYTES < _)) eqn:Hb; [done|]. cbn [orb fst].
  apply bool_decide_eq_false in Hc, Hs, Hl, Hb. destruct Hrest as (H1 & H2 & H3 & H4 & H5). cbn in H1, H2, H3, H4, H5.
  split_and!; cbn.
  - apply Forall_app. split; [done|]. by apply Forall_singleton.
  - rewrite map_app. apply NoDup_app. split_and!; [done| |apply NoDup_singleton].
    intros x Hx Hin. apply list_elem_of_singleton in Hin as ->. by apply others_no_key in Hx.
  - rewrite zlen_app. unfold zlen in *. cbn [length]. lia.
  - apply Forall_app. split; [done|]. apply Forall_singleton. lia.
  - rewrite bytes_held_app. cbn. lia.
Qed.

(** ** Sending: the specification of [header_for] *)

(** RFC 6265 section 5.1.3: the host is the domain or, unless it is an address, a
    name under it. *)
Definition domain_covers (host domain : bytes) : Prop :=
  host = domain ∨ (parse_ip host = None ∧ ∃ sub, host = sub ++ bs "." ++ domain).

(** RFC 6265 section 5.1.4. *)
Definition path_covers (request_path cookie_path : bytes) : Prop :=
  request_path = cookie_path ∨
  ∃ more, request_path = cookie_path ++ more ∧
    (last cookie_path = Some (ch "/") ∨ head more = Some (ch "/")).

Lemma domain_matches_spec host domain : domain_matches host domain = true ↔ domain_covers host domain.
Proof.
  unfold domain_matches, domain_covers, is_ip. destruct (bool_decide (host = domain)) eqn:E.
  { apply bool_decide_eq_true in E. split; [by left|done]. }
  apply bool_decide_eq_false in E. destruct (parse_ip host) as [a|] eqn:Ei.
  { rewrite bool_decide_true by eauto. split; [done|]. intros [?|[? _]]; done. }
  rewrite (bool_decide_false (is_Some None)) by (by intros [? ?]). rewrite !andb_true_iff, !bool_decide_eq_true, ends_with_spec.
  split.
  - intros [[Hl [k ->]] Hd]. right. split; [done|].
    rewrite zlen_app in Hl, Hd. replace (zlen k + zlen domain - zlen domain - 1) with (zlen k - 1) in Hd by lia.
    destruct k as [|c k] using rev_ind; [rewrite zlen_nil in Hl; lia|]. exists k. rewrite zlen_app in Hd.
    replace (Z.to_nat (zlen k + zlen [c] - 1)) with (length k) in Hd by (unfold zlen; cbn; lia).
    rewrite <- (assoc_L (++)) in *. cbn [app] in *. rewrite list_lookup_middle in Hd by done. by injection Hd as ->.
  - intros [?|[_ [sub ->]]]; [done|]. rewrite !zlen_app. change (zlen (bs ".")) with 1.
    pose proof (zlen_nonneg sub). split_and!.
    + lia.
    + exists (sub ++ bs "."). by rewrite <- (assoc_L (++)).
    + replace (Z.to_nat _) with (length sub) by (unfold zlen; lia).
      change (bs "." ++ domain) with (ch "." :: domain). by apply list_lookup_middle.
Qed.

(** The index that [path_matches] reads is in range. *)
Lemma path_index_in_range rp cp : starts_with rp cp = true → rp ≠ cp → (length cp < length rp)%nat.
Proof.
  intros [k ->]%starts_with_spec Hne. rewrite length_app. destruct k; [by rewrite app_nil_r in Hne|cbn; lia].
Qed.

Lemma path_matches_spec rp cp : path_matches rp cp = true ↔ path_covers rp cp.
Proof.
  unfold path_matches, path_covers. destruct (bool_decide (rp = cp)) eqn:E.
  { apply bool_decide_eq_true in E. split; [by left|done]. }
  apply bool_decide_eq_false in E. destruct (starts_with rp cp) eqn:Es; cbn [negb].
  - apply starts_with_spec in Es as [k ->].
    rewrite orb_true_iff, bool_decide_eq_true, ends_with_spec, lookup_app_r, Nat.sub_diag by done.
    assert (k !! 0%nat = head k) as -> by (by destruct k).
    assert ((∃ k0, cp = k0 ++ bs "/") ↔ last cp = Some (ch "/")) as ->.
    { rewrite last_Some. done. }
    split; [intros H; right; by exists k|]. intros [?|(m & Hm & H)]; [done|].
    apply app_inv_head in Hm as ->. done.
  - split; [done|]. intros [?|(m & Hm & _)]; [done|].
    assert (starts_with rp cp = true) by (apply starts_with_spec; eauto). congruence.
Qed.

(** Cookie [c] may go to [host] and [request_path] over this transport. *)
Definition may_receive (host request_path : bytes) (https : bool) (c : Cookie) : Prop :=
  (c.(secure) = true → https = true) ∧
  (if c.(host_only) then host = c.(c_domain) else domain_covers host c.(c_domain)) ∧
  path_covers request_path c.(c_path).

Lemma applies_spec host rp https c : applies host rp https c = true ↔ may_receive host rp https c.
Proof.
  unfold applies, may_receive. rewrite <- path_matches_spec.
  destruct (secure c && negb https) eqn:Hsec.
  { apply andb_true_iff in Hsec as [Hc Hh]. apply negb_true_iff in Hh. split; [done|].
    intros (H & _). rewrite H in Hh; done. }
  assert (secure c = true → https = true) as Hs by (by destruct (secure c), https).
  destruct (host_only c); [|rewrite <- domain_matches_spec].
  - destruct (bool_decide (host ≠ c_domain c)) eqn:E;
      [apply bool_decide_eq_true in E|apply bool_decide_eq_false in E; apply dec_stable in E].
    + split; [done|]. by intros (_ & ? & _).
    + split; [done|]. by intros (_ & _ & ?).
  - destruct (domain_matches host (c_domain c)); cbn [negb].
    + split; [done|]. by intros (_ & _ & ?).
    + split; [done|]. by intros (_ & ? & _).
Qed.

(** *** The stable sort *)

Definition longer_first (a b : Cookie) : Prop := zlen b.(c_path) ≤ zlen a.(c_path).

Lemma insert_by_path_perm c l : insert_by_path c l ≡ₚ c :: l.
Proof.
  induction l as [|e l IH]; cbn; [done|]. case_bool_decide; [done|]. rewrite IH. apply Permutation_swap.
Qed.

Lemma insert_by_path_sorted c l : StronglySorted longer_first l → StronglySorted longer_first (insert_by_path c l).
Proof.
  induction 1 as [|e l Hs IH Hf]; cbn; [by repeat constructor|]. case_bool_decide as Hc.
  - constructor; [by constructor|]. constructor; [done|].
    eapply Forall_impl; [exact Hf|]. unfold longer_first in *. cbn. lia.
  - constructor; [done|]. rewrite insert_by_path_perm. constructor; [unfold longer_first; lia|done].
Qed.

(** Cookies of one path length keep their order. *)
Lemma insert_by_path_stable n c l : StronglySorted longer_first l →
  List.filter (λ c, zlen c.(c_path) =? n) (insert_by_path c l)
  = List.filter (λ c, zlen c.(c_path) =? n) (c :: l).
Proof.
  induction 1 as [|e l Hs IH Hf]; [done|]. cbn [insert_by_path].
  destruct (bool_decide (zlen (c_path e) ≤ zlen (c_path c))) eqn:E; [done|].
  apply bool_decide_eq_false in E. cbn [List.filter] in *. rewrite IH.
  destruct (Z.eqb_spec (zlen (c_path c)) n), (Z.eqb_spec (zlen (c_path e)) n); try done. lia.
Qed.

Lemma sort_by_path_spec l :
  sort_by_path l ≡ₚ l ∧ StronglySorted longer_first (sort_by_path l) ∧
  ∀ n, List.filter (λ c, zlen c.(c_path) =? n) (sort_by_path l)
       = List.filter (λ c, zlen c.(c_path) =? n) l.
Proof.
  induction l as [|c l (Hp & Hs & Hf)]; [by split_and!; [|constructor|]|]. unfold sort_by_path in *. cbn [foldr].
  split_and!.
  - by rewrite insert_by_path_perm, Hp.
  - by apply insert_by_path_sorted.
  - intros n. rewrite insert_by_path_stable by done. cbn [List.filter]. by rewrite Hf.
Qed.

Lemma sorted_nonempty l : l ≠ [] → sort_by_path l ≠ [].
Proof.
  intros Hl Hs. destruct (sort_by_path_spec l) as (Hp & _). apply Permutation_length in Hp.
  rewrite Hs in Hp. by destruct l.
Qed.

(** *** Lengths *)

Lemma join_cost l : l ≠ [] →
  zlen (join (bs "; ") (map render l)) + 2 = bytes_held l.
Proof.
  induction l as [|c l IH]; [done|]. intros _. assert (zlen (render c) + 2 = entry_size (c_name c) (c_value c)) as Hc.
  { unfold render, entry_size. simp_len. change (zlen (bs "=")) with 1. lia. }
  destruct l as [|c' l]; [cbn; lia|]. specialize (IH ltac:(done)). cbn [map] in *. cbn [bytes_held] in *.
  change (join (bs "; ") (render c :: render c' :: map render l))
    with (render c ++ bs "; " ++ join (bs "; ") (render c' :: map render l)).
  rewrite !zlen_app. change (zlen (bs "; ")) with 2. lia.
Qed.

Lemma bytes_held_perm l k : l ≡ₚ k → bytes_held l = bytes_held k.
Proof. induction 1; cbn; lia. Qed.

Lemma filter_sublist {A} (p : A → bool) l : sublist (List.filter p l) l.
Proof. induction l as [|x l IH]; cbn; [done|]. case_match; by constructor. Qed.

(** ** Parsing: the scope of an accepted cookie *)

Section psl.
Context (domain_str : bytes → option bytes).

(** Where a cookie accepted from [host] may live. *)
Definition scope_ok (host : bytes) (c : Cookie) : Prop :=
  if c.(host_only) then c.(c_domain) = host
  else parse_ip host = None ∧ domain_covers host c.(c_domain) ∧
       ∃ r, domain_str c.(c_domain) = Some r ∧ domain_str host = Some r.

Lemma cookie_scope_ok domain host d ho : cookie_scope domain_str domain host = Some (d, ho) →
  if (ho : bool) then d = host
  else parse_ip host = None ∧ domain_covers host d ∧ ∃ r, domain_str d = Some r ∧ domain_str host = Some r.
Proof.
  unfold cookie_scope. destruct domain as [d0|]; [|by intros [= <- <-]].
  destruct (domain_matches host d0) eqn:Hm; cbn [negb]; [|done]. apply domain_matches_spec in Hm.
  unfold is_ip. destruct (parse_ip host) eqn:Hip.
  { rewrite bool_decide_true by eauto. by intros [= <- <-]. }
  rewrite bool_decide_false by (by intros [? ?]). unfold is_public_suffix, registrable.
  destruct (bool_decide (domain_str d0 = None)) eqn:Hp.
  { destruct (bool_decide (d0 = host)); [|done]. by intros [= <- <-]. }
  apply bool_decide_eq_false in Hp.
  destruct (bool_decide (domain_str host ≠ domain_str d0)) eqn:Hr; [done|].
  apply bool_decide_eq_false in Hr. apply dec_stable in Hr. intros [= <- <-].
  destruct (domain_str d0) as [r|] eqn:Hd; [|done]. split_and!; [done..|]. by exists r.
Qed.

(** The [name=value] that a [Set-Cookie] value starts with, blanks removed. *)
Definition names_pair (value name val : bytes) : Prop :=
  ∃ first rest n v, value = first ++ rest ∧ ch ";" ∉ first ∧ (rest = [] ∨ head rest = Some (ch ";")) ∧
    trim first = n ++ ch "=" :: v ∧ ch "=" ∉ n ∧ name = trim n ∧ val = trim v.

Lemma split_first c s : ∃ first rest, head (split c s) = Some first ∧ s = first ++ rest ∧ c ∉ first ∧
  (rest = [] ∨ head rest = Some c).
Proof.
  induction s as [|x s (first & rest & Hh & -> & Hn & Hr)]; [exists [], []; split_and!; [done|done|apply not_elem_of_nil|by left]|]. cbn [split].
  destruct (Z.eqb_spec x c) as [->|Hx]; [exists [], (c :: first ++ rest); split_and!; [done|done|set_solver|by right]|].
  destruct (split c (first ++ rest)) as [|p ps]; [done|]. injection Hh as ->.
  exists (x :: first), rest. split_and!; [done|done|set_solver|done].
Qed.

Lemma parse_set_cookie_ok now value host rp c e :
  parse_set_cookie domain_str now value host rp = Ok (Some (c, e)) →
  names_pair value c.(c_name) c.(c_value) ∧ scope_ok host c.
Proof.
  unfold parse_set_cookie. destruct (split_first (ch ";") value) as (first & rest & Hh & Hv & Hn1 & Hr).
  destruct (split _ value) as [|p ps]; [done|]. injection Hh as ->.
  destruct (split_once _ _) as [[n v]|] eqn:Ho; [|done]. apply split_once_spec in Ho as [Ho Hn2].
  destruct (bool_decide (trim n = [])) eqn:Hn; [done|].
  intros (st & _ & H)%bind_Ok. injection H as H.
  destruct (cookie_scope domain_str (a_domain st) host) as [[d ho]|] eqn:Hs; [|done].
  injection H as <- <-. split; [exists first, rest, n, v; split_and!; try done; try exact Hr|]. unfold scope_ok. cbn. exact (cookie_scope_ok _ _ _ _ Hs).
Qed.

(** ** Chains

    A chain is the stores of a sequence of responses, each at its own time. *)
Definition response : Type := Z * list (bytes * bytes) * Uri.

Inductive chain_of (names : list bytes) : list response → ChainCookies → Prop :=
  | chain_start : chain_of names [] (with_caller_cookies names)
  | chain_store rs s now headers uri s' rejected :
      chain_of names rs s →
      store domain_str now s headers uri = Ok (s', rejected) →
      chain_of names (rs ++ [(now, headers, uri)]) s'.

(** The response sets the cookie: one of its [Set-Cookie] headers is read as exactly this
    cookie, not expired, for the response's own host and path, and starts with its name
    and value. *)
Definition sets (r : response) (host : bytes) (c : Cookie) : Prop :=
  let '(now, headers, uri) := r in
  Uri.host uri = Some host ∧
  ∃ n v, (n, v) ∈ headers ∧ to_ascii_lowercase n = bs "set-cookie" ∧
    parse_set_cookie domain_str now v (canonical_host host) uri.(path) = Ok (Some (c, false)) ∧
    names_pair v c.(c_name) c.(c_value).

(** An invariant of [store_cookie] is one of [store]. *)
Lemma store_ind (P : ChainCookies → Prop) now headers uri s s' rejected :
  (∀ host s rej c e, Uri.host uri = Some host → scope_ok (canonical_host host) c →
     (e = false → sets (now, headers, uri) host c) → P s → P (store_cookie s rej c e).1) →
  P s → store domain_str now s headers uri = Ok (s', rejected) → P s'.
Proof.
  intros Hstep Hs. unfold store. destruct (Uri.host uri) as [host|] eqn:Hh; [|by intros [= <- <-]].
  assert (∀ hs rej s, (∀ h, h ∈ hs → h ∈ headers) → P s →
    store_headers domain_str now (canonical_host host) (path uri) hs (s, rej) = Ok (s', rejected) → P s') as Hall; [|by apply Hall].
  clear s Hs. intros hs. induction hs as [|[n v] hs IH]; intros rej s Hin Hs; [by intros [= <- <-]|].
  cbn [store_headers]. intros ([s1 rej1] & H1 & H2)%bind_Ok. apply (IH rej1 s1); [set_solver| |done].
  revert H1. unfold store_header. destruct (eq_ignore_ascii_case n (bs "set-cookie")) eqn:En; cbn [negb]; [|by intros [= <- <-]].
  intros (r & Hr & H1)%bind_Ok. destruct r as [[c e]|]; [|by injection H1 as <- <-].
  pose proof (parse_set_cookie_ok _ _ _ _ _ _ Hr) as [Hpair Hscope]. injection H1 as H1. cbn [fst snd] in H1.
  assert (e = false → sets (now, headers, uri) host c) as Hsets.
  { intros ->. split; [done|]. exists n, v. split_and!; [apply Hin; by left|by apply bool_decide_eq_true in En|done|done]. }
  pose proof (Hstep host s rej c e eq_refl Hscope Hsets Hs) as Hp. by rewrite H1 in Hp.
Qed.

Lemma store_names now headers uri s s' rejected :
  store domain_str now s headers uri = Ok (s', rejected) → s'.(caller_names) = s.(caller_names).
Proof.
  intros H. refine (store_ind (λ t, t.(caller_names) = s.(caller_names)) now headers uri s s' rejected _ eq_refl H).
  intros host t rej c e _ _ _ Ht. unfold store_cookie. repeat case_match; done.
Qed.

Lemma chain_wf names rs s : chain_of names rs s → wf_chain s ∧ s.(caller_names) = names.
Proof.
  induction 1 as [|rs s now headers uri s' rejected _ [IH1 IH2] Hst].
  - split; [|done]. split_and!; cbn; try constructor; done.
  - split; [|by rewrite (store_names _ _ _ _ _ _ Hst)].
    eapply store_ind; [|exact IH1|exact Hst]. intros host t rej c e _ _ _ Ht.
    rewrite store_cookie_spec by done. by apply store_spec_wf.
Qed.

(** Every stored cookie was set by a response of the chain. *)
Lemma chain_provenance names rs s : chain_of names rs s →
  Forall (λ c, ∃ r host, r ∈ rs ∧ sets r host c ∧ scope_ok (canonical_host host) c) s.(cookies).
Proof.
  induction 1 as [|rs s now headers uri s' rejected _ IH Hst]; [constructor|].
  eapply (store_ind (λ t, Forall _ t.(cookies))); [| |exact Hst].
  - intros host t rej c e _ Hc Hsets Ht. unfold store_cookie. repeat (case_match; try done); cbn.
    all: try (unfold remove_at; apply Forall_app; split; [by apply Forall_take|by apply Forall_drop]).
    all: apply Forall_app; split; [|apply Forall_singleton; eexists _, host; split_and!; [|by apply Hsets|done]; set_solver].
    all: try done. unfold remove_at; apply Forall_app; split; [by apply Forall_take|by apply Forall_drop].
  - eapply Forall_impl; [exact IH|]. intros c (r & host & Hin & Hrest). exists r, host. set_solver.
Qed.
End psl.

(** ** No panic on ASCII headers *)

Definition is_ascii (b : Z) : Prop := 0 ≤ b < 128.
Abbreviation ascii := (Forall is_ascii).

(** The text operations return pieces of their argument. *)
Definition piece (P : Z → Prop) (f : bytes → bytes) : Prop := ∀ s, Forall P s → Forall P (f s).

Section pieces.
Context (P : Z → Prop).

Lemma trim_start_piece : piece P trim_start.
Proof.
  unfold piece. fix IH 1. intros [|a s1] Hs; [done|]. cbn [trim_start].
  pose proof (Forall_inv_tail Hs) as H1. destruct (ws1 a); [by apply IH|].
  destruct s1 as [|b s2]; [done|]. pose proof (Forall_inv_tail H1) as H2.
  destruct (ws2 _ _); [by apply IH|].
  destruct s2 as [|c s3]; [done|]. pose proof (Forall_inv_tail H2) as H3.
  destruct (ws3 _ _ _); [by apply IH|done].
Qed.

Lemma trim_rev_piece : piece P trim_rev.
Proof.
  unfold piece. fix IH 1. intros [|a s1] Hs; [done|]. cbn [trim_rev].
  pose proof (Forall_inv_tail Hs) as H1. destruct (ws1 a); [by apply IH|].
  destruct s1 as [|b s2]; [done|]. pose proof (Forall_inv_tail H1) as H2.
  destruct (ws2 _ _); [by apply IH|].
  destruct s2 as [|c s3]; [done|]. pose proof (Forall_inv_tail H2) as H3.
  destruct (ws3 _ _ _); [by apply IH|done].
Qed.

Lemma rev_piece : piece P (@rev Z).
Proof. intros s. apply Forall_rev. Qed.

Lemma trim_piece : piece P trim.
Proof. intros s Hs. unfold trim, trim_end. by apply rev_piece, trim_rev_piece, rev_piece, trim_start_piece. Qed.

Lemma trim_start_matches_piece c : piece P (trim_start_matches c).
Proof. intros s Hs. destruct (trim_start_matches_suffix c s) as [n E]. rewrite E in Hs. by apply Forall_app in Hs as [_ ?]. Qed.

Lemma split_piece c s : Forall P s → Forall (Forall P) (split c s).
Proof.
  induction 1 as [|x s Hx _ IH]; cbn; [by apply Forall_singleton|].
  case_match; [by apply Forall_cons|].
  destruct (split c s) as [|p ps]; [by apply Forall_singleton, Forall_singleton|].
  apply Forall_cons in IH as [? ?]. apply Forall_cons. split; [by apply Forall_cons|done].
Qed.

Lemma split_once_piece c s a b : Forall P s → split_once c s = Some (a, b) → Forall P a ∧ Forall P b.
Proof. intros Hs [-> _]%split_once_spec. apply Forall_app in Hs as [? Hb]. apply Forall_cons in Hb as [_ ?]. done. Qed.

Lemma split_ws_piece s cur : Forall P cur → Forall P s → Forall (Forall P) (split_ws cur s).
Proof.
  assert (∀ cur l, Forall P cur → Forall (Forall P) l → Forall (Forall P) (push_token cur l)) as Hp.
  { intros [|x l'] l ? ?; cbn; [done|by apply Forall_cons]. }
  revert s cur. fix IH 1. intros [|a s1] cur Hc Hs; [by apply Hp; [|apply Forall_nil_2]|].
  pose proof (IH s1) as IH1. cbn [split_ws]. pose proof (Forall_inv Hs) as Ha. pose proof (Forall_inv_tail Hs) as H1.
  assert (Forall P (cur ++ [a])) as Hca by (apply Forall_app; split; [done|by apply Forall_singleton]).
  destruct (ws1 a); [apply Hp; [done|]; by apply IH1|].
  destruct s1 as [|b s2]; [by apply IH1|]. pose proof (Forall_inv_tail H1) as H2.
  destruct (ws2 a b); [apply Hp; [done|]; by apply IH|].
  destruct s2 as [|c s3]; [by apply IH1|]. pose proof (Forall_inv_tail H2) as H3.
  destruct (ws3 a b c); [apply Hp; [done|]; by apply IH|]. by apply IH1.
Qed.
End pieces.

Lemma str_to_ascii {E} s : ascii s → 3 ≤ zlen s → ∃ p, @str_to E s 3 = Ok p.
Proof.
  intros Hs Hl. unfold str_to, is_char_boundary. change (3 =? 0) with false. cbn iota.
  destruct (s !! Z.to_nat 3) as [b|] eqn:Hb.
  - eapply Forall_lookup_1 in Hb; [|exact Hs]. unfold is_ascii in Hb.
    destruct (Z.ltb_spec b 128); [|lia]. cbn. eauto.
  - apply lookup_ge_None in Hb. unfold zlen in *. destruct (Z.eqb_spec 3 (Z.of_nat (length s))); [eauto|lia].
Qed.

Lemma find_month_ascii token st : ascii token → is_panic (find_month token st) = false.
Proof.
  intros Ha. unfold find_month. destruct (bool_decide (month st = None)); [|done].
  destruct (bool_decide (zlen token >= 3)) eqn:E; [|done]. apply bool_decide_eq_true in E.
  cbn [andb]. destruct (@str_to_ascii Empty_set token Ha ltac:(lia)) as [p ->]. done.
Qed.

Lemma date_token_ascii token st : ascii token → is_panic (date_token token st) = false.
Proof.
  intros Ha. unfold date_token. case_match; [done|]. pose proof (find_month_ascii token st Ha).
  destruct (find_month token st) as [[m|]| |]; cbn; try done. by case_match.
Qed.

Lemma date_tokens_ascii tokens st : Forall ascii tokens → is_panic (date_tokens tokens st) = false.
Proof.
  intros H. revert st. induction H as [|t ts Ht _ IH]; intros st; cbn [date_tokens]; [done|].
  pose proof (date_token_ascii t st Ht). destruct (date_token t st) as [[st'|]| |]; cbn; done.
Qed.

Lemma parse_http_date_ascii s : ascii s → is_panic (parse_http_date s) = false.
Proof.
  intros Hs. unfold parse_http_date.
  match goal with |- context [split_whitespace ?n] => assert (ascii n) as Hn end.
  { induction Hs as [|c s Hc _ IH]; cbn; [constructor|]. constructor; [|done].
    case_match; [vm_compute; split; [discriminate|reflexivity]|done]. }
  pose proof (date_tokens_ascii _ (mkDate None None None None) (split_ws_piece _ _ [] (Forall_nil_2 _) Hn)) as Hp.
  unfold split_whitespace. by destruct (date_tokens _ _).
Qed.

Lemma parse_attr_ascii a st : ascii a → is_panic (parse_attr a st) = false.
Proof.
  intros Ha. unfold parse_attr. apply (trim_piece is_ascii) in Ha.
  assert (∀ k v, (match split_once (ch "=") (trim a) with
                  | Some (k, v) => (trim k, trim v) | None => (trim a, []) end) = (k, v) → ascii v) as Hv.
  { intros k v. destruct (split_once _ _) as [[k' v']|] eqn:E; intros [= <- <-]; [|constructor].
    apply (split_once_piece is_ascii) in E as [_ ?]; [|done]. by apply trim_piece. }
  destruct (match split_once _ _ with Some _ => _ | None => _ end) as [k v] eqn:E.
  specialize (Hv k v eq_refl).
  pose proof (parse_http_date_ascii v Hv) as Hd.
  repeat (destruct (eq_ignore_ascii_case k _); [done || by destruct (parse_http_date v)|]). done.
Qed.

Lemma parse_attrs_ascii ps st : Forall ascii ps → is_panic (parse_attrs ps st) = false.
Proof.
  intros H. revert st. induction H as [|p ps Hp _ IH]; intros st; cbn [parse_attrs]; [done|].
  pose proof (parse_attr_ascii p st Hp).
  destruct (parse_attr p st); cbn; [apply IH|done|done].
Qed.

Lemma parse_set_cookie_ascii ds now value host rp :
  ascii value → is_panic (parse_set_cookie ds now value host rp) = false.
Proof.
  intros Hv. unfold parse_set_cookie. apply (split_piece is_ascii (ch ";")) in Hv.
  destruct (split _ value) as [|p ps]; [done|]. apply Forall_cons in Hv as [_ Hps].
  destruct (split_once _ _) as [[n v]|]; [|done]. case_match; [done|].
  pose proof (parse_attrs_ascii ps (mkAttrs None None false None None) Hps). by destruct (parse_attrs _ _).
Qed.

Lemma store_ascii ds now s headers uri : Forall (λ h, ascii h.2) headers →
  ∃ s' rejected, store ds now s headers uri = Ok (s', rejected).
Proof.
  intros Hh. unfold store. destruct (Uri.host uri) as [host|]; [|eauto]. revert s.
  generalize Rejected_default. induction Hh as [|[n v] hs Hv _ IH]; intros rej s; cbn [store_headers]; [eauto|].
  assert (∃ st, store_header ds now (canonical_host host) (path uri) (n, v) (s, rej) = Ok st) as [[s1 rej1] ->].
  { unfold store_header. case_match; [eauto|].
    pose proof (parse_set_cookie_ascii ds now v (canonical_host host) (path uri) Hv).
    destruct (parse_set_cookie ds now v (canonical_host host) (path uri)) as [[[c e]|]|[]|]; cbn in *; eauto; done. }
  cbn [mbind exec_bind]. apply IH.
Qed.

(** ** Properties *)

(** C7: whatever responses a redirect chain stores, the chain never holds a
    cookie under a name the caller set, never two cookies with one name, domain
    and path, never more than 50 cookies, none above 4096 bytes and never more
    than 8192 bytes in all; and the next response, if its headers are ASCII, is
    stored without a panic. *)
Theorem cookie_chain_invariant (domain_str : bytes → option bytes) (names : list bytes)
    (rs : list response) (s : ChainCookies) :
  chain_of domain_str names rs s →
  s.(caller_names) = names ∧ wf_chain s ∧
  ∀ now headers uri, Forall (λ h, ascii h.2) headers →
    ∃ s' rejected, store domain_str now s headers uri = Ok (s', rejected).
Proof.
  intros Hc. pose proof (chain_wf _ _ _ _ Hc) as [Hw Hn]. split_and!; [done|done|].
  intros now headers uri Hh. by apply store_ascii.
Qed.

(** A public suffix list with one registrable domain, for the witnesses. *)
Definition example_psl (d : bytes) : option bytes :=
  if bool_decide (d = bs "example.com") || ends_with d (bs ".example.com")
  then Some (bs "example.com") else None.

Definition login_uri : Uri :=
  mkUri (Some (bs "https")) (Some (bs "Auth.Example.com")) None (bs "/login/form") None None [].
Definition login_headers : list (bytes * bytes) :=
  [(bs "Set-Cookie", bs "sid=1; Domain=.example.com; Secure; Path=/");
   (bs "set-cookie", bs "mine=evil"); (bs "set-cookie", bs "t=2; Expires=Sun, 06 Nov 2044 08:49:37 GMT")].
Definition login_chain : ChainCookies :=
  mkChain [mkCookie (bs "sid") (bs "1") (bs "example.com") false (bs "/") true;
           mkCookie (bs "t") (bs "2") (bs "auth.example.com") true (bs "/login") false] [bs "mine"].

Lemma login_chain_of : chain_of example_psl [bs "mine"] [(1700000000, login_headers, login_uri)] login_chain.
Proof.
  apply (chain_store _ _ [] (with_caller_cookies [bs "mine"]) 1700000000 login_headers login_uri login_chain
    (mkRejected [bs "mine"] [])); [constructor|]. vm_compute. reflexivity.
Qed.

Lemma cookie_chain_invariant_witness :
  login_chain.(caller_names) = [bs "mine"] ∧ wf_chain login_chain ∧
  ∀ now headers uri, Forall (λ h, ascii h.2) headers →
    ∃ s' rejected, store example_psl now login_chain headers uri = Ok (s', rejected).
Proof. apply (cookie_chain_invariant example_psl _ _ _ login_chain_of). Defined.

(** C8: on a well-formed chain each parsed cookie does exactly what the
    specification says: a caller's name is refused and reported; an oversized
    cookie, or one that would exceed the count or byte budget once the cookie it
    replaces is discounted, is refused, reported, and leaves the incumbent; an
    expired one deletes the cookie with its name, domain and path; any other
    replaces it and becomes the newest. *)
Theorem store_refines_spec (self : ChainCookies) (rejected : Rejected) (c : Cookie) (expired : bool) :
  wf_chain self → store_cookie self rejected c expired = store_spec self rejected c expired.
Proof. apply store_cookie_spec. Qed.

Lemma store_refines_spec_witness :
  let c := mkCookie (bs "t") (bs "9") (bs "auth.example.com") true (bs "/login") false in
  store_cookie login_chain Rejected_default c true = store_spec login_chain Rejected_default c true ∧
  (store_spec login_chain Rejected_default c true).1
  = mkChain [mkCookie (bs "sid") (bs "1") (bs "example.com") false (bs "/") true] [bs "mine"].
Proof.
  intros c. split; [|reflexivity]. apply (store_refines_spec login_chain).
  apply (chain_wf _ _ _ _ login_chain_of).
Defined.

(** C9: the header sent to a URI is the join of exactly the stored cookies that
    may go there (Secure only over https, host-only to the exact host, others to
    hosts their domain covers at a label boundary, path covered), longest path
    first and in order of creation among equal paths; there is no header when
    none applies. *)
Theorem header_for_spec (s : ChainCookies) (uri : Uri) (h : bytes) :
  Uri.host uri = Some h →
  let matched := List.filter (applies (canonical_host h) uri.(Uri.path)
                                (bool_decide (uri.(scheme_str) = Some (bs "https")))) s.(cookies) in
  (∀ c, c ∈ matched ↔ c ∈ s.(cookies) ∧
     may_receive (canonical_host h) uri.(Uri.path) (bool_decide (uri.(scheme_str) = Some (bs "https"))) c) ∧
  match header_for s uri with
  | None => matched = []
  | Some text => ∃ sent, text = join (bs "; ") (map render sent) ∧ sent ≠ [] ∧ sent ≡ₚ matched ∧
      StronglySorted longer_first sent ∧
      ∀ n, List.filter (λ c, zlen c.(c_path) =? n) sent = List.filter (λ c, zlen c.(c_path) =? n) matched
  end.
Proof.
  intros Hh matched. split.
  - intros c. unfold matched. rewrite !list_elem_of_In, List.filter_In, applies_spec. done.
  - unfold header_for. rewrite Hh. cbn [mbind option_bind]. fold matched.
    destruct (bool_decide (matched = [])) eqn:E; [apply bool_decide_eq_true in E; exact E|].
    apply bool_decide_eq_false in E. destruct (sort_by_path_spec matched) as (Hp & Hs & Hf).
    exists (sort_by_path matched). split_and!; try done. by apply sorted_nonempty.
Qed.

Lemma header_for_spec_witness :
  header_for login_chain login_uri = Some (bs "t=2; sid=1") ∧
  let matched := List.filter (applies (canonical_host (bs "Auth.Example.com")) (bs "/login/form") true)
                   (cookies login_chain) in
  ∃ sent, bs "t=2; sid=1" = join (bs "; ") (map render sent) ∧ sent ≠ [] ∧ sent ≡ₚ matched.
Proof.
  split; [vm_compute; reflexivity|].
  destruct (header_for_spec login_chain login_uri (bs "Auth.Example.com") eq_refl) as [_ H].
  replace (header_for login_chain login_uri) with (Some (bs "t=2; sid=1")) in H by (vm_compute; reflexivity).
  destruct H as (sent & H1 & H2 & H3 & _). exists sent. split; [exact H1|]. split; [exact H2|exact H3].
Defined.

(** Along any chain the Cookie header the chain adds stays within
    8190 bytes, however many responses were stored. *)
Theorem cookie_header_bounded (domain_str : bytes → option bytes) (names : list bytes)
    (rs : list response) (s : ChainCookies) (uri : Uri) (text : bytes) :
  chain_of domain_str names rs s → header_for s uri = Some text → zlen text ≤ MAX_CHAIN_BYTES - 2.
Proof.
  intros Hc Ht. pose proof (chain_wf _ _ _ _ Hc) as [(_ & _ & _ & _ & Hb) _]. unfold header_for in Ht.
  destruct (Uri.host uri) as [h|]; cbn [mbind option_bind] in Ht; [|done].
  set (m := List.filter _ (cookies s)) in Ht. destruct (bool_decide (m = [])) eqn:E; [done|].
  apply bool_decide_eq_false in E. injection Ht as <-. destruct (sort_by_path_spec m) as (Hp & _).
  pose proof (sorted_nonempty m E) as Hne.
  pose proof (join_cost _ Hne) as Hj. rewrite (bytes_held_perm _ _ Hp) in Hj.
  pose proof (sublist_bytes m (cookies s) (filter_sublist _ _)). lia.
Qed.

Lemma cookie_header_bounded_witness : zlen (bs "t=2; sid=1") ≤ MAX_CHAIN_BYTES - 2.
Proof.
  apply (cookie_header_bounded example_psl _ _ _ login_uri (bs "t=2; sid=1") login_chain_of).
  vm_compute. reflexivity.
Defined.

(** C1: a cookie that a chain sends to a host was set by a response of that chain: one
    of that response's Set-Cookie headers has exactly this name and value, was read as
    exactly this cookie (domain, path, Secure) for that response's own host and path,
    and had not expired.  Either the two hosts are the same, or the cookie's domain
    covers both, is not a public suffix, and has the setter's registrable domain; then
    the setter is a name, not an address, and so is the receiver unless it equals the
    domain.  The name is none of the caller's own. *)
Theorem cookie_isolation (domain_str : bytes → option bytes) (names : list bytes)
    (rs : list response) (s : ChainCookies) (uri : Uri) (h : bytes) (c : Cookie) :
  chain_of domain_str names rs s → Uri.host uri = Some h → c ∈ s.(cookies) →
  applies (canonical_host h) uri.(Uri.path) (bool_decide (uri.(scheme_str) = Some (bs "https"))) c = true →
  c.(c_name) ∉ names ∧
  ∃ r h0, r ∈ rs ∧ sets domain_str r h0 c ∧
    (canonical_host h = canonical_host h0 ∨
     (domain_covers (canonical_host h) c.(c_domain) ∧ domain_covers (canonical_host h0) c.(c_domain) ∧
      parse_ip (canonical_host h0) = None ∧
      ∃ r, domain_str c.(c_domain) = Some r ∧ domain_str (canonical_host h0) = Some r)).
Proof.
  intros Hc Hh Hin Ha. pose proof (chain_wf _ _ _ _ Hc) as [(Hn & _) Hnames]. rewrite Hnames in Hn.
  pose proof (chain_provenance _ _ _ _ Hc) as Hp.
  rewrite Forall_forall in Hn, Hp. split; [by apply Hn|].
  destruct (Hp c Hin) as (r & h0 & Hr & Hsets & Hs). exists r, h0.
  split_and!; [done..|]. apply applies_spec in Ha as (_ & Hd & _). unfold scope_ok in Hs.
  destruct (host_only c); [left; congruence|]. right. destruct Hs as (H1 & H2 & H3). done.
Qed.

Lemma cookie_isolation_witness :
  let c := mkCookie (bs "sid") (bs "1") (bs "example.com") false (bs "/") true in
  let uri := mkUri (Some (bs "https")) (Some (bs "app.example.com")) None (bs "/") None None [] in
  bs "sid" ∉ [bs "mine"] ∧
  ∃ r h0, r ∈ [(1700000000, login_headers, login_uri)] ∧ sets example_psl r h0 c ∧
    (canonical_host (bs "app.example.com") = canonical_host h0 ∨
     (domain_covers (canonical_host (bs "app.example.com")) (bs "example.com") ∧
      domain_covers (canonical_host h0) (bs "example.com") ∧
      parse_ip (canonical_host h0) = None ∧
      ∃ r, example_psl (bs "example.com") = Some r ∧ example_psl (canonical_host h0) = Some r)).
Proof.
  intros c uri. apply (cookie_isolation example_psl _ _ _ uri (bs "app.example.com") c login_chain_of).
  - reflexivity.
  - constructor.
  - vm_compute. reflexivity.
Defined.
