(* ===== verification/CookieDates.v ===== *)
(** * Cookie dates: the calendar and the date parser *)
From S2P Require Import Prelude RustStd Cookies.

(** ** The proleptic Gregorian calendar *)

Definition leap (y : Z) : bool := (y mod 4 =? 0) && (negb (y mod 100 =? 0) || (y mod 400 =? 0)).

Definition days_in_month (y m : Z) : Z :=
  if m =? 2 then if leap y then 29 else 28
  else if (m =? 4) || (m =? 6) || (m =? 9) || (m =? 11) then 30 else 31.

Definition valid_date (y m d : Z) : Prop := 1 ≤ m ≤ 12 ∧ 1 ≤ d ≤ days_in_month y m.

Definition next_day (y m d : Z) : Z * Z * Z :=
  if d <? days_in_month y m then (y, m, d + 1)
  else if m <? 12 then (y, m + 1, 1)
  else (y + 1, 1, 1).

Definition days_of (date : Z * Z * Z) : Z := let '(y, m, d) := date in days_from_civil y m d.

(** The number of days before 1 March of year [y], up to a constant. *)
Definition march (y : Z) : Z := let era := y / 400 in let yoe := y mod 400 in
  era * 146097 + yoe * 365 + yoe / 4 - yoe / 100.

Definition month_offset (m : Z) : Z := (153 * (if 2 <? m then m - 3 else m + 9) + 2) / 5.

Lemma days_from_civil_march y m d : 1 ≤ y → 1 ≤ m ≤ 12 →
  days_from_civil y m d = march (if m <=? 2 then y - 1 else y) + month_offset m + d - 719469.
Proof.
  intros Hy Hm. unfold days_from_civil, march, month_offset.
  set (y' := if m <=? 2 then y - 1 else y). assert (0 ≤ y') as Hy' by (unfold y'; case_match; lia).
  set (mp := if 2 <? m then m - 3 else m + 9). assert (0 ≤ mp) as Hmp by (unfold mp; case_match; lia).
  destruct (Z.leb_spec 0 y') as [_|]; [|lia]. rewrite (Z.quot_div_nonneg y') by lia.
  assert (y' - y' / 400 * 400 = y' mod 400) as -> by (rewrite Z.mod_eq by lia; lia).
  pose proof (Z.mod_pos_bound y' 400 ltac:(lia)).
  rewrite !Z.quot_div_nonneg by lia. lia.
Qed.

Lemma march_step y : 1 ≤ y → march y - march (y - 1) = if leap y then 366 else 365.
Proof.
  intros Hy. unfold march, leap.
  destruct (Z.eqb_spec (y mod 4) 0), (Z.eqb_spec (y mod 100) 0), (Z.eqb_spec (y mod 400) 0); cbn;
    Z.div_mod_to_equations; lia.
Qed.

(** Evaluate the comparisons and equality tests of literals. *)
Ltac eval_tests :=
  repeat match goal with
    | |- context [?a <=? ?b] => let v := eval vm_compute in (a <=? b) in
        match v with true => idtac | false => idtac end; change (a <=? b) with v
    | |- context [?a <? ?b] => let v := eval vm_compute in (a <? b) in
        match v with true => idtac | false => idtac end; change (a <? b) with v
    | |- context [?a =? ?b] => let v := eval vm_compute in (a =? b) in
        match v with true => idtac | false => idtac end; change (a =? b) with v
    | |- context [?a / 5] => let v := eval vm_compute in (a / 5) in
        match v with Zpos _ => idtac | Z0 => idtac end; change (a / 5) with v
    end; cbn [orb andb negb].

Lemma days_from_civil_step y m d : 1 ≤ y → valid_date y m d →
  days_of (next_day y m d) = days_from_civil y m d + 1.
Proof.
  intros Hy [Hm Hd]. unfold next_day. destruct (Z.ltb_spec d (days_in_month y m)); cbn [days_of].
  { rewrite !days_from_civil_march by lia. lia. }
  replace d with (days_in_month y m) by lia. clear Hd. pose proof (march_step y Hy) as Hs.
  rewrite (days_from_civil_march y m) by lia. destruct (Z.ltb_spec m 12); cbn [days_of].
  - rewrite days_from_civil_march by lia.
    assert (m = 1 ∨ m = 2 ∨ m = 3 ∨ m = 4 ∨ m = 5 ∨ m = 6 ∨ m = 7 ∨ m = 8 ∨ m = 9 ∨ m = 10 ∨ m = 11)
      as Hcases by lia.
    destruct Hcases as [->|[->|[->|[->|[->|[->|[->|[->|[->|[->| ->]]]]]]]]]];
      unfold days_in_month, month_offset; eval_tests; try lia.
    destruct (leap y); lia.
  - rewrite days_from_civil_march by lia. replace m with 12 by lia.
    unfold days_in_month, month_offset. eval_tests. replace (y + 1 - 1) with y by lia. lia.
Qed.

(** ** Fixed-width dates *)

Definition two (n : Z) : bytes := [48 + n / 10; 48 + n mod 10].
Definition four (n : Z) : bytes := two (n / 100) ++ two (n mod 100).

Definition WEEKDAYS : list bytes := map bs ["Sun"; "Mon"; "Tue"; "Wed"; "Thu"; "Fri"; "Sat"].
Definition MONTH_NAMES : list bytes :=
  map bs ["Jan"; "Feb"; "Mar"; "Apr"; "May"; "Jun"; "Jul"; "Aug"; "Sep"; "Oct"; "Nov"; "Dec"].

(** IMF-fixdate (RFC 9110 section 5.6.7) with a given month name. *)
Definition imf_fixdate (wd mon : bytes) (y d h mi s : Z) : bytes :=
  wd ++ bs ", " ++ two d ++ bs " " ++ mon ++ bs " " ++ four y ++ bs " "
  ++ two h ++ bs ":" ++ two mi ++ bs ":" ++ two s ++ bs " GMT".

(** A token: ASCII without white space. *)
Abbreviation token := (Forall (λ b, 33 ≤ b < 128)).

Lemma split_ws_token t cur rest :
  token t → split_ws cur (t ++ 32 :: rest) = push_token (cur ++ t) (split_ws [] rest).
Proof.
  intros Ht. revert cur. induction Ht as [|a t Ha _ IH]; intros cur; [by rewrite app_nil_r|].
  assert (ws1 a = false) as H1 by (unfold ws1; lia).
  assert (∀ b, ws2 a b = false) as H2 by (intros b; unfold ws2; destruct (Z.eqb_spec a 0xC2); [lia|done]).
  assert (∀ b c, ws3 a b c = false) as H3.
  { intros b c. unfold ws3. destruct (Z.eqb_spec a 0xE1), (Z.eqb_spec a 0xE2), (Z.eqb_spec a 0xE3); lia || done. }
  assert (∀ l, split_ws cur (a :: l) = split_ws (cur ++ [a]) l) as Hstep.
  { intros [|b [|c l]]; cbn [split_ws]; rewrite H1, ?H2, ?H3; done. }
  cbn [app]. rewrite Hstep, IH. by rewrite <- (assoc_L (++)).
Qed.

Lemma split_ws_last t cur : token t → split_ws cur t = push_token (cur ++ t) [].
Proof.
  intros Ht. revert cur. induction Ht as [|a t Ha _ IH]; intros cur; [by rewrite app_nil_r|].
  assert (ws1 a = false) as H1 by (unfold ws1; lia).
  assert (∀ b, ws2 a b = false) as H2 by (intros b; unfold ws2; destruct (Z.eqb_spec a 0xC2); [lia|done]).
  assert (∀ b c, ws3 a b c = false) as H3.
  { intros b c. unfold ws3. destruct (Z.eqb_spec a 0xE1), (Z.eqb_spec a 0xE2), (Z.eqb_spec a 0xE3); lia || done. }
  assert (∀ l, split_ws cur (a :: l) = split_ws (cur ++ [a]) l) as Hstep.
  { intros [|b [|c l]]; cbn [split_ws]; rewrite H1, ?H2, ?H3; done. }
  rewrite Hstep, IH. by rewrite <- (assoc_L (++)).
Qed.

Lemma two_digits n : 0 ≤ n < 100 → Forall (λ b, 48 ≤ b ≤ 57) (two n).
Proof.
  intros Hn. unfold two. repeat apply Forall_cons_2; [| |apply Forall_nil_2]; Z.div_mod_to_equations; lia.
Qed.

Lemma digits_token l : Forall (λ b, 48 ≤ b ≤ 57) l → token l.
Proof. intros H. eapply Forall_impl; [exact H|]. cbn. lia. Qed.

Lemma digits_value_two n acc : 0 ≤ n < 100 → digits_value (two n) acc = Some (acc * 100 + n).
Proof.
  intros Hn. unfold two. cbn [digits_value].
  rewrite digit_is_digit by (Z.div_mod_to_equations; lia).
  rewrite digit_is_digit by (Z.div_mod_to_equations; lia). f_equal. Z.div_mod_to_equations. lia.
Qed.

Lemma parse_i64_digits l v :
  l ≠ [] → Forall (λ b, 48 ≤ b ≤ 57) l → digits_value l 0 = Some v → 0 ≤ v ≤ i64_max → parse_i64 l = Some v.
Proof.
  intros Hl Hf Hv Hr. unfold parse_i64, parse_signed. destruct l as [|c l]; [done|].
  apply Forall_cons in Hf as [Hc _]. destruct (Z.eqb_spec c 43), (Z.eqb_spec c 45); try lia. cbn [orb].
  rewrite Hv. cbn. unfold in_range, i64_min in *.
  destruct ((- 2 ^ 63 <=? v) && (v <=? i64_max)) eqn:E; [done|]. lia.
Qed.

Lemma parse_i64_two n : 0 ≤ n < 100 → parse_i64 (two n) = Some n.
Proof.
  intros Hn. apply parse_i64_digits; [done|by apply two_digits|by rewrite digits_value_two by done|unfold i64_max; lia].
Qed.

Lemma four_digits n : 0 ≤ n < 10000 → Forall (λ b, 48 ≤ b ≤ 57) (four n).
Proof. intros Hn. apply Forall_app. split; apply two_digits; Z.div_mod_to_equations; lia. Qed.

Lemma parse_i64_four n : 0 ≤ n < 10000 → parse_i64 (four n) = Some n.
Proof.
  intros Hn. apply parse_i64_digits; [done|by apply four_digits| |unfold i64_max; lia].
  unfold four. rewrite digits_value_app, digits_value_two by (Z.div_mod_to_equations; lia). cbn [mbind option_bind].
  rewrite digits_value_two by (Z.div_mod_to_equations; lia). f_equal. Z.div_mod_to_equations. lia.
Qed.

Lemma split_app c t rest : c ∉ t → split c (t ++ c :: rest) = t :: split c rest.
Proof.
  intros Ht. induction t as [|x t IH]; cbn.
  - by rewrite Z.eqb_refl.
  - destruct (Z.eqb_spec x c) as [->|]; [exfalso; apply Ht; set_solver|].
    rewrite IH by set_solver. done.
Qed.

Lemma split_none c t : c ∉ t → split c t = [t].
Proof.
  intros Ht. induction t as [|x t IH]; cbn; [done|].
  destruct (Z.eqb_spec x c) as [->|]; [exfalso; apply Ht; set_solver|]. by rewrite IH by set_solver.
Qed.

Lemma digits_not_in c l : Forall (λ b, 48 ≤ b ≤ 57) l → ¬ 48 ≤ c ≤ 57 → c ∉ l.
Proof. rewrite Forall_forall. intros H Hc Hin. by apply Hc, H. Qed.

Lemma contains_false c l : c ∉ l → contains c l = false.
Proof. intros H. apply not_true_iff_false. by rewrite contains_spec. Qed.

Definition clock (h mi s : Z) : bytes := two h ++ ch ":" :: two mi ++ ch ":" :: two s.

Lemma parse_time_clock h mi s : 0 ≤ h < 100 → 0 ≤ mi < 100 → 0 ≤ s < 100 →
  parse_time (clock h mi s) = Some (h, mi, s).
Proof.
  intros Hh Hm Hs. unfold parse_time, clock.
  assert (∀ n, 0 ≤ n < 100 → ch ":" ∉ two n) as Hn.
  { intros n Hn. apply digits_not_in; [by apply two_digits|]. change (ch ":") with 58. lia. }
  rewrite !split_app, split_none by auto. rewrite !parse_i64_two by done. done.
Qed.

(** One token at a time. *)
Lemma number_token_day d st : 1 ≤ d ≤ 31 → day st = None →
  date_token (two d) st = Ok (Some (mkDate (Some d) (month st) (year st) (time st))).
Proof.
  intros Hd Hst. pose proof (two_digits d ltac:(lia)) as Hf. unfold date_token.
  rewrite contains_false by (apply digits_not_in; [done|change (ch ":") with 58; lia]). cbn [andb].
  unfold find_month. rewrite (bool_decide_false (zlen (two d) >= 3)) by (unfold zlen; cbn; lia).
  rewrite andb_false_r. cbn [mbind exec_bind]. rewrite parse_i64_two by lia. unfold take_number. rewrite Hst.
  rewrite (bool_decide_true (None = None)) by done. rewrite (bool_decide_true (zlen (two d) ≤ 2)) by (unfold zlen; cbn; lia).
  destruct ((1 <=? d) && (d <=? 31)) eqn:E; [done|]. lia.
Qed.

Lemma number_token_year y st : 1000 ≤ y < 10000 → is_Some (month st) → is_Some (day st) → year st = None →
  date_token (four y) st = Ok (Some (mkDate (day st) (month st) (Some y) (time st))).
Proof.
  intros Hy [m Hm] [d Hd] Hst. pose proof (four_digits y ltac:(lia)) as Hf. unfold date_token.
  rewrite contains_false by (apply digits_not_in; [done|change (ch ":") with 58; lia]). cbn [andb].
  unfold find_month. rewrite Hm. cbn [mbind exec_bind].
  rewrite parse_i64_four by lia. unfold take_number. rewrite Hd, Hst.
  rewrite (bool_decide_false (Some d = None)), (bool_decide_true (None = None)) by done.
  rewrite (bool_decide_false (zlen (four y) ≤ 2)) by (unfold zlen; cbn; lia).
  destruct st; cbn in *; by subst.
Qed.

Lemma clock_token h mi s st : 0 ≤ h < 100 → 0 ≤ mi < 100 → 0 ≤ s < 100 → time st = None →
  date_token (clock h mi s) st = Ok (Some (mkDate (day st) (month st) (year st) (Some (h, mi, s)))).
Proof.
  intros Hh Hm Hs Hst. unfold date_token.
  assert (contains (ch ":") (clock h mi s) = true) as -> by (apply contains_spec; unfold clock; set_solver).
  rewrite Hst, bool_decide_true by done. cbn [andb]. by rewrite parse_time_clock.
Qed.

(** The concrete words. *)
Lemma Forall_forall_bool l : forallb (λ b, (33 <=? b) && (b <? 128)) l = true → token l.
Proof. rewrite forallb_forall, Forall_forall. setoid_rewrite list_elem_of_In. intros H x Hx. specialize (H x Hx). lia. Qed.

Lemma weekday_token wd : wd ∈ WEEKDAYS → wd ≠ [] ∧ token wd ∧ ch "," ∉ wd ∧ ch "-" ∉ wd ∧
  date_token wd (mkDate None None None None) = Ok (Some (mkDate None None None None)).
Proof.
  intros H. apply list_elem_of_lookup in H as [i H].
  do 7 (destruct i as [|i]; [injection H as <-;
    split_and!; [done|apply Forall_forall_bool; reflexivity| | |reflexivity];
    rewrite <- contains_spec; vm_compute; discriminate|]). done.
Qed.

Lemma month_token i mon st : MONTH_NAMES !! i = Some mon → month st = None →
  mon ≠ [] ∧ token mon ∧ ch "," ∉ mon ∧ ch "-" ∉ mon ∧
  date_token mon st = Ok (Some (mkDate (day st) (Some (Z.of_nat i + 1)) (year st) (time st))).
Proof.
  intros H Hst. destruct st as [d m y t]. cbn in Hst. subst m.
  do 12 (destruct i as [|i]; [injection H as <-;
    split_and!; [done|apply Forall_forall_bool; reflexivity| | |reflexivity];
    rewrite <- contains_spec; vm_compute; discriminate|]). done.
Qed.

Lemma gmt_token st : is_Some (month st) → date_token (bs "GMT") st = Ok (Some st).
Proof. intros [m Hm]. unfold date_token, find_month. rewrite Hm. reflexivity. Qed.

Lemma normalize_id l : ch "," ∉ l → ch "-" ∉ l →
  map (λ c, if (c =? ch "-") || (c =? ch ",") then ch " " else c) l = l.
Proof.
  induction l as [|c l IH]; [done|]. rewrite !not_elem_of_cons. intros [H1 H2] [H3 H4]. cbn [map].
  rewrite IH by done. destruct (Z.eqb_spec c (ch "-")); [congruence|].
  by destruct (Z.eqb_spec c (ch ",")); [congruence|].
Qed.

Lemma normalize_digits l : Forall (λ b, 48 ≤ b ≤ 57) l →
  map (λ c, if (c =? ch "-") || (c =? ch ",") then ch " " else c) l = l.
Proof.
  intros H. apply normalize_id; (apply digits_not_in; [done|]).
  - change (ch ",") with 44. lia.
  - change (ch "-") with 45. lia.
Qed.

(** ** Properties *)

(** [days_from_civil] counts days: it is 0 at 1970-01-01, and for every
    valid date of the proleptic Gregorian calendar from year 1 on the next day,
    across month ends, leap days and years, is one more. *)
Theorem days_from_civil_counts_days (y m d : Z) :
  1 ≤ y → valid_date y m d →
  days_from_civil 1970 1 1 = 0 ∧ days_of (next_day y m d) = days_of (y, m, d) + 1.
Proof. intros Hy Hv. split; [reflexivity|]. by apply days_from_civil_step. Qed.

Lemma days_from_civil_counts_days_witness :
  days_from_civil 1970 1 1 = 0 ∧ days_of (next_day 2000 2 28) = days_of (2000, 2, 28) + 1.
Proof. apply days_from_civil_counts_days; [lia|]. split; [lia|]. split; [lia|]. vm_compute. discriminate. Defined.

(** Every IMF-fixdate with a year from 1601 to 9999 and a time of day in
    range, whatever its weekday claims, parses to the exact number of seconds
    since the epoch. *)
Theorem http_date_roundtrip (wd mon : bytes) (i : nat) (y d h mi s : Z) :
  wd ∈ WEEKDAYS → MONTH_NAMES !! i = Some mon →
  1601 ≤ y ≤ 9999 → 1 ≤ d ≤ 31 → 0 ≤ h ≤ 23 → 0 ≤ mi ≤ 59 → 0 ≤ s ≤ 60 →
  parse_http_date (imf_fixdate wd mon y d h mi s)
  = Ok (Some (days_from_civil y (Z.of_nat i + 1) d * 86400 + h * 3600 + mi * 60 + s)).
Proof.
  intros Hwd Hmon Hy Hd Hh Hmi Hs.
  destruct (weekday_token wd Hwd) as (Hwn & Hwt & Hwc & Hwm & Hws).
  destruct (month_token i mon (mkDate (Some d) None None None) Hmon eq_refl) as (Hmn & Hmt & Hmc & Hmm & Hms).
  pose proof (two_digits d ltac:(lia)) as Fd. pose proof (four_digits y ltac:(lia)) as Fy.
  pose proof (two_digits h ltac:(lia)) as Fh. pose proof (two_digits mi ltac:(lia)) as Fmi.
  pose proof (two_digits s ltac:(lia)) as Fs.
  unfold parse_http_date, imf_fixdate. rewrite !map_app.
  rewrite (normalize_id wd), (normalize_id mon), (normalize_digits (two d)), (normalize_digits (four y)),
    (normalize_digits (two h)), (normalize_digits (two mi)), (normalize_digits (two s)) by done.
  change (map _ (bs ", ")) with (bs "  "). change (map _ (bs " GMT")) with (bs " GMT").
  change (map _ (bs " ")) with (bs " "). change (map _ (bs ":")) with (bs ":").
  assert (split_whitespace (wd ++ bs "  " ++ two d ++ bs " " ++ mon ++ bs " " ++ four y ++ bs " "
      ++ two h ++ bs ":" ++ two mi ++ bs ":" ++ two s ++ bs " GMT")
    = [wd; two d; mon; four y; clock h mi s; bs "GMT"]) as ->.
  { replace (two h ++ bs ":" ++ two mi ++ bs ":" ++ two s ++ bs " GMT") with (clock h mi s ++ 32 :: bs "GMT")
      by (unfold clock; rewrite <- (assoc_L (++)); cbn [app]; by rewrite <- (assoc_L (++))).
    change (bs "  " ++ two d ++ bs " " ++ mon ++ bs " " ++ four y ++ bs " " ++ clock h mi s ++ 32 :: bs "GMT")
      with (32 :: [] ++ 32 :: two d ++ 32 :: mon ++ 32 :: four y ++ 32 :: clock h mi s ++ 32 :: bs "GMT").
    unfold split_whitespace.
    rewrite (split_ws_token wd) by done. rewrite (split_ws_token []) by constructor.
    rewrite (split_ws_token (two d)) by (by apply digits_token).
    rewrite (split_ws_token mon) by done.
    rewrite (split_ws_token (four y)) by (by apply digits_token).
    rewrite split_ws_token.
    2: { unfold clock. apply Forall_app. split; [by apply digits_token|]. apply Forall_cons. split; [vm_compute; split; [discriminate|reflexivity]|].
         apply Forall_app. split; [by apply digits_token|]. apply Forall_cons. split; [vm_compute; split; [discriminate|reflexivity]|].
         by apply digits_token. }
    rewrite split_ws_last by (by apply Forall_forall_bool). cbn [app push_token].
    destruct wd as [|? ?]; [done|]. by destruct mon. }
  cbn [date_tokens]. rewrite Hws. cbn [mbind exec_bind].
  rewrite (number_token_day d) by (done || lia). cbn [mbind exec_bind month year time].
  rewrite Hms. cbn [mbind exec_bind day year time].
  rewrite (number_token_year y) by (done || lia || (cbn; eauto)). cbn [mbind exec_bind day month time].
  rewrite (clock_token h mi s) by (done || lia). cbn [mbind exec_bind day month year].
  rewrite gmt_token by (cbn; eauto). cbn [mbind exec_bind]. f_equal.
  unfold date_seconds. cbn [mbind option_bind day month year time from_option id].
  replace (negb ((0 <=? h) && (h <=? 23)) || negb ((0 <=? mi) && (mi <=? 59)) || negb ((0 <=? s) && (s <=? 60)))
    with false by lia.
  destruct (Z.ltb_spec y 1601); [lia|]. rewrite Z.min_l by lia. done.
Qed.

Lemma http_date_roundtrip_witness :
  parse_http_date (bs "Tue, 29 Feb 2000 23:59:60 GMT") = Ok (Some (days_from_civil 2000 2 29 * 86400 + 23 * 3600 + 59 * 60 + 60)).
Proof.
  apply (http_date_roundtrip (bs "Tue") (bs "Feb") 1 2000 29 23 59 60); try lia; [|reflexivity].
  apply list_elem_of_In. vm_compute. tauto.
Defined.

(** Off the wire a date is ASCII; on other text the slice [token[..3]] panics. *)
Example date_panics_on_non_ascii : parse_http_date [97; 97; 0xC3; 0xA9] = Panic.
Proof. reflexivity. Qed.
