(* ===== verification/Config.v ===== *)
(** * Request configuration and proxy bypass (src/config.rs)

    The request options with their defaults, which proxy a request uses, and the
    NO_PROXY matching rules with their declarative specification. *)
From S2P Require Import Prelude RustStd NetAddr.

Record RequestConfig := mkConfig {
  cfg_url : bytes;
  cfg_method : option bytes;
  cfg_headers : option (list (bytes * bytes));
  cfg_body : option bytes;
  timeout_seconds : option Z;
  max_body_size : option Z;
  follow_redirects : option bool;
  max_redirects : option Z;
  redirect_cookies : option bool;
  verify_certs : option bool;
  proxy : option bytes;
  no_proxy : list bytes;
  cipher_string : option bytes;
  min_tls_version : option bytes;
  max_tls_version : option bytes;
  retries : option Z;
  retry_wait_min_ms : option Z;
  retry_wait_max_ms : option Z;
  raw_path : option bool;
  request_target : option bytes;
  resolve_ip : option bytes;
  alpn_protocols : option (list bytes);
  verbosity : Z
}.

Definition RequestConfig_new (url : bytes) : RequestConfig :=
  mkConfig url None None None None None None None None None None [] None None None None None None None
    None None None 0.

(** ** Accessors *)

Definition method (c : RequestConfig) : bytes := default (bs "GET") c.(cfg_method).
Definition timeout (c : RequestConfig) : Z := default 10 c.(timeout_seconds).
Definition max_body (c : RequestConfig) : Z := default (10 * 1024 * 1024) c.(max_body_size).
Definition should_follow_redirects (c : RequestConfig) : bool := default false c.(follow_redirects).
Definition redirect_limit (c : RequestConfig) : Z := default 10 c.(max_redirects).
Definition should_forward_redirect_cookies (c : RequestConfig) : bool := default true c.(redirect_cookies).
Definition should_verify_certs (c : RequestConfig) : bool := default false c.(verify_certs).
Definition max_retries (c : RequestConfig) : Z := default 1 c.(retries).
(** Durations in milliseconds. *)
Definition retry_wait_min (c : RequestConfig) : Z := default 1000 c.(retry_wait_min_ms).
Definition retry_wait_max (c : RequestConfig) : Z := default 30000 c.(retry_wait_max_ms).

(** ** NO_PROXY *)

Definition host_matches_suffix (host suffix : bytes) : bool :=
  if zlen host =? zlen suffix then eq_ignore_ascii_case host suffix
  else
    let start := zlen host - zlen suffix in
    if (0 <=? start) && (1 <=? start) && bool_decide (host !! Z.to_nat (start - 1) = Some (ch "."))
    then eq_ignore_ascii_case (drop (Z.to_nat start) host) suffix
    else false.

(** [u32::MAX << n] and [u128::MAX << n]. *)
Definition mask (w n : Z) : Z := Z.shiftl (2 ^ w - 1) n mod 2 ^ w.

Definition ip_in_cidr (ip net : IpAddr) (prefix_len : Z) : bool :=
  match ip, net with
  | V4 ip, V4 net =>
      if 32 <? prefix_len then false
      else if prefix_len =? 0 then true
      else
        let m := mask 32 (32 - prefix_len) in
        Z.land (v4_bits ip) m =? Z.land (v4_bits net) m
  | V6 ip, V6 net =>
      if 128 <? prefix_len then false
      else if prefix_len =? 0 then true
      else
        let m := mask 128 (128 - prefix_len) in
        Z.land (v6_bits ip) m =? Z.land (v6_bits net) m
  | _, _ => false
  end.

(** One iteration of the loop: does this pattern match. *)
Definition pattern_matches (host : bytes) (host_ip : option IpAddr) (pattern : bytes) : bool :=
  let pattern := trim pattern in
  if bool_decide (pattern = []) then false
  else if bool_decide (pattern = bs "*") then true
  else match split_once (ch "/") pattern with
       | Some (net, prefix) =>
           match host_ip, parse_ip (trim net), parse_u8 (trim prefix) with
           | Some ip, Some net_ip, Some prefix_len => ip_in_cidr ip net_ip prefix_len
           | _, _, _ => false
           end
       | None =>
           match parse_ip pattern with
           | Some pattern_ip => bool_decide (Some pattern_ip = host_ip)
           | None =>
               if bool_decide (is_Some host_ip) then false
               else
                 let suffix := trim_matches (ch ".") (trim_start_matches (ch "*") pattern) in
                 negb (bool_decide (suffix = [])) && host_matches_suffix host suffix
           end
       end.

Definition strip_brackets (host : bytes) : bytes :=
  default host (strip_prefix host (bs "[") ≫= λ h, strip_suffix h (bs "]")).

Definition host_bypasses_proxy (host : bytes) (patterns : list bytes) : bool :=
  if bool_decide (host = []) then false
  else
    let host := strip_brackets host in
    let host_ip := parse_ip host in
    let host := trim_end_matches (ch ".") host in
    existsb (pattern_matches host host_ip) patterns.

Definition effective_proxy (c : RequestConfig) (target_host : bytes) : option bytes :=
  proxy ← c.(proxy);
  if host_bypasses_proxy target_host c.(no_proxy) then None else Some proxy.

(** The error carries the message. *)
Definition validate_proxy (c : RequestConfig) : exec bytes unit :=
  let proxy_set := match c.(proxy) with Some p => negb (bool_decide (trim p = [])) | None => false end in
  if negb (bool_decide (c.(no_proxy) = [])) && negb proxy_set then
    Err (bs "no_proxy is set but no proxy is configured; no_proxy only has an effect when a proxy is also set")
  else Ok tt.

(** ** Specifications *)

(** Network [net]/[n] of width [w]: the [n] leading bits agree. *)
Definition same_network (w ip net n : Z) : Prop := ip / 2 ^ (w - n) = net / 2 ^ (w - n).

Definition cidr_covers (net : IpAddr) (n : Z) (ip : IpAddr) : Prop :=
  match net, ip with
  | V4 net, V4 ip => n ≤ 32 ∧ same_network 32 (v4_bits ip) (v4_bits net) n
  | V6 net, V6 ip => n ≤ 128 ∧ same_network 128 (v6_bits ip) (v6_bits net) n
  | _, _ => False
  end.

(** The name itself or a name under it, ignoring ASCII case. *)
Definition under_domain (host suffix : bytes) : Prop :=
  to_ascii_lowercase host = to_ascii_lowercase suffix ∨
  ∃ sub, to_ascii_lowercase host = sub ++ bs "." ++ to_ascii_lowercase suffix.

(** The conventional NO_PROXY rules for a trimmed pattern. *)
Inductive no_proxy_rule (host : bytes) (host_ip : option IpAddr) (pattern : bytes) : Prop :=
  | rule_star : pattern = bs "*" → no_proxy_rule host host_ip pattern
  | rule_cidr net prefix net_ip ip n :
      pattern = net ++ bs "/" ++ prefix → ch "/" ∉ net →
      parse_ip (trim net) = Some net_ip → parse_u8 (trim prefix) = Some n →
      host_ip = Some ip → cidr_covers net_ip n ip → no_proxy_rule host host_ip pattern
  | rule_ip ip : ch "/" ∉ pattern → parse_ip pattern = Some ip → host_ip = Some ip →
      no_proxy_rule host host_ip pattern
  | rule_domain : pattern ≠ bs "*" → ch "/" ∉ pattern → parse_ip pattern = None → host_ip = None →
      trim_matches (ch ".") (trim_start_matches (ch "*") pattern) ≠ [] →
      under_domain host (trim_matches (ch ".") (trim_start_matches (ch "*") pattern)) →
      no_proxy_rule host host_ip pattern.

(** ** Facts *)

Lemma mask_bits w k i : 0 ≤ k ≤ w → 0 ≤ i → Z.testbit (mask w k) i = (k <=? i) && (i <? w).
Proof.
  intros Hk Hi. unfold mask. destruct (Z.ltb_spec i w).
  - rewrite Z.mod_pow2_bits_low, Z.shiftl_spec by lia. rewrite andb_true_r.
    replace (2 ^ w - 1) with (Z.ones w) by (rewrite Z.ones_equiv; lia).
    destruct (Z.leb_spec k i); [rewrite Z.ones_spec_low by lia; done|]. by rewrite Z.testbit_neg_r by lia.
  - rewrite Z.mod_pow2_bits_high by lia. by rewrite andb_false_r.
Qed.

Lemma land_mask w k x : 0 ≤ k ≤ w → 0 ≤ x < 2 ^ w → Z.land x (mask w k) = Z.shiftl (x / 2 ^ k) k.
Proof.
  intros Hk Hx. apply Z.bits_inj'. intros i Hi. rewrite Z.land_spec, mask_bits by lia.
  rewrite Z.shiftl_spec by lia. destruct (Z.leb_spec k i); cbn [andb].
  - rewrite Z.div_pow2_bits by lia. replace (i - k + k) with i by lia.
    destruct (Z.ltb_spec i w); [by rewrite andb_true_r|]. rewrite andb_false_r. symmetry.
    destruct (decide (x = 0)) as [->|]; [apply Z.bits_0|].
    apply Z.bits_above_log2; [lia|]. apply Z.log2_lt_pow2; [lia|].
    assert (2 ^ w ≤ 2 ^ i) by (apply Z.pow_le_mono_r; lia). lia.
  - rewrite andb_false_r. by rewrite Z.testbit_neg_r by lia.
Qed.

Lemma land_mask_eq w n x y : 0 ≤ n ≤ w → 0 ≤ x < 2 ^ w → 0 ≤ y < 2 ^ w →
  (Z.land x (mask w (w - n)) =? Z.land y (mask w (w - n))) = true ↔ same_network w x y n.
Proof.
  intros Hn Hx Hy. rewrite Z.eqb_eq, !land_mask by lia. unfold same_network.
  rewrite !Z.shiftl_mul_pow2 by lia. split; [|by intros ->].
  apply Z.mul_cancel_r. pose proof (Z.pow_pos_nonneg 2 (w - n)). lia.
Qed.

Lemma ip_in_cidr_spec ip net n : wf_ip ip → wf_ip net → 0 ≤ n →
  ip_in_cidr ip net n = true ↔ cidr_covers net n ip.
Proof.
  intros Hi Hn H0. unfold ip_in_cidr, cidr_covers. destruct ip as [a|a], net as [b|b]; try done.
  - destruct Hi as [? ?], Hn as [? ?]. pose proof (v4_bits_range a). pose proof (v4_bits_range b).
    destruct (Z.ltb_spec 32 n); [split; [done|lia]|]. destruct (Z.eqb_spec n 0) as [->|].
    + split; [|done]. intros _. split; [lia|]. unfold same_network. rewrite !Z.div_small by (cbn; naive_solver lia). done.
    + rewrite land_mask_eq by naive_solver lia. naive_solver.
  - destruct Hi as [? ?], Hn as [? ?]. pose proof (v6_bits_range a). pose proof (v6_bits_range b).
    destruct (Z.ltb_spec 128 n); [split; [done|lia]|]. destruct (Z.eqb_spec n 0) as [->|].
    + split; [|done]. intros _. split; [lia|]. unfold same_network. rewrite !Z.div_small by (cbn; naive_solver lia). done.
    + rewrite land_mask_eq by naive_solver lia. naive_solver.
Qed.

Lemma eq_ignore_ascii_case_spec s t : eq_ignore_ascii_case s t = true ↔ to_ascii_lowercase s = to_ascii_lowercase t.
Proof. apply bool_decide_eq_true. Qed.

Lemma lower_dot c : lower c = ch "." ↔ c = ch ".".
Proof. change (ch ".") with 46. unfold lower. destruct ((65 <=? c) && (c <=? 90)) eqn:E; lia. Qed.

Lemma host_matches_suffix_spec host suffix : host_matches_suffix host suffix = true ↔ under_domain host suffix.
Proof.
  unfold host_matches_suffix, under_domain. destruct (Z.eqb_spec (zlen host) (zlen suffix)) as [He|He].
  - rewrite eq_ignore_ascii_case_spec. split; [by left|]. intros [?|[sub H]]; [done|].
    apply (f_equal length) in H. rewrite !length_app, !to_ascii_lowercase_length in H. cbn in H. unfold zlen in He. lia.
  - set (start := zlen host - zlen suffix).
    destruct ((0 <=? start) && (1 <=? start)) eqn:Es; cbn [andb].
    2: { split; [done|]. intros [H|[sub H]]; apply (f_equal length) in H;
         rewrite ?length_app, !to_ascii_lowercase_length in H; cbn in H; unfold start, zlen in *; lia. }
    assert (1 ≤ start) as Hs by lia. clear Es.
    assert (Z.to_nat start = S (Z.to_nat (start - 1))) as Hst by lia. rewrite Hst.
    set (k := Z.to_nat (start - 1)). destruct (bool_decide (host !! k = Some (ch "."))) eqn:Ek.
    + apply bool_decide_eq_true in Ek. rewrite eq_ignore_ascii_case_spec.
      pose proof (take_drop_middle host k _ Ek) as Hh. split.
      * intros H. right. exists (to_ascii_lowercase (take k host)). rewrite <- Hh at 1.
        unfold to_ascii_lowercase in *. rewrite map_app. cbn [map]. rewrite H. done.
      * intros [H|[sub H]].
        { apply (f_equal length) in H. rewrite !to_ascii_lowercase_length in H. unfold zlen in He. lia. }
        rewrite <- Hh in H. unfold to_ascii_lowercase in *. rewrite map_app in H. cbn [map] in H.
        apply (f_equal (drop (length (map lower (take k host))))) in H as H'.
        assert (length sub = length (map lower (take k host))) as Hl.
        { apply (f_equal length) in H. rewrite !length_app in H. cbn in H. rewrite !length_map, length_drop in *.
          unfold start, k, zlen in *. pose proof (lookup_lt_Some _ _ _ Ek). rewrite length_take in *. lia. }
        rewrite drop_app_length in H'. rewrite <- Hl, drop_app_length in H'. by injection H' as ->.
    + apply bool_decide_eq_false in Ek. split; [done|]. intros [H|[sub H]].
      { apply (f_equal length) in H. rewrite !to_ascii_lowercase_length in H. unfold zlen in He. lia. }
      exfalso. apply Ek. assert (length sub = k) as Hl.
      { apply (f_equal length) in H. rewrite !length_app, !to_ascii_lowercase_length in H. cbn in H.
        unfold k, start, zlen in *. lia. }
      apply (f_equal (λ l, l !! k)) in H. rewrite <- Hl, lookup_app_r, Nat.sub_diag in H by lia.
      unfold to_ascii_lowercase in H. rewrite list_lookup_fmap in H. cbn in H. rewrite Hl in H.
      destruct (host !! k) as [c|]; [|done]. cbn in H. injection H as H. f_equal. by apply lower_dot.
Qed.

Lemma parse_u8_nonneg s n : parse_u8 s = Some n → 0 ≤ n.
Proof. intros H%parse_unsigned_range. lia. Qed.

Lemma pattern_matches_spec host host_ip pattern :
  (∀ ip, host_ip = Some ip → wf_ip ip) →
  pattern_matches host host_ip pattern = true ↔ no_proxy_rule host host_ip (trim pattern).
Proof.
  intros Hip. unfold pattern_matches. set (p := trim pattern). clearbody p.
  destruct (bool_decide (p = [])) eqn:E0.
  { apply bool_decide_eq_true in E0 as ->. split; [done|].
    intros [H|net pre ? ? ? H|ip _ H|_ _ _ _ H]; try done; by destruct net. }
  destruct (bool_decide (p = bs "*")) eqn:E1.
  { apply bool_decide_eq_true in E1. split; [intros _; by apply rule_star|done]. }
  apply bool_decide_eq_false in E0, E1.
  destruct (split_once (ch "/") p) as [[net prefix]|] eqn:Es.
  - apply split_once_spec in Es as [Hp Hn]. split.
    + destruct host_ip as [ip|]; [|done]. destruct (parse_ip (trim net)) as [net_ip|] eqn:En; [|done].
      destruct (parse_u8 (trim prefix)) as [n|] eqn:Eu; [|done]. intros H.
      apply ip_in_cidr_spec in H; [|by apply Hip|by eapply parse_ip_wf|by eapply parse_u8_nonneg].
      eapply (rule_cidr _ _ _ net prefix net_ip ip n); try done.
    + assert (ch "/" ∈ p) as Hin by (rewrite Hp; set_solver).
      intros [?|net' prefix' net_ip ip n Hp' Hn' En Eu -> H|? ? ?|? ? ?]; try done.
      assert (net' = net ∧ prefix' = prefix) as [-> ->].
      { pose proof (proj2 (split_once_spec (ch "/") p net prefix) (conj Hp Hn)) as E.
        pose proof (proj2 (split_once_spec (ch "/") p net' prefix') (conj Hp' Hn')) as E'. by rewrite E in E'; injection E' as -> ->. }
      rewrite En, Eu. apply ip_in_cidr_spec; [by apply Hip|by eapply parse_ip_wf|by eapply parse_u8_nonneg|done].
  - apply split_once_none in Es. destruct (parse_ip p) as [pip|] eqn:Ep.
    + rewrite bool_decide_eq_true. split; [intros H; by eapply rule_ip|].
      intros [?|net' prefix' ? ? ? Hp'|ip' ? ? ?|? ? ? ?]; try congruence.
      exfalso. apply Es. rewrite Hp'. set_solver.
    + destruct host_ip as [hip|].
      * rewrite bool_decide_true by eauto. split; [done|].
        intros [?|net' prefix' ? ? ? Hp'|ip' ? ? ?|? ? ? ?]; try congruence.
        exfalso. apply Es. rewrite Hp'. set_solver.
      * rewrite bool_decide_false by (by intros [? ?]). rewrite andb_true_iff, negb_true_iff, bool_decide_eq_false.
        rewrite host_matches_suffix_spec. split; [intros [? ?]; by apply rule_domain|].
        intros [?|net' prefix' ? ? ? Hp'|ip' ? ? ?|? ? ? ?]; try congruence. done.
Qed.

(** ** Properties *)

(** C33: a host bypasses the proxy exactly when it is not empty and some
    pattern matches it under the NO_PROXY rules: `*`; a CIDR block of the same
    family whose leading prefix bits agree with the address; the address itself;
    or, for names only, the domain or a name under it, ignoring case. *)
Theorem host_bypasses_proxy_spec (host : bytes) (patterns : list bytes) :
  host_bypasses_proxy host patterns = true ↔
  host ≠ [] ∧ ∃ p, p ∈ patterns ∧
    no_proxy_rule (trim_end_matches (ch ".") (strip_brackets host)) (parse_ip (strip_brackets host)) (trim p).
Proof.
  unfold host_bypasses_proxy. destruct (bool_decide (host = [])) eqn:E.
  { apply bool_decide_eq_true in E. naive_solver. }
  apply bool_decide_eq_false in E. rewrite existsb_exists. setoid_rewrite list_elem_of_In.
  setoid_rewrite pattern_matches_spec; [naive_solver|]. intros ip. apply parse_ip_wf.
Qed.

(** A request goes through the configured proxy exactly when there is
    one and its host does not bypass it, and a configuration whose [no_proxy]
    would silently do nothing, because the proxy is absent or blank, is the only
    one rejected. *)
Theorem proxy_selection (c : RequestConfig) (host p : bytes) :
  (effective_proxy c host = Some p ↔
     c.(proxy) = Some p ∧ host_bypasses_proxy host c.(no_proxy) = false) ∧
  (validate_proxy c = Ok tt ↔
     c.(no_proxy) = [] ∨ ∃ q, c.(proxy) = Some q ∧ trim q ≠ []) ∧
  (validate_proxy c = Ok tt → ∀ h, effective_proxy c h ≠ c.(proxy) → ∃ q, c.(proxy) = Some q ∧ trim q ≠ []).
Proof.
  unfold effective_proxy, validate_proxy. destruct (no_proxy c) as [|x l] eqn:Hn.
  - rewrite (bool_decide_true (@nil bytes = [])) by done. cbn [negb andb]. split_and!.
    + destruct (proxy c) as [q|]; cbn; [|naive_solver]. case_match; naive_solver.
    + naive_solver.
    + intros _ h Hne. exfalso. apply Hne. destruct (proxy c) as [q|]; [|done]. cbn.
      unfold host_bypasses_proxy. by destruct (bool_decide (h = [])).
  - rewrite (bool_decide_false (x :: l = [])) by done. cbn [negb andb].
    assert ((if negb match proxy c with Some p => negb (bool_decide (trim p = [])) | None => false end
             then Err (bs "no_proxy is set but no proxy is configured; no_proxy only has an effect when a proxy is also set")
             else Ok tt) = Ok tt ↔ ∃ q, proxy c = Some q ∧ trim q ≠ []) as Hv.
    { destruct (proxy c) as [q|]; cbn; [|naive_solver].
      destruct (bool_decide (trim q = [])) eqn:Eq; cbn;
        [apply bool_decide_eq_true in Eq|apply bool_decide_eq_false in Eq]; naive_solver. }
    split_and!.
    + destruct (proxy c) as [q|]; cbn [mbind option_bind]; [|naive_solver].
      destruct (host_bypasses_proxy host (x :: l)); naive_solver.
    + rewrite Hv. naive_solver.
    + rewrite Hv. naive_solver.
Qed.

Lemma proxy_selection_witness :
  let c := mkConfig (bs "http://a.corp/") None None None None None None None None None
    (Some (bs "http://p:8080")) [bs "10.0.0.0/8"; bs "*.corp"] None None None None None None None None None None 0 in
  validate_proxy c = Ok tt ∧ effective_proxy c (bs "a.Corp.") = None ∧ effective_proxy c (bs "10.2.3.4") = None ∧
  effective_proxy c (bs "acorp") = Some (bs "http://p:8080") ∧
  ∃ q, c.(proxy) = Some q ∧ trim q ≠ [].
Proof.
  intros c. split_and!; [reflexivity..|].
  destruct (proxy_selection c (bs "x") (bs "y")) as (_ & _ & H).
  apply (H eq_refl (bs "a.corp")). vm_compute. discriminate.
Defined.
