(* ===== verification/ClientError.v ===== *)
(** * Client errors and the debug log (src/client/mod.rs, src/debug.rs) *)
From S2P Require Import Prelude.

Inductive ErrorKind :=
  | Connection
  | Timeout
  | Tls
  | InvalidUrl
  | TooManyRedirects
  | Status (status : Z)
  | Other.

#[export] Instance ErrorKind_eq_dec : EqDecision ErrorKind.
Proof. solve_decision. Defined.

Definition is_retryable (k : ErrorKind) : bool :=
  match k with
  | Connection => true
  | Status s => s =? 429
  | _ => false
  end.

Record ClientError := mkError { message : bytes; kind : ErrorKind }.

#[export] Instance ClientError_eq_dec : EqDecision ClientError.
Proof. solve_decision. Defined.

(** The constructors, one per kind. *)
Definition err_connection (m : bytes) : ClientError := mkError m Connection.
Definition err_timeout (m : bytes) : ClientError := mkError m Timeout.
Definition err_tls (m : bytes) : ClientError := mkError m Tls.
Definition err_invalid_url (m : bytes) : ClientError := mkError m InvalidUrl.
Definition err_too_many_redirects (m : bytes) : ClientError := mkError m TooManyRedirects.
Definition err_status (s : Z) (m : bytes) : ClientError := mkError m (Status s).
Definition err_other (m : bytes) : ClientError := mkError m Other.

(** [Display]. *)
Definition fmt (e : ClientError) : bytes := e.(message).

(** ** Debug log *)

(** The collected messages and what went to stderr. *)
Record DebugLog := mkLog { messages : list bytes; stderr : list bytes }.
Definition new_debug_log : DebugLog := mkLog [] [].

Definition debug_record (log : DebugLog) (verbosity level : Z) (msg : bytes) : DebugLog :=
  mkLog (log.(messages) ++ [msg])
        (if bool_decide (verbosity >= level) then log.(stderr) ++ [bs "[blasthttp] " ++ msg] else log.(stderr)).
