(* ===== verification/Batch.v ===== *)
(** * The rate limiter (src/batch.rs)

    The rate limiter's lock-free cursor as a step relation over any number of
    workers and any interleaving of their loads, clock reads and
    compare-exchanges (spurious failures included), and the choice of limiter.  The
    drivers are in [Dispatch], the two together in [Paced]. *)
From Stdlib Require Import Floats.SpecFloat.
From S2P Require Import Prelude ClientError.

(** ** Rate limiter: the interval *)

(** IEEE binary64 arithmetic from the Standard Library's specification floats. *)
Abbreviation f64 := spec_float.
Definition f64_div : f64 → f64 → f64 := SFdiv 53 1024.
Definition f64_of_Z (z : Z) : f64 := binary_normalize 53 1024 z 0 false.
Definition f64_pos (x : f64) : bool :=
  match x with S754_infinity false => true | S754_finite false _ _ => true | _ => false end.

(** The magnitude [m * 2^e] rounded to an integer, halves away from zero. *)
Definition round_half_up (m : positive) (e : Z) : Z :=
  if 0 <=? e then Zpos m * 2 ^ e else (Zpos m + 2 ^ (- e - 1)) / 2 ^ (- e).

(** [x.round().max(1.0) as u64]. *)
Definition round_max1_u64 (x : f64) : Z :=
  match x with
  | S754_infinity false => u64_max
  | S754_finite false m e => Z.min u64_max (Z.max 1 (round_half_up m e))
  | _ => 1
  end.

Record RateLimiter := mkLimiter { interval_ns : Z }.

(** The [assert!] on the rate is the panic. *)
Definition RateLimiter_new (requests_per_second : f64) : exec Empty_set RateLimiter :=
  if f64_pos requests_per_second then
    Ok (mkLimiter (round_max1_u64 (f64_div (f64_of_Z 1000000000) requests_per_second)))
  else Panic.

Definition interval (l : RateLimiter) : Z := l.(interval_ns).

(** [Duration::from_secs_f64] in nanoseconds, ties to even; negative, NaN and
    out-of-range arguments panic. *)
Definition round_half_even (num den : Z) : Z :=
  let q := num / den in
  let r := num mod den in
  if 2 * r <? den then q else if den <? 2 * r then q + 1 else if Z.even q then q else q + 1.

Definition from_secs_f64 (x : f64) : exec Empty_set Z :=
  match x with
  | S754_zero _ => Ok 0
  | S754_finite false m e =>
      let ns := if 0 <=? e then Zpos m * 2 ^ e * 1000000000
                else round_half_even (Zpos m * 1000000000) (2 ^ (- e)) in
      if ns <? 2 ^ 64 * 1000000000 then Ok ns else Panic
  | _ => Panic
  end.

(** The shared limiter is an [Arc]: keeping it keeps its cursor, so the result says
    which limiter paces the batch. *)
Inductive Picked := Shared (l : RateLimiter) | Fresh (l : RateLimiter) | NoLimiter.

Definition merge_limiters (shared : option RateLimiter) (per_call : option f64) : exec Empty_set Picked :=
  match shared, per_call with
  | Some shared, Some per_call_rps =>
      let shared_interval := interval shared in
      per_call_interval ← from_secs_f64 (f64_div (f64_of_Z 1) per_call_rps);
      if bool_decide (per_call_interval > shared_interval) then
        l ← RateLimiter_new per_call_rps; Ok (Fresh l)
      else Ok (Shared shared)
  | Some shared, None => Ok (Shared shared)
  | None, Some rps => l ← RateLimiter_new rps; Ok (Fresh l)
  | None, None => Ok NoLimiter
  end.

Example interval_1000rps : RateLimiter_new (f64_of_Z 1000) = Ok (mkLimiter 1000000).
Proof. vm_compute. reflexivity. Qed.
Example interval_3rps : RateLimiter_new (f64_of_Z 3) = Ok (mkLimiter 333333333).
Proof. vm_compute. reflexivity. Qed.
Example merge_picks_slower :
  merge_limiters (Some (mkLimiter 1000000)) (Some (f64_of_Z 10)) = Ok (Fresh (mkLimiter 100000000)).
Proof. vm_compute. reflexivity. Qed.

(** ** Rate limiter: the cursor *)

Definition saturating_add (x y : Z) : Z := Z.min u64_max (x + y).
Definition SUB_MS_SKIP_THRESHOLD_NS : Z := 1000000.

(** How long [acquire] sleeps once it owns [slot_ns] and has re-read the clock. *)
Definition acquire_sleep (slot_ns now_ns : Z) : Z :=
  if slot_ns <=? now_ns then 0
  else
    let deficit_ns := slot_ns - now_ns in
    if SUB_MS_SKIP_THRESHOLD_NS <=? deficit_ns then deficit_ns else 0.

(** Where a worker stands in [acquire]. *)
Inductive pc :=
  | AtLoad                              (* about to load the cursor *)
  | AtClock (current : Z)               (* loaded, about to read the clock *)
  | AtCas (current now_ns : Z)          (* about to compare-exchange *)
  | AtWait (slot_ns : Z)                (* owns a slot, about to re-read the clock *)
  | Returned (slot_ns returned_at : Z). (* [acquire] returned at this time *)

Record limiter_state := mkLS {
  next_ns : Z;          (* the atomic cursor *)
  clock : Z;            (* elapsed nanoseconds *)
  workers : nat → pc;   (* one entry per call of [acquire] *)
  granted : list (nat * Z)  (* ghost: who was handed which slot, newest first *)
}.

Definition upd {A} (f : nat → A) (t : nat) (x : A) : nat → A := λ u, if Nat.eqb u t then x else f u.

Definition limiter_init : limiter_state := mkLS 0 0 (λ _, AtLoad) [].

Inductive limiter_step (l : RateLimiter) : limiter_state → limiter_state → Prop :=
  | step_tick s d : 0 ≤ d →
      limiter_step l s (mkLS s.(next_ns) (s.(clock) + d) s.(workers) s.(granted))
  | step_load s t : s.(workers) t = AtLoad →
      limiter_step l s (mkLS s.(next_ns) s.(clock) (upd s.(workers) t (AtClock s.(next_ns))) s.(granted))
  | step_clock s t current : s.(workers) t = AtClock current →
      limiter_step l s (mkLS s.(next_ns) s.(clock) (upd s.(workers) t (AtCas current (u64 s.(clock)))) s.(granted))
  | step_cas_ok s t current now_ns : s.(workers) t = AtCas current now_ns → s.(next_ns) = current →
      let base := Z.max current now_ns in
      limiter_step l s (mkLS (saturating_add base l.(interval_ns)) s.(clock)
                          (upd s.(workers) t (AtWait base)) ((t, base) :: s.(granted)))
  | step_cas_fail s t current now_ns : s.(workers) t = AtCas current now_ns →
      limiter_step l s (mkLS s.(next_ns) s.(clock) (upd s.(workers) t AtLoad) s.(granted))
  | step_wait s t slot : s.(workers) t = AtWait slot →
      limiter_step l s (mkLS s.(next_ns) s.(clock)
        (upd s.(workers) t (Returned slot (s.(clock) + acquire_sleep slot (u64 s.(clock))))) s.(granted)).

(** *** Invariant *)

(** Newest first: each slot is an interval after the previous one, until the cursor
    saturates. *)
Fixpoint spaced (i : Z) (slots : list Z) : Prop :=
  match slots with
  | s1 :: ((s0 :: _) as rest) => Z.min u64_max (s0 + i) ≤ s1 ∧ spaced i rest
  | _ => True
  end.

(** What is known of a worker at each point of [acquire]. *)
Definition worker_ok (granted : list (nat * Z)) (clock : Z) (t : nat) (p : pc) : Prop :=
  match p with
  | AtLoad => t ∉ granted.*1
  | AtClock current => t ∉ granted.*1 ∧ 0 ≤ current ≤ u64_max
  | AtCas current now_ns => t ∉ granted.*1 ∧ 0 ≤ current ≤ u64_max ∧ 0 ≤ now_ns ≤ u64_max
  | AtWait slot => (t, slot) ∈ granted
  | Returned slot at_ => (t, slot) ∈ granted ∧
      (clock < 2 ^ 64 → slot - SUB_MS_SKIP_THRESHOLD_NS < at_ ∧ 0 ≤ at_)
  end.

Definition limiter_inv (l : RateLimiter) (s : limiter_state) : Prop :=
  0 ≤ s.(next_ns) ≤ u64_max ∧ 0 ≤ s.(clock) ∧
  spaced l.(interval_ns) s.(granted).*2 ∧ Forall (λ x, 0 ≤ x ≤ u64_max) s.(granted).*2 ∧
  NoDup s.(granted).*1 ∧
  match s.(granted) with
  | (_, last) :: _ => s.(next_ns) = saturating_add last l.(interval_ns)
  | [] => s.(next_ns) = 0
  end ∧
  (∀ t, worker_ok s.(granted) s.(clock) t (s.(workers) t)).

Lemma u64_range x : 0 ≤ u64 x ≤ u64_max.
Proof. unfold u64, u64_max. pose proof (Z.mod_pos_bound x (2 ^ 64)). lia. Qed.

Lemma upd_same {A} (f : nat → A) t x : upd f t x t = x.
Proof. unfold upd. by rewrite Nat.eqb_refl. Qed.
Lemma upd_other {A} (f : nat → A) t x u : u ≠ t → upd f t x u = f u.
Proof. intros H. unfold upd. by destruct (Nat.eqb_spec u t). Qed.

(** Changing one worker. *)
Lemma workers_upd (P : nat → pc → Prop) f t x :
  P t x → (∀ u, P u (f u)) → ∀ u, P u (upd f t x u).
Proof. intros Hx Hf u. destruct (decide (u = t)) as [->|Hu]; [by rewrite upd_same|by rewrite upd_other]. Qed.

Lemma limiter_inv_step l s s' : 1 ≤ l.(interval_ns) ≤ u64_max →
  limiter_step l s s' → limiter_inv l s → limiter_inv l s'.
Proof.
  intros Hi Hs (Hn & Hc & Hsp & Hf & Hnd & Hlast & Hw).
  destruct Hs as [s d Hd|s t Ht|s t cur Ht|s t cur now Ht Hcur base|s t cur now Ht|s t slot Ht];
    unfold limiter_inv; cbn [next_ns clock workers granted].
  - split_and!; try done; [lia..|]. intros t. specialize (Hw t). unfold worker_ok in *.
    destruct (workers s t) as [| | | |slot at_]; try done.
    destruct Hw as [? Hw]. split; [done|]. intros. apply Hw. lia.
  - pose proof (Hw t) as Hwt. rewrite Ht in Hwt; cbn in Hwt. split_and!; try done; [lia..|].
    apply (workers_upd (worker_ok s.(granted) s.(clock))); [by split|done].
  - pose proof (Hw t) as Hwt. rewrite Ht in Hwt; cbn in Hwt. split_and!; try done; [lia..|].
    apply (workers_upd (worker_ok s.(granted) s.(clock))); [|done].
    destruct Hwt as [? ?]. pose proof (u64_range (clock s)). cbn; split_and!; [done|lia..].
  - pose proof (Hw t) as Hwt. rewrite Ht in Hwt; cbn in Hwt. destruct Hwt as (Hnt & Hcr & Hnr).
    assert (0 ≤ base ≤ u64_max) as Hb by (unfold base; lia).
    assert (cur ≤ base) as Hcb by (unfold base; lia). unfold saturating_add in *.
    split_and!; try done; try lia.
    + cbn [fmap list_fmap]. change (snd (t, base)) with base. destruct (granted s) as [|[t0 s0] g]; [done|].
      cbn [spaced fmap list_fmap snd] in *. split; [lia|done].
    + by apply Forall_cons.
    + cbn. by apply NoDup_cons.
    + intros u. destruct (decide (u = t)) as [->|Hu]; [rewrite upd_same; set_solver|].
      rewrite upd_other by done. specialize (Hw u). unfold worker_ok in *. rewrite fmap_cons. cbn [fst].
      destruct (workers s u); rewrite ?not_elem_of_cons; [tauto|tauto|tauto|by apply list_elem_of_further|].
      destruct Hw. split; [by apply list_elem_of_further|done].
  - pose proof (Hw t) as Hwt. rewrite Ht in Hwt; cbn in Hwt. split_and!; try done; [lia..|].
    apply (workers_upd (worker_ok s.(granted) s.(clock))); [|done].
    by destruct Hwt.
  - pose proof (Hw t) as Hwt. rewrite Ht in Hwt; cbn in Hwt. split_and!; try done; [lia..|].
    apply (workers_upd (worker_ok s.(granted) s.(clock))); [|done].
    split; [done|]. intros Hcl. rewrite (u64_small (clock s)) by lia. unfold acquire_sleep, SUB_MS_SKIP_THRESHOLD_NS.
    destruct (Z.leb_spec slot (clock s)); [lia|].
    destruct (Z.leb_spec 1000000 (slot - clock s)); lia.
Qed.

Lemma limiter_inv_init l : limiter_inv l limiter_init.
Proof. split_and!; cbn; try done; try constructor. set_solver. Qed.

Definition limiter_reach (l : RateLimiter) : limiter_state → Prop := rtc (limiter_step l) limiter_init.

Lemma limiter_reach_inv l s : 1 ≤ l.(interval_ns) ≤ u64_max → limiter_reach l s → limiter_inv l s.
Proof.
  intros Hi. apply rtc_invariant; [apply limiter_inv_init|]. intros a b. by apply limiter_inv_step.
Qed.

(** *** Counting slots in a window *)

Definition in_window (a w : Z) (s : Z) : bool := (a <=? s) && (s <? a + w).

Lemma spaced_tail i x l : spaced i (x :: l) → spaced i l.
Proof. destruct l; [done|]. cbn. tauto. Qed.

(** Below the saturation point slots decrease along the list. *)
Lemma spaced_below i x l y : 0 ≤ i → spaced i (x :: l) → x < u64_max → y ∈ l → y + i ≤ x.
Proof.
  intros Hi. revert x. induction l as [|z l IH]; intros x Hs Hx Hy; [set_solver|].
  cbn [spaced] in Hs. destruct Hs as [Hz Hs]. apply elem_of_cons in Hy as [->|Hy]; [lia|].
  specialize (IH z Hs ltac:(lia) Hy). lia.
Qed.

Lemma window_count i a w l : 0 ≤ i → spaced i l → a + w ≤ u64_max →
  let inside := List.filter (in_window a w) l in
  inside = [] ∨ (zlen inside - 1) * i + hd 0 (rev inside) ≤ hd 0 inside ∧ in_window a w (hd 0 inside) = true
    ∧ in_window a w (hd 0 (rev inside)) = true.
Proof.
  intros Hi. induction l as [|x l IH]; intros Hs Hm; [by left|]. cbn [List.filter].
  specialize (IH (spaced_tail _ _ _ Hs) Hm). destruct (in_window a w x) eqn:Hx; [|exact IH]. right.
  destruct IH as [Hnil|(Hle & Hhd & Hlast)].
  - rewrite Hnil. cbn. split_and!; [|done|done]. change (zlen [x]) with 1. lia.
  - destruct (List.filter (in_window a w) l) as [|y inside] eqn:Ef; [done|].
    assert (y ∈ l) as Hy.
    { apply list_elem_of_In. eapply (proj1 (List.filter_In (in_window a w) y l)). rewrite Ef. by left. }
    assert (x < u64_max) as Hxm by (unfold in_window in Hx; lia).
    pose proof (spaced_below i x l y Hi Hs Hxm Hy) as Hyx. cbn [hd] in Hle, Hhd |- *.
    assert (hd 0 (rev (x :: y :: inside)) = hd 0 (rev (y :: inside))) as ->.
    { cbn [rev]. destruct (rev inside ++ [y]) as [|z r] eqn:E; [by destruct (rev inside)|done]. }
    split_and!; [|done|done]. rewrite zlen_cons. lia.
Qed.

Lemma filter_snd_length (p : Z → bool) (g : list (nat * Z)) :
  length (List.filter p g.*2) = length (List.filter (λ e, p e.2) g).
Proof. induction g as [|[t s] g IH]; [done|]. cbn. destruct (p s); cbn; by rewrite IH. Qed.

(** Distinct workers whose slots satisfy [p] are no more than such slots. *)
Lemma workers_counted (p : Z → bool) (g : list (nat * Z)) (ts : list nat) :
  NoDup ts → (∀ t, t ∈ ts → ∃ slot, (t, slot) ∈ g ∧ p slot = true) →
  zlen ts ≤ zlen (List.filter p g.*2).
Proof.
  intros Hnd Hts. unfold zlen. rewrite filter_snd_length.
  assert (length ts ≤ length (List.filter (λ e, p e.2) g).*1)%nat as H.
  { apply NoDup_incl_length; [by apply NoDup_ListNoDup|]. intros t Ht. apply list_elem_of_In in Ht.
    destruct (Hts t Ht) as (slot & Hin & Hp). apply in_map_iff. exists (t, slot). split; [done|].
    apply List.filter_In. split; [by apply list_elem_of_In|done]. }
  rewrite length_fmap in H. lia.
Qed.

(** Under every interleaving of any number of concurrent [acquire] calls,
    spurious compare-exchange failures included, no slot is handed out twice to
    one call, consecutive slots are at least one interval apart (until the cursor
    saturates at the maximum), and any window of [w] nanoseconds below the
    saturation point holds at most [(w - 1) / interval + 1] of them. *)
Theorem limiter_slots_spaced (l : RateLimiter) (s : limiter_state) (a w : Z) :
  1 ≤ l.(interval_ns) ≤ u64_max → limiter_reach l s → 1 ≤ w → a + w ≤ u64_max →
  NoDup s.(granted).*1 ∧ spaced l.(interval_ns) s.(granted).*2 ∧
  (zlen (List.filter (in_window a w) s.(granted).*2) - 1) * l.(interval_ns) < w.
Proof.
  intros Hi Hr Hw Ha. pose proof (limiter_reach_inv l s Hi Hr) as (_ & _ & Hsp & _ & Hnd & _).
  split_and!; [done..|]. pose proof (window_count l.(interval_ns) a w s.(granted).*2 ltac:(lia) Hsp Ha) as Hc.
  cbn zeta in Hc. destruct (List.filter (in_window a w) s.(granted).*2) as [|x l0]; [rewrite zlen_nil; lia|].
  destruct Hc as [Hc|(H1 & H2 & H3)]; [done|]. unfold in_window in *. lia.
Qed.

(** The aggregate rate is capped although sub-millisecond sleeps are skipped:
    if [n] calls of [acquire] have returned by time [deadline], then
    [(n - 1) * interval < deadline + 1ms]. *)
Theorem limiter_rate_capped (l : RateLimiter) (s : limiter_state) (ts : list nat) (deadline : Z) :
  1 ≤ l.(interval_ns) ≤ u64_max → limiter_reach l s → s.(clock) < 2 ^ 64 →
  NoDup ts → 0 ≤ deadline → deadline + SUB_MS_SKIP_THRESHOLD_NS ≤ u64_max →
  (∀ t, t ∈ ts → ∃ slot at_, s.(workers) t = Returned slot at_ ∧ at_ ≤ deadline) →
  (zlen ts - 1) * l.(interval_ns) < deadline + SUB_MS_SKIP_THRESHOLD_NS.
Proof.
  intros Hi Hr Hcl Hnd Hd0 Hd Hts. pose proof (limiter_reach_inv l s Hi Hr) as (_ & _ & Hsp & Hf & _ & _ & Hw).
  pose proof (window_count l.(interval_ns) 0 (deadline + SUB_MS_SKIP_THRESHOLD_NS) s.(granted).*2
    ltac:(lia) Hsp ltac:(lia)) as Hc. cbn zeta in Hc.
  assert (zlen ts ≤ zlen (List.filter (in_window 0 (deadline + SUB_MS_SKIP_THRESHOLD_NS)) s.(granted).*2)) as Hn.
  { apply workers_counted; [done|]. intros t Ht. destruct (Hts t Ht) as (slot & at_ & He & Hle).
    specialize (Hw t). rewrite He in Hw. destruct Hw as [Hin Hw]. exists slot. split; [done|].
    rewrite Forall_forall in Hf. assert (slot ∈ s.(granted).*2) as Hs by (apply list_elem_of_fmap; by exists (t, slot)).
    specialize (Hf slot Hs). unfold in_window. specialize (Hw Hcl). lia. }
  unfold SUB_MS_SKIP_THRESHOLD_NS in *.
  destruct (List.filter _ s.(granted).*2) as [|x l0]; [rewrite zlen_nil in Hn; pose proof (zlen_nonneg ts); nia|].
  destruct Hc as [Hc|(H1 & H2 & H3)]; [done|]. unfold in_window in *. pose proof (zlen_nonneg ts). nia.
Qed.

(** Two calls at time zero, at 1000 requests per second. *)
Definition two_calls : limiter_state :=
  mkLS 2000000 0
    (upd (upd (upd (upd (upd (upd (upd (upd (λ _, AtLoad) 0 (AtClock 0)) 0 (AtCas 0 0)) 0 (AtWait 0))
      0 (Returned 0 0)) 1 (AtClock 1000000)) 1 (AtCas 1000000 0)) 1 (AtWait 1000000))
      1 (Returned 1000000 1000000)) [(1%nat, 1000000); (0%nat, 0)].

Lemma two_calls_reach : limiter_reach (mkLimiter 1000000) two_calls.
Proof.
  eapply rtc_l; [eapply (step_load _ _ 0); reflexivity|].
  eapply rtc_l; [eapply (step_clock _ _ 0 0); reflexivity|].
  eapply rtc_l; [eapply (step_cas_ok _ _ 0 0 0); reflexivity|].
  eapply rtc_l; [eapply (step_wait _ _ 0 0); reflexivity|].
  eapply rtc_l; [eapply (step_load _ _ 1); reflexivity|].
  eapply rtc_l; [eapply (step_clock _ _ 1 1000000); reflexivity|].
  eapply rtc_l; [eapply (step_cas_ok _ _ 1 1000000 0); reflexivity|].
  eapply rtc_l; [eapply (step_wait _ _ 1 1000000); reflexivity|].
  apply rtc_refl.
Qed.

Lemma limiter_slots_spaced_witness :
  NoDup two_calls.(granted).*1 ∧ spaced 1000000 two_calls.(granted).*2 ∧
  (zlen (List.filter (in_window 0 1000001) two_calls.(granted).*2) - 1) * 1000000 < 1000001.
Proof.
  apply (limiter_slots_spaced (mkLimiter 1000000) two_calls 0 1000001);
    [unfold u64_max; cbn; lia|apply two_calls_reach|lia|unfold u64_max; lia].
Defined.

Lemma limiter_rate_capped_witness : (zlen [0%nat; 1%nat] - 1) * 1000000 < 1000000 + SUB_MS_SKIP_THRESHOLD_NS.
Proof.
  apply (limiter_rate_capped (mkLimiter 1000000) two_calls [0%nat; 1%nat] 1000000).
  - unfold u64_max; cbn; lia.
  - apply two_calls_reach.
  - cbn; lia.
  - repeat constructor; set_solver.
  - lia.
  - unfold SUB_MS_SKIP_THRESHOLD_NS, u64_max; lia.
  - intros t Ht. apply elem_of_cons in Ht as [->|Ht]; [exists 0, 0; split; [reflexivity|lia]|].
    apply list_elem_of_singleton in Ht as ->. exists 1000000, 1000000. split; [reflexivity|lia].
Defined.

(** A limiter's interval is always a positive 64-bit number of
    nanoseconds, and a limiter is created for exactly the positive rates; every
    other rate, NaN included, panics. *)
Theorem limiter_interval_positive (rps : f64) :
  match RateLimiter_new rps with
  | Ok l => f64_pos rps = true ∧ 1 ≤ interval l ≤ u64_max
  | Err _ => False
  | Panic => f64_pos rps = false
  end.
Proof.
  unfold RateLimiter_new. destruct (f64_pos rps); [|done]. split; [done|]. cbn [interval interval_ns].
  generalize (f64_div (f64_of_Z 1000000000) rps). intros x. unfold interval, round_max1_u64. cbn [interval_ns].
  destruct x as [?|[]| |[] m e]; unfold u64_max in *; lia.
Qed.

Lemma limiter_new_ok rps l : RateLimiter_new rps = Ok l → 1 ≤ interval_ns l ≤ u64_max.
Proof. intros Hl. pose proof (limiter_interval_positive rps) as H. rewrite Hl in H. by destruct H. Qed.

(** A limiter that a batch prefers to the shared one. *)
Definition stricter (l l' : RateLimiter) : Prop :=
  ∃ rps per, RateLimiter_new rps = Ok l' ∧ from_secs_f64 (f64_div (f64_of_Z 1) rps) = Ok per ∧ interval l < per.

Lemma merge_spec shared rate p : merge_limiters shared rate = Ok p →
  match p with
  | Shared l => shared = Some l
  | Fresh l' => 1 ≤ interval_ns l' ≤ u64_max ∧ ∀ l, shared = Some l → stricter l l'
  | NoLimiter => shared = None
  end.
Proof.
  unfold merge_limiters. destruct shared as [l|], rate as [rps|]; intros Hm; inv_bind; try done.
  - case_bool_decide as Hper; inv_bind; [|done]. split; [by eapply limiter_new_ok|].
    intros ? [= <-]. exists rps, r. split_and!; [done|done|lia].
  - split; [by eapply limiter_new_ok|done].
Qed.

(** A worker that returned from [acquire] stays so. *)
Lemma limiter_step_returned l ls ls' t slot ret : limiter_step l ls ls' →
  workers ls t = Returned slot ret → workers ls' t = Returned slot ret.
Proof.
  intros Hs Ht. destruct Hs as [ls d Hd|ls u Hu|ls u c Hu|ls u c n Hu Hc base|ls u c n Hu|ls u sl Hu]; cbn; [done|..];
    (rewrite upd_other; [done|congruence]).
Qed.
