(* ===== verification/Dispatch.v ===== *)
(** * Batch drivers (src/batch.rs: send_batch, send_batch_stream)

    Each request runs as its own task under a semaphore.  The drivers are step
    relations: any interleaving of dispatches, starts and completions.  The
    client's [send] is an interface: a relation between a configuration and the
    outcomes it may have (a panic is an outcome of the task).  The limiter only
    delays a dispatch, which may happen at any time here. *)
From S2P Require Import Prelude ClientError.

(** What the drivers use of [HttpClient]. *)
Class HttpClient (Config Response : Type) := {
  url_of : Config → bytes;
  sends : Config → exec ClientError Response → Prop
}.

Record BatchResult (Response : Type) := mkResult { url : bytes; result : exec ClientError Response }.
Arguments mkResult {Response}.
Arguments url {Response}.
Arguments result {Response}.

Section batch.
Context {Config Response : Type} `{HttpClient Config Response}.
(** [format!("task panicked: {}", e)] of tokio's [JoinError]. *)
Context (task_panicked : bytes).

Inductive task := Waiting | Running | Finished (o : exec ClientError Response).

Definition is_running (t : Config * task) : bool := match t.2 with Running => true | _ => false end.
Definition is_finished (t : Config * task) : bool := match t.2 with Finished _ => true | _ => false end.

Record batch_state := mkBS { todo : list Config; tasks : list (Config * task); permits : Z }.

Definition running (l : list (Config * task)) : Z := zlen (List.filter is_running l).

(** *** send_batch: spawn everything, acquire a permit inside the task *)

Definition send_batch_init (configs : list Config) (concurrency : Z) : batch_state :=
  mkBS configs [] concurrency.

Inductive send_batch_step : batch_state → batch_state → Prop :=
  | batch_dispatch c rest l p :
      send_batch_step (mkBS (c :: rest) l p) (mkBS rest (l ++ [(c, Waiting)]) p)
  | batch_start td l1 c l2 p : 0 < p →
      send_batch_step (mkBS td (l1 ++ (c, Waiting) :: l2) p) (mkBS td (l1 ++ (c, Running) :: l2) (p - 1))
  | batch_finish td l1 c l2 p o : sends c o →
      send_batch_step (mkBS td (l1 ++ (c, Running) :: l2) p) (mkBS td (l1 ++ (c, Finished o) :: l2) (p + 1)).

(** [handle.await] of each task in dispatch order. *)
Definition join_result (t : Config * task) : BatchResult Response :=
  match t with
  | (c, Finished Panic) => mkResult (bs "<unknown>") (Err (err_other task_panicked))
  | (c, Finished o) => mkResult (url_of c) o
  | (c, _) => mkResult (url_of c) Panic
  end.

Definition all_finished (s : batch_state) : bool :=
  bool_decide (length s.(todo) = 0%nat) && forallb is_finished s.(tasks).

Definition send_batch_results (s : batch_state) : option (list (BatchResult Response)) :=
  if all_finished s then Some (map join_result s.(tasks)) else None.

Definition send_batch_reach (configs : list Config) (concurrency : Z) : batch_state → Prop :=
  rtc send_batch_step (send_batch_init configs concurrency).

(** *** send_batch_stream: acquire a permit, then spawn; results in completion order *)

Record stream_state := mkSS { base : batch_state; channel : list (BatchResult Response) }.

Definition stream_init (configs : list Config) (concurrency : Z) : stream_state :=
  mkSS (send_batch_init configs concurrency) [].

(** A task that panics drops its sender without sending. *)
Definition emit (c : Config) (o : exec ClientError Response) : list (BatchResult Response) :=
  match o with Panic => [] | _ => [mkResult (url_of c) o] end.

Inductive stream_step : stream_state → stream_state → Prop :=
  | stream_spawn c rest l p ch : 0 < p →
      stream_step (mkSS (mkBS (c :: rest) l p) ch) (mkSS (mkBS rest (l ++ [(c, Running)]) (p - 1)) ch)
  | stream_finish td l1 c l2 p o ch : sends c o →
      stream_step (mkSS (mkBS td (l1 ++ (c, Running) :: l2) p) ch)
                  (mkSS (mkBS td (l1 ++ (c, Finished o) :: l2) (p + 1)) (ch ++ emit c o)).

Definition stream_reach (configs : list Config) (concurrency : Z) : stream_state → Prop :=
  rtc stream_step (stream_init configs concurrency).

(** ** Invariants *)

Definition task_ok (t : Config * task) : Prop :=
  match t.2 with Finished o => sends t.1 o | _ => True end.

Definition batch_inv (configs : list Config) (concurrency : Z) (s : batch_state) : Prop :=
  s.(tasks).*1 ++ s.(todo) = configs ∧ 0 ≤ s.(permits) ∧
  running s.(tasks) + s.(permits) = concurrency ∧ Forall task_ok s.(tasks).

Lemma running_app l k : running (l ++ k) = running l + running k.
Proof. unfold running. by rewrite List.filter_app, zlen_app. Qed.
Lemma running_cons t l : running (t :: l) = (if is_running t then 1 else 0) + running l.
Proof. unfold running. cbn. destruct (is_running t); rewrite ?zlen_cons; lia. Qed.
Lemma running_nil : running [] = 0.
Proof. done. Qed.
Lemma running_nonneg l : 0 ≤ running l.
Proof. apply zlen_nonneg. Qed.

Lemma batch_inv_init configs n : 0 ≤ n → batch_inv configs n (send_batch_init configs n).
Proof. intros. split_and!; cbn; [done|done|done|constructor]. Qed.

(** The three kinds of moves of both drivers. *)
Lemma batch_inv_add configs n c rest l p t :
  batch_inv configs n (mkBS (c :: rest) l p) → t = Waiting ∨ (t = Running ∧ 0 < p) →
  batch_inv configs n (mkBS rest (l ++ [(c, t)]) (p - if is_running (c, t) then 1 else 0)).
Proof.
  intros (Hc & Hp & Hr & Hf) Ht. unfold batch_inv in *; cbn in *. rewrite fmap_app, <- (assoc_L (++)). cbn.
  rewrite running_app, running_cons, running_nil. split_and!; [done| | |].
  - destruct Ht as [->|[-> ?]]; cbn; lia.
  - destruct Ht as [->|[-> ?]]; cbn; lia.
  - apply Forall_app. split; [done|]. apply Forall_singleton. by destruct Ht as [->|[-> ?]].
Qed.

Lemma batch_inv_replace configs n td l1 c l2 p t t' :
  batch_inv configs n (mkBS td (l1 ++ (c, t) :: l2) p) → task_ok (c, t') →
  0 ≤ p + (if is_running (c, t) then 1 else 0) - (if is_running (c, t') then 1 else 0) →
  batch_inv configs n (mkBS td (l1 ++ (c, t') :: l2)
    (p + (if is_running (c, t) then 1 else 0) - (if is_running (c, t') then 1 else 0))).
Proof.
  intros (Hc & Hp & Hr & Hf) Ht Hp'. unfold batch_inv in *; cbn in *. rewrite fmap_app in *. cbn in *.
  rewrite running_app, running_cons in *. split_and!; [done|done|lia|].
  apply Forall_app in Hf as [? Hf]. apply Forall_cons in Hf as [_ ?]. apply Forall_app. split; [done|].
  by apply Forall_cons.
Qed.

Lemma send_batch_step_inv configs n s s' : send_batch_step s s' → batch_inv configs n s → batch_inv configs n s'.
Proof.
  intros [c rest l p|td l1 c l2 p Hp|td l1 c l2 p o Ho] Hi.
  - apply (batch_inv_add _ _ _ _ _ _ Waiting) in Hi; [|by left]. cbn in Hi. by rewrite Z.sub_0_r in Hi.
  - apply (batch_inv_replace _ _ _ _ _ _ _ _ Running) in Hi; [|done|cbn; lia]. cbn in Hi. by rewrite Z.add_0_r in Hi.
  - apply (batch_inv_replace _ _ _ _ _ _ _ _ (Finished o)) in Hi; [|done|cbn; destruct Hi as (_ & Hp & _); cbn in Hp; lia].
    cbn in Hi. by rewrite Z.sub_0_r in Hi.
Qed.

Lemma send_batch_reach_inv configs n s : 0 ≤ n → send_batch_reach configs n s → batch_inv configs n s.
Proof.
  intros Hn. apply rtc_invariant; [by apply batch_inv_init|]. intros a b. apply send_batch_step_inv.
Qed.

Lemma stream_step_inv configs n s s' : stream_step s s' → batch_inv configs n s.(base) → batch_inv configs n s'.(base).
Proof.
  intros [c rest l p ch Hp|td l1 c l2 p o ch Ho] Hi; cbn in *.
  - by apply (batch_inv_add _ _ _ _ _ _ Running) in Hi; [|by right].
  - apply (batch_inv_replace _ _ _ _ _ _ _ _ (Finished o)) in Hi; [|done|cbn; destruct Hi as (_ & Hp & _); cbn in Hp; lia].
    cbn in Hi. by rewrite Z.sub_0_r in Hi.
Qed.

(** What the finished tasks have sent, in dispatch order. *)
Definition task_emit (t : Config * task) : list (BatchResult Response) :=
  match t.2 with Finished o => emit t.1 o | _ => [] end.

Lemma stream_channel configs n s : stream_reach configs n s →
  s.(channel) ≡ₚ flat_map task_emit s.(base).(tasks).
Proof.
  intros Hr. assert (∀ s0, s0.(channel) ≡ₚ flat_map task_emit s0.(base).(tasks) →
    rtc stream_step s0 s → s.(channel) ≡ₚ flat_map task_emit s.(base).(tasks)) as Hgen; [|by eapply Hgen; [|exact Hr]].
  intros s0 H0 Hr0. induction Hr0 as [|s0 s1 s2 Hs _ IH]; [done|]. apply IH; [done|]. clear IH Hr.
  destruct Hs as [c rest l p ch Hp|td l1 c l2 p o ch Ho]; cbn in *.
  - rewrite flat_map_app. cbn. by rewrite app_nil_r.
  - rewrite flat_map_app in *. cbn in *. rewrite H0. unfold task_emit at 4. cbn.
    rewrite <- (assoc_L (++)). f_equiv. apply Permutation_app_comm.
Qed.

Lemma stream_reach_inv configs n s : 0 ≤ n → stream_reach configs n s → batch_inv configs n s.(base).
Proof.
  intros Hn. apply (rtc_invariant _ (λ s, batch_inv configs n s.(base))); [by apply batch_inv_init|].
  intros a b. apply stream_step_inv.
Qed.

(** *** Progress *)

Definition weight (t : Config * task) : nat :=
  match t.2 with Waiting => 2 | Running => 1 | Finished _ => 0 end.
Definition measure (s : batch_state) : nat := 3 * length s.(todo) + sum_list (map weight s.(tasks)).

Lemma sum_list_app (l k : list nat) : sum_list (l ++ k) = (sum_list l + sum_list k)%nat.
Proof. induction l as [|x l IH]; cbn; lia. Qed.

Lemma send_batch_step_measure s s' : send_batch_step s s' → (measure s' < measure s)%nat.
Proof.
  intros [c rest l p|td l1 c l2 p Hp|td l1 c l2 p o Ho]; unfold measure; cbn [todo tasks];
    rewrite !map_app, !sum_list_app; cbn; lia.
Qed.

Lemma stream_step_measure s s' : stream_step s s' → (measure s'.(base) < measure s.(base))%nat.
Proof.
  intros [c rest l p ch Hp|td l1 c l2 p o ch Ho]; unfold measure; cbn [base todo tasks];
    rewrite !map_app, !sum_list_app; cbn; lia.
Qed.

(** The first task that is not finished. *)
Lemma unfinished_split l : forallb is_finished l = false →
  ∃ l1 c t l2, l = l1 ++ (c, t) :: l2 ∧ (t = Waiting ∨ t = Running).
Proof.
  induction l as [|[c t] l IH]; cbn; [done|]. destruct t; cbn.
  - intros _. exists [], c, Waiting, l. eauto.
  - intros _. exists [], c, Running, l. eauto.
  - intros (l1 & c' & t & l2 & -> & Ht)%IH. by exists ((c, Finished o) :: l1), c', t, l2.
Qed.

Lemma running_split l : 0 < running l → ∃ l1 c l2, l = l1 ++ (c, Running) :: l2.
Proof.
  induction l as [|[c t] l IH]; [rewrite running_nil; lia|]. rewrite running_cons.
  destruct t; cbn; intros Hr; [| by exists [], c, l|]; destruct IH as (l1 & c' & l2 & ->); try lia;
    by eexists (_ :: l1), c', l2.
Qed.

Context (sends_total : ∀ c, ∃ o, sends c o).

Lemma send_batch_progress configs n s : 1 ≤ n → batch_inv configs n s →
  all_finished s = false → ∃ s', send_batch_step s s'.
Proof.
  intros Hn (Hc & Hp & Hr & Hf) Ha. destruct s as [td l p]; cbn in *.
  destruct td as [|c td]; [|eexists; apply batch_dispatch].
  unfold all_finished in Ha. cbn in Ha. destruct (decide (0 < running l)) as [Hrun|Hrun].
  - destruct (running_split l Hrun) as (l1 & c & l2 & ->). destruct (sends_total c) as [o Ho].
    eexists. by apply (batch_finish _ _ _ _ _ o).
  - apply unfinished_split in Ha as (l1 & c & t & l2 & -> & [->| ->]).
    + eexists. apply batch_start. pose proof (running_nonneg (l1 ++ (c, Waiting) :: l2)). lia.
    + destruct (sends_total c) as [o Ho]. eexists. by apply (batch_finish _ _ _ _ _ o).
Qed.

Lemma stream_progress configs n s : 1 ≤ n → batch_inv configs n s.(base) →
  Forall (λ t, t.2 ≠ Waiting) s.(base).(tasks) →
  all_finished s.(base) = false → ∃ s', stream_step s s'.
Proof.
  intros Hn (Hc & Hp & Hr & Hf) Hw Ha. destruct s as [[td l p] ch]; cbn in *.
  destruct (decide (0 < running l)) as [Hrun|Hrun].
  - destruct (running_split l Hrun) as (l1 & c & l2 & ->). destruct (sends_total c) as [o Ho].
    eexists. by apply (stream_finish _ _ _ _ _ o).
  - pose proof (running_nonneg l). destruct td as [|c td]; [|eexists; apply stream_spawn; lia].
    unfold all_finished in Ha. cbn in Ha. apply unfinished_split in Ha as (l1 & c & t & l2 & -> & [->| ->]).
    + apply Forall_app in Hw as [_ Hw]. apply Forall_cons in Hw as [Hw _]. done.
    + rewrite running_app, running_cons in Hrun. cbn in Hrun. pose proof (running_nonneg l1). pose proof (running_nonneg l2). lia.
Qed.
End batch.

(** ** Properties *)

Section properties.
Context {Config Response : Type} `{HttpClient Config Response}.
Context (task_panicked : bytes).

Lemma final_task configs n (s : batch_state) : batch_inv configs n s → all_finished s = true →
  s.(tasks).*1 = configs ∧ Forall (λ t, ∃ o, t.2 = Finished o ∧ sends t.1 o) s.(tasks).
Proof.
  intros (Hc & _ & _ & Hf) Ha. unfold all_finished in Ha.
  apply andb_true_iff in Ha as [Ht Ha]. apply bool_decide_eq_true in Ht.
  destruct (todo s); [|done]. rewrite app_nil_r in Hc. split; [done|].
  rewrite forallb_forall in Ha. rewrite Forall_forall in Hf. apply Forall_forall. intros [c t] Hin.
  specialize (Hf _ Hin). apply list_elem_of_In, Ha in Hin. destruct t; try done. by exists o.
Qed.

(** Under every interleaving at most [concurrency] sends are in flight, and
    when the batch completes it returns one result per configuration, in the
    order of the configurations: the outcome of that configuration's own send,
    or the "<unknown>" error if its task panicked. *)
Theorem send_batch_results_in_order (configs : list Config) (concurrency : Z) (s : batch_state) :
  0 ≤ concurrency → send_batch_reach configs concurrency s →
  running s.(tasks) ≤ concurrency ∧
  ∀ results, send_batch_results task_panicked s = Some results →
    length results = length configs ∧
    ∀ i c, configs !! i = Some c → ∃ o, sends c o ∧
      results !! i = Some match o with
                          | Panic => mkResult (bs "<unknown>") (Err (err_other task_panicked))
                          | _ => mkResult (url_of c) o
                          end.
Proof.
  intros Hn Hr. pose proof (send_batch_reach_inv configs concurrency s Hn Hr) as Hi.
  split; [destruct Hi as (_ & ? & ? & _); lia|]. intros results Hres. unfold send_batch_results in Hres.
  destruct (all_finished s) eqn:Ha; [|done]. injection Hres as <-.
  destruct (final_task _ _ _ Hi Ha) as [Hc Hf]. rewrite <- Hc, length_map, length_fmap. split; [done|].
  intros i c Hic. apply list_lookup_fmap_Some in Hic as ([c' t] & -> & Hit).
  pose proof (Forall_lookup_1 _ _ _ _ Hf Hit) as (o & Ho & Hs). cbn in Ho, Hs. subst t. exists o. split; [done|].
  change (map (join_result task_panicked) (tasks s)) with (join_result task_panicked <$> tasks s).
  rewrite list_lookup_fmap, Hit. cbn. by destruct o.
Qed.

(** With at least one permit and sends that return, every execution of
    [send_batch] is finite and can only stop with its results; with no permit a
    non-empty batch never completes. *)
Theorem send_batch_terminates (configs : list Config) (concurrency : Z) (s : batch_state) :
  0 ≤ concurrency → (∀ c, ∃ o, sends c o) → send_batch_reach configs concurrency s →
  Acc (λ s' s, send_batch_step s s') s ∧
  (1 ≤ concurrency → (∀ s', ¬ send_batch_step s s') → is_Some (send_batch_results task_panicked s)) ∧
  (concurrency = 0 → configs ≠ [] → send_batch_results task_panicked s = None).
Proof.
  intros Hn Htot Hr. pose proof (send_batch_reach_inv configs concurrency s Hn Hr) as Hi. split_and!.
  - clear Hr Hi. remember (measure s) as m eqn:Hm. revert s Hm.
    induction (lt_wf m) as [m _ IH]. intros s ->. constructor. intros s' Hs.
    by apply (IH (measure s')); [apply send_batch_step_measure|].
  - intros H1 Hstuck. unfold send_batch_results. destruct (all_finished s) eqn:Ha; [eauto|].
    destruct (send_batch_progress Htot configs concurrency s H1 Hi Ha) as [s' Hs]. by destruct (Hstuck s').
  - intros -> Hne. unfold send_batch_results. destruct (all_finished s) eqn:Ha; [|done]. exfalso.
    destruct (final_task _ _ _ Hi Ha) as [Hc Hf].
    assert (∀ s, send_batch_reach configs 0 s → Forall (λ t, t.2 = Waiting) s.(tasks)) as Hw.
    { clear s Hr Hi Ha Hc Hf. unfold send_batch_reach. intros s Hr.
      apply (rtc_invariant _ (λ s, batch_inv configs 0 s ∧ Forall (λ t, t.2 = Waiting) s.(tasks))) in Hr.
      { apply Hr. }
      { split; [by apply batch_inv_init|constructor]. }
      intros a b Hab [Hia Hwa]. split; [by eapply send_batch_step_inv|].
      destruct Hab as [c rest l p|td l1 c l2 p Hp|td l1 c l2 p o Ho]; cbn in *.
        + apply Forall_app. split; [done|]. by apply Forall_singleton.
        + destruct Hia as (_ & _ & Hsum & _). cbn in Hsum. pose proof (running_nonneg (l1 ++ (c, Waiting) :: l2)). lia.
        + apply Forall_app in Hwa as [_ Hwa]. apply Forall_cons in Hwa as [? _]. done. }
    specialize (Hw s Hr). destruct (tasks s) as [|t l]; [by rewrite <- Hc in Hne|].
    apply Forall_cons in Hw as [Hw _]. apply Forall_cons in Hf as [(o & Ho & _) _]. congruence.
Qed.

Lemma stream_step_waiting (s s' : stream_state) : stream_step s s' →
  Forall (λ t, t.2 ≠ Waiting) s.(base).(tasks) → Forall (λ t, t.2 ≠ Waiting) s'.(base).(tasks).
Proof.
  intros [c rest l p ch Hp|td l1 c l2 p o ch Ho] Hw; cbn in *.
  - apply Forall_app. split; [done|]. by apply Forall_singleton.
  - apply Forall_app in Hw as [? Hw]. apply Forall_cons in Hw as [_ ?]. apply Forall_app. split; [done|].
    by apply Forall_cons.
Qed.

Lemma stream_no_waiting configs n s : stream_reach configs n s → Forall (λ t, t.2 ≠ Waiting) s.(base).(tasks).
Proof.
  apply (rtc_invariant _ (λ s, Forall (λ t, t.2 ≠ Waiting) s.(base).(tasks))); [constructor|].
  intros a b. apply stream_step_waiting.
Qed.

(** The stream keeps at most [concurrency] sends in flight and yields, in
    completion order, exactly one result per finished task that did not panic,
    carrying that task's URL and outcome; so a completed stream without panics
    is a permutation of the configurations' results.  Its executions are
    finite, and with a permit and sends that return they only stop when every
    configuration has been sent. *)
Theorem stream_results_complete (configs : list Config) (concurrency : Z) (s : stream_state) :
  0 ≤ concurrency → stream_reach configs concurrency s →
  running s.(base).(tasks) ≤ concurrency ∧
  s.(channel) ≡ₚ flat_map task_emit s.(base).(tasks) ∧
  (all_finished s.(base) = true → Forall (λ t, t.2 ≠ Finished Panic) s.(base).(tasks) →
     map url s.(channel) ≡ₚ map url_of configs ∧
     ∀ r, r ∈ s.(channel) → ∃ c, c ∈ configs ∧ url r = url_of c ∧ sends c (result r)) ∧
  Acc (λ s' s, stream_step s s') s ∧
  (1 ≤ concurrency → (∀ c, ∃ o, sends c o) → (∀ s', ¬ stream_step s s') → all_finished s.(base) = true).
Proof.
  intros Hn Hr. pose proof (stream_reach_inv configs concurrency s Hn Hr) as Hi.
  pose proof (stream_channel configs concurrency s Hr) as Hch.
  split_and!; [destruct Hi as (_ & ? & ? & _); lia|done| | |].
  2: { clear Hr Hi Hch. remember (measure s.(base)) as m eqn:Hm. revert s Hm.
       induction (lt_wf m) as [m _ IH]. intros s ->. constructor. intros s' Hs.
       by apply (IH (measure s'.(base))); [apply stream_step_measure|]. }
  2: { intros H1 Htot Hstuck. destruct (all_finished s.(base)) eqn:Ha; [done|].
       destruct (stream_progress Htot configs concurrency s H1 Hi (stream_no_waiting _ _ _ Hr) Ha) as [s' Hs].
       by destruct (Hstuck s'). }
  intros Ha Hnp.
  destruct (final_task _ _ _ Hi Ha) as [Hc Hf].
  assert (∃ os, s.(base).(tasks) = zip_with (λ c o, (c, Finished o)) configs os ∧
    Forall2 (λ c o, sends c o ∧ o ≠ Panic) configs os) as (os & Hz & Hos).
  { clear Hch Ha Hr Hi. rewrite <- Hc. clear Hc configs. induction (tasks (base s)) as [|[c t] l IH]; [by exists []|].
    apply Forall_cons in Hf as [(o & Ho & Hs) Hf]. apply Forall_cons in Hnp as [Hp Hnp].
    destruct (IH Hnp Hf) as (os & Hz & Hos). cbn in *. subst t. exists (o :: os). split; [by rewrite <- Hz|].
    constructor; [|done]. split; [done|]. by intros ->. }
  rewrite Hz in Hch. clear Hz Hc Hf Hnp Ha Hi Hr. split.
  - rewrite Hch. clear Hch. apply reflexive_eq. induction Hos as [|c o configs os [_ Ho] _ IH]; [done|]. cbn. rewrite map_app, IH.
    unfold task_emit. cbn. by destruct o.
  - intros r. rewrite Hch. clear Hch. induction Hos as [|c o configs os [Hs Ho] _ IH]; [by intros ?%not_elem_of_nil|].
    cbn. intros [Hr|Hr]%elem_of_app.
    + exists c. unfold task_emit in Hr. cbn in Hr.
      destruct o; cbn in Hr; try done; apply list_elem_of_singleton in Hr as ->; (split_and!; [set_solver|done|done]).
    + destruct (IH Hr) as (c' & ? & ?). exists c'. split; [set_solver|done].
Qed.
End properties.

(** A client that answers with its configuration, for the witnesses. *)
#[local] Instance echo_client : HttpClient nat nat := {
  url_of c := [Z.of_nat c];
  sends c o := o = Ok c
}.

Definition echo_done : batch_state := mkBS [] [(7%nat, Finished (Ok 7%nat)); (8%nat, Finished (Ok 8%nat))] 1.

Lemma echo_reach : send_batch_reach [7%nat; 8%nat] 1 echo_done.
Proof.
  eapply rtc_l; [apply batch_dispatch|]. eapply rtc_l; [apply batch_dispatch|]. cbn [app].
  eapply rtc_l; [apply (batch_start [] [(7%nat, Waiting)] 8%nat []); lia|].
  eapply rtc_l; [apply (batch_finish [] [(7%nat, Waiting)] 8%nat [] _ (Ok 8%nat)); done|].
  eapply rtc_l; [apply (batch_start [] [] 7%nat); lia|].
  eapply rtc_l; [apply (batch_finish [] [] 7%nat _ _ (Ok 7%nat)); done|].
  apply rtc_refl.
Qed.

Lemma send_batch_results_in_order_witness :
  running echo_done.(tasks) ≤ 1 ∧
  ∀ results, send_batch_results (bs "panic") echo_done = Some results → length results = 2%nat.
Proof.
  destruct (send_batch_results_in_order (bs "panic") [7%nat; 8%nat] 1 echo_done ltac:(lia) echo_reach) as [H1 H2].
  split; [exact H1|]. intros results Hr. apply (H2 results Hr).
Defined.

Lemma send_batch_terminates_witness :
  Acc (λ s' s, send_batch_step s s') echo_done ∧
  (1 ≤ 1 → (∀ s', ¬ send_batch_step echo_done s') → is_Some (send_batch_results (bs "panic") echo_done)) ∧
  (1 = 0 → [7%nat; 8%nat] ≠ [] → send_batch_results (bs "panic") echo_done = None).
Proof.
  apply (send_batch_terminates (bs "panic") [7%nat; 8%nat] 1 echo_done).
  - lia.
  - intros c. exists (Ok c). reflexivity.
  - apply echo_reach.
Defined.

Definition echo_streamed : stream_state :=
  mkSS echo_done [mkResult [7] (Ok 7%nat); mkResult [8] (Ok 8%nat)].

Lemma echo_stream_reach : stream_reach [7%nat; 8%nat] 1 echo_streamed.
Proof.
  eapply rtc_l; [apply stream_spawn; lia|]. cbn [app].
  eapply rtc_l; [apply (stream_finish _ [] 7%nat [] _ (Ok 7%nat)); done|].
  eapply rtc_l; [apply stream_spawn; lia|]. cbn [app].
  eapply rtc_l; [apply (stream_finish _ [(7%nat, Finished (Ok 7%nat))] 8%nat [] _ (Ok 8%nat)); done|].
  apply rtc_refl.
Qed.

Lemma stream_results_complete_witness :
  running echo_streamed.(base).(tasks) ≤ 1 ∧ map url echo_streamed.(channel) ≡ₚ [[7]; [8]].
Proof.
  destruct (stream_results_complete [7%nat; 8%nat] 1 echo_streamed ltac:(lia) echo_stream_reach) as (H1 & _ & H2 & _).
  split; [exact H1|]. apply H2; [reflexivity|]. repeat constructor; discriminate.
Defined.
