(* ===== verification/Paced.v ===== *)
(** * Batches under a rate limit (src/batch.rs: the drivers with their limiter)

    The drivers of [Dispatch] wait for the limiter of [Batch] before each dispatch.
    What both drivers promise is the interface [Driver]; the theorem about the paced
    loop is proved against it once, for the drivers, the limiter and the other
    callers of a shared limiter running in any interleaving. *)
From S2P Require Import Prelude ClientError Batch Dispatch.

(** ** The interface of a driver *)

(** What one step may make of a task. *)
Inductive task_next {Response} : @task Response → @task Response → Prop :=
  | task_stays t : task_next t t
  | task_starts : task_next Waiting Running
  | task_ends o : task_next Running (Finished o).

Class Driver (D Config Response : Type) `{HttpClient Config Response} := {
  d_base : D → @batch_state Config Response;
  d_init : list Config → Z → D;
  d_step : D → D → Prop;
  d_ok : list Config → Z → D → Prop;
  (** its laws *)
  d_ok_init configs n : 0 ≤ n → d_ok configs n (d_init configs n);
  d_ok_step configs n s s' : d_step s s' → d_ok configs n s → d_ok configs n s';
  d_ok_base configs n s : d_ok configs n s → batch_inv configs n (d_base s);
  d_ok_progress configs n s : (∀ c, ∃ o, sends c o) → 1 ≤ n → d_ok configs n s →
    all_finished (d_base s) = false → ∃ s', d_step s s';
  d_ok_blocked configs s : configs ≠ [] → d_ok configs 0 s → all_finished (d_base s) = false;
  d_init_empty configs n : tasks (d_base (d_init configs n)) = [];
  d_shrinks s s' : d_step s s' → (measure (d_base s') < measure (d_base s))%nat;
  d_task s s' k c t : d_step s s' → tasks (d_base s) !! k = Some (c, t) →
    ∃ t', tasks (d_base s') !! k = Some (c, t') ∧ task_next t t';
  d_one_by_one s s' : d_step s s' → length (tasks (d_base s')) = length (tasks (d_base s)) ∨
    length (tasks (d_base s')) = S (length (tasks (d_base s)))
}.

Section instances.
Context {Config Response : Type} `{HttpClient Config Response}.

(** Without a permit no task starts. *)
Definition never_started (s : @batch_state Config Response) : Prop := Forall (λ t, t.2 = Waiting) s.(tasks).

Lemma never_started_step s s' : permits s ≤ 0 → send_batch_step s s' → never_started s → never_started s'.
Proof.
  intros Hp Hs Hw. unfold never_started in *.
  destruct Hs as [c rest l p|td l1 c l2 p Hp'|td l1 c l2 p o Ho]; cbn [tasks permits] in *; [|lia|].
  - apply Forall_app. split; [done|]. by apply Forall_singleton.
  - apply Forall_app in Hw as [_ Hw]. by apply Forall_cons in Hw as [? _].
Qed.

Lemma never_started_unfinished configs n s : configs ≠ [] → batch_inv configs n s → never_started s →
  all_finished s = false.
Proof.
  intros Hne Hi Hw. destruct (all_finished s) eqn:Ha; [|done]. exfalso.
  destruct (final_task _ _ _ Hi Ha) as [Hc Hf]. unfold never_started in Hw.
  destruct (tasks s) as [|t l]; [by rewrite <- Hc in Hne|].
  apply Forall_cons in Hw as [Hw _]. apply Forall_cons in Hf as [(o & Ho & _) _]. congruence.
Qed.

Lemma task_next_app (l x : list (Config * @task Response)) k c t : l !! k = Some (c, t) →
  ∃ t', (l ++ x) !! k = Some (c, t') ∧ task_next t t'.
Proof. intros Hk. exists t. split; [by apply lookup_app_l_Some|constructor]. Qed.

Lemma task_next_mid (l1 l2 : list (Config * @task Response)) c0 t0 t1 k c t : task_next t0 t1 →
  (l1 ++ (c0, t0) :: l2) !! k = Some (c, t) →
  ∃ t', (l1 ++ (c0, t1) :: l2) !! k = Some (c, t') ∧ task_next t t'.
Proof.
  intros Hn Hk. destruct (decide (k = length l1)) as [->|Hne].
  - rewrite list_lookup_middle in * by done. simplify_eq. by exists t1.
  - exists t. split; [|constructor]. rewrite <- Hk. destruct (decide (k < length l1)%nat).
    + by rewrite !lookup_app_l by done.
    + rewrite !lookup_app_r by lia. by destruct (k - length l1)%nat eqn:E; [lia|].
Qed.

#[export] Program Instance send_batch_driver : Driver batch_state Config Response := {
  d_base s := s;
  d_init := send_batch_init;
  d_step := send_batch_step;
  d_ok configs n s := batch_inv configs n s ∧ (n = 0 → never_started s);
  d_shrinks := send_batch_step_measure
}.
Next Obligation. intros configs n Hn. split; [by apply batch_inv_init|constructor]. Qed.
Next Obligation.
  intros configs n s s' Hs [Hi Hw]. split; [by eapply send_batch_step_inv|]. intros Hn.
  eapply never_started_step; [|done|auto]. destruct Hi as (_ & ? & ? & _). pose proof (running_nonneg (tasks s)). lia.
Qed.
Next Obligation. by intros configs n s []. Qed.
Next Obligation. intros configs n s Ht Hn [Hok _] Ha. by eapply send_batch_progress. Qed.
Next Obligation. intros configs s Hne [Hi Hw]. eapply never_started_unfinished; eauto. Qed.
Next Obligation. done. Qed.
Next Obligation.
  intros s s' k c t Hs. destruct Hs; cbn [tasks]; [by apply task_next_app|apply task_next_mid; constructor..].
Qed.
Next Obligation.
  intros s s' [c rest l p|td l1 c l2 p Hp|td l1 c l2 p o Ho]; cbn; rewrite !length_app; cbn; lia.
Qed.

#[export] Program Instance stream_driver : Driver stream_state Config Response := {
  d_base := base;
  d_init := stream_init;
  d_step := stream_step;
  d_ok configs n s := batch_inv configs n (base s) ∧ Forall (λ t, t.2 ≠ Waiting) (tasks (base s)) ∧
                      (n = 0 → tasks (base s) = []);
  d_shrinks := stream_step_measure
}.
Next Obligation. intros configs n Hn. split_and!; [by apply batch_inv_init|constructor|done]. Qed.
Next Obligation.
  intros configs n s s' Hs (Hi & Hw & Hn). split_and!; [by eapply stream_step_inv|by eapply stream_step_waiting|].
  intros ->. specialize (Hn eq_refl). destruct Hi as (_ & ? & Hr & _). rewrite Hn, running_nil in Hr.
  destruct Hs as [c rest l p ch Hp|td l1 c l2 p o ch Ho]; cbn in *; [lia|by destruct l1].
Qed.
Next Obligation. by intros configs n s []. Qed.
Next Obligation. intros configs n s Ht Hn (Hok & Hw & _) Ha. by eapply stream_progress. Qed.
Next Obligation.
  intros configs s Hne (Hi & _ & Hw). eapply never_started_unfinished; [done..|].
  unfold never_started. by rewrite Hw.
Qed.
Next Obligation. done. Qed.
Next Obligation.
  intros s s' k c t Hs. destruct Hs; cbn [tasks base]; [by apply task_next_app|apply task_next_mid; constructor].
Qed.
Next Obligation.
  intros s s' [c rest l p ch Hp|td l1 c l2 p o ch Ho]; cbn; rewrite !length_app; cbn; lia.
Qed.
End instances.

(** ** One call of the limiter *)

(** Worker [t] moves, or time passes. *)
Definition solo (l : RateLimiter) (t : nat) (a b : limiter_state) : Prop :=
  limiter_step l a b ∧ ∀ u, u ≠ t → workers b u = workers a u.

Definition past_acquire (ls : limiter_state) (t : nat) : Prop :=
  ∃ slot ret, workers ls t = Returned slot ret ∧ ret ≤ clock ls.

Definition can_return (l : RateLimiter) (t : nat) (ls : limiter_state) : Prop :=
  ∃ ls', rtc (solo l t) ls ls' ∧ past_acquire ls' t.

Lemma solo_step l t a b : limiter_step l a b → (∀ u, u ≠ t → workers b u = workers a u) → can_return l t b →
  can_return l t a.
Proof. intros Hs Hu (c & Hc & Hp). exists c. split; [eapply rtc_l; [split; eauto|done]|done]. Qed.

Lemma can_return_waited l t ls slot ret : workers ls t = Returned slot ret → can_return l t ls.
Proof.
  intros Ht. eapply (solo_step _ _ _ _ (step_tick _ _ (Z.max 0 (ret - clock ls)) ltac:(lia))); [done|].
  eexists; split; [apply rtc_refl|]. exists slot, ret. cbn. split; [done|lia].
Qed.

Lemma can_return_slot l t ls slot : workers ls t = AtWait slot → can_return l t ls.
Proof.
  intros Ht. eapply solo_step; [by apply (step_wait _ _ t slot)|intros u Hu; cbn; by rewrite upd_other|].
  eapply can_return_waited. cbn. by rewrite upd_same.
Qed.

Lemma can_return_clock l t ls : workers ls t = AtClock (next_ns ls) → can_return l t ls.
Proof.
  intros Ht. eapply solo_step; [by apply (step_clock _ _ t)|intros u Hu; cbn; by rewrite upd_other|].
  eapply solo_step; [eapply (step_cas_ok _ _ t); cbn; [by rewrite upd_same|done]|intros u Hu; cbn; by rewrite upd_other|].
  eapply can_return_slot. cbn. by rewrite upd_same.
Qed.

Lemma can_return_load l t ls : workers ls t = AtLoad → can_return l t ls.
Proof.
  intros Ht. eapply solo_step; [by apply (step_load _ _ t)|intros u Hu; cbn; by rewrite upd_other|].
  apply can_return_clock. cbn. by rewrite upd_same.
Qed.

Lemma can_return_cas l t ls current now : workers ls t = AtCas current now → can_return l t ls.
Proof.
  intros Ht. eapply solo_step; [by eapply (step_cas_fail _ _ t)|intros u Hu; cbn; by rewrite upd_other|].
  apply can_return_load. cbn. by rewrite upd_same.
Qed.

(** A call that is left alone returns, wherever the others have left the cursor. *)
Lemma can_return_any l t ls : can_return l t ls.
Proof.
  destruct (workers ls t) as [|cur|cur now|slot|slot ret] eqn:Ht.
  - by apply can_return_load.
  - eapply solo_step; [by apply (step_clock _ _ t)|intros u Hu; cbn; by rewrite upd_other|].
    eapply can_return_cas. cbn. by rewrite upd_same.
  - by eapply can_return_cas.
  - by eapply can_return_slot.
  - by eapply can_return_waited.
Qed.

Lemma past_acquire_step l a b t : limiter_step l a b → past_acquire a t → past_acquire b t.
Proof.
  intros Hs (slot & ret & Ht & Hr). exists slot, ret.
  destruct Hs as [ls d Hd|ls u Hu|ls u c Hu|ls u c n Hu Hc base|ls u c n Hu|ls u sl Hu]; cbn; [split; [done|lia]|..];
    (rewrite upd_other by congruence; done).
Qed.

(** ** The paced loop *)

Section paced.
Context {D Config Response : Type} `{Driver D Config Response}.

(** The driver, its limiter, and when each task was dispatched. *)
Record paced := mkPaced { p_driver : D; p_limiter : limiter_state; p_times : list Z }.

Definition dispatched (p : paced) : nat := length (tasks (d_base (p_driver p))).

(** [merge_limiters] and the start of the loop.  Of a shared limiter the state is what
    its other callers have made of it. *)
Definition paced_init (shared : option (RateLimiter * limiter_state)) (rate_limit : option f64)
    (configs : list Config) (concurrency : Z) : exec Empty_set (option RateLimiter * paced) :=
  limiter ← merge_limiters (fst <$> shared) rate_limit;
  Ok match limiter with
     | Shared l => (Some l, mkPaced (d_init configs concurrency) (from_option snd limiter_init shared) [])
     | Fresh l => (Some l, mkPaced (d_init configs concurrency) limiter_init [])
     | NoLimiter => (None, mkPaced (d_init configs concurrency) limiter_init [])
     end.

(** [if let Some(ref limiter) = limiter { limiter.acquire().await }] for task [k]. *)
Definition may_dispatch (limiter : option RateLimiter) (ls : limiter_state) (k : nat) : Prop :=
  match limiter with Some _ => past_acquire ls k | None => True end.

(** The calls of the loop are the workers below [n], one after the other; those from
    [n] on belong to other callers. *)
Inductive paced_step (limiter : option RateLimiter) (n : nat) : paced → paced → Prop :=
  | paced_limiter l p ls : limiter = Some l → limiter_step l (p_limiter p) ls →
      (∀ t, (t < n)%nat → t ≠ dispatched p → workers ls t = workers (p_limiter p) t) →
      paced_step limiter n p (mkPaced (p_driver p) ls (p_times p))
  | paced_dispatch p d : d_step (p_driver p) d → length (tasks (d_base d)) = S (dispatched p) →
      may_dispatch limiter (p_limiter p) (dispatched p) →
      paced_step limiter n p (mkPaced d (p_limiter p) (p_times p ++ [clock (p_limiter p)]))
  | paced_task p d : d_step (p_driver p) d → length (tasks (d_base d)) = dispatched p →
      paced_step limiter n p (mkPaced d (p_limiter p) (p_times p)).

(** What is known of a shared limiter at the start: the calls of this batch are yet to
    be made. *)
Definition shared_ok (n : nat) (shared : option (RateLimiter * limiter_state)) : Prop :=
  ∀ l ls, shared = Some (l, ls) → 1 ≤ interval_ns l ≤ u64_max ∧ limiter_reach l ls ∧
    ∀ t, (t < n)%nat → workers ls t = AtLoad.

Record paced_inv (limiter : option RateLimiter) (configs : list Config) (n : Z) (p : paced) : Prop := mkPacedInv {
  pi_driver : d_ok configs n (p_driver p);
  pi_run : rtc d_step (d_init configs n) (p_driver p);
  pi_limiter l : limiter = Some l → 1 ≤ interval_ns l ≤ u64_max ∧ limiter_reach l (p_limiter p);
  pi_times : length (p_times p) = dispatched p;
  pi_past i t : is_Some limiter → p_times p !! i = Some t →
    ∃ slot ret, workers (p_limiter p) i = Returned slot ret ∧ ret ≤ t
}.

Lemma paced_inv_init shared rate_limit configs n limiter p : 0 ≤ n → shared_ok (length configs) shared →
  paced_init shared rate_limit configs n = Ok (limiter, p) → paced_inv limiter configs n p.
Proof.
  intros Hn Hsh. unfold paced_init. destruct (merge_limiters _ rate_limit) as [m| |] eqn:Hm; cbn; [|done|done].
  pose proof (merge_spec _ _ _ Hm) as Hms. pose proof (d_ok_init configs n Hn) as Hok.
  destruct m as [l|l|]; intros [= <- <-]; (split; cbn [p_driver p_limiter p_times]; unfold dispatched; cbn [p_driver];
    [done|apply rtc_refl| |by rewrite d_init_empty|intros i t _ Hi; by rewrite lookup_nil in Hi]).
  - intros ? [= <-]. destruct shared as [[l' ls]|]; [|done]. cbn in *. simplify_eq. by destruct (Hsh _ _ eq_refl) as (? & ? & ?).
  - intros ? [= <-]. split; [apply Hms|apply rtc_refl].
  - done.
Qed.

Lemma paced_inv_step limiter configs n p p' : paced_step limiter (length configs) p p' →
  paced_inv limiter configs n p → paced_inv limiter configs n p'.
Proof.
  intros Hs [Hd Hr Hl Ht Hp]. destruct Hs as [l p ls Hlim Hs Ho|p d Hs Hlen Hm|p d Hs Hlen]; split; cbn in *.
  - done.
  - done.
  - intros l' Hl'. destruct (Hl l' Hl') as [? Hreach]. split; [done|]. simplify_eq. eapply rtc_r; eauto.
  - done.
  - intros i t Hsome Hi. destruct (Hp i t Hsome Hi) as (slot & ret & ? & ?). exists slot, ret. split; [|done].
    by eapply limiter_step_returned.
  - by eapply d_ok_step.
  - by eapply rtc_r.
  - done.
  - rewrite length_app. cbn. unfold dispatched in *. cbn. lia.
  - intros i t Hsome [Hi|[Hlt Hi]]%lookup_app_Some; [by eapply Hp|].
    apply list_lookup_singleton_Some in Hi as [Hi <-]. destruct limiter as [l|]; [|by destruct Hsome].
    replace i with (dispatched p) by lia. done.
  - by eapply d_ok_step.
  - by eapply rtc_r.
  - done.
  - unfold dispatched in *. cbn. lia.
  - done.
Qed.

Lemma paced_reach_inv shared rate_limit configs n limiter p0 p : 0 ≤ n → shared_ok (length configs) shared →
  paced_init shared rate_limit configs n = Ok (limiter, p0) → rtc (paced_step limiter (length configs)) p0 p →
  paced_inv limiter configs n p.
Proof.
  intros Hn Hsh Hi. apply (rtc_invariant _ (paced_inv limiter configs n)); [by eapply paced_inv_init|].
  intros a b. apply paced_inv_step.
Qed.

(** *** Progress *)

Lemma solo_paced l n p ls : rtc (solo l (dispatched p)) (p_limiter p) ls →
  rtc (paced_step (Some l) n) p (mkPaced (p_driver p) ls (p_times p)).
Proof.
  destruct p as [d ls0 ts]; cbn. unfold dispatched; cbn. induction 1 as [|a b c [Hs Ho] _ IH]; [apply rtc_refl|].
  eapply rtc_l; [|exact IH]. eapply (paced_limiter _ _ _ (mkPaced d a ts)); [done|done|].
  intros t _ Ht. by apply Ho.
Qed.

(** Whatever the driver can do next, the paced one can come to do. *)
Lemma paced_follows limiter n p d : d_step (p_driver p) d → ∃ p', rtc (paced_step limiter n) p p' ∧ p_driver p' = d.
Proof.
  intros Hs. destruct (d_one_by_one _ _ Hs) as [Hlen|Hlen].
  { eexists. split; [eapply rtc_once, paced_task; [exact Hs|done]|done]. }
  destruct limiter as [l|].
  - destruct (can_return_any l (dispatched p) (p_limiter p)) as (ls & Hls & Hp).
    eexists. split; [etrans; [by apply solo_paced|eapply rtc_once, (paced_dispatch _ _ (mkPaced _ _ _) d); done]|done].
  - eexists. split; [eapply rtc_once, (paced_dispatch _ _ _ d); done|done].
Qed.

Lemma paced_completes limiter configs n p : (∀ c, ∃ o, sends c o) → 1 ≤ n → paced_inv limiter configs n p →
  ∃ p', rtc (paced_step limiter (length configs)) p p' ∧ all_finished (d_base (p_driver p')) = true.
Proof.
  intros Ht Hn. remember (measure (d_base (p_driver p))) as m eqn:Hm. revert p Hm.
  induction (lt_wf m) as [m _ IH]. intros p -> Hi. destruct (all_finished (d_base (p_driver p))) eqn:Ha.
  { exists p. split; [apply rtc_refl|done]. }
  destruct (d_ok_progress _ _ _ Ht Hn (pi_driver _ _ _ _ Hi) Ha) as [d Hd].
  destruct (paced_follows limiter (length configs) p d Hd) as (p1 & H1 & <-).
  destruct (IH _ (d_shrinks _ _ Hd) p1 eq_refl) as (p2 & H2 & Hf).
  { eapply (rtc_invariant _ (paced_inv limiter configs n)); [exact Hi| |exact H1]. intros a b. apply paced_inv_step. }
  exists p2. split; [by etrans|done].
Qed.
End paced.

(** The elements of a list that satisfy [p], by index. *)
Lemma filter_indices {A} (p : A → bool) (l : list A) : ∃ ts : list nat,
  NoDup ts ∧ length ts = length (List.filter p l) ∧ ∀ i, i ∈ ts → ∃ x, l !! i = Some x ∧ p x = true.
Proof.
  induction l as [|x l (ts & Hnd & Hlen & Hts)]; [exists []; split_and!; [constructor|done|by intros ? ?%not_elem_of_nil]|].
  assert (∀ i, i ∈ S <$> ts → ∃ y, (x :: l) !! i = Some y ∧ p y = true) as Hs.
  { intros i (j & -> & Hj)%list_elem_of_fmap. by apply Hts. }
  cbn. destruct (p x) eqn:Hx.
  - exists (0%nat :: (S <$> ts)). split_and!.
    + apply NoDup_cons. split; [by intros (j & ? & _)%list_elem_of_fmap|]. by apply NoDup_fmap_2; [apply _|].
    + cbn. by rewrite length_fmap, Hlen.
    + intros i [->|Hi]%elem_of_cons; [by exists x|by apply Hs].
  - exists (S <$> ts). split_and!; [by apply NoDup_fmap_2; [apply _|]|by rewrite length_fmap|done].
Qed.

(** C18: both drivers under their limiter, whoever else shares it.  Every paced
    execution is an execution of the driver, with at most [concurrency] sends in
    flight; each task has one dispatch time, and the dispatches up to any deadline are
    within the limit: [(k - 1) * interval < deadline + 1ms].  Pacing never blocks the
    batch: from every state it can come to an end when there is a permit and sends
    return, and it never does when there is none. *)
Theorem paced_batch {D Config Response : Type} `{Driver D Config Response}
    (shared : option (RateLimiter * limiter_state)) (rate_limit : option f64) (configs : list Config)
    (concurrency : Z) (limiter : option RateLimiter) (p0 p : paced) :
  0 ≤ concurrency → shared_ok (length configs) shared →
  paced_init shared rate_limit configs concurrency = Ok (limiter, p0) →
  rtc (paced_step limiter (length configs)) p0 p →
  rtc d_step (d_init configs concurrency) (p_driver p) ∧
  running (tasks (d_base (p_driver p))) ≤ concurrency ∧
  length (p_times p) = length (tasks (d_base (p_driver p))) ∧
  (∀ l deadline, limiter = Some l → clock (p_limiter p) < 2 ^ 64 → 0 ≤ deadline →
     deadline + SUB_MS_SKIP_THRESHOLD_NS ≤ u64_max →
     (zlen (List.filter (λ t, t <=? deadline) (p_times p)) - 1) * interval_ns l < deadline + SUB_MS_SKIP_THRESHOLD_NS) ∧
  (1 ≤ concurrency → (∀ c, ∃ o, sends c o) →
     ∃ p', rtc (paced_step limiter (length configs)) p p' ∧ all_finished (d_base (p_driver p')) = true) ∧
  (concurrency = 0 → configs ≠ [] → all_finished (d_base (p_driver p)) = false).
Proof.
  intros Hc Hsh Hinit Hr. pose proof (paced_reach_inv _ _ _ _ _ _ _ Hc Hsh Hinit Hr) as Hi.
  pose proof (d_ok_base _ _ _ (pi_driver _ _ _ _ Hi)) as (_ & ? & ? & _). split_and!.
  - apply Hi.
  - lia.
  - apply Hi.
  - intros l deadline -> Hcl Hd Hd'. destruct (pi_limiter _ _ _ _ Hi l eq_refl) as [Hl Hreach].
    destruct (filter_indices (λ t, t <=? deadline) (p_times p)) as (ts & Hnd & Hlen & Hts).
    unfold zlen. rewrite <- Hlen. apply (limiter_rate_capped l (p_limiter p) ts); [done..|].
    intros i Hin. destruct (Hts i Hin) as (t & Hit & Ht).
    destruct (pi_past _ _ _ _ Hi i t ltac:(done) Hit) as (slot & ret & ? & ?). exists slot, ret. split; [done|lia].
  - intros Hn Ht. by apply (paced_completes _ _ _ _ Ht Hn Hi).
  - intros -> Hne. by apply (d_ok_blocked configs), (pi_driver _ _ _ _ Hi).
Qed.

#[local] Existing Instance echo_client.

(** At 1000 requests per second, the first of two dispatches of [send_batch], and a
    stream about to begin. *)
Definition rate_1000 : f64 := f64_of_Z 1000.

Definition first_acquired : limiter_state :=
  mkLS 1000000 0 (upd (upd (upd (upd (λ _, AtLoad) 0 (AtClock 0)) 0 (AtCas 0 0)) 0 (AtWait 0)) 0 (Returned 0 0))
    [(0%nat, 0)].

Lemma first_acquired_solo : rtc (solo (mkLimiter 1000000) 0) limiter_init first_acquired.
Proof.
  assert (∀ (f : nat → pc) x u, u ≠ 0%nat → upd f 0%nat x u = f u) as Ho by (intros; by apply upd_other).
  eapply rtc_l; [split; [by eapply (step_load _ _ 0)|by apply Ho]|].
  eapply rtc_l; [split; [by eapply (step_clock _ _ 0 0)|by apply Ho]|].
  eapply rtc_l; [split; [by eapply (step_cas_ok _ _ 0 0 0)|by apply Ho]|].
  eapply rtc_l; [split; [by eapply (step_wait _ _ 0 0)|by apply Ho]|].
  apply rtc_refl.
Qed.

Lemma paced_batch_witness :
  let start := mkPaced (send_batch_init [7%nat; 8%nat] 1) limiter_init [] in
  let first := mkPaced (mkBS [8%nat] [(7%nat, Waiting)] 1) first_acquired [0] in
  let stream := mkPaced (stream_init [7%nat; 8%nat] 1) limiter_init [] in
  (paced_init None (Some rate_1000) [7%nat; 8%nat] 1 = Ok (Some (mkLimiter 1000000), start) ∧
   rtc (paced_step (Some (mkLimiter 1000000)) 2) start first ∧
   length (p_times first) = length (tasks (p_driver first))) ∧
  ∃ p', rtc (paced_step (Some (mkLimiter 1000000)) 2) stream p' ∧ all_finished (base (p_driver p')) = true.
Proof.
  intros start first stream.
  assert (paced_init None (Some rate_1000) [7%nat; 8%nat] 1 = Ok (Some (mkLimiter 1000000), start)) as H0
    by (vm_compute; reflexivity).
  assert (rtc (paced_step (Some (mkLimiter 1000000)) 2) start first) as Hr.
  { etrans; [apply (solo_paced _ 2), first_acquired_solo|]. apply rtc_once.
    apply (paced_dispatch _ _ (mkPaced _ first_acquired [])); [apply (batch_dispatch 7%nat [8%nat] [] 1)|reflexivity|].
    exists 0, 0. split; [reflexivity|cbn; lia]. }
  split.
  - split_and!; [exact H0|exact Hr|].
    destruct (paced_batch None (Some rate_1000) [7%nat; 8%nat] 1 (Some (mkLimiter 1000000)) start first)
      as (_ & _ & Hlen & _); [lia|by intros ? ? [=]|exact H0|exact Hr|exact Hlen].
  - destruct (paced_batch None (Some rate_1000) [7%nat; 8%nat] 1 (Some (mkLimiter 1000000)) stream stream)
      as (_ & _ & _ & _ & Hend & _); [lia|by intros ? ? [=]|vm_compute; reflexivity|apply rtc_refl|].
    apply Hend; [lia|]. intros c. exists (Ok c). reflexivity.
Defined.
