(* ===== verification/Wire.v ===== *)
(** * A byte stream and the computations over it

    What a [tokio] TCP stream shows the program: the peer's bytes arrive in
    chunks, then the stream ends or fails; each write succeeds, or fails with some of its
    bytes sent.  A
    computation threads the stream and may return an error. *)
From S2P Require Import Prelude ClientError.

Record Tcp := mkTcp {
  chunks : list bytes;                 (* still to be read *)
  at_end : option bytes;               (* after the chunks: end of stream, or an error's text *)
  write_results : list (option (nat * bytes)); (* the coming writes: success, or an error's text
                                                  after so many bytes; success when exhausted *)
  sent : bytes                         (* everything written *)
}.

(** The peer's remaining bytes, however they are cut. *)
Definition pending (t : Tcp) : bytes := concat t.(chunks).

Definition io (A : Type) : Type := Tcp → exec ClientError A * Tcp.

#[export] Instance io_ret : MRet io := λ _ a t, (Ok a, t).
#[export] Instance io_bind : MBind io := λ _ _ k m t,
  match m t with
  | (Ok a, t) => k a t
  | (Err e, t) => (Err e, t)
  | (Panic, t) => (Panic, t)
  end.

Definition io_err {A} (e : ClientError) : io A := λ t, (Err e, t).
Definition io_lift {A} (r : exec ClientError A) : io A := λ t, (r, t).

(** [write_all(data)]; [ctx] wraps the error's text. *)
Definition write_all (ctx : bytes) (data : bytes) : io () := λ t,
  match t.(write_results) with
  | Some (n, e) :: ws => (Err (err_connection (ctx ++ e)), mkTcp t.(chunks) t.(at_end) ws (t.(sent) ++ take n data))
  | None :: ws => (Ok tt, mkTcp t.(chunks) t.(at_end) ws (t.(sent) ++ data))
  | [] => (Ok tt, mkTcp t.(chunks) t.(at_end) [] (t.(sent) ++ data))
  end.

(** [read(&mut buf)] with room for [cap] bytes: at most the next chunk; the empty
    result is the end of the stream. *)
Definition read (ctx : bytes) (cap : Z) : io bytes := λ t,
  match t.(chunks) with
  | c :: cs =>
      let n := Z.to_nat cap in
      let cs' := match drop n c with [] => cs | rest => rest :: cs end in
      (Ok (take n c), mkTcp cs' t.(at_end) t.(write_results) t.(sent))
  | [] =>
      match t.(at_end) with
      | None => (Ok [], t)
      | Some e => (Err (err_connection (ctx ++ e)), t)
      end
  end.

(** [read_exact]: all of [n] bytes, across chunks. *)
Fixpoint take_exact (n : nat) (cs : list bytes) : option (bytes * list bytes) :=
  match n, cs with
  | O, _ => Some ([], cs)
  | _, [] => None
  | _, c :: cs =>
      if bool_decide (n < length c)%nat then Some (take n c, drop n c :: cs)
      else '(rest, cs) ← take_exact (n - length c) cs; Some (c ++ rest, cs)
  end.

(** The text of [UnexpectedEof]. *)
Definition early_eof : bytes := bs "early eof".

Definition read_exact (ctx : bytes) (n : Z) : io bytes := λ t,
  match take_exact (Z.to_nat n) t.(chunks) with
  | Some (b, cs) => (Ok b, mkTcp cs t.(at_end) t.(write_results) t.(sent))
  | None => (Err (err_connection (ctx ++ default early_eof t.(at_end))),
             mkTcp [] t.(at_end) t.(write_results) t.(sent))
  end.

(** ** Lemmas *)

Lemma io_bind_ok {A B} (m : io A) (k : A → io B) t a t' : m t = (Ok a, t') → (m ≫= k) t = k a t'.
Proof. unfold mbind, io_bind. by intros ->. Qed.

Lemma io_bind_err {A B} (m : io A) (k : A → io B) t e t' : m t = (Err e, t') → (m ≫= k) t = (Err e, t').
Proof. unfold mbind, io_bind. by intros ->. Qed.

(** Reading [n] bytes is independent of how they were cut. *)
Lemma take_exact_spec n cs : (n ≤ length (concat cs))%nat →
  ∃ cs', take_exact n cs = Some (take n (concat cs), cs') ∧ concat cs' = drop n (concat cs).
Proof.
  revert n. induction cs as [|c cs IH]; intros n Hn.
  - cbn in Hn. replace n with 0%nat by lia. by exists [].
  - destruct n as [|n]; [by exists (c :: cs)|]. cbn [take_exact concat] in *. rewrite length_app in Hn.
    destruct (bool_decide (S n < length c)%nat) eqn:E.
    + apply bool_decide_eq_true in E. exists (drop (S n) c :: cs).
      rewrite take_app_le, drop_app_le by lia. done.
    + apply bool_decide_eq_false in E. destruct (IH (S n - length c)%nat ltac:(lia)) as (cs' & -> & Hc).
      exists cs'. cbn [mbind option_bind]. rewrite take_app_ge, drop_app_ge by lia. done.
Qed.

Lemma read_exact_ok ctx n t data rest :
  pending t = data ++ rest → zlen data = n →
  ∃ t', read_exact ctx n t = (Ok data, t') ∧ pending t' = rest ∧ sent t' = sent t ∧
    at_end t' = at_end t ∧ write_results t' = write_results t.
Proof.
  unfold pending. intros Hp Hn. unfold zlen in Hn. unfold read_exact.
  destruct (take_exact_spec (Z.to_nat n) t.(chunks)) as (cs' & -> & Hc); [rewrite Hp, length_app; lia|].
  rewrite Hp in *. rewrite take_app_exact by lia. rewrite drop_app_exact in Hc by lia.
  eexists. split; [done|]. by cbn.
Qed.

Lemma read_exact_no_panic ctx n t : is_panic (read_exact ctx n t).1 = false.
Proof. unfold read_exact. by destruct (take_exact _ _) as [[? ?]|]. Qed.

(** Writes that succeed. *)
Lemma write_all_ok ctx data t : write_results t = [] →
  write_all ctx data t = (Ok tt, mkTcp (chunks t) (at_end t) [] (sent t ++ data)).
Proof. intros H. unfold write_all. by rewrite H. Qed.
