(* ===== verification/Proxy.v ===== *)
(** * Proxy handshakes (src/client/proxy.rs)

    The proxy URL parser, HTTP CONNECT and SOCKS5 over a byte stream.  The
    properties: the tunnel starts exactly where the reply ends, what is sent is
    what RFC 1928, 1929 and 9110 describe, and the verdict does not depend on
    how the network cuts the reply. *)
From S2P Require Import Prelude RustStd NetAddr ClientError Wire.

(** ** Proxy URLs *)

Inductive ProxyScheme := Http | Socks5.

#[export] Instance ProxyScheme_eq_dec : EqDecision ProxyScheme.
Proof. solve_decision. Defined.

Record ProxyConfig := mkProxyConfig {
  scheme : ProxyScheme;
  p_host : bytes;
  p_port : Z;
  username : option bytes;
  password : option bytes
}.

Definition parse_scheme (scheme_str : bytes) : exec ClientError ProxyScheme :=
  let s := to_ascii_lowercase scheme_str in
  if bool_decide (s = bs "http") then Ok Http
  else if bool_decide (s = bs "socks5") || bool_decide (s = bs "socks5h") then Ok Socks5
  else Err (err_other (bs "unsupported proxy scheme '" ++ s ++ bs "'; use http:// or socks5://")).

Definition default_port (s : ProxyScheme) : Z := match s with Http => 8080 | Socks5 => 1080 end.

Definition parse_host_port (proxy_url hostport : bytes) (s : ProxyScheme) : exec ClientError (bytes * Z) :=
  match rsplit_once (ch ":") hostport with
  | Some (h, p) =>
      port ← ok_or (parse_u16 p)
               (err_other (bs "invalid proxy port '" ++ p ++ bs "' in " ++ proxy_url));
      Ok (h, port)
  | None => Ok (hostport, default_port s)
  end.

Definition parse_userinfo (userinfo : option bytes) : option bytes * option bytes :=
  match userinfo with
  | Some u =>
      match split_once (ch ":") u with
      | Some (user, pass) => (Some user, Some pass)
      | None => (Some u, None)
      end
  | None => (None, None)
  end.

Definition parse_proxy_url (proxy_url : bytes) : exec ClientError ProxyConfig :=
  '(scheme_str, rest) ← ok_or (split_once_str (bs "://") proxy_url)
                          (err_other (bs "invalid proxy URL (missing '://'): " ++ proxy_url));
  scheme ← parse_scheme scheme_str;
  let '(userinfo, hostport_rest) := match split_once (ch "@") rest with
                                    | Some (u, h) => (Some u, h)
                                    | None => (None, rest)
                                    end in
  let hostport := default hostport_rest (head (split (ch "/") hostport_rest)) in
  let '(username, password) := parse_userinfo userinfo in
  '(host, port) ← parse_host_port proxy_url hostport scheme;
  if bool_decide (host = []) then
    Err (err_other (bs "invalid proxy URL (empty host): " ++ proxy_url))
  else Ok (mkProxyConfig scheme host port username password).

(** ** HTTP CONNECT *)

Definition crlf : bytes := [13; 10].

Fixpoint find_crlf_crlf_at (buf : bytes) (i : Z) : option Z :=
  if starts_with buf (crlf ++ crlf) then Some i
  else match buf with [] => None | _ :: buf => find_crlf_crlf_at buf (i + 1) end.
Definition find_crlf_crlf (buf : bytes) : option Z := find_crlf_crlf_at buf 0.

(** Everything before the first CR or LF. *)
Fixpoint status_line_of (response : bytes) : bytes :=
  match response with
  | [] => []
  | b :: response => if (b =? 13) || (b =? 10) then [] else b :: status_line_of response
  end.

(** [splitn(3, ' ')]. *)
Definition splitn3 (line : bytes) : list bytes :=
  match split_once (ch " ") line with
  | None => [line]
  | Some (a, rest) => match split_once (ch " ") rest with
                      | None => [a; rest]
                      | Some (b, c) => [a; b; c]
                      end
  end.

Definition connect_request (target_host : bytes) (target_port : Z) : bytes :=
  let authority := target_host ++ bs ":" ++ dec target_port in
  bs "CONNECT " ++ authority ++ bs " HTTP/1.1" ++ crlf ++ bs "Host: " ++ authority ++ crlf ++ crlf.

Definition BUF_LEN : Z := 8192.

(** The read loop, on the bytes read so far.  Every read yields a byte, so
    [BUF_LEN] rounds suffice; the exhausted fuel is shown unreachable. *)
Fixpoint connect_read (fuel : nat) (buf : bytes) : io bytes :=
  match fuel with
  | O => io_lift Panic
  | S fuel =>
      if bool_decide (zlen buf >= BUF_LEN) then
        io_err (err_connection (bs "proxy CONNECT response exceeded 8KB"))
      else
        got ← read (bs "proxy CONNECT read failed: ") (BUF_LEN - zlen buf);
        if bool_decide (got = []) then
          io_err (err_connection (bs "proxy closed connection during CONNECT"))
        else
          let buf := buf ++ got in
          if find_crlf_crlf buf then mret buf else connect_read fuel buf
  end.

Section messages.
(** The rendering of raw bytes in error messages. *)
Context (lossy debug_lossy : bytes → bytes).

(** The verdict on a response.  Bytes that are not UTF-8 are no digits either, so
    the decoding of the status field needs no case of its own. *)
Definition connect_verdict (target_host : bytes) (target_port : Z) (response : bytes)
    : exec ClientError () :=
  let status_line := status_line_of response in
  match splitn3 status_line with
  | _ :: code :: _ =>
      status_code ← ok_or (parse_u16 code)
        (err_connection (bs "proxy returned unparseable status code: " ++ debug_lossy code));
      if bool_decide (status_code ≠ 200) then
        Err (err_connection (bs "proxy rejected CONNECT to " ++ target_host ++ bs ":" ++ dec target_port
             ++ bs " with status: " ++ lossy status_line))
      else Ok tt
  | _ => Err (err_connection (bs "proxy returned malformed CONNECT response: " ++ debug_lossy status_line))
  end.

Definition perform_http_connect (target_host : bytes) (target_port : Z) : io () :=
  write_all (bs "proxy CONNECT write failed: ") (connect_request target_host target_port);;
  response ← connect_read (S (Z.to_nat BUF_LEN)) [];
  io_lift (connect_verdict target_host target_port response).
End messages.

(** ** SOCKS5 *)

Definition hex_digit (d : Z) : Z := if d <? 10 then 48 + d else 87 + d.
(** [{:02x}] of a byte. *)
Definition hex2 (b : Z) : bytes := [hex_digit (b / 16); hex_digit (b mod 16)].

Definition socks5_error_text (code : Z) : bytes :=
  if code =? 0x01 then bs "general SOCKS server failure"
  else if code =? 0x02 then bs "connection not allowed by ruleset"
  else if code =? 0x03 then bs "network unreachable"
  else if code =? 0x04 then bs "host unreachable"
  else if code =? 0x05 then bs "connection refused"
  else if code =? 0x06 then bs "TTL expired"
  else if code =? 0x07 then bs "command not supported"
  else if code =? 0x08 then bs "address type not supported"
  else bs "unknown SOCKS5 error".

Definition byte0 (b : bytes) : Z := nth 0 b 0.
Definition byte1 (b : bytes) : Z := nth 1 b 0.
Definition byte3 (b : bytes) : Z := nth 3 b 0.

Definition socks5_greeting (has_creds : bool) : bytes :=
  let offered := if has_creds then [0x00; 0x02] else [0x00] in
  [0x05; u8 (zlen offered)] ++ offered.

Definition no_creds : ClientError :=
  err_connection (bs "SOCKS5 proxy required username/password but none provided").

(** Username/password sub-negotiation (RFC 1929). *)
Definition socks5_auth (username password : option bytes) : io () :=
  u ← io_lift (ok_or username no_creds);
  p ← io_lift (ok_or password no_creds);
  if bool_decide (zlen u > 255) || bool_decide (zlen p > 255) then
    io_err (err_connection (bs "SOCKS5 username/password must be <=255 bytes each"))
  else
    write_all (bs "SOCKS5 auth write failed: ") ([0x01; u8 (zlen u)] ++ u ++ [u8 (zlen p)] ++ p);;
    auth_reply ← read_exact (bs "SOCKS5 auth read failed: ") 2;
    if bool_decide (byte1 auth_reply ≠ 0x00) then
      io_err (err_connection (bs "SOCKS5 username/password auth rejected (status 0x" ++ hex2 (byte1 auth_reply) ++ bs ")"))
    else mret tt.

(** Greeting and choice of method. *)
Definition socks5_negotiate (username password : option bytes) : io () :=
  let has_creds := bool_decide (is_Some username) && bool_decide (is_Some password) in
  write_all (bs "SOCKS5 greeting write failed: ") (socks5_greeting has_creds);;
  chosen ← read_exact (bs "SOCKS5 greeting read failed: ") 2;
  if bool_decide (byte0 chosen ≠ 0x05) then
    io_err (err_connection (bs "SOCKS5 invalid version in greeting reply: 0x" ++ hex2 (byte0 chosen)))
  else if bool_decide (byte1 chosen = 0x00) then mret tt
  else if bool_decide (byte1 chosen = 0x02) then socks5_auth username password
  else if bool_decide (byte1 chosen = 0xff) then
    io_err (err_connection (bs "SOCKS5 proxy rejected all offered authentication methods"))
  else io_err (err_connection (bs "SOCKS5 proxy selected unexpected auth method: 0x" ++ hex2 (byte1 chosen))).

(** The CONNECT request: VER CMD RSV ATYP DST.ADDR DST.PORT. *)
Definition socks5_address (target_host : bytes) : exec ClientError bytes :=
  match parse_ipv4 target_host with
  | Some ipv4 => Ok (0x01 :: ipv4)
  | None =>
      match parse_ipv6 target_host with
      | Some ipv6 => Ok (0x04 :: v6_octets ipv6)
      | None =>
          if bool_decide (zlen target_host > 255) then
            Err (err_connection (bs "SOCKS5 target hostname must be <=255 bytes"))
          else Ok ([0x03; u8 (zlen target_host)] ++ target_host)
      end
  end.

Definition socks5_connect (target_host : bytes) (target_port : Z) : io () :=
  addr ← io_lift (socks5_address target_host);
  write_all (bs "SOCKS5 connect write failed: ") ([0x05; 0x01; 0x00] ++ addr ++ be16 target_port);;
  hdr ← read_exact (bs "SOCKS5 connect read failed: ") 4;
  if bool_decide (byte0 hdr ≠ 0x05) then
    io_err (err_connection (bs "SOCKS5 invalid version in connect reply: 0x" ++ hex2 (byte0 hdr)))
  else if bool_decide (byte1 hdr ≠ 0x00) then
    io_err (err_connection (bs "SOCKS5 CONNECT to " ++ target_host ++ bs ":" ++ dec target_port
            ++ bs " failed: " ++ socks5_error_text (byte1 hdr)))
  else
    let atyp := byte3 hdr in
    addr_len ←
      (if bool_decide (atyp = 0x01) then mret 4
       else if bool_decide (atyp = 0x04) then mret 16
       else if bool_decide (atyp = 0x03) then
         len_byte ← read_exact (bs "SOCKS5 reply read failed: ") 1; mret (byte0 len_byte)
       else io_err (err_connection (bs "SOCKS5 reply had unexpected ATYP: 0x" ++ hex2 atyp)));
    read_exact (bs "SOCKS5 reply drain failed: ") (addr_len + 2);;
    mret tt.

Definition perform_socks5 (target_host : bytes) (target_port : Z) (username password : option bytes) : io () :=
  socks5_negotiate username password;;
  socks5_connect target_host target_port.
