(* ===== verification/ProxyProps.v ===== *)
(** * Proxy handshakes: exact tunnels, RFC requests, chunk independence *)
From S2P Require Import Prelude RustStd NetAddr ClientError Wire Proxy.

(** ** SOCKS5 *)

(** The proxy's side of a successful exchange: RFC 1928 method choice, the RFC 1929
    answer when it chose credentials, and the reply with its bound address. *)
Inductive method_reply : bool → bytes → Prop :=
  | reply_no_auth creds : method_reply creds [0x05; 0x00]
  | reply_auth v : method_reply true [0x05; 0x02; v; 0x00].

Inductive bound_address : bytes → Prop :=
  | bound_v4 a : length a = 4%nat → bound_address (0x01 :: a)
  | bound_v6 a : length a = 16%nat → bound_address (0x04 :: a)
  | bound_name a : zlen a < 256 → bound_address (0x03 :: zlen a :: a).

Definition connect_reply (reply : bytes) : Prop :=
  ∃ rsv addr port, reply = [0x05; 0x00; rsv] ++ addr ++ port ∧ bound_address addr ∧ length port = 2%nat.

(** Whether the proxy chose credentials. *)
Definition chose_auth (reply : bytes) : bool := nth 1 reply 0 =? 0x02.

(** What the client must send (RFC 1928 sections 3 and 4, RFC 1929). *)
Definition socks5_client_bytes (auth : bool) (username password : option bytes) (addr : bytes) (port : Z) : bytes :=
  (match username, password with
   | Some _, Some _ => [0x05; 0x02; 0x00; 0x02]
   | _, _ => [0x05; 0x01; 0x00]
   end)
  ++ (if auth then
        let u := default [] username in let p := default [] password in
        [0x01; zlen u] ++ u ++ [zlen p] ++ p
      else [])
  ++ [0x05; 0x01; 0x00] ++ addr ++ be16 port.

(** A proxy's reading of the address and port of a request. *)
Inductive destination := DestV4 (a : bytes) | DestName (n : bytes) | DestV6 (a : bytes).

Definition read_destination (b : bytes) : option (destination * Z) :=
  match b with
  | 0x01 :: rest => if zlen rest =? 6 then Some (DestV4 (take 4 rest), be_value (drop 4 rest)) else None
  | 0x04 :: rest => if zlen rest =? 18 then Some (DestV6 (take 16 rest), be_value (drop 16 rest)) else None
  | 0x03 :: n :: rest =>
      if zlen rest =? n + 2 then Some (DestName (take (Z.to_nat n) rest), be_value (drop (Z.to_nat n) rest)) else None
  | _ => None
  end.

Definition destination_of (host : bytes) : destination :=
  match parse_ipv4 host with
  | Some a => DestV4 a
  | None => match parse_ipv6 host with
            | Some a => DestV6 (v6_octets a)
            | None => DestName host
            end
  end.

Lemma u8_len (s : bytes) : zlen s ≤ 255 → u8 (zlen s) = zlen s.
Proof. intros H. apply u8_small. unfold is_byte. pose proof (zlen_nonneg s). lia. Qed.

Lemma destination_read host addr port : socks5_address host = Ok addr → 0 ≤ port < 2 ^ 16 →
  read_destination (addr ++ be16 port) = Some (destination_of host, port).
Proof.
  unfold socks5_address, destination_of. intros Ha Hp.
  destruct (parse_ipv4 host) as [a|] eqn:E4.
  { injection Ha as <-. apply parse_ipv4_wf in E4 as [Hl _]. cbn [app read_destination].
    rewrite zlen_app. replace (zlen a + zlen (be16 port) =? 6) with true by (unfold zlen; rewrite Hl; done).
    rewrite take_app_exact, drop_app_exact, be16_value by (done || lia). done. }
  destruct (parse_ipv6 host) as [a|] eqn:E6.
  { injection Ha as <-. apply parse_ipv6_wf in E6 as [Hl _]. apply v6_octets_length in Hl. cbn [app read_destination].
    rewrite zlen_app. replace (zlen (v6_octets a) + zlen (be16 port) =? 18) with true by (unfold zlen; rewrite Hl; done).
    rewrite take_app_exact, drop_app_exact, be16_value by (done || lia). done. }
  destruct (bool_decide (zlen host > 255)) eqn:E; [done|]. apply bool_decide_eq_false in E. injection Ha as <-.
  cbn [app read_destination]. rewrite u8_len by lia. rewrite zlen_app. change (zlen (be16 port)) with 2.
  rewrite Z.eqb_refl. rewrite take_app_exact, drop_app_exact, be16_value by (unfold zlen; lia). done.
Qed.

(** A computation that succeeds, having consumed and sent the given bytes. *)
Definition runs {A} (m : io A) (consumed out : bytes) (a : A) : Prop :=
  ∀ t rest, write_results t = [] → pending t = consumed ++ rest →
    ∃ t', m t = (Ok a, t') ∧ pending t' = rest ∧ sent t' = sent t ++ out ∧ write_results t' = [].

Lemma runs_ret {A} (a : A) : runs (mret a) [] [] a.
Proof. intros t rest Hw Hp. exists t. rewrite app_nil_r. done. Qed.

Lemma runs_lift {A} (a : A) : runs (io_lift (Ok a)) [] [] a.
Proof. intros t rest Hw Hp. exists t. rewrite app_nil_r. done. Qed.

Lemma runs_bind {A B} (m : io A) (k : A → io B) c1 o1 c2 o2 a b :
  runs m c1 o1 a → runs (k a) c2 o2 b → runs (m ≫= k) (c1 ++ c2) (o1 ++ o2) b.
Proof.
  intros Hm Hk t rest Hw Hp. rewrite <- (assoc_L (++)) in Hp.
  destruct (Hm t (c2 ++ rest) Hw Hp) as (t1 & H1 & Hp1 & Hs1 & Hw1).
  destruct (Hk t1 rest Hw1 Hp1) as (t2 & H2 & Hp2 & Hs2 & Hw2).
  exists t2. rewrite (io_bind_ok m k t a t1 H1). split_and!; [done|done| |done].
  by rewrite Hs2, Hs1, (assoc_L (++)).
Qed.

Lemma runs_write ctx data : runs (write_all ctx data) [] data tt.
Proof.
  intros t rest Hw Hp. eexists. split; [by apply write_all_ok|]. by cbn.
Qed.

Lemma runs_read ctx n data : zlen data = n → runs (read_exact ctx n) data [] data.
Proof.
  intros Hn t rest Hw Hp. destruct (read_exact_ok ctx n t data rest Hp Hn) as (t' & H & Hp' & Hs & _ & Hw').
  exists t'. rewrite app_nil_r, Hw'. done.
Qed.

Lemma runs_eq {A} (m : io A) c o c' o' a : runs m c o a → c = c' → o = o' → runs m c' o' a.
Proof. by intros ? -> ->. Qed.

Lemma auth_runs u p v : zlen u ≤ 255 → zlen p ≤ 255 →
  runs (socks5_auth (Some u) (Some p)) [v; 0x00] ([0x01; zlen u] ++ u ++ [zlen p] ++ p) tt.
Proof.
  intros Hu Hp. unfold socks5_auth. cbn [ok_or].
  eapply runs_eq; [eapply runs_bind; [apply runs_lift|]; eapply runs_bind; [apply runs_lift|]|..].
  - rewrite (bool_decide_false (zlen u > 255)), (bool_decide_false (zlen p > 255)) by lia. cbn [orb].
    eapply runs_bind; [apply runs_write|]. eapply runs_bind; [by apply (runs_read _ 2 [v; 0])|].
    rewrite bool_decide_false by (by intros []). apply runs_ret.
  - done.
  - cbn [app]. rewrite !u8_len by lia. by rewrite app_nil_r.
Qed.

Lemma negotiate_runs username password reply :
  method_reply (bool_decide (is_Some username) && bool_decide (is_Some password)) reply →
  (∀ u, username = Some u → zlen u ≤ 255) → (∀ p, password = Some p → zlen p ≤ 255) →
  runs (socks5_negotiate username password) reply
    ((match username, password with Some _, Some _ => [0x05; 0x02; 0x00; 0x02] | _, _ => [0x05; 0x01; 0x00] end)
     ++ (if chose_auth reply then
           let u := default [] username in let p := default [] password in [0x01; zlen u] ++ u ++ [zlen p] ++ p
         else [])) tt.
Proof.
  intros Hr Hu Hp. unfold socks5_negotiate.
  remember (bool_decide (is_Some username) && bool_decide (is_Some password)) as creds eqn:Hc.
  assert (socks5_greeting creds = match username, password with
    Some _, Some _ => [0x05; 0x02; 0x00; 0x02] | _, _ => [0x05; 0x01; 0x00] end) as Hg.
  { subst creds. by destruct username, password. }
  rewrite <- Hg. destruct Hr as [creds|v].
  - eapply runs_eq; [eapply runs_bind; [apply runs_write|]; eapply runs_bind;
      [by apply (runs_read _ 2 [0x05; 0x00])|]; apply runs_ret|done|by cbn].
  - symmetry in Hc. apply andb_true_iff in Hc as [[u ->]%bool_decide_eq_true [p ->]%bool_decide_eq_true].
    eapply runs_eq; [eapply runs_bind; [apply runs_write|]; eapply runs_bind;
      [by apply (runs_read _ 2 [0x05; 0x02])|]; apply (auth_runs u p v); auto|done|by cbn].
Qed.

Lemma connect_runs host port addr reply :
  socks5_address host = Ok addr → connect_reply reply →
  runs (socks5_connect host port) reply ([0x05; 0x01; 0x00] ++ addr ++ be16 port) tt.
Proof.
  intros Ha (rsv & baddr & bport & -> & Hb & Hl). unfold socks5_connect. rewrite Ha.
  assert (∀ atyp more n (k : io Z), baddr = atyp :: more →
    (∃ pre post, more = pre ++ post ∧ zlen post = n ∧ runs k pre [] n) →
    (if bool_decide (atyp = 0x01) then mret 4
     else if bool_decide (atyp = 0x04) then mret 16
     else if bool_decide (atyp = 0x03) then
       len_byte ← read_exact (bs "SOCKS5 reply read failed: ") 1; mret (byte0 len_byte)
     else io_err (err_connection (bs "SOCKS5 reply had unexpected ATYP: 0x" ++ hex2 atyp))) = k →
    runs (_ ← write_all (bs "SOCKS5 connect write failed: ") ([0x05; 0x01; 0x00] ++ addr ++ be16 port);
          hdr ← read_exact (bs "SOCKS5 connect read failed: ") 4;
          if bool_decide (byte0 hdr ≠ 0x05) then
            io_err (err_connection (bs "SOCKS5 invalid version in connect reply: 0x" ++ hex2 (byte0 hdr)))
          else if bool_decide (byte1 hdr ≠ 0x00) then
            io_err (err_connection (bs "SOCKS5 CONNECT to " ++ host ++ bs ":" ++ dec port
                    ++ bs " failed: " ++ socks5_error_text (byte1 hdr)))
          else
            let atyp := byte3 hdr in
            addr_len ←
              (if bool_decide (atyp = 0x01) then mret 4
               else if bool_decide (atyp = 0x04) then mret 16
               else if bool_decide (atyp = 0x03) then
                 len_byte ← read_exact (bs "SOCKS5 reply read failed: ") 1; mret (byte0 len_byte)
               else io_err (err_connection (bs "SOCKS5 reply had unexpected ATYP: 0x" ++ hex2 atyp)));
            read_exact (bs "SOCKS5 reply drain failed: ") (addr_len + 2);; mret tt)
      ([0x05; 0x00; rsv] ++ baddr ++ bport) ([0x05; 0x01; 0x00] ++ addr ++ be16 port) tt) as Hgen.
  { intros atyp more n k -> (pre & post & -> & Hn & Hk) <-.
    eapply runs_eq; [eapply runs_bind; [apply runs_write|]; eapply runs_bind;
      [by apply (runs_read _ 4 [0x05; 0x00; rsv; atyp])|]|..].
    - rewrite bool_decide_false by (by intros []). rewrite bool_decide_false by (by intros []).
      eapply runs_bind; [exact Hk|]. eapply runs_bind; [apply (runs_read _ _ (post ++ bport))|apply runs_ret].
      rewrite zlen_app, Hn. unfold zlen. rewrite Hl. done.
    - cbn [app]. by rewrite app_nil_r, <- !(assoc_L (++)).
    - by rewrite !app_nil_r. }
  eapply runs_eq; [eapply runs_bind; [apply runs_lift|]|cbn [app]; reflexivity|cbn [app]; reflexivity].
  destruct Hb as [a Hla|a Hla|a Hla].
  - eapply Hgen; [reflexivity| |reflexivity]. exists [], a. split_and!; [done|unfold zlen; by rewrite Hla|apply runs_ret].
  - eapply Hgen; [reflexivity| |reflexivity]. exists [], a. split_and!; [done|unfold zlen; by rewrite Hla|apply runs_ret].
  - eapply (Hgen 0x03 (zlen a :: a) (zlen a)); [reflexivity| |reflexivity]. exists [zlen a], a.
    split_and!; [done|done|]. eapply runs_eq; [eapply runs_bind; [by apply (runs_read _ 1 [zlen a])|apply runs_ret]|done|done].
Qed.

(** C39: with a proxy that follows the protocol, whatever reply form and method
    it picks and however its bytes are cut into chunks, the handshake succeeds,
    leaves the stream exactly at the first tunnelled byte, and has sent exactly
    the RFC 1928/1929 messages, in which the proxy reads the requested address
    (literal IPv4 or IPv6, or the name) and port. *)
Theorem socks5_tunnel_exact (host addr : bytes) (port : Z) (username password : option bytes)
    (methods reply tunnel : bytes) (t : Tcp) :
  socks5_address host = Ok addr → 0 ≤ port < 2 ^ 16 →
  (∀ u, username = Some u → zlen u ≤ 255) → (∀ p, password = Some p → zlen p ≤ 255) →
  method_reply (bool_decide (is_Some username) && bool_decide (is_Some password)) methods →
  connect_reply reply →
  write_results t = [] → pending t = methods ++ reply ++ tunnel →
  read_destination (addr ++ be16 port) = Some (destination_of host, port) ∧
  ∃ t', perform_socks5 host port username password t = (Ok tt, t') ∧ pending t' = tunnel ∧
    sent t' = sent t ++ socks5_client_bytes (chose_auth methods) username password addr port.
Proof.
  intros Ha Hport Hu Hp Hm Hr Hw Hpend. split; [by apply destination_read|].
  pose proof (runs_bind (socks5_negotiate username password) (λ _, socks5_connect host port) _ _ _ _ _ _
    (negotiate_runs _ _ _ Hm Hu Hp) (connect_runs host port addr reply Ha Hr)) as H.
  destruct (H t tunnel Hw) as (t' & Hrun & Hp' & Hs & _); [by rewrite <- (assoc_L (++))|].
  exists t'. split_and!; [done|done|]. rewrite Hs. unfold socks5_client_bytes. by rewrite <- !(assoc_L (++)).
Qed.

Lemma socks5_tunnel_exact_witness :
  read_destination ([3; 6] ++ bs "a.corp" ++ be16 443) = Some (destination_of (bs "a.corp"), 443) ∧
  ∃ t', perform_socks5 (bs "a.corp") 443 (Some (bs "me")) (Some (bs "pw"))
          (mkTcp [[5; 2; 1]; [0; 5; 0; 0; 3; 1]; [120; 9; 9; 22; 3]] None [] []) = (Ok tt, t') ∧
    pending t' = [22; 3] ∧
    sent t' = [] ++ socks5_client_bytes true (Some (bs "me")) (Some (bs "pw")) ([3; 6] ++ bs "a.corp") 443.
Proof.
  apply (socks5_tunnel_exact (bs "a.corp") ([3; 6] ++ bs "a.corp") 443 (Some (bs "me")) (Some (bs "pw"))
    [5; 2; 1; 0] [5; 0; 0; 3; 1; 120; 9; 9] [22; 3]).
  - vm_compute. reflexivity.
  - lia.
  - intros u [= <-]. vm_compute. discriminate.
  - intros p [= <-]. vm_compute. discriminate.
  - apply (reply_auth 1).
  - exists 0, [3; 1; 120], [9; 9]. split; [reflexivity|]. split; [|reflexivity].
    apply (bound_name [120]). vm_compute. reflexivity.
  - reflexivity.
  - reflexivity.
Defined.

(** ** HTTP CONNECT *)

Definition has_terminator (b : bytes) : Prop := ∃ a c, b = a ++ (crlf ++ crlf) ++ c.

Lemma find_crlf_crlf_spec b : is_Some (find_crlf_crlf b) ↔ has_terminator b.
Proof.
  unfold find_crlf_crlf, has_terminator. generalize 0. induction b as [|x b IH]; intros i; cbn [find_crlf_crlf_at].
  - split; [by intros [? ?]|]. intros (a & c & H). by destruct a.
  - destruct (starts_with (x :: b) (crlf ++ crlf)) eqn:E.
    + apply starts_with_spec in E as [k ->]. split; [intros _; by exists [], k|eauto].
    + rewrite IH. split.
      * intros (a & c & ->). by exists (x :: a), c.
      * intros (a & c & H). destruct a as [|y a].
        { exfalso. assert (starts_with (x :: b) (crlf ++ crlf) = true) by (apply starts_with_spec; by exists c). congruence. }
        injection H as -> ->. by exists a, c.
Qed.

Lemma terminator_more b more : has_terminator b → has_terminator (b ++ more).
Proof. intros (a & c & ->). exists a, (c ++ more). by rewrite <- !(assoc_L (++)). Qed.

Lemma status_line_more b more : has_terminator b → status_line_of (b ++ more) = status_line_of b.
Proof.
  intros (a & c & ->). induction a as [|x a IH]; [done|]. cbn [app status_line_of].
  destruct ((x =? 13) || (x =? 10)); [done|]. by f_equal.
Qed.

Lemma verdict_more lossy debug_lossy host port b more : has_terminator b →
  connect_verdict lossy debug_lossy host port (b ++ more) = connect_verdict lossy debug_lossy host port b.
Proof. intros H. unfold connect_verdict. by rewrite status_line_more. Qed.

Lemma connect_verdict_kind lossy debug_lossy host port b :
  match connect_verdict lossy debug_lossy host port b with
  | Ok _ => True | Err e => kind e = Connection | Panic => False end.
Proof.
  unfold connect_verdict. destruct (splitn3 _) as [|? [|code ?]]; try done.
  destruct (parse_u16 code); cbn; [|done]. by case_bool_decide.
Qed.

(** *** What counts as a 200

    The first line has a first word and, after one blank, a second one that is the number
    200 as a Rust [u16] is written: a sign and leading zeros are allowed. *)
Definition written_200 (code : bytes) : Prop :=
  ∃ sign zeros, (sign = [] ∨ sign = bs "+") ∧ code = sign ++ replicate zeros (ch "0") ++ bs "200".
Definition word (s : bytes) : Prop := Forall (λ b, b ≠ 32 ∧ b ≠ 13 ∧ b ≠ 10) s.
Definition answers_200 (response : bytes) : Prop :=
  ∃ version code rest, response = version ++ bs " " ++ code ++ rest ∧ word version ∧ word code ∧
    (rest = [] ∨ ∃ b more, rest = b :: more ∧ (b = 32 ∨ b = 13 ∨ b = 10)) ∧ written_200 code.

Lemma digits_value_ge s acc v : 0 ≤ acc → digits_value s acc = Some v → acc * 10 ^ zlen s ≤ v.
Proof.
  revert acc. induction s as [|c s IH]; intros acc Ha; cbn [digits_value]; [intros [= <-]; change (zlen []) with 0; lia|].
  destruct (is_digit c) eqn:Ed; [|done]. unfold is_digit in Ed. intros H%IH; [|lia]. rewrite zlen_cons.
  pose proof (zlen_nonneg s). replace (1 + zlen s) with (Z.succ (zlen s)) by lia. rewrite Z.pow_succ_r by lia.
  assert (0 < 10 ^ zlen s) by (apply Z.pow_pos_nonneg; lia). nia.
Qed.

(** Leading zeros do not count; behind them the text is determined. *)
Lemma digits_value_200 s : digits_value s 0 = Some 200 ↔ ∃ zeros, s = replicate zeros (ch "0") ++ bs "200".
Proof.
  split.
  - induction s as [|c s IH]; cbn [digits_value]; [done|]. destruct (is_digit c) eqn:Ed; [|done].
    destruct (Z.eqb_spec c (ch "0")) as [->|Hc].
    { intros H. destruct (IH H) as [n ->]. by exists (S n). }
    change (ch "0") with 48 in Hc. unfold is_digit in Ed. intros H. exists 0%nat. cbn [replicate app].
    assert (∃ a b, s = [a; b]) as (a & b & ->).
    { assert (0 ≤ 0 * 10 + (c - 48)) as H0 by lia. pose proof (digits_value_ge _ _ _ H0 H) as Hg. destruct s as [|a [|b [|d s]]].
      - cbn in H. injection H as H. lia.
      - cbn in H. destruct (is_digit a) eqn:Ea; [|done]. unfold is_digit in Ea. injection H as H. lia.
      - eauto.
      - exfalso. rewrite !zlen_cons in Hg. pose proof (zlen_nonneg s).
        assert (10 ^ 3 ≤ 10 ^ (1 + (1 + (1 + zlen s)))) by (apply Z.pow_le_mono_r; lia). nia. }
    cbn in H. destruct (is_digit a) eqn:Ea; [|done]. destruct (is_digit b) eqn:Eb; [|done].
    unfold is_digit in Ea, Eb. injection H as H. change (bs "200") with [50; 48; 48]. repeat f_equal; lia.
  - intros [zeros ->]. induction zeros as [|n IH]; [done|]. exact IH.
Qed.

Lemma parse_u16_200 code : parse_u16 code = Some 200 ↔ written_200 code.
Proof.
  assert (∀ s, (digits_value s 0 ≫= in_range 0 u16_max) = Some 200 ↔ ∃ zeros, s = replicate zeros (ch "0") ++ bs "200") as Hd.
  { intros s. rewrite <- digits_value_200. destruct (digits_value s 0) as [v|]; [|done].
    cbn [mbind option_bind]. unfold in_range, u16_max. case_match eqn:E; [tauto|]. split; [done|]. by intros [= ->]. }
  unfold parse_u16, parse_unsigned, written_200. destruct code as [|c rest].
  { split; [done|]. by intros ([|? ?] & [|n] & [?|?] & ?). }
  destruct (Z.eqb_spec c 43) as [->|Hc].
  - split.
    + case_bool_decide; [done|]. intros [z ->]%Hd. exists (bs "+"), z. split; [by right|done].
    + intros (sign & z & [->| ->] & H).
      { exfalso. destruct z; cbn in H; by injection H. }
      injection H as ->. rewrite bool_decide_false by (by destruct z). apply Hd. eauto.
  - rewrite Hd. split; [intros [z ->]; exists [], z; split; [by left|done]|].
    intros (sign & z & [->| ->] & H); [by exists z|]. injection H as -> _. done.
Qed.

Lemma status_line_split response : ∃ rest, response = status_line_of response ++ rest ∧
  Forall (λ b, b ≠ 13 ∧ b ≠ 10) (status_line_of response) ∧ (rest = [] ∨ ∃ b more, rest = b :: more ∧ (b = 13 ∨ b = 10)).
Proof.
  induction response as [|b r (rest & Hr & Hf & Hd)]; [exists []; by repeat constructor|]. cbn [status_line_of].
  destruct (Z.eqb_spec b 13) as [->|H13]; [exists (13 :: r); split_and!; [done|constructor|right; by exists 13, r; auto]|].
  destruct (Z.eqb_spec b 10) as [->|H10]; [exists (10 :: r); split_and!; [done|constructor|right; by exists 10, r; auto]|]. cbn [orb]. exists rest.
  split_and!; [cbn; by f_equal|by constructor|done].
Qed.

Lemma status_line_of_app line rest : Forall (λ b, b ≠ 13 ∧ b ≠ 10) line →
  (rest = [] ∨ ∃ b more, rest = b :: more ∧ (b = 13 ∨ b = 10)) → status_line_of (line ++ rest) = line.
Proof.
  intros Hl Hr. induction Hl as [|b line [H1 H2] _ IH]; cbn [app status_line_of].
  - destruct Hr as [->|(b & more & -> & [->| ->])]; done.
  - rewrite (proj2 (Z.eqb_neq b 13)), (proj2 (Z.eqb_neq b 10)) by done. cbn. by f_equal.
Qed.

Lemma word_no_blank s : word s → ch " " ∉ s ∧ Forall (λ b, b ≠ 13 ∧ b ≠ 10) s.
Proof.
  intros Hw. split; [|by eapply Forall_impl; [exact Hw|]; intros b [_ ?]]. intros Hin. unfold word in Hw.
  rewrite Forall_forall in Hw. by destruct (Hw _ Hin).
Qed.
Lemma word_intro s : ch " " ∉ s → Forall (λ b, b ≠ 13 ∧ b ≠ 10) s → word s.
Proof.
  intros Hn Hf. unfold word. rewrite Forall_forall in *. intros b Hb. destruct (Hf b Hb). split_and!; [|done..].
  intros ->. by apply Hn.
Qed.

Lemma app_cons_inj (c : Z) a b r t : a ++ c :: r = b ++ c :: t → c ∉ a → c ∉ b → a = b ∧ r = t.
Proof.
  intros He Ha Hb. assert (split_once c (a ++ c :: r) = Some (b, t)) as H by by apply split_once_spec.
  rewrite (proj2 (split_once_spec _ _ _ _) (conj eq_refl Ha)) in H. by injection H.
Qed.

Lemma connect_verdict_200 lossy debug_lossy host port response :
  connect_verdict lossy debug_lossy host port response = Ok tt ↔ answers_200 response.
Proof.
  unfold connect_verdict, answers_200. set (line := status_line_of response).
  assert ((∃ a code ps, splitn3 line = a :: code :: ps ∧ parse_u16 code = Some 200) ↔
    ∃ version code rest, line = version ++ bs " " ++ code ++ rest ∧ ch " " ∉ version ∧ ch " " ∉ code ∧
      (rest = [] ∨ ∃ more, rest = ch " " :: more) ∧ written_200 code) as Hs.
  { unfold splitn3. destruct (split_once (ch " ") line) as [[a r]|] eqn:E1.
    - apply split_once_spec in E1 as [E1 Ha]. destruct (split_once (ch " ") r) as [[b c]|] eqn:E2.
      + apply split_once_spec in E2 as [-> Hb]. split.
        * intros (? & ? & ? & [= <- <- <-] & Hp). exists a, b, (ch " " :: c).
          split_and!; [by rewrite E1|done|done|by eauto|by apply parse_u16_200].
        * intros (v & code & rest & He & Hv & Hc & Hr & Hp). rewrite E1 in He. change (bs " ") with [ch " "] in He.
          cbn [app] in He. apply app_cons_inj in He as [<- He]; [|done..].
          destruct Hr as [->|[more ->]]; [rewrite app_nil_r in He; subst; set_solver|].
          apply app_cons_inj in He as [<- <-]; [|done..]. eexists _, _, _. split; [done|]. by apply parse_u16_200.
      + apply split_once_none in E2. split.
        * intros (? & ? & ? & [= <- <- <-] & Hp). exists a, r, [].
          split_and!; [by rewrite E1, app_nil_r|done|done|by left|by apply parse_u16_200].
        * intros (v & code & rest & He & Hv & Hc & Hr & Hp). rewrite E1 in He. change (bs " ") with [ch " "] in He.
          cbn [app] in He. apply app_cons_inj in He as [<- He]; [|done..].
          destruct Hr as [->|[more ->]]; [rewrite app_nil_r in He; subst|set_solver].
          eexists _, _, _. split; [done|]. by apply parse_u16_200.
    - apply split_once_none in E1. split; [by intros (? & ? & ? & ? & _)|].
      intros (v & code & rest & He & _). exfalso. apply E1. rewrite He. set_solver. }
  destruct (status_line_split response) as (tail & Hresp & Hline & Htail). fold line in Hresp, Hline.
  transitivity (∃ a code ps, splitn3 line = a :: code :: ps ∧ parse_u16 code = Some 200).
  { destruct (splitn3 line) as [|a [|code ps]].
    - split; [done|]. by intros (? & ? & ? & ? & _).
    - split; [done|]. by intros (? & ? & ? & ? & _).
    - destruct (parse_u16 code) as [v|] eqn:Ep; cbn [ok_or mbind exec_bind].
      + case_bool_decide as Hv.
        * split; [done|]. intros (? & ? & ? & [= <- <- <-] & ?). congruence.
        * subst v. split; [|done]. intros _. by exists a, code, ps.
      + split; [done|]. intros (? & ? & ? & [= <- <- <-] & ?). congruence. }
  rewrite Hs. split.
  - intros (v & code & rest & He & Hv & Hc & Hr & Hp). rewrite He in Hline.
    apply Forall_app in Hline as [Hlv Hline]. apply Forall_app in Hline as [_ Hline]. apply Forall_app in Hline as [Hlc Hlr].
    exists v, code, (rest ++ tail). split_and!; [|by apply word_intro..| |done].
    + rewrite Hresp, He, <- !(assoc_L (++)). done.
    + destruct Hr as [->|[more ->]]; [destruct Htail as [->|(b & more & -> & ?)]; [by left|right; exists b, more; tauto]|].
      right. exists 32, (more ++ tail). by split; [|left].
  - intros (v & code & rest & He & [Hv Hlv]%word_no_blank & [Hc Hlc]%word_no_blank & Hr & Hp).
    destruct Hr as [->|(b & more & -> & Hb)].
    + exists v, code, []. split_and!; [|done|done|by left|done]. unfold line. rewrite He, <- (app_nil_r (v ++ _)) at 1.
      apply status_line_of_app; [|by left]. rewrite app_nil_r. apply Forall_app. split; [done|]. by constructor.
    + destruct (decide (b = 32)) as [->|Hne].
      * exists v, code, (ch " " :: status_line_of more). destruct (status_line_split more) as (t2 & Hm & Hf & Ht2).
        split_and!; [|done|done|by eauto|done]. unfold line. rewrite He, Hm at 1.
        replace (v ++ bs " " ++ code ++ 32 :: status_line_of more ++ t2)
          with ((v ++ bs " " ++ code ++ ch " " :: status_line_of more) ++ t2) by (by rewrite <- !(assoc_L (++))).
        apply status_line_of_app; [|done]. repeat (apply Forall_app; split; [done || by repeat constructor|]). by constructor.
      * exists v, code, []. split_and!; [|done|done|by left|done]. unfold line. rewrite He, app_nil_r.
        replace (v ++ bs " " ++ code ++ b :: more) with ((v ++ bs " " ++ code) ++ b :: more) by (by rewrite <- !(assoc_L (++))).
        apply status_line_of_app; [|right; exists b, more; tauto]. apply Forall_app. split; [done|]. by constructor.
Qed.

(** One read of a stream of non-empty chunks. *)
Lemma read_step ctx cap t : 0 < cap → Forall (λ c, c ≠ []) (chunks t) →
  match read ctx cap t with
  | (Ok got, t') => pending t = got ++ pending t' ∧ zlen got ≤ cap ∧ Forall (λ c, c ≠ []) (chunks t') ∧
      (got = [] ↔ pending t = []) ∧ sent t' = sent t
  | (Err e, t') => pending t = [] ∧ kind e = Connection
  | (Panic, _) => False
  end.
Proof.
  intros Hc Hne. unfold read, pending. destruct (chunks t) as [|c cs] eqn:E.
  - destruct (at_end t); cbn; [done|]. rewrite E. split_and!; [done|unfold zlen; cbn; lia|constructor|done|done].
  - apply Forall_cons in Hne as [Hc1 Hcs]. cbn [chunks sent concat].
    assert (concat match drop (Z.to_nat cap) c with [] => cs | rest => rest :: cs end = drop (Z.to_nat cap) c ++ concat cs) as ->
      by (by destruct (drop (Z.to_nat cap) c)).
    split_and!.
    + by rewrite (assoc_L (++)), take_drop.
    + unfold zlen. rewrite length_take. lia.
    + destruct (drop (Z.to_nat cap) c) eqn:Ed; [done|]. apply Forall_cons. done.
    + split; intros H; exfalso.
      * destruct c; [done|]. destruct (Z.to_nat cap) eqn:En; [lia|done].
      * by apply app_eq_nil in H as [? _].
    + done.
Qed.

(** The read loop stops exactly when the terminator is in, within the buffer. *)
Lemma connect_read_spec fuel buf t :
  Forall (λ c, c ≠ []) (chunks t) → zlen buf ≤ BUF_LEN → BUF_LEN < zlen buf + Z.of_nat fuel →
  ¬ has_terminator buf →
  match connect_read fuel buf t with
  | (Ok used, t') => used ++ pending t' = buf ++ pending t ∧ zlen used ≤ BUF_LEN ∧ has_terminator used ∧ sent t' = sent t
  | (Err e, _) => kind e = Connection ∧ ¬ has_terminator (take (Z.to_nat BUF_LEN) (buf ++ pending t))
  | (Panic, _) => False
  end.
Proof.
  revert buf t. induction fuel as [|fuel IH]; intros buf t Hne Hl Hf Hnt; [lia|]. cbn [connect_read].
  destruct (bool_decide (zlen buf >= BUF_LEN)) eqn:Eb.
  { apply bool_decide_eq_true in Eb. cbn. split; [done|]. rewrite take_app_exact by (unfold zlen in *; lia). done. }
  apply bool_decide_eq_false in Eb. unfold mbind, io_bind.
  pose proof (read_step (bs "proxy CONNECT read failed: ") (BUF_LEN - zlen buf) t ltac:(lia) Hne) as Hr.
  destruct (read _ _ t) as [[got|e|] t1]; [|destruct Hr as [Hp Hk]|done].
  2: { split; [done|]. rewrite Hp, app_nil_r. rewrite take_ge by (unfold zlen in *; lia). done. }
  destruct Hr as (Hp & Hgl & Hne1 & Hempty & Hs1).
  destruct (bool_decide (got = [])) eqn:Eg.
  { apply bool_decide_eq_true, Hempty in Eg. cbn. split; [done|]. rewrite Eg, app_nil_r.
    rewrite take_ge by (unfold zlen in *; lia). done. }
  apply bool_decide_eq_false in Eg. destruct (find_crlf_crlf (buf ++ got)) eqn:Ef.
  { cbn. assert (has_terminator (buf ++ got)) by (apply find_crlf_crlf_spec; by rewrite Ef).
    split_and!; [by rewrite Hp, (assoc_L (++))|rewrite zlen_app; lia|done|done]. }
  assert (¬ has_terminator (buf ++ got)) as Hnt' by (rewrite <- find_crlf_crlf_spec, Ef; by intros [? ?]).
  assert (1 ≤ zlen got) by (destruct got; [done|]; rewrite zlen_cons; pose proof (zlen_nonneg got); lia).
  specialize (IH (buf ++ got) t1 Hne1 ltac:(rewrite zlen_app; lia) ltac:(rewrite zlen_app; lia) Hnt').
  rewrite <- (assoc_L (++)), <- Hp in IH.
  destruct (connect_read fuel (buf ++ got) t1) as [[used|e|] t2]; [|done|done].
  destruct IH as (? & ? & ? & ?). by rewrite <- Hs1.
Qed.

(** C40: over any chunking of the proxy's bytes and with writes that succeed, the CONNECT
    handshake never panics, sends exactly a CONNECT request for the target with its Host
    header, fails only with connection errors, and succeeds exactly when the response's
    header block ends within its first 8192 bytes and the second word of its first line
    is 200 (as a Rust integer is written, so "+200" and "0200" count; the first word is
    not looked at); every other status is refused.  On success what was consumed from
    the stream is a prefix that contains the header block. *)
Theorem http_connect_chunk_independent (lossy debug_lossy : bytes → bytes) (host : bytes) (port : Z) (t : Tcp) :
  write_results t = [] → Forall (λ c, c ≠ []) (chunks t) →
  match perform_http_connect lossy debug_lossy host port t with
  | (Ok _, t') =>
      has_terminator (take (Z.to_nat 8192) (pending t)) ∧ answers_200 (pending t) ∧
      sent t' = sent t ++ bs "CONNECT " ++ host ++ bs ":" ++ dec port ++ bs " HTTP/1.1" ++ [13; 10]
                ++ bs "Host: " ++ host ++ bs ":" ++ dec port ++ [13; 10; 13; 10] ∧
      ∃ used, pending t = used ++ pending t' ∧ has_terminator used ∧ zlen used ≤ 8192
  | (Err e, _) =>
      kind e = Connection ∧
      ¬ (has_terminator (take (Z.to_nat 8192) (pending t)) ∧ answers_200 (pending t))
  | (Panic, _) => False
  end.
Proof.
  intros Hw Hne. unfold perform_http_connect, mbind, io_bind. rewrite write_all_ok by done.
  set (t1 := mkTcp (chunks t) (at_end t) [] (sent t ++ connect_request host port)).
  assert (¬ has_terminator []) as Hn by (intros (a & c & H); by destruct a).
  pose proof (connect_read_spec (S (Z.to_nat BUF_LEN)) [] t1 Hne ltac:(unfold BUF_LEN, zlen; cbn; lia)
    ltac:(unfold BUF_LEN, zlen; cbn; lia) Hn) as Hr. cbn [app] in Hr. change (pending t1) with (pending t) in Hr.
  change BUF_LEN with 8192 in *.
  destruct (connect_read _ [] t1) as [[used|e|] t2]; [|split; [apply Hr|intros [? _]; by apply Hr]|done].
  destruct Hr as (Hp & Hl & Ht & Hs). unfold io_lift.
  pose proof (verdict_more lossy debug_lossy host port used (pending t2) Ht) as Hv. rewrite Hp in Hv.
  pose proof (connect_verdict_kind lossy debug_lossy host port used) as Hk.
  pose proof (connect_verdict_200 lossy debug_lossy host port (pending t)) as H200.
  destruct (connect_verdict lossy debug_lossy host port used) as [[]|e|];
    [|split; [done|intros [_ Ha%H200]; congruence]|done].
  split_and!; [| |by rewrite Hs; cbn [sent t1]; unfold connect_request, crlf; rewrite <- !(assoc_L (++))|by exists used].
  - rewrite <- Hp, take_app_ge by (unfold zlen in *; lia). by apply terminator_more.
  - by apply H200; rewrite Hv.
Qed.

Lemma http_connect_chunk_independent_witness :
  has_terminator (bs "HTTP/1.1 200 OK" ++ crlf ++ bs "X: y" ++ crlf ++ crlf ++ [22; 3]) ∧
  answers_200 (bs "HTTP/1.1 200 OK" ++ crlf ++ bs "X: y" ++ crlf ++ crlf ++ [22; 3]).
Proof.
  pose proof (http_connect_chunk_independent id id (bs "a.corp") 443
    (mkTcp [bs "HTTP/1.1 2"; bs "00 OK" ++ crlf ++ bs "X: y" ++ [13]; [10; 13; 10; 22; 3]] None [] []) eq_refl) as H.
  assert (Forall (λ c : bytes, c ≠ [])
    [bs "HTTP/1.1 2"; bs "00 OK" ++ crlf ++ bs "X: y" ++ [13]; [10; 13; 10; 22; 3]]) as Hne by (repeat constructor; discriminate).
  specialize (H Hne). destruct (perform_http_connect _ _ _ _ _) as [[r|e|] t'] eqn:E.
  - destruct H as (H1 & H2 & _). split; [exact H1|exact H2].
  - vm_compute in E. discriminate E.
  - destruct H.
Defined.

(** The bytes after the header block that arrived with it are dropped. *)
Example connect_drops_early_tunnel_bytes :
  pending (perform_http_connect id id (bs "h") 1
    (mkTcp [bs "HTTP/1.1 200 OK" ++ crlf ++ crlf ++ [1; 2; 3]] None [] [])).2 = [].
Proof. vm_compute. reflexivity. Qed.

(** ** Proxy URLs *)

Definition scheme_name (s : ProxyScheme) : bytes := match s with Http => bs "http" | Socks5 => bs "socks5" end.

Definition clean (cs : list Z) (s : bytes) : Prop := Forall (λ c, c ∉ s) cs.

(** The text of a proxy URL. *)
Definition proxy_url (c : ProxyConfig) (explicit_port : bool) (rest : bytes) : bytes :=
  scheme_name c.(scheme) ++ bs "://"
  ++ match c.(username), c.(password) with
     | Some u, Some p => u ++ bs ":" ++ p ++ bs "@"
     | Some u, None => u ++ bs "@"
     | None, _ => []
     end
  ++ c.(p_host) ++ (if explicit_port then bs ":" ++ dec c.(p_port) else []) ++ rest.

Lemma split_head c a rest : c ∉ a → head (split c (a ++ c :: rest)) = Some a ∧ head (split c a) = Some a.
Proof.
  intros Ha. induction a as [|x a IH]; cbn.
  - by rewrite Z.eqb_refl.
  - apply not_elem_of_cons in Ha as [Hx Ha]. destruct (Z.eqb_spec x c); [congruence|].
    destruct (IH Ha) as [H1 H2]. destruct (split c (a ++ c :: rest)), (split c a); cbn in *; try done.
    by injection H1 as ->; injection H2 as ->.
Qed.

Lemma split_once_str_scheme s rest : split_once_str (bs "://") (scheme_name s ++ bs "://" ++ rest) = Some (scheme_name s, rest).
Proof.
  destruct s; cbn [scheme_name];
    [change (bs "http" ++ bs "://" ++ rest) with (104 :: 116 :: 116 :: 112 :: 58 :: 47 :: 47 :: rest)
    |change (bs "socks5" ++ bs "://" ++ rest) with (115 :: 111 :: 99 :: 107 :: 115 :: 53 :: 58 :: 47 :: 47 :: rest)];
    change (bs "://") with [58; 47; 47]; unfold split_once_str, starts_with; cbn [length take];
    repeat (rewrite bool_decide_false by done; cbn [mbind option_bind]); by rewrite bool_decide_true by done.
Qed.

Lemma dec_no c n : 0 ≤ n < 10 ^ 21 → ¬ 48 ≤ c ≤ 57 → c ∉ dec n.
Proof.
  intros Hn Hc Hin. destruct (dec_spec n Hn) as (_ & Hf & _). rewrite Forall_forall in Hf. by apply Hc, Hf.
Qed.

(** Every proxy URL of a supported scheme parses to its parts: the
    userinfo with or without a password, the host, the port written or the
    scheme's default, whatever path follows. *)
Theorem proxy_url_roundtrip (c : ProxyConfig) (explicit_port : bool) (rest : bytes) :
  clean [ch "@"; ch ":"; ch "/"] c.(p_host) → c.(p_host) ≠ [] → 0 ≤ c.(p_port) ≤ u16_max →
  (∀ u, c.(username) = Some u → clean [ch "@"; ch ":"] u) →
  (∀ p, c.(password) = Some p → clean [ch "@"] p) →
  (c.(username) = None → c.(password) = None ∧ ch "@" ∉ rest) →
  (explicit_port = false → c.(p_port) = default_port c.(scheme)) →
  (rest = [] ∨ head rest = Some (ch "/")) →
  parse_proxy_url (proxy_url c explicit_port rest) = Ok c.
Proof.
  intros Hh Hne Hport Hu Hp Hnone Hdef Hrest. destruct c as [sc host port user pass]; cbn in *.
  unfold clean in *. rewrite !Forall_cons in Hh. destruct Hh as (Hh1 & Hh2 & Hh3 & _).
  unfold parse_proxy_url, proxy_url. cbn [scheme username password p_host p_port].
  rewrite split_once_str_scheme. cbn [ok_or mbind exec_bind].
  assert (parse_scheme (scheme_name sc) = Ok sc) as -> by (by destruct sc). cbn [mbind exec_bind].
  set (hp := host ++ (if explicit_port then bs ":" ++ dec port else [])).
  assert (ch "@" ∉ hp ∧ ch "/" ∉ hp) as [Hat Hsl].
  { unfold hp. assert (ch "@" ∉ dec port ∧ ch "/" ∉ dec port) as [? ?].
    { unfold u16_max in *. split; (apply dec_no; [lia|]); [change (ch "@") with 64|change (ch "/") with 47]; lia. }
    destruct explicit_port; rewrite ?app_nil_r; [|done]. rewrite !not_elem_of_app.
    split_and!; try done; set_solver. }
  assert (parse_host_port (proxy_url (mkProxyConfig sc host port user pass) explicit_port rest) hp sc = Ok (host, port)) as Hhp.
  { unfold parse_host_port, hp. destruct explicit_port.
    - rewrite (proj2 (rsplit_once_spec (ch ":") (host ++ bs ":" ++ dec port) host (dec port))).
      + unfold parse_u16. by rewrite parse_unsigned_dec by (unfold u16_max in *; lia).
      + split; [done|]. unfold u16_max in *. apply dec_no; [lia|]. change (ch ":") with 58. lia.
    - rewrite app_nil_r, (proj2 (rsplit_once_none (ch ":") host)) by done. by rewrite Hdef. }
  assert (default (hp ++ rest) (head (split (ch "/") (hp ++ rest))) = hp) as Hhd.
  { destruct Hrest as [->|Hr]; [rewrite app_nil_r|destruct rest as [|x rest]; [done|assert (x = ch "/") as -> by (by injection Hr)]].
    - by rewrite (proj2 (split_head (ch "/") hp [] Hsl)).
    - by rewrite (proj1 (split_head (ch "/") hp rest Hsl)). }
  unfold proxy_url in Hhp. cbn [scheme username password p_host p_port] in Hhp.
  rewrite (assoc_L (++) host) in *. fold hp in Hhp |- *.
  destruct user as [u|].
  - specialize (Hu u eq_refl). rewrite !Forall_cons in Hu. destruct Hu as (Hu1 & Hu2 & _).
    destruct pass as [p|].
    + specialize (Hp p eq_refl). rewrite Forall_cons in Hp. destruct Hp as [Hp1 _].
      rewrite <- !(assoc_L (++)) in *.
      rewrite (proj2 (split_once_spec (ch "@") (u ++ bs ":" ++ p ++ bs "@" ++ hp ++ rest) (u ++ bs ":" ++ p) (hp ++ rest))).
      * rewrite Hhd. unfold parse_userinfo.
        rewrite (proj2 (split_once_spec (ch ":") (u ++ bs ":" ++ p) u p)) by done.
        rewrite Hhp. cbn [mbind exec_bind]. by rewrite bool_decide_false.
      * split; [by rewrite <- !(assoc_L (++))|]. rewrite !not_elem_of_app. split_and!; [done|set_solver|done].
    + rewrite <- !(assoc_L (++)) in *.
      rewrite (proj2 (split_once_spec (ch "@") (u ++ bs "@" ++ hp ++ rest) u (hp ++ rest))) by done.
      rewrite Hhd. unfold parse_userinfo. rewrite (proj2 (split_once_none (ch ":") u)) by done.
      rewrite Hhp. cbn [mbind exec_bind]. by rewrite bool_decide_false.
  - destruct (Hnone eq_refl) as [-> Hr]. cbn [app] in *.
    rewrite (proj2 (split_once_none (ch "@") (hp ++ rest))) by (rewrite not_elem_of_app; done).
    rewrite Hhd. cbn [parse_userinfo]. rewrite Hhp. cbn [mbind exec_bind]. by rewrite bool_decide_false.
Qed.

Lemma proxy_url_roundtrip_witness :
  parse_proxy_url (bs "socks5://me:p:w/@10.0.0.1:1081/x")
  = Ok (mkProxyConfig Socks5 (bs "10.0.0.1") 1081 (Some (bs "me")) (Some (bs "p:w/"))).
Proof.
  apply (proxy_url_roundtrip (mkProxyConfig Socks5 (bs "10.0.0.1") 1081 (Some (bs "me")) (Some (bs "p:w/"))) true (bs "/x"));
    cbn [p_host p_port username password scheme].
  - repeat apply Forall_cons_2; [..|apply Forall_nil_2]; rewrite <- contains_spec; vm_compute; discriminate.
  - discriminate.
  - unfold u16_max. lia.
  - intros u [= <-]. repeat apply Forall_cons_2; [..|apply Forall_nil_2]; rewrite <- contains_spec; vm_compute; discriminate.
  - intros p [= <-]. repeat apply Forall_cons_2; [..|apply Forall_nil_2]; rewrite <- contains_spec; vm_compute; discriminate.
  - discriminate.
  - discriminate.
  - right. reflexivity.
Defined.
