(* ===== verification/Decompress.v ===== *)
(** * Response bodies (read_body and decompress of src/client/hyper.rs)

    Reading a body under the [max_body] cap and undoing its content codings.  The
    decoders (flate2, brotli) are parameters: a reader type with its [read]. *)
From S2P Require Import Prelude RustStd ClientError.

(** ** Reading the body off the wire *)

(** What [body.frame().await] yields before the end. *)
Inductive frame :=
  | Data (chunk : bytes)
  | Trailers
  | FrameError (text : bytes).

Fixpoint read_body_loop (max_size : Z) (body : list frame) (out : bytes) : exec ClientError (bytes * bool) :=
  match body with
  | [] => Ok (out, false)
  | FrameError e :: _ => Err (err_connection (bs "failed to read body: " ++ e))
  | Trailers :: body => read_body_loop max_size body out
  | Data chunk :: body =>
      if bool_decide (chunk = []) then read_body_loop max_size body out
      else
        let room := max_size - zlen out in
        if bool_decide (zlen chunk > room) then Ok (out ++ take (Z.to_nat room) chunk, true)
        else read_body_loop max_size body (out ++ chunk)
  end.
Definition read_body (body : list frame) (max_size : Z) : exec ClientError (bytes * bool) :=
  read_body_loop max_size body [].

(** ** Codings *)

Inductive Codec := Gzip | Deflate | Brotli | Identity.

#[export] Instance Codec_eq_dec : EqDecision Codec.
Proof. solve_decision. Defined.

Definition from_token (token : bytes) : option Codec :=
  if bool_decide (token = bs "gzip") || bool_decide (token = bs "x-gzip") then Some Gzip
  else if bool_decide (token = bs "deflate") then Some Deflate
  else if bool_decide (token = bs "br") then Some Brotli
  else if bool_decide (token = bs "identity") then Some Identity
  else None.

Definition codec_name (c : Codec) : bytes :=
  match c with
  | Gzip => bs "gzip" | Deflate => bs "deflate" | Brotli => bs "brotli" | Identity => bs "identity"
  end.

Inductive Inflated :=
  | Whole (out : bytes)
  | Partial (out : bytes) (why : bytes)
  | Failed (reason : bytes).

Record Decoded := mkDecoded { body : bytes; decode_error : option bytes }.
Definition content (b : bytes) : Decoded := mkDecoded b None.
Definition raw (data reason : bytes) : Decoded := mkDecoded data (Some reason).
Definition partial (b reason : bytes) : Decoded := mkDecoded b (Some reason).

Definition has_zlib_header (data : bytes) : bool :=
  match data with
  | cmf :: flg :: _ => (Z.land cmf 0x0f =? 8) && (be_value [cmf; flg] mod 31 =? 0)
  | _ => false
  end.

(** The stream formats, each with its decoder. *)
Inductive flavor := GzipStream | ZlibStream | DeflateStream | BrotliStream.

(** Rust's [Read]: at most [n] bytes, nothing at the end of the stream, or an
    error's text. *)
Class Read (R : Type) := {
  rd : R → Z → (bytes + bytes) * R;
  rd_bound : ∀ r n b r', 0 < n → rd r n = (inr b, r') → zlen b ≤ n
}.

Section decoders.
Context {R : Type} `{!Read R}.
(** A decoder over compressed data, and the buffer [read_to_end] offers after the
    reads it has made. *)
Context (new_decoder : flavor → bytes → R) (spare : list bytes → Z).

(** [reader.take(limit).read_to_end(&mut buf)]: each read delivers a byte or is
    the last, so [limit] rounds suffice ([read_to_end_fuel]).  The result is what
    was read and the error that ended it. *)
Fixpoint read_to_end (fuel : nat) (reader : R) (limit : Z) (reads : list bytes) : bytes * option bytes :=
  if bool_decide (limit ≤ 0) then (concat reads, None)
  else match fuel with
       | O => (concat reads, None)
       | S fuel =>
           match rd reader (Z.min (Z.max 1 (spare reads)) limit) with
           | (inl e, _) => (concat reads, Some e)
           | (inr [], _) => (concat reads, None)
           | (inr b, reader) => read_to_end fuel reader (limit - zlen b) (reads ++ [b])
           end
       end.

Definition read_bounded (reader : R) (max_size : Z) (codec : Codec) : Inflated :=
  match read_to_end (Z.to_nat max_size) reader max_size [] with
  | (buf, None) => Whole buf
  | ([], Some e) => Failed (codec_name codec ++ bs " decompression failed: " ++ e)
  | (buf, Some e) => Partial buf (codec_name codec ++ bs " stream did not decode cleanly: " ++ e)
  end.

Definition decode_deflate (data : bytes) (max_size : Z) : Inflated :=
  let attempt zlib :=
    if zlib : bool then read_bounded (new_decoder ZlibStream data) max_size Deflate
    else read_bounded (new_decoder DeflateStream data) max_size Deflate in
  let zlib_first := has_zlib_header data in
  match attempt zlib_first with
  | Failed expected =>
      match attempt (negb zlib_first) with
      | Failed _ => Failed expected
      | fallback => fallback
      end
  | settled => settled
  end.

Definition decode_one (codec : Codec) (data : bytes) (max_size : Z) : Inflated :=
  match codec with
  | Gzip => read_bounded (new_decoder GzipStream data) max_size codec
  | Deflate => decode_deflate data max_size
  | Brotli => read_bounded (new_decoder BrotliStream data) max_size codec
  | Identity => Whole data
  end.

(** The loop over the list's entries: the codings to undo, or the token that stops it. *)
Fixpoint parse_codecs (tokens : list bytes) (codecs : list Codec) : list Codec + bytes :=
  match tokens with
  | [] => inl codecs
  | token :: tokens =>
      let token := trim token in
      if bool_decide (token = []) then parse_codecs tokens codecs
      else match from_token token with
           | Some Identity => parse_codecs tokens codecs
           | Some codec => parse_codecs tokens (codecs ++ [codec])
           | None => inr token
           end
  end.

(** The loop over the inner layers. *)
Fixpoint peel (remaining : list Codec) (out : bytes) (peeled declared : Z) (incomplete : option bytes)
    (max_size : Z) : Decoded :=
  match remaining with
  | [] => match incomplete with Some reason => partial out reason | None => content out end
  | codec :: remaining =>
      match decode_one codec out max_size with
      | Whole next => peel remaining next (peeled + 1) declared incomplete max_size
      | Partial next why => peel remaining next (peeled + 1) declared (Some (default why incomplete)) max_size
      | Failed reason =>
          partial out (dec peeled ++ bs " of " ++ dec declared ++ bs " content-encoding layers came off: " ++ reason)
      end
  end.

Definition decompress (encoding data : bytes) (max_size : Z) : Decoded :=
  if bool_decide (data = []) then content []
  else match parse_codecs (split (ch ",") encoding) [] with
       | inr token => raw data (bs "unsupported content-encoding '" ++ token ++ bs "'")
       | inl codecs =>
           match rev codecs with
           | [] => content data
           | outermost :: remaining =>
               match decode_one outermost data max_size with
               | Whole out => peel remaining out 1 (zlen codecs) None max_size
               | Partial out why => peel remaining out 1 (zlen codecs) (Some why) max_size
               | Failed reason => raw data reason
               end
           end
       end.
End decoders.

(** ** Reading: facts *)

(** The body bytes of a run of frames without errors. *)
Definition chunk_of (f : frame) : bytes := match f with Data c => c | _ => [] end.
Definition wire (fs : list frame) : bytes := concat (map chunk_of fs).
Definition intact (fs : list frame) : Prop := Forall (λ f, ∀ t, f ≠ FrameError t) fs.

Lemma wire_app fs gs : wire (fs ++ gs) = wire fs ++ wire gs.
Proof. unfold wire. by rewrite map_app, concat_app. Qed.

(** A prefix that fits is accumulated. *)
Lemma read_body_loop_app max fs rest out : intact fs → zlen (out ++ wire fs) ≤ max →
  read_body_loop max (fs ++ rest) out = read_body_loop max rest (out ++ wire fs).
Proof.
  revert out. induction fs as [|f fs IH]; intros out Hi Hm; [by rewrite app_nil_r|].
  apply Forall_cons in Hi as [Hf Hi]. change (wire (f :: fs)) with (chunk_of f ++ wire fs) in *.
  destruct f as [c| |t]; cbn [app read_body_loop chunk_of] in *; [|by apply IH|by destruct (Hf t)].
  destruct (bool_decide (c = [])) eqn:E.
  - apply bool_decide_eq_true in E as ->. by apply IH.
  - rewrite bool_decide_false by (simp_len; pose proof (zlen_nonneg (wire fs)); lia).
    rewrite (assoc_L (++)) in *. by apply IH.
Qed.

(** The frame at which a body is cut or fails. *)
Lemma read_body_split max fs out : zlen out ≤ max →
  (intact fs ∧ zlen (out ++ wire fs) ≤ max) ∨
  (∃ pre t post, fs = pre ++ FrameError t :: post ∧ intact pre ∧ zlen (out ++ wire pre) ≤ max) ∨
  (∃ pre c post, fs = pre ++ Data c :: post ∧ intact pre ∧ zlen (out ++ wire pre) ≤ max ∧
     max < zlen (out ++ wire pre ++ c)).
Proof.
  revert out. induction fs as [|f fs IH]; intros out Hm.
  { left. split; [constructor|]. by rewrite app_nil_r. }
  destruct f as [d| |t].
  3: { right; left. exists [], t, fs. split_and!; [done|constructor|by rewrite app_nil_r]. }
  2: { destruct (IH out Hm) as [[Hi Hz]|[(pre & t & post & -> & Hi & Hz)|(pre & c & post & -> & Hi & Hz)]].
       - left. split; [by constructor|done].
       - right; left. exists (Trailers :: pre), t, post. split_and!; [done|by constructor|done].
       - right; right. exists (Trailers :: pre), c, post. split_and!; [done|by constructor|apply Hz..]. }
  destruct (decide (zlen (out ++ d) ≤ max)) as [Hle|Hgt].
  - destruct (IH _ Hle) as [[Hi Hz]|[(pre & t & post & -> & Hi & Hz)|(pre & c & post & -> & Hi & Hz)]];
      rewrite <- !(assoc_L (++)) in *.
    + left. split; [by constructor|done].
    + right; left. exists (Data d :: pre), t, post. split_and!; [done|by constructor|done].
    + right; right. exists (Data d :: pre), c, post.
      split_and!; [done|by constructor|apply Hz|]. unfold wire in *. cbn. rewrite <- (assoc_L (++)). apply Hz.
  - right; right. exists [], d, fs. split_and!; [done|constructor|by rewrite app_nil_r|cbn; lia].
Qed.

(** C11: [read_body] returns the whole body exactly when it ends within the
    cap; otherwise exactly the first [max_size] bytes, flagged as cut, and what
    comes after the cutting chunk (an endless body, an error) is never asked for.
    A failure reported before the cap is reached is a connection error.  It never
    panics, so [max_size - out.len()] never wraps. *)
Theorem read_body_capped (fs : list frame) (max : Z) :
  0 ≤ max →
  match read_body fs max with
  | Ok (out, false) => intact fs ∧ out = wire fs ∧ zlen out ≤ max
  | Ok (out, true) =>
      zlen out = max ∧
      ∃ pre c post, fs = pre ++ Data c :: post ∧ intact pre ∧ out = take (Z.to_nat max) (wire pre ++ c) ∧
        max < zlen (wire pre ++ c) ∧
        ∀ post', read_body (pre ++ Data c :: post') max = Ok (out, true)
  | Err e =>
      ∃ pre t post, fs = pre ++ FrameError t :: post ∧ intact pre ∧ zlen (wire pre) ≤ max ∧
        e = err_connection (bs "failed to read body: " ++ t)
  | Panic => False
  end.
Proof.
  intros Hmax. unfold read_body.
  destruct (read_body_split max fs []) as [[Hi Hz]|[(pre & t & post & -> & Hi & Hz)|(pre & c & post & -> & Hi & Hz & Hc)]];
    [by simp_len| | |].
  - pose proof (read_body_loop_app max fs [] [] Hi Hz) as E. rewrite app_nil_r in E. by rewrite E.
  - rewrite read_body_loop_app by done. cbn. eauto 10.
  - cbn [app] in Hz, Hc.
    assert (∀ post', read_body_loop max (pre ++ Data c :: post') [] =
      Ok (take (Z.to_nat max) (wire pre ++ c), true)) as Hcut.
    { intros post'. rewrite read_body_loop_app by done. cbn [read_body_loop app].
      destruct (bool_decide (c = [])) eqn:E.
      { apply bool_decide_eq_true in E as ->. simp_len. lia. }
      rewrite bool_decide_true by (simp_len; lia). do 2 f_equal. simp_len. unfold zlen in *.
      rewrite take_app_ge by lia. do 2 f_equal. lia. }
    rewrite Hcut. split.
    { unfold zlen in *. rewrite length_take. lia. }
    exists pre, c, post. by split_and!.
Qed.

Lemma read_body_capped_witness :
  let fs := [Data (bs "abc"); Trailers; Data []; Data (bs "defg"); FrameError (bs "reset")] in
  read_body fs 5 = Ok (bs "abcde", true) ∧
  ∃ pre c post, fs = pre ++ Data c :: post ∧ intact pre ∧ bs "abcde" = take 5 (wire pre ++ c) ∧
    5 < zlen (wire pre ++ c) ∧ ∀ post', read_body (pre ++ Data c :: post') 5 = Ok (bs "abcde", true).
Proof.
  split; [vm_compute; reflexivity|].
  exact (proj2 (read_body_capped [Data (bs "abc"); Trailers; Data []; Data (bs "defg"); FrameError (bs "reset")] 5 ltac:(lia))).
Defined.

(** ** Decoding: facts *)

Lemma length_concat_snoc (reads : list bytes) b : zlen (concat (reads ++ [b])) = zlen (concat reads) + zlen b.
Proof. rewrite concat_app. cbn. rewrite app_nil_r. apply zlen_app. Qed.

Section facts.
Context {R : Type} `{!Read R}.
Context (new_decoder : flavor → bytes → R) (spare : list bytes → Z).

Local Abbreviation read_to_end := (read_to_end spare).
Local Abbreviation read_bounded := (read_bounded spare).
Local Abbreviation decode_one := (decode_one new_decoder spare).
Local Abbreviation peel := (peel new_decoder spare).
Local Abbreviation decompress := (decompress new_decoder spare).

Lemma ask_pos reads limit : 0 < limit → 0 < Z.min (Z.max 1 (spare reads)) limit ≤ limit.
Proof. lia. Qed.

(** Any fuel beyond the limit reads the same. *)
Lemma read_to_end_fuel fuel fuel' r limit reads :
  (Z.to_nat limit ≤ fuel)%nat → (Z.to_nat limit ≤ fuel')%nat →
  read_to_end fuel r limit reads = read_to_end fuel' r limit reads.
Proof.
  revert fuel' r limit reads. induction fuel as [|fuel IH]; intros fuel' r limit reads H1 H2.
  - destruct fuel'; cbn; rewrite bool_decide_true by lia; done.
  - cbn [Decompress.read_to_end]. destruct (bool_decide (limit ≤ 0)) eqn:E.
    + destruct fuel'; cbn; by rewrite E.
    + apply bool_decide_eq_false in E. destruct fuel' as [|fuel']; [lia|]. cbn [Decompress.read_to_end].
      rewrite bool_decide_false by done.
      destruct (rd r _) as [[e|[|x b]] r']; [done|done|]. apply IH; rewrite zlen_cons; pose proof (zlen_nonneg b); lia.
Qed.

Lemma read_to_end_bounded fuel r limit reads out e :
  read_to_end fuel r limit reads = (out, e) → zlen out ≤ Z.max 0 limit + zlen (concat reads).
Proof.
  revert r limit reads. induction fuel as [|fuel IH]; intros r limit reads; cbn [Decompress.read_to_end].
  - case_match; intros [= <- <-]; lia.
  - destruct (bool_decide (limit ≤ 0)) eqn:E; [intros [= <- <-]; lia|]. apply bool_decide_eq_false in E.
    destruct (rd r _) as [[t|b] r'] eqn:Hr; [intros [= <- <-]; lia|].
    apply rd_bound in Hr; [|lia]. destruct b as [|x b]; [intros [= <- <-]; lia|].
    intros H. apply IH in H. rewrite length_concat_snoc in H. lia.
Qed.

Definition inflated_bytes (i : Inflated) : bytes :=
  match i with Whole b | Partial b _ => b | Failed _ => [] end.

Lemma read_bounded_bounded r max c : 0 ≤ max → zlen (inflated_bytes (read_bounded r max c)) ≤ max.
Proof.
  intros Hm. unfold Decompress.read_bounded. destruct (read_to_end _ _ _ _) as [out e] eqn:E.
  apply read_to_end_bounded in E. cbn in E. destruct e, out; cbn; simp_len; lia.
Qed.

Lemma decode_one_bounded c data max : 0 ≤ max → zlen data ≤ max →
  zlen (inflated_bytes (decode_one c data max)) ≤ max.
Proof.
  intros Hm Hd. destruct c; cbn; try done; try by apply read_bounded_bounded.
  pose proof (read_bounded_bounded (new_decoder ZlibStream data) max Deflate Hm).
  pose proof (read_bounded_bounded (new_decoder DeflateStream data) max Deflate Hm).
  unfold decode_deflate. destruct (has_zlib_header data); cbn [negb];
    destruct (read_bounded (new_decoder ZlibStream data) _ _), (read_bounded (new_decoder DeflateStream data) _ _);
    cbn in *; done.
Qed.

(** Layers that come off, outermost first: each with output; [clean] when every
    stream ended as it should. *)
Inductive peels (max : Z) : list Codec → bytes → bytes → bool → Prop :=
  | peels_done d : peels max [] d d true
  | peels_whole c cs d o b clean : decode_one c d max = Whole o → peels max cs o b clean → peels max (c :: cs) d b clean
  | peels_partial c cs d o w b clean : decode_one c d max = Partial o w → peels max cs o b clean →
      peels max (c :: cs) d b false.

Lemma peel_spec cs out p d inc max :
  let r := peel cs out p d inc max in
  (∃ b clean, peels max cs out b clean ∧ body r = b ∧
     (decode_error r = None ↔ clean = true ∧ inc = None)) ∨
  (∃ k c b clean w, peels max (take k cs) out b clean ∧ cs !! k = Some c ∧ decode_one c b max = Failed w ∧
     body r = b ∧ decode_error r = Some (dec (p + Z.of_nat k) ++ bs " of " ++ dec d ++ bs " content-encoding layers came off: " ++ w)).
Proof.
  revert out p inc. induction cs as [|c cs IH]; intros out p inc; cbn [Decompress.peel].
  - left. exists out, true. split; [constructor|]. destruct inc; cbn; naive_solver.
  - destruct (decode_one c out max) as [next|next why|reason] eqn:E.
    + destruct (IH next (p + 1) inc) as [(b & cl & Hp & Hb & He)|(k & c' & b & cl & w & Hp & Hk & Hf & Hb & He)].
      * left. exists b, cl. split; [by econstructor|done].
      * right. exists (S k), c', b, cl, w. split_and!; [by econstructor|done|done|done|].
        rewrite He. by replace (p + 1 + Z.of_nat k) with (p + Z.of_nat (S k)) by lia.
    + destruct (IH next (p + 1) (Some (default why inc))) as [(b & cl & Hp & Hb & He)|(k & c' & b & cl & w & Hp & Hk & Hf & Hb & He)].
      * left. exists b, false. split; [by econstructor|]. split; [done|]. split; [|by intros [? ?]].
        intros H. by apply He in H as [_ ?].
      * right. exists (S k), c', b, false, w. split_and!; [by econstructor|done|done|done|].
        rewrite He. by replace (p + 1 + Z.of_nat k) with (p + Z.of_nat (S k)) by lia.
    + right. exists 0%nat, c, out, true, reason. split_and!; [constructor|done|done|done|]. change (Z.of_nat 0) with 0. by rewrite Z.add_0_r.
Qed.

Lemma peels_bounded max cs d b clean : 0 ≤ max → zlen d ≤ max → peels max cs d b clean → zlen b ≤ max.
Proof.
  intros Hm Hd Hp. induction Hp as [|c cs d o b clean H _ IH|c cs d o w b clean H _ IH]; [done|..];
    apply IH; pose proof (decode_one_bounded c d max Hm Hd) as Hb; by rewrite H in Hb.
Qed.

Lemma peels_clean_peel max cs d b p n : peels max cs d b true → peel cs d p n None max = content b.
Proof.
  intros H. remember true as cl eqn:E. revert p. induction H as [d|c cs d o b cl H _ IH|c cs d o w b cl H _ IH]; intros p.
  - done.
  - cbn. rewrite H. by apply IH.
  - done.
Qed.

(** With a known list of codings: every layer off, or stopped at layer [k]. *)
Lemma decompress_layers encoding data max cs :
  data ≠ [] → parse_codecs (split (ch ",") encoding) [] = inl cs →
  let r := decompress encoding data max in
  (∃ clean, peels max (rev cs) data (body r) clean ∧ (decode_error r = None ↔ clean = true)) ∨
  (∃ k c clean w, peels max (take k (rev cs)) data (body r) clean ∧ rev cs !! k = Some c ∧
     decode_one c (body r) max = Failed w ∧ decode_error r ≠ None).
Proof.
  intros Hd Hp. cbn zeta. unfold Decompress.decompress. rewrite bool_decide_false, Hp by done.
  destruct (rev cs) as [|c rest] eqn:Hr.
  { left. exists true. split; [constructor|done]. }
  destruct (decode_one c data max) as [o|o why|w] eqn:E.
  - destruct (peel_spec rest o 1 (zlen cs) None max) as [(b & cl & Hpe & Hb & He)|(k & c' & b & cl & w & Hpe & Hk & Hf & Hb & He)].
    + left. exists cl. rewrite Hb. split; [by econstructor|]. naive_solver.
    + right. exists (S k), c', cl, w. rewrite Hb, He. split_and!; [by econstructor|done..].
  - destruct (peel_spec rest o 1 (zlen cs) (Some why) max) as [(b & cl & Hpe & Hb & He)|(k & c' & b & cl & w & Hpe & Hk & Hf & Hb & He)].
    + left. exists false. rewrite Hb. split; [by econstructor|]. naive_solver.
    + right. exists (S k), c', false, w. rewrite Hb, He. split_and!; [by econstructor|done..].
  - right. exists 0%nat, c, true, w. split_and!; [constructor|done..].
Qed.

(** The output is bounded on every path. *)
Lemma decompress_size encoding data max : 0 ≤ max → zlen data ≤ max → zlen (body (decompress encoding data max)) ≤ max.
Proof.
  intros Hm Hd. destruct (decide (data = [])) as [->|Hne]; [done|].
  destruct (parse_codecs (split (ch ",") encoding) []) as [cs|t] eqn:Hl.
  - destruct (decompress_layers encoding data max cs Hne Hl) as [(cl & Hp & _)|(k & c & cl & w & Hp & _)];
      by eapply peels_bounded.
  - unfold Decompress.decompress. by rewrite bool_decide_false, Hl by done.
Qed.

(** ** What a decoder's stream says *)

Inductive ending := AtCap | AtEnd | Broken (why : bytes).
Definition broken (e : ending) : option bytes := match e with Broken t => Some t | _ => None end.

(** [reading reads r limit out e]: after the reads made so far, the stream of [r] hands
    out [out], read after read of the sizes the standard library asks for, and then the
    cap is reached, or the stream ends, or it breaks. *)
Inductive reading : list bytes → R → Z → bytes → ending → Prop :=
  | read_cap reads r : reading reads r 0 [] AtCap
  | read_end reads r limit r' :
      0 < limit → rd r (Z.min (Z.max 1 (spare reads)) limit) = (inr [], r') → reading reads r limit [] AtEnd
  | read_broken reads r limit t r' :
      0 < limit → rd r (Z.min (Z.max 1 (spare reads)) limit) = (inl t, r') → reading reads r limit [] (Broken t)
  | read_more reads r limit b r' out e :
      0 < limit → rd r (Z.min (Z.max 1 (spare reads)) limit) = (inr b, r') → b ≠ [] →
      reading (reads ++ [b]) r' (limit - zlen b) out e → reading reads r limit (b ++ out) e.

Lemma reading_det reads r limit out e out' e' :
  reading reads r limit out e → reading reads r limit out' e' → out = out' ∧ e = e'.
Proof.
  intros H. revert out' e'. induction H as [| | |reads r limit b r' out e Hl Hr Hb H IH]; intros out' e' H';
    inversion H' as [| | |? ? ? b' r2 out2 e2 Hl2 Hr2 Hb2 H2]; subst; try lia; try congruence; try (split; congruence).
  all: rewrite Hr in Hr2; injection Hr2 as <- <-. destruct (IH _ _ H2) as [-> ->]. done.
Qed.

Lemma read_to_end_reading fuel r limit reads : 0 ≤ limit → (Z.to_nat limit ≤ fuel)%nat →
  ∃ out e, reading reads r limit out e ∧ read_to_end fuel r limit reads = (concat reads ++ out, broken e).
Proof.
  revert r limit reads. induction fuel as [|fuel IH]; intros r limit reads Hl Hf; cbn [Decompress.read_to_end];
    (destruct (decide (limit ≤ 0)) as [Hz|Hz];
     [replace limit with 0 by lia; exists [], AtCap; split; [constructor|]; by rewrite app_nil_r|]); [lia|].
  rewrite bool_decide_false by done. destruct (rd r _) as [[t|[|x b]] r'] eqn:Hr.
  - exists [], (Broken t). rewrite app_nil_r. split; [|done]. eapply read_broken; [lia|exact Hr].
  - exists [], AtEnd. rewrite app_nil_r. split; [|done]. eapply read_end; [lia|exact Hr].
  - pose proof (rd_bound _ _ _ _ (proj1 (ask_pos reads limit ltac:(lia))) Hr) as Hb. rewrite zlen_cons in Hb. pose proof (zlen_nonneg b).
    destruct (IH r' (limit - zlen (x :: b)) (reads ++ [x :: b])) as (out & e & Hre & ->);
      [rewrite zlen_cons; lia|rewrite zlen_cons; lia|].
    exists ((x :: b) ++ out), e. split; [eapply read_more; [lia|exact Hr|done|done]|].
    rewrite concat_app. cbn [concat]. by rewrite app_nil_r, <- (assoc_L (++)).
Qed.

(** ** What a layer is *)

(** The header of RFC 1950: method 8 in the low half of the first byte, and the first
    two bytes a multiple of 31. *)
Definition zlib_like (data : bytes) : Prop :=
  ∃ cmf flg rest, data = cmf :: flg :: rest ∧ cmf mod 16 = 8 ∧ (256 * cmf + flg) mod 31 = 0.

(** The streams a body of a coding may be, in the order they are tried. *)
Definition may_be (c : Codec) (data : bytes) (fs : list flavor) : Prop :=
  match c with
  | Gzip => fs = [GzipStream]
  | Brotli => fs = [BrotliStream]
  | Deflate => (zlib_like data ∧ fs = [ZlibStream; DeflateStream]) ∨ (¬ zlib_like data ∧ fs = [DeflateStream; ZlibStream])
  | Identity => False
  end.

(** A stream that breaks before it gives anything. *)
Definition refused (max : Z) (data : bytes) (f : flavor) (t : bytes) : Prop :=
  reading [] (new_decoder f data) max [] (Broken t).

(** The layer comes off: the first stream that is not refused gives [out]. *)
Definition layer (max : Z) (c : Codec) (data out : bytes) (e : ending) : Prop :=
  ∃ fs pre f post, may_be c data fs ∧ fs = pre ++ f :: post ∧ Forall (λ g, ∃ t, refused max data g t) pre ∧
    reading [] (new_decoder f data) max out e ∧ (out ≠ [] ∨ broken e = None).
(** It does not: every stream is refused, the first for the reason [t]. *)
Definition stuck (max : Z) (c : Codec) (data t : bytes) : Prop :=
  ∃ f fs, may_be c data (f :: fs) ∧ refused max data f t ∧ Forall (λ g, ∃ t, refused max data g t) fs.

Lemma has_zlib_header_like data : has_zlib_header data = true ↔ zlib_like data.
Proof.
  unfold has_zlib_header, zlib_like. destruct data as [|cmf [|flg rest]]; [naive_solver..|].
  change 0x0f with (Z.ones 4). rewrite Z.land_ones, andb_true_iff, !Z.eqb_eq by lia. change (2 ^ 4) with 16.
  unfold be_value. cbn [fold_left]. replace (0 * 256 + cmf) with cmf by lia. rewrite (Z.mul_comm cmf). naive_solver.
Qed.

Lemma may_be_det c data fs gs : may_be c data fs → may_be c data gs → fs = gs.
Proof. destruct c; cbn; naive_solver. Qed.

Lemma layer_det max c data out e out' e' : layer max c data out e → layer max c data out' e' → out = out' ∧ e = e'.
Proof.
  intros (fs & pre & f & post & Hm & -> & Hpre & Hr & Ho) (gs & pre' & f' & post' & Hm' & -> & Hpre' & Hr' & Ho').
  pose proof (may_be_det _ _ _ _ Hm Hm') as E. clear Hm Hm'.
  assert (∀ out e f, reading [] (new_decoder f data) max out e → out ≠ [] ∨ broken e = None →
    ¬ ∃ t, refused max data f t) as Hx.
  { intros o x g Hg Hox [t Ht]. destruct (reading_det _ _ _ _ _ _ _ Hg Ht) as [-> ->]. by destruct Hox. }
  revert pre' Hpre' E. induction Hpre as [|g pre Hg Hpre IH]; intros pre' Hpre' E; destruct Hpre' as [|g' pre' Hg' Hpre'].
  - injection E as <- _. by eapply reading_det.
  - injection E as <- _. by destruct (Hx _ _ _ Hr Ho).
  - injection E as <- _. by destruct (Hx _ _ _ Hr' Ho').
  - injection E as <- E. by apply (IH pre').
Qed.

Lemma layer_not_stuck max c data out e t : layer max c data out e → ¬ stuck max c data t.
Proof.
  intros (fs & pre & f & post & Hm & -> & _ & Hr & Ho) (g & gs & Hm' & Hg & Hgs).
  pose proof (may_be_det _ _ _ _ Hm Hm') as E.
  assert (Forall (λ g, ∃ t, refused max data g t) (pre ++ f :: post)) as Hall by (rewrite E; constructor; eauto).
  apply Forall_app in Hall as [_ Hall]. apply Forall_cons in Hall as [[t' Ht'] _].
  destruct (reading_det _ _ _ _ _ _ _ Hr Ht') as [-> ->]. by destruct Ho.
Qed.

Definition damage (c : Codec) (t : bytes) : bytes := codec_name c ++ bs " stream did not decode cleanly: " ++ t.
Definition failure (c : Codec) (t : bytes) : bytes := codec_name c ++ bs " decompression failed: " ++ t.

(** What reading through one stream means for the layer. *)
Lemma read_bounded_reading f data max c : 0 ≤ max →
  match read_bounded (new_decoder f data) max c with
  | Whole out => ∃ e, reading [] (new_decoder f data) max out e ∧ broken e = None
  | Partial out why => ∃ t, reading [] (new_decoder f data) max out (Broken t) ∧ out ≠ [] ∧ why = damage c t
  | Failed why => ∃ t, refused max data f t ∧ why = failure c t
  end.
Proof.
  intros Hm. unfold Decompress.read_bounded.
  destruct (read_to_end_reading (Z.to_nat max) (new_decoder f data) max [] Hm ltac:(lia)) as (out & e & Hr & ->).
  cbn [concat app]. destruct e as [| |t]; cbn [broken].
  - destruct out; by exists AtCap.
  - destruct out; by exists AtEnd.
  - destruct out; by exists t.
Qed.

Lemma decode_one_layer c data max : 0 ≤ max → c ≠ Identity →
  match decode_one c data max with
  | Whole out => ∃ e, layer max c data out e ∧ broken e = None
  | Partial out why => ∃ t, layer max c data out (Broken t) ∧ why = damage c t
  | Failed why => ∃ t, stuck max c data t ∧ why = failure c t
  end.
Proof.
  intros Hm Hc.
  assert (∀ f, may_be c data [f] → match read_bounded (new_decoder f data) max c with
    | Whole out => ∃ e, layer max c data out e ∧ broken e = None
    | Partial out why => ∃ t, layer max c data out (Broken t) ∧ why = damage c t
    | Failed why => ∃ t, stuck max c data t ∧ why = failure c t end) as Hone.
  { intros f Hf. pose proof (read_bounded_reading f data max c Hm) as H. destruct (read_bounded _ _ _) as [out|out why|why].
    - destruct H as (e & Hr & He). exists e. split; [|done]. exists [f], [], f, []. split_and!; [done|done|constructor|done|by right].
    - destruct H as (t & Hr & Ho & ->). exists t. split; [|done]. exists [f], [], f, []. split_and!; [done|done|constructor|done|by left].
    - destruct H as (t & Hr & ->). exists t. split; [|done]. exists f, []. split_and!; [done|done|constructor]. }
  assert (∀ f g, c = Deflate → may_be c data [f; g] → match (match read_bounded (new_decoder f data) max c with
      | Failed expected => match read_bounded (new_decoder g data) max c with Failed _ => Failed expected | fallback => fallback end
      | settled => settled end) with
    | Whole out => ∃ e, layer max c data out e ∧ broken e = None
    | Partial out why => ∃ t, layer max c data out (Broken t) ∧ why = damage c t
    | Failed why => ∃ t, stuck max c data t ∧ why = failure c t end) as Htwo.
  { intros f g _ Hf. pose proof (read_bounded_reading f data max c Hm) as H.
    destruct (read_bounded (new_decoder f data) max c) as [out|out why|why].
    - destruct H as (e & Hr & He). exists e. split; [|done]. exists [f; g], [], f, [g]. split_and!; [done|done|constructor|done|by right].
    - destruct H as (t & Hr & Ho & ->). exists t. split; [|done]. exists [f; g], [], f, [g]. split_and!; [done|done|constructor|done|by left].
    - destruct H as (t & Hr & ->). assert (Forall (λ g, ∃ t, refused max data g t) [f]) as Hpre by (constructor; eauto).
      pose proof (read_bounded_reading g data max c Hm) as H. destruct (read_bounded (new_decoder g data) max c) as [out|out why|why].
      + destruct H as (e & Hrg & He). exists e. split; [|done]. exists [f; g], [f], g, []. split_and!; [done|done|done|done|by right].
      + destruct H as (t' & Hrg & Ho & ->). exists t'. split; [|done]. exists [f; g], [f], g, []. split_and!; [done|done|done|done|by left].
      + destruct H as (t' & Hrg & _). exists t. split; [|done]. exists f, [g]. split_and!; [done|done|]. constructor; eauto. }
  destruct c; cbn [Decompress.decode_one]; [by apply Hone| |by apply Hone|done].
  unfold decode_deflate. pose proof (has_zlib_header_like data) as Hz. destruct (has_zlib_header data); cbn [negb].
  - apply Htwo; [done|]. left. split; [by apply Hz|done].
  - apply Htwo; [done|]. right. split; [|done]. intros Hl. by apply Hz in Hl.
Qed.

(** The outermost layers [cs] come off [data]; the first damaged one is complained of. *)
Inductive peeled (max : Z) : list Codec → bytes → bytes → option bytes → Prop :=
  | peeled_none data : peeled max [] data data None
  | peeled_layer c cs data out e b w : layer max c data out e → peeled max cs out b w →
      peeled max (c :: cs) data b (match broken e with Some t => Some (damage c t) | None => w end).

Lemma peeled_cut max cs cs' data b w b' w' c t : peeled max (cs ++ c :: cs') data b w → peeled max cs data b' w' →
  ¬ stuck max c b' t.
Proof.
  revert data w w'. induction cs as [|x cs IH]; intros data w w' H H'.
  - inversion H'; subst. inversion H as [|? ? ? out e ? ? Hl _]; subst. by eapply layer_not_stuck.
  - inversion H as [|? ? ? out e ? ? Hl Hp]; subst. inversion H' as [|? ? ? out' e' ? ? Hl' Hp']; subst.
    destruct (layer_det _ _ _ _ _ _ _ Hl Hl') as [<- <-]. by eapply IH.
Qed.

Lemma peeled_det max cs data b w b' w' : peeled max cs data b w → peeled max cs data b' w' → b = b' ∧ w = w'.
Proof.
  intros H. revert b' w'. induction H as [|c cs data out e b w Hl _ IH]; intros b' w' H'; inversion H' as [|? ? ? ? ? ? ? Hl' Hp']; subst; [done|].
  destruct (layer_det _ _ _ _ _ _ _ Hl Hl') as [<- <-]. by destruct (IH _ _ Hp') as [-> ->].
Qed.

(** How taking [cs] off [data] comes out, with [n] layers off and [total] in all. *)
Definition taken_off (max : Z) (cs : list Codec) (data : bytes) (n total : Z) (first : option bytes) (r : Decoded) : Prop :=
  (∃ w, peeled max cs data (body r) w ∧ decode_error r = match first with Some t => Some t | None => w end) ∨
  (∃ off c rest w t, cs = off ++ c :: rest ∧ peeled max off data (body r) w ∧ stuck max c (body r) t ∧
     decode_error r = Some (if bool_decide (n + zlen off = 0) then failure c t
       else dec (n + zlen off) ++ bs " of " ++ dec total ++ bs " content-encoding layers came off: " ++ failure c t)).

Lemma taken_off_layer max c cs data out e n total first r : layer max c data out e →
  taken_off max cs out (n + 1) total (match first with Some t => Some t | None => damage c <$> broken e end) r →
  taken_off max (c :: cs) data n total first r.
Proof.
  intros Hl [(w & Hp & He)|(off & c' & rest & w & t & -> & Hp & Hs & He)].
  - left. eexists. split; [by eapply peeled_layer|]. rewrite He. by destruct first, (broken e).
  - right. eexists (c :: off), c', rest, _, t. split_and!; [done|by eapply peeled_layer|done|].
    rewrite He, zlen_cons. by replace (n + (1 + zlen off)) with (n + 1 + zlen off) by lia.
Qed.

Lemma peel_taken_off cs data n total first max : 0 ≤ max → 0 < n → Forall (λ c, c ≠ Identity) cs →
  taken_off max cs data n total first (peel cs data n total first max).
Proof.
  intros Hm. revert data n first. induction cs as [|c cs IH]; intros data n first Hn Hc; cbn [Decompress.peel].
  - left. exists None. by destruct first; split; try constructor.
  - apply Forall_cons in Hc as [Hc Hcs]. pose proof (decode_one_layer c data max Hm Hc) as H.
    destruct (decode_one c data max) as [out|out why|why].
    + destruct H as (e & Hl & He). eapply taken_off_layer; [exact Hl|]. rewrite He. cbn.
      destruct first; apply IH; done || lia.
    + destruct H as (t & Hl & ->). eapply taken_off_layer; [exact Hl|]. cbn. destruct first; apply IH; done || lia.
    + destruct H as (t & Hs & ->). right. exists [], c, cs, None, t. split_and!; [done|constructor|done|].
      rewrite zlen_nil, bool_decide_false by lia. cbn. by rewrite Z.add_0_r.
Qed.

(** ** What the header lists *)

(** The names of the codings (RFC 9110 8.4.1). *)
Definition coding_names : list (bytes * Codec) :=
  [(bs "gzip", Gzip); (bs "x-gzip", Gzip); (bs "deflate", Deflate); (bs "br", Brotli); (bs "identity", Identity)].
Definition names (t : bytes) (c : Codec) : Prop := (t, c) ∈ coding_names.

(** The entries of the list that are not blank, and the codings to undo. *)
Definition entries (encoding : bytes) : list bytes :=
  List.filter (λ t, negb (bool_decide (t = []))) (map trim (split (ch ",") encoding)).
Definition to_undo (cs : list Codec) : list Codec := List.filter (λ c, negb (bool_decide (c = Identity))) cs.

Lemma from_token_names t c : from_token t = Some c ↔ names t c.
Proof.
  unfold names, coding_names. rewrite !elem_of_cons, elem_of_nil. unfold from_token. split.
  - repeat case_bool_decide; cbn; intros [= <-]; subst; naive_solver.
  - intros H. repeat (destruct H as [[= -> ->]|H]); [vm_compute; reflexivity..|done].
Qed.

Lemma parse_codecs_entries tokens acc :
  let es := List.filter (λ t, negb (bool_decide (t = []))) (map trim tokens) in
  (∃ all, Forall2 names es all ∧ parse_codecs tokens acc = inl (acc ++ to_undo all)) ∨
  (∃ pre t post, es = pre ++ t :: post ∧ Forall (λ t, ∃ c, names t c) pre ∧ (¬ ∃ c, names t c) ∧ parse_codecs tokens acc = inr t).
Proof.
  revert acc. induction tokens as [|t ts IH]; intros acc; cbn [parse_codecs map List.filter].
  { left. exists []. split; [constructor|]. by rewrite app_nil_r. }
  destruct (bool_decide (trim t = [])) eqn:Et; cbn [negb]; [exact (IH acc)|].
  destruct (from_token (trim t)) as [c|] eqn:Ef.
  - pose proof (proj1 (from_token_names _ _) Ef) as Hc. set (acc' := if bool_decide (c = Identity) then acc else acc ++ [c]).
    assert ((match c with Identity => parse_codecs ts acc | _ => parse_codecs ts (acc ++ [c]) end) = parse_codecs ts acc') as ->
      by (unfold acc'; by destruct c).
    destruct (IH acc') as [(all & Hall & ->)|(pre & x & post & -> & Hpre & Hx & ->)].
    + left. exists (c :: all). split; [by constructor|]. unfold acc', to_undo. cbn [List.filter].
      destruct (bool_decide (c = Identity)); cbn [negb]; [done|]. by rewrite <- (assoc_L (++)).
    + right. exists (trim t :: pre), x, post. split_and!; [done| |done|done]. constructor; [eauto|done].
  - right. eexists [], (trim t), _. split_and!; [done|constructor| |done]. intros [c Hc%from_token_names]. congruence.
Qed.

Lemma to_undo_proper all : Forall (λ c, c ≠ Identity) (to_undo all).
Proof.
  apply Forall_forall. intros c Hc. apply list_elem_of_In, filter_In in Hc as [_ Hc]. by intros ->.
Qed.

(** The two ways a list of entries reads. *)
Definition listed (encoding : bytes) (cs : list Codec) : Prop :=
  ∃ all, Forall2 names (entries encoding) all ∧ cs = to_undo all.
Definition unknown (encoding t : bytes) : Prop :=
  ∃ pre post, entries encoding = pre ++ t :: post ∧ Forall (λ t, ∃ c, names t c) pre ∧ ¬ ∃ c, names t c.

(** C10: what [decompress] hands back, for any decoders.  A body without bytes is itself.
    With an entry of the list unknown, the body is the bytes as they arrived and the first
    such entry is named.  Otherwise the listed layers are taken off, outermost first, each
    by the first of its streams (a [deflate] body has two, the likelier one first) that
    does not break before giving anything, up to the cap: either all of them come off, and
    the error is that of the outermost one whose stream broke, if one did; or the body is
    what is left at the first layer that none of its streams opens, the error says how
    many came off and why this one did not.  So the result is called content exactly when
    every coding is known and every stream ended by itself or at the cap.  The body is
    never longer than the cap. *)
Theorem decompress_classified (encoding data : bytes) (max : Z) :
  0 ≤ max → zlen data ≤ max →
  let r := decompress encoding data max in
  zlen (body r) ≤ max ∧
  (data = [] → r = content []) ∧
  (data ≠ [] → ∀ t, unknown encoding t → r = raw data (bs "unsupported content-encoding '" ++ t ++ bs "'")) ∧
  (data ≠ [] → ∀ cs, listed encoding cs → taken_off max (rev cs) data 0 (zlen cs) None r) ∧
  (data ≠ [] → ((∃ t, unknown encoding t) ∨ ∃ cs, listed encoding cs) ∧
     (decode_error r = None ↔ ∃ cs, listed encoding cs ∧ peeled max (rev cs) data (body r) None)).
Proof.
  intros Hm Hd r.
  assert (data ≠ [] → ∀ t, parse_codecs (split (ch ",") encoding) [] = inr t → r = raw data (bs "unsupported content-encoding '" ++ t ++ bs "'")) as Hun.
  { intros Hne t Ht. unfold r, Decompress.decompress. by rewrite bool_decide_false, Ht. }
  assert (data ≠ [] → ∀ all, parse_codecs (split (ch ",") encoding) [] = inl (to_undo all) →
    taken_off max (rev (to_undo all)) data 0 (zlen (to_undo all)) None r) as Hoff.
  { intros Hne all Hp. unfold r, Decompress.decompress. rewrite bool_decide_false, Hp by done.
    assert (Forall (λ c, c ≠ Identity) (rev (to_undo all))) as Hc by (apply Forall_rev, to_undo_proper).
    destruct (rev (to_undo all)) as [|c rest]; [left; exists None; split; [constructor|done]|].
    apply Forall_cons in Hc as [Hc Hrest]. pose proof (decode_one_layer c data max Hm Hc) as H.
    destruct (decode_one c data max) as [out|out why|why].
    - destruct H as (e & Hl & He). eapply taken_off_layer; [exact Hl|]. rewrite He. by apply peel_taken_off.
    - destruct H as (t & Hl & ->). eapply taken_off_layer; [exact Hl|]. by apply peel_taken_off.
    - destruct H as (t & Hs & ->). right. exists [], c, rest, None, t. by split_and!; try constructor. }
  pose proof (parse_codecs_entries (split (ch ",") encoding) []) as Hcases. cbv zeta in Hcases. fold (entries encoding) in Hcases.
  split; [by apply decompress_size|]. split; [by intros ->|].
  destruct Hcases as [(all & Hall & Hp)|(pre & t & post & He & Hpre & Ht & Hp)]; cbn [app] in Hp.
  - assert (∀ cs, listed encoding cs → cs = to_undo all) as Hsame.
    { intros cs (all' & Hall' & ->). f_equal. clear -Hall Hall'. revert all' Hall'.
      induction Hall as [|t c ts cs Hc _ IH]; intros all' H; inversion H as [|? c' ? ? Hc' H']; subst; [done|].
      apply from_token_names in Hc, Hc'. f_equal; [congruence|by apply IH]. }
    split_and!.
    + intros Hne t (pre & post & He & _ & Hn). exfalso. rewrite He in Hall.
      apply Forall2_app_inv_l in Hall as (? & ? & _ & H & _). inversion H; subst. eauto.
    + intros Hne cs ->%Hsame. by apply Hoff.
    + intros Hne. split; [right; by exists (to_undo all), all|]. specialize (Hoff Hne all Hp). split.
      * intros Hr. exists (to_undo all). split; [by exists all|].
        destruct Hoff as [(w & Hw & He)|(? & ? & ? & ? & ? & _ & _ & _ & He)]; [|congruence]. by rewrite Hr in He; subst w.
      * intros (cs & ->%Hsame & Hpe). destruct Hoff as [(w & Hw & ->)|(off & c & rest & w & t & Hcs & Hw & Hs & _)].
        -- by destruct (peeled_det _ _ _ _ _ _ _ Hpe Hw) as [_ <-].
        -- rewrite Hcs in Hpe. by destruct (peeled_cut _ _ _ _ _ _ _ _ _ _ Hpe Hw Hs).
  - assert (∀ cs, ¬ listed encoding cs) as Hno.
    { intros cs (all & Hall & _). rewrite He in Hall. apply Forall2_app_inv_l in Hall as (? & ? & _ & H & _).
      inversion H; subst. apply Ht. eauto. }
    assert (unknown encoding t) as Hu by by exists pre, post.
    split_and!.
    + intros Hne t' (pre' & post' & He' & Hpre' & Ht'). assert (t' = t) as ->; [|by apply Hun].
      rewrite He in He'. clear -He' Hpre Hpre' Ht Ht'. revert pre' Hpre' He'.
      induction Hpre as [|x pre Hx _ IH]; intros pre' Hpre' E; destruct Hpre' as [|y pre' Hy Hpre']; injection E as <- E; try done. by apply (IH pre').
    + intros _ cs Hcs. by destruct (Hno cs).
    + intros Hne. split; [left; by exists t|]. rewrite (Hun Hne t Hp). split; [done|]. intros (cs & Hcs & _). by destruct (Hno cs).
Qed.
End facts.
