(* ===== verification/DecompressProps.v ===== *)
(** * Encoded bodies come back (src/client/hyper.rs)

    The round trip of [decompress]: for decoders that undo an encoder, every
    [Content-Encoding] list is undone.  The toy codec below instantiates the
    decoders in the witnesses. *)
From S2P Require Import Prelude RustStd ClientError Decompress.

(** ** Header text *)

Lemma split_sep c a s : c ∉ a → split c (a ++ c :: s) = a :: split c s.
Proof.
  induction a as [|x a IH]; intros H; cbn; [by rewrite Z.eqb_refl|].
  apply not_elem_of_cons in H as [Hx H]. rewrite IH by done.
  destruct (Z.eqb_spec x c) as [->|]; [done|]. done.
Qed.

Lemma split_clean c a : c ∉ a → split c a = [a].
Proof.
  induction a as [|x a IH]; intros H; cbn; [done|]. apply not_elem_of_cons in H as [Hx H].
  rewrite IH by done. destruct (Z.eqb_spec x c) as [->|]; [done|]. done.
Qed.

(** How a coding is named in the header. *)
Definition token_of (c : Codec) : bytes :=
  match c with Gzip => bs "gzip" | Deflate => bs "deflate" | Brotli => bs "br" | Identity => bs "identity" end.

Fixpoint header_value (cs : list Codec) : bytes :=
  match cs with
  | [] => []
  | [c] => token_of c
  | c :: cs => token_of c ++ bs ", " ++ header_value cs
  end.

Definition applied (cs : list Codec) : list Codec := List.filter (λ c, negb (bool_decide (c = Identity))) cs.

Lemma token_no_comma c : ch "," ∉ token_of c.
Proof. destruct c; by apply split_once_none. Qed.

(** An entry, with or without the blank after the comma. *)
Lemma parse_codecs_token b c rest acc : b = [] ∨ b = bs " " →
  parse_codecs ((b ++ token_of c) :: rest) acc = parse_codecs rest (acc ++ applied [c]).
Proof. intros [-> | ->]; destruct c; cbn; by rewrite ?app_nil_r. Qed.

Lemma parse_header_value cs b acc : cs ≠ [] → b = [] ∨ b = bs " " →
  parse_codecs (split (ch ",") (b ++ header_value cs)) acc = inl (acc ++ applied cs).
Proof.
  revert b acc. induction cs as [|c cs IH]; intros b acc Hne Hb; [done|].
  assert (ch "," ∉ b ++ token_of c) as Hn.
  { rewrite elem_of_app. intros [H|H]; [|by apply token_no_comma in H].
    revert H. destruct Hb as [-> | ->]; by apply split_once_none. }
  destruct cs as [|c' cs].
  - cbn [header_value]. rewrite split_clean, parse_codecs_token by done. done.
  - change (header_value (c :: c' :: cs)) with (token_of c ++ ch "," :: bs " " ++ header_value (c' :: cs)).
    rewrite (assoc_L (++)), split_sep, parse_codecs_token by done.
    rewrite IH; [|done|by right]. rewrite <- (assoc_L (++)). do 2 f_equal.
    unfold applied. cbn [List.filter]. by case_match.
Qed.

(** ** Round trip *)

Section roundtrip.
Context {R : Type} `{!Read R}.
Context (new_decoder : flavor → bytes → R) (spare : list bytes → Z).

(** [clean r b]: the reader will deliver exactly [b], in whatever pieces, and end. *)
Context (clean : R → bytes → Prop).
Definition delivers : Prop := ∀ r b n, clean r b → 0 < n →
  ∃ c rest r', rd r n = (inr c, r') ∧ b = c ++ rest ∧ (c = [] → b = []) ∧ clean r' rest.

(** A reader that rejects its input outright. *)
Definition rejects (r : R) : Prop := ∀ n, 0 < n → ∃ t r', rd r n = (inl t, r').

(** The encoders: their output is never empty, and the matching decoder undoes it.
    A [deflate] body is a zlib stream, or a raw stream that either does not look
    like a zlib one or is rejected as one. *)
Context (encode : Codec → bytes → bytes).
Definition encoder_law : Prop := ∀ c b,
  encode c b ≠ [] ∧
  match c with
  | Gzip => clean (new_decoder GzipStream (encode c b)) b
  | Brotli => clean (new_decoder BrotliStream (encode c b)) b
  | Deflate =>
      (has_zlib_header (encode c b) = true ∧ clean (new_decoder ZlibStream (encode c b)) b) ∨
      (clean (new_decoder DeflateStream (encode c b)) b ∧
         (has_zlib_header (encode c b) = false ∨ rejects (new_decoder ZlibStream (encode c b))))
  | Identity => True
  end.

(** The codings applied in order. *)
Definition encode_all (cs : list Codec) (b : bytes) : bytes := foldl (λ b c, encode c b) b cs.

Lemma read_to_end_clean fuel r limit reads b : delivers → clean r b →
  zlen b ≤ limit → (Z.to_nat limit ≤ fuel)%nat →
  read_to_end spare fuel r limit reads = (concat reads ++ b, None).
Proof.
  intros Hd. revert r limit reads b. induction fuel as [|fuel IH]; intros r limit reads b Hc Hb Hf; cbn [read_to_end].
  - destruct b; [|rewrite zlen_cons in Hb; pose proof (zlen_nonneg b); lia].
    rewrite app_nil_r. by case_match.
  - destruct (bool_decide (limit ≤ 0)) eqn:E.
    + apply bool_decide_eq_true in E. destruct b; [by rewrite app_nil_r|].
      rewrite zlen_cons in Hb. pose proof (zlen_nonneg b). lia.
    + apply bool_decide_eq_false in E.
      destruct (Hd r b (Z.min (Z.max 1 (spare reads)) limit) Hc ltac:(lia)) as (c & rest & r' & -> & -> & He & Hc').
      destruct c as [|x c].
      * specialize (He eq_refl). cbn in He. subst rest. by rewrite !app_nil_r.
      * simp_len. rewrite (IH r' _ _ rest Hc') by (simp_len; pose proof (zlen_nonneg c); pose proof (zlen_nonneg rest); lia).
        rewrite concat_app. cbn [concat]. by rewrite app_nil_r, <- (assoc_L (++)).
Qed.

Lemma read_bounded_clean r b max c : delivers → clean r b → zlen b ≤ max →
  read_bounded spare r max c = Whole b.
Proof. intros Hd Hc Hb. unfold read_bounded. rewrite (read_to_end_clean _ r max [] b) by (done || lia). by destruct b. Qed.

Lemma read_bounded_rejects r max c : rejects r → 0 < max → ∃ w, read_bounded spare r max c = Failed w.
Proof.
  intros Hr Hm. unfold read_bounded. destruct (Z.to_nat max) eqn:E; [lia|]. cbn [read_to_end].
  rewrite bool_decide_false by lia. destruct (Hr (Z.min (Z.max 1 (spare [])) max) ltac:(lia)) as (t & r' & ->).
  cbn. eauto.
Qed.

Lemma decode_one_encode c b max : delivers → encoder_law → c ≠ Identity → 0 < max → zlen b ≤ max →
  decode_one new_decoder spare c (encode c b) max = Whole b.
Proof.
  intros Hd Hl Hc Hm Hb. destruct (Hl c b) as [_ H]. destruct c; cbn [decode_one]; try done;
    try by apply read_bounded_clean.
  unfold decode_deflate. destruct H as [[-> H]|[H [->|Hr]]].
  - by rewrite (read_bounded_clean _ _ _ _ Hd H).
  - by rewrite (read_bounded_clean _ _ _ _ Hd H).
  - destruct (read_bounded_rejects _ _ Deflate Hr Hm) as [w Hw].
    destruct (has_zlib_header _); cbn [negb]; [rewrite Hw|]; by rewrite (read_bounded_clean _ _ _ _ Hd H).
Qed.

Lemma encode_all_nonempty cs b : encoder_law → b ≠ [] → encode_all cs b ≠ [].
Proof.
  intros Hl. revert b. induction cs as [|c cs IH]; intros b Hb; [done|]. apply IH, Hl.
Qed.

Lemma peels_encode_all cs b max : delivers → encoder_law → 0 < max →
  Forall (λ c, c ≠ Identity) cs → (∀ k, zlen (encode_all (take k cs) b) ≤ max) →
  peels new_decoder spare max (rev cs) (encode_all cs b) b true.
Proof.
  intros Hd Hl Hm. induction cs as [|c cs IH] using rev_ind; intros Hf Hk; [constructor|].
  apply Forall_app in Hf as [Hf Hc]. apply Forall_cons in Hc as [Hc _].
  rewrite rev_app_distr. cbn [rev app]. unfold encode_all. rewrite foldl_app. cbn [foldl].
  econstructor.
  - apply decode_one_encode. 1-4: done. specialize (Hk (length cs)). by rewrite take_app_length in Hk.
  - apply IH; [done|]. intros k. destruct (decide (k ≤ length cs)%nat).
    + specialize (Hk k). by rewrite take_app_le in Hk.
    + specialize (Hk (length cs)). rewrite take_app_length in Hk. by rewrite take_ge by lia.
Qed.


(** C12: with decoders that undo the encoders, a body encoded by any list of
    codings and announced by that list comes back whole and marked as content,
    whichever flavour of [deflate] was used and in whatever pieces the decoders
    deliver, as long as each layer fits the cap. *)
Theorem decompress_roundtrip (cs : list Codec) (b : bytes) (max : Z) :
  delivers → encoder_law → b ≠ [] → cs ≠ [] →
  (∀ k, zlen (encode_all (take k (applied cs)) b) ≤ max) →
  decompress new_decoder spare (header_value cs) (encode_all (applied cs) b) max = content b.
Proof.
  intros Hd Hl Hb Hcs Hk.
  assert (0 < max) as Hm.
  { specialize (Hk 0%nat). change (zlen b ≤ max) in Hk. destruct b; [done|]. rewrite zlen_cons in Hk. pose proof (zlen_nonneg b). lia. }
  pose proof (parse_header_value cs [] [] Hcs (or_introl eq_refl)) as Hp. cbn [app] in Hp.
  unfold decompress. rewrite bool_decide_false by by apply encode_all_nonempty.
  rewrite Hp. assert (Forall (λ c, c ≠ Identity) (applied cs)) as Hf.
  { apply Forall_forall. intros c Hc. apply list_elem_of_In, filter_In in Hc as [_ Hc].
    intros ->. done. }
  pose proof (peels_encode_all (applied cs) b max Hd Hl Hm Hf Hk) as Hpe.
  destruct (rev (applied cs)) as [|c rest].
  - remember (encode_all (applied cs) b) as d. by inversion Hpe; subst.
  - inversion Hpe as [|? ? ? o ? ? Ho Hr|]; subst. rewrite Ho. by apply peels_clean_peel.
Qed.
End roundtrip.

(** ** A toy codec

    Each encoder prefixes a byte; a decoder checks it and delivers the rest. *)

Record ToyReader := mkToy { toy_rest : bytes; toy_error : option bytes }.

Definition toy_rd (r : ToyReader) (n : Z) : (bytes + bytes) * ToyReader :=
  match r.(toy_error) with
  | Some e => (inl e, r)
  | None => (inr (take (Z.to_nat n) r.(toy_rest)), mkToy (drop (Z.to_nat n) r.(toy_rest)) None)
  end.

#[export] Program Instance toy_read : Read ToyReader := {| rd := toy_rd |}.
Next Obligation.
  intros r n b r' Hn. unfold toy_rd. destruct (toy_error r); [done|]. intros [= <- <-].
  unfold zlen. rewrite length_take. lia.
Qed.

Definition toy_magic (f : flavor) : Z :=
  match f with GzipStream => 1 | ZlibStream => 2 | DeflateStream => 3 | BrotliStream => 4 end.
Definition toy_decoder (f : flavor) (data : bytes) : ToyReader :=
  match data with
  | m :: data => if m =? toy_magic f then mkToy data None else mkToy [] (Some (bs "bad magic"))
  | [] => mkToy [] (Some (bs "empty"))
  end.
Definition toy_encode (c : Codec) (b : bytes) : bytes :=
  (match c with Gzip => 1 | Deflate => 3 | Brotli => 4 | Identity => 0 end) :: b.
Definition toy_clean (r : ToyReader) (b : bytes) : Prop := r = mkToy b None.

Lemma toy_delivers : delivers toy_clean.
Proof.
  intros r b n -> Hn. cbn. exists (take (Z.to_nat n) b), (drop (Z.to_nat n) b), (mkToy (drop (Z.to_nat n) b) None).
  split_and!; [done|by rewrite take_drop| |done].
  intros H. apply (f_equal length) in H. rewrite length_take in H. destruct b; [done|]. cbn in H. lia.
Qed.

Lemma toy_law : encoder_law toy_decoder toy_clean toy_encode.
Proof.
  intros c b. split; [done|]. destruct c; try done. right. split; [done|]. left. by destruct b.
Qed.

Lemma decompress_roundtrip_witness :
  decompress toy_decoder (λ _, 2) (bs "gzip, identity, deflate") [3; 1; 104; 105] 10 = content (bs "hi").
Proof.
  apply (decompress_roundtrip toy_decoder (λ _, 2) toy_clean toy_encode [Gzip; Identity; Deflate] (bs "hi") 10).
  - exact toy_delivers.
  - exact toy_law.
  - done.
  - done.
  - intros [|[|[|k]]]; vm_compute; done.
Defined.

(** A body that was compressed once and announced twice. *)
Definition twice_announced : Decoded := decompress toy_decoder (λ _, 2) (bs "gzip,gzip") [1; 104; 105] 10.

(** One layer comes off, the other is refused; and a damaged stream is not content. *)
Lemma decompress_classified_witness :
  twice_announced = partial (bs "hi") (bs "1 of 2 content-encoding layers came off: gzip decompression failed: bad magic") ∧
  zlen (body twice_announced) ≤ 10 ∧
  taken_off toy_decoder (λ _, 2) 10 [Gzip; Gzip] [1; 104; 105] 0 2 None twice_announced ∧
  (decode_error twice_announced = None ↔
     ∃ cs, listed (bs "gzip,gzip") cs ∧ peeled toy_decoder (λ _, 2) 10 (rev cs) [1; 104; 105] (body twice_announced) None) ∧
  decompress toy_decoder (λ _, 2) (bs "gzip, lzma, br") [1; 104; 105] 10 =
    raw [1; 104; 105] (bs "unsupported content-encoding 'lzma'").
Proof.
  destruct (decompress_classified toy_decoder (λ _, 2) (bs "gzip,gzip") [1; 104; 105] 10) as (H1 & _ & _ & H2 & H3);
    [done|done|].
  destruct (decompress_classified toy_decoder (λ _, 2) (bs "gzip, lzma, br") [1; 104; 105] 10) as (_ & _ & H4 & _);
    [done|done|].
  split; [vm_compute; reflexivity|]. split; [exact H1|]. split_and!.
  - apply (H2 ltac:(done) [Gzip; Gzip]). exists [Gzip; Gzip]. split; [|reflexivity]. change (entries (bs "gzip,gzip")) with [bs "gzip"; bs "gzip"].
    repeat constructor.
  - by apply H3.
  - apply (H4 ltac:(done) (bs "lzma")). exists [bs "gzip"], [bs "br"]. split_and!; [reflexivity|repeat econstructor|].
    intros [c Hc%from_token_names]. discriminate.
Defined.
