(* ===== verification/Request.v ===== *)
(** * Building requests (the pure part of src/client/hyper.rs)

    URL sanitising, redirects, TLS and ALPN parameters, the back-off, and the
    request line and headers.  Parsing a URI and the [http] builder's checks are
    parameters, and the builder's header map is an interface ([HeaderMap]). *)
From S2P Require Import Prelude RustStd ClientError Uri Config.

(** ** URLs *)

Definition is_ascii_hexdigit (b : Z) : bool :=
  is_digit b || ((65 <=? b) && (b <=? 70)) || ((97 <=? b) && (b <=? 102)).

Definition must_encode (b : Z) : bool :=
  existsb (Z.eqb b) (bs " <>{}" ++ [34]) || ((0 <=? b) && (b <=? 0x1F)) || (b =? 0x7F).

Definition upper_hex_digit (d : Z) : Z := if d <? 10 then 48 + d else 55 + d.
(** [{:02X}]. *)
Definition hex2_upper (b : Z) : bytes := [upper_hex_digit (b / 16); upper_hex_digit (b mod 16)].

(** [out.push(b as char)]: the character with that number, in UTF-8. *)
Definition push_char (b : Z) : bytes := if b <? 128 then [b] else [192 + b / 64; 128 + b mod 64].

(** An already encoded [%XX]. *)
Definition escape_at (s : bytes) : bool :=
  match s with
  | p :: h :: l :: _ => (p =? ch "%") && is_ascii_hexdigit h && is_ascii_hexdigit l
  | _ => false
  end.

(** The loop; [skip] bytes of an escape are still to be copied. *)
Fixpoint sanitize_loop (skip : nat) (s : bytes) : bytes :=
  match s with
  | [] => []
  | b :: s' =>
      match skip with
      | S skip => push_char b ++ sanitize_loop skip s'
      | O =>
          if escape_at s then push_char b ++ sanitize_loop 2 s'
          else if must_encode b then ch "%" :: hex2_upper b ++ sanitize_loop 0 s'
          else push_char b ++ sanitize_loop 0 s'
      end
  end.
Definition sanitize_uri (url : bytes) : bytes := sanitize_loop 0 url.

Definition peer_slot_key (uri : Uri) : option bytes :=
  host ← uri.(host);
  let default_port := if bool_decide (uri.(scheme_str) = Some (bs "https")) then 443 else 80 in
  Some (host ++ bs ":" ++ dec (default default_port uri.(port_u16))).

(** ** TLS parameters *)

Fixpoint encode_alpn_protocols (protos : list bytes) : exec ClientError bytes :=
  match protos with
  | [] => Ok []
  | p :: protos =>
      if bool_decide (p = []) then Err (err_tls (bs "ALPN protocol name cannot be empty"))
      else if bool_decide (zlen p > 255) then
        Err (err_tls (bs "ALPN protocol name too long (" ++ dec (zlen p) ++ bs "B > 255): " ++ p))
      else rest ← encode_alpn_protocols protos; Ok (u8 (zlen p) :: p ++ rest)
  end.

Inductive SslVersion := TLS1 | TLS1_1 | TLS1_2 | TLS1_3.

#[export] Instance SslVersion_eq_dec : EqDecision SslVersion.
Proof. solve_decision. Defined.

(** The characters of the accepted names have no other lower-case preimage, so
    ASCII lower-casing decides as [to_lowercase] does. *)
Definition parse_tls_version (s : bytes) : exec ClientError SslVersion :=
  let l := to_ascii_lowercase s in
  let named_as v := bool_decide (l = bs v) || bool_decide (l = bs "tls" ++ bs v) || bool_decide (l = bs "tlsv" ++ bs v) in
  if named_as "1.0"%string then Ok TLS1
  else if named_as "1.1"%string then Ok TLS1_1
  else if named_as "1.2"%string then Ok TLS1_2
  else if named_as "1.3"%string then Ok TLS1_3
  else Err (err_other (bs "unknown TLS version '" ++ s ++ bs "' (use 1.0, 1.1, 1.2, 1.3)")).

(** ** Redirects and retries *)

Definition is_redirect (status : Z) : bool :=
  bool_decide (status ∈ [301; 302; 303; 307; 308]).

(** [2u64.saturating_pow(attempt)] and [Duration::saturating_mul] of a duration in
    milliseconds by a [u32]; [Duration::MAX] is [u64::MAX] seconds. *)
Definition saturating_pow2 (attempt : Z) : Z := Z.min (2 ^ attempt) u64_max.
Definition DURATION_MAX_MS : Z := u64_max * 1000 + 999.
Definition retry_backoff (attempt min_wait max_wait : Z) : Z :=
  let factor := saturating_pow2 attempt in
  let backoff := Z.min (min_wait * u32 factor) DURATION_MAX_MS in
  Z.min backoff max_wait.

(** ** The request *)

Record Request := mkRequest {
  r_method : bytes;
  r_uri : Uri;
  r_headers : list (bytes * bytes);
  r_body : bytes
}.

Definition named (n : bytes) (h : bytes * bytes) : bool := eq_ignore_ascii_case h.1 n.
Definition has_header (n : bytes) (l : list (bytes * bytes)) : bool := existsb (named n) l.

(** [value.trim().trim_end_matches([';', ' '])]. *)
Fixpoint drop_separators (s : bytes) : bytes :=
  match s with
  | b :: s' => if (b =? ch ";") || (b =? ch " ") then drop_separators s' else s
  | [] => []
  end.
Definition caller_cookies (value : bytes) : bytes := rev (drop_separators (rev (trim value))).

Definition merge_cookies (value extra : bytes) : bytes :=
  let caller := caller_cookies value in
  if bool_decide (caller = []) then extra else caller ++ bs "; " ++ extra.

(** The loop over the caller's headers: what is emitted, and [merged_cookies]. *)
Fixpoint emit_headers (redirect_cookies : option bytes) (headers : list (bytes * bytes)) (merged : bool)
    : list (bytes * bytes) * bool :=
  match headers with
  | [] => ([], merged)
  | (name, value) :: headers =>
      match redirect_cookies with
      | Some extra =>
          if negb merged && eq_ignore_ascii_case name (bs "cookie") then
            let '(out, m) := emit_headers redirect_cookies headers true in
            ((name, merge_cookies value extra) :: out, m)
          else
            let '(out, m) := emit_headers redirect_cookies headers merged in ((name, value) :: out, m)
      | None => let '(out, m) := emit_headers redirect_cookies headers merged in ((name, value) :: out, m)
      end
  end.

(** The values under a name, in order. *)
Definition values_of (n : bytes) (l : list (bytes * bytes)) : list bytes := map snd (List.filter (named n) l).

(** [http::HeaderMap], as one walks it after a list of headers was appended to it.  Its
    documented contract: names are lower-case, and the values under one name stay in the
    order they were appended in; nothing is promised of the order across names. *)
Class HeaderMap := {
  header_map : list (bytes * bytes) → list (bytes * bytes);
  header_map_lower l : Forall (λ h, to_ascii_lowercase h.1 = h.1) (header_map l);
  header_map_values n l : values_of n (header_map l) = values_of n l
}.

Section builder.
Context `{Headers : !HeaderMap}.
(** [str::parse::<http::Uri>], and the error with which [http]'s builder refuses the
    method, URI or headers it is given, if it does. *)
Context (parse_uri : bytes → bytes + Uri).
Context (builder_error : Request → option bytes).

Definition parse_url (ctx url : bytes) : exec ClientError Uri :=
  match parse_uri url with
  | inr uri => Ok uri
  | inl e => Err (err_invalid_url (ctx ++ e))
  end.

Definition resolve_redirect (current : Uri) (location : bytes) : exec ClientError Uri :=
  let sanitized := sanitize_uri location in
  let relative :=
    let scheme := default (bs "https") current.(scheme_str) in
    authority ← ok_or current.(authority)
      (err_invalid_url (bs "no authority in current URL to resolve relative redirect: " ++ location));
    let absolute := scheme ++ bs "://" ++ authority ++ sanitized in
    parse_url (bs "invalid redirect URL '" ++ absolute ++ bs "': ") absolute in
  match parse_uri sanitized with
  | inr uri => if bool_decide (is_Some uri.(scheme_str)) then Ok uri else relative
  | inl _ => relative
  end.

Definition or_uri (uri : Uri) (parsed : bytes + Uri) : Uri :=
  match parsed with inr u => u | inl _ => uri end.

Definition effective_uri (uri : Uri) (origin_form : bool) : exec ClientError Uri :=
  if origin_form then
    match uri.(query) with
    | Some q => Ok (or_uri uri (parse_uri (uri.(path) ++ bs "?" ++ q)))
    | None =>
        if bool_decide (uri.(path) = []) then
          match parse_uri (bs "/") with inr u => Ok u | inl _ => Panic end
        else Ok (or_uri uri (parse_uri uri.(path)))
    end
  else Ok uri.

Definition default_headers (uri : Uri) (config : RequestConfig) (manual_host_header : bool) : list (bytes * bytes) :=
  let custom := default [] config.(cfg_headers) in
  (match uri.(authority) with
   | Some authority =>
       if manual_host_header && negb (has_header (bs "host") custom) then [(bs "Host", authority)] else []
   | None => []
   end)
  ++ (if has_header (bs "user-agent") custom then [] else [(bs "User-Agent", bs "blasthttp/0.1.0")])
  ++ (if has_header (bs "accept-encoding") custom then [] else [(bs "Accept-Encoding", bs "gzip, deflate, br")]).

Definition build_request (uri : Uri) (config : RequestConfig) (origin_form manual_host_header : bool)
    (redirect_cookies : option bytes) : exec ClientError Request :=
  effective_uri ← effective_uri uri origin_form;
  let '(emitted, merged_cookies) := emit_headers redirect_cookies (default [] config.(cfg_headers)) false in
  let own := match redirect_cookies with
             | Some extra => if merged_cookies then [] else [(bs "Cookie", extra)]
             | None => []
             end in
  let given := default_headers uri config manual_host_header ++ emitted ++ own in
  let request := mkRequest (method config) effective_uri given (default [] config.(cfg_body)) in
  match builder_error request with
  | Some e => Err (err_other (bs "failed to build request: " ++ e))
  | None => Ok (mkRequest (method config) effective_uri (header_map given) (default [] config.(cfg_body)))
  end.
End builder.
