(* ===== verification/RequestProps.v ===== *)
(** * Properties of the request building (src/client/hyper.rs)

    What sanitising does to a URL, the back-off, the ALPN wire form, and the
    headers a request carries. *)
From S2P Require Import Prelude RustStd ClientError Uri Config Request.

(** ** sanitize_uri *)

Definition ascii_char (b : Z) : Prop := 0 ≤ b < 128.

(** Percent-decoding: the characters a URL denotes. *)
Definition hex_value (b : Z) : Z :=
  if is_digit b then b - 48 else if (65 <=? b) && (b <=? 70) then b - 55 else b - 87.
Fixpoint unescape (s : bytes) : bytes :=
  match s with
  | p :: ((h :: l :: rest) as s') =>
      if (p =? ch "%") && is_ascii_hexdigit h && is_ascii_hexdigit l
      then (hex_value h * 16 + hex_value l) :: unescape rest
      else p :: unescape s'
  | p :: s' => p :: unescape s'
  | [] => []
  end.

Lemma unescape_escape p h l rest : escape_at (p :: h :: l :: rest) = true →
  unescape (p :: h :: l :: rest) = (hex_value h * 16 + hex_value l) :: unescape rest.
Proof. intros H. cbn [unescape]. cbn [escape_at] in H. by rewrite H. Qed.

Lemma unescape_plain b s : escape_at (b :: s) = false → unescape (b :: s) = b :: unescape s.
Proof. intros H. destruct s as [|h [|l s]]; [done|done|]. cbn [unescape]. cbn [escape_at] in H. by rewrite H. Qed.

Lemma ascii_is_byte b : ascii_char b → is_byte b.
Proof. unfold ascii_char, is_byte. lia. Qed.

(** What each byte becomes, established byte by byte. *)
Definition encodes_well (b : Z) : bool :=
  let e := hex2_upper b in
  if b <? 128 then
    match e with
    | [h; l] => is_ascii_hexdigit h && is_ascii_hexdigit l && (hex_value h * 16 + hex_value l =? b)
                && negb (must_encode h) && negb (must_encode l) && negb (is_ascii_hexdigit (ch "%"))
    | _ => false
    end
  else true.
Lemma encodes_well_all b : is_byte b → encodes_well b = true.
Proof. apply byte_forall. vm_compute. reflexivity. Qed.

Lemma hex2_upper_facts b : ascii_char b → ∃ h l, hex2_upper b = [h; l] ∧ is_ascii_hexdigit h = true ∧
  is_ascii_hexdigit l = true ∧ hex_value h * 16 + hex_value l = b ∧ must_encode h = false ∧ must_encode l = false.
Proof.
  intros Hb. pose proof (encodes_well_all b (ascii_is_byte b Hb)) as H. unfold encodes_well, hex2_upper in H.
  unfold ascii_char in Hb. rewrite (proj2 (Z.ltb_lt b 128)) in H by lia.
  rewrite !andb_true_iff, !negb_true_iff, Z.eqb_eq in H. eexists _, _. split; [done|]. naive_solver.
Qed.

Lemma must_encode_hexdigit b : is_byte b → is_ascii_hexdigit b = true → must_encode b = false.
Proof.
  intros Hb H. pose proof (byte_forall (λ b, implb (is_ascii_hexdigit b) (negb (must_encode b))) eq_refl b Hb) as E.
  cbn beta in E. rewrite H in E. by apply negb_true_iff in E.
Qed.

Lemma push_char_ascii b : ascii_char b → push_char b = [b].
Proof. unfold ascii_char, push_char. intros. by rewrite (proj2 (Z.ltb_lt b 128)) by lia. Qed.

(** Induction in steps of an escape or a byte. *)
Lemma sanitize_ind (P : bytes → Prop) :
  P [] →
  (∀ p h l s, escape_at (p :: h :: l :: s) = true → P s → P (p :: h :: l :: s)) →
  (∀ b s, escape_at (b :: s) = false → P s → P (b :: s)) →
  ∀ s, P s.
Proof.
  intros H0 H1 H2 s. induction s as [s IH] using (induction_ltof1 _ length). unfold ltof in IH.
  destruct s as [|b s]; [done|]. destruct (escape_at (b :: s)) eqn:E.
  - destruct s as [|h [|l s]]; [done|done|]. apply H1; [done|]. apply IH. cbn. lia.
  - apply H2; [done|]. apply IH. cbn. lia.
Qed.

Lemma sanitize_escape p h l s : escape_at (p :: h :: l :: s) = true → ascii_char p → ascii_char h → ascii_char l →
  sanitize_uri (p :: h :: l :: s) = p :: h :: l :: sanitize_uri s.
Proof.
  intros He Hp Hh Hl. unfold sanitize_uri. remember (l :: s) as ls. cbn [sanitize_loop].
  subst ls. rewrite He. cbn [sanitize_loop]. by rewrite !push_char_ascii.
Qed.

Lemma sanitize_byte b s : escape_at (b :: s) = false → ascii_char b →
  sanitize_uri (b :: s) = (if must_encode b then ch "%" :: hex2_upper b else [b]) ++ sanitize_uri s.
Proof.
  intros He Hb. unfold sanitize_uri. cbn [sanitize_loop]. rewrite He, push_char_ascii by done.
  by destruct (must_encode b).
Qed.

(** A byte that did not start an escape does not start one in the output. *)
Lemma sanitize_no_new_escape b s : Forall ascii_char s → escape_at (b :: s) = false →
  escape_at (b :: sanitize_uri s) = false.
Proof.
  intros Hs He. destruct (Z.eqb_spec b (ch "%")) as [->|Hb].
  2: { destruct (sanitize_uri s) as [|x [|y z]]; [done|done|]. cbn [escape_at]. by rewrite (proj2 (Z.eqb_neq _ _) Hb). }
  destruct s as [|h s]; [done|]. apply Forall_cons in Hs as [Hh Hs].
  destruct (escape_at (h :: s)) eqn:E1.
  { destruct s as [|h2 [|l2 s]]; [done|done|]. cbn [escape_at] in E1.
    apply Forall_cons in Hs as [? Hs]. apply Forall_cons in Hs as [? Hs].
    rewrite sanitize_escape by done. rewrite !andb_true_iff, Z.eqb_eq in E1. destruct E1 as [[-> _] _]. done. }
  rewrite sanitize_byte by done. destruct (must_encode h) eqn:Em.
  { cbn [app]. destruct (hex2_upper_facts h Hh) as (x & y & -> & _). done. }
  cbn [app]. destruct (is_ascii_hexdigit h) eqn:Ehx.
  2: { destruct (sanitize_uri s) as [|x z]; [done|]. cbn [escape_at]. by rewrite Ehx, andb_false_r. }
  destruct s as [|l s]; [done|]. apply Forall_cons in Hs as [Hl Hs].
  assert (is_ascii_hexdigit l = false) as Hlf.
  { destruct (is_ascii_hexdigit l) eqn:E; [|done]. cbn in He. rewrite Ehx, E in He. done. }
  destruct (escape_at (l :: s)) eqn:E2.
  { destruct s as [|h2 [|l2 s]]; [done|done|]. cbn [escape_at] in E2.
    apply Forall_cons in Hs as [? Hs]. apply Forall_cons in Hs as [? Hs].
    rewrite sanitize_escape by done. rewrite !andb_true_iff, Z.eqb_eq in E2. destruct E2 as [[-> _] _].
    cbn [escape_at]. by rewrite Hlf, andb_false_r. }
  rewrite sanitize_byte by done. destruct (must_encode l); cbn [app escape_at].
  - by rewrite andb_false_r.
  - by rewrite Hlf, andb_false_r.
Qed.

Lemma sanitize_ascii s : Forall ascii_char s → Forall (λ b, ascii_char b ∧ must_encode b = false) (sanitize_uri s).
Proof.
  induction s as [|p h l s He IH|b s He IH] using sanitize_ind; intros Hs; [constructor|..].
  - apply Forall_cons in Hs as [Hp Hs]. apply Forall_cons in Hs as [Hh Hs]. apply Forall_cons in Hs as [Hl Hs].
    rewrite sanitize_escape by done. cbn [escape_at] in He. rewrite !andb_true_iff, Z.eqb_eq in He.
    destruct He as [[-> Ehh] Ehl]. rewrite !Forall_cons. split_and!; [done|done|done| |done| |by apply IH].
    all: apply must_encode_hexdigit; [by apply ascii_is_byte|done].
  - apply Forall_cons in Hs as [Hb Hs]. rewrite sanitize_byte by done. apply Forall_app. split; [|by apply IH].
    destruct (must_encode b) eqn:Em; [|apply Forall_cons; split; [done|constructor]].
    destruct (hex2_upper_facts b Hb) as (x & y & -> & Hx & Hy & _ & Hmx & Hmy).
    rewrite !Forall_cons. split_and!; [done|done| |done| |done|constructor].
    all: clear -Hx Hy; unfold is_ascii_hexdigit, is_digit, ascii_char in *; lia.
Qed.

(** On an ASCII URL, [sanitize_uri] leaves no byte that [http::Uri]
    refuses, changes nothing the URL denotes (percent-decoding gives the same
    characters), leaves escapes and acceptable characters alone, and is idempotent. *)
Theorem sanitize_uri_correct (s : bytes) :
  Forall ascii_char s →
  Forall (λ b, ascii_char b ∧ must_encode b = false) (sanitize_uri s) ∧
  unescape (sanitize_uri s) = unescape s ∧
  (Forall (λ b, must_encode b = false) s → sanitize_uri s = s) ∧
  sanitize_uri (sanitize_uri s) = sanitize_uri s.
Proof.
  intros Hs. assert (∀ t, Forall ascii_char t → Forall (λ b, must_encode b = false) t → sanitize_uri t = t) as Hid.
  { intros t. induction t as [|p h l t He IH|b t He IH] using sanitize_ind; intros Ha Hm; [done|..].
    - rewrite !Forall_cons in Ha, Hm. rewrite sanitize_escape by naive_solver. rewrite IH; naive_solver.
    - rewrite Forall_cons in Ha, Hm. destruct Ha, Hm as [E ?]. rewrite sanitize_byte, E, IH; done. }
  pose proof (sanitize_ascii s Hs) as Hc. split_and!; [done| |by apply Hid|].
  - induction s as [|p h l t He IH|b t He IH] using sanitize_ind; [done|..].
    + rewrite !Forall_cons in Hs. rewrite sanitize_escape by naive_solver. rewrite !unescape_escape by done.
      rewrite IH; [done|naive_solver|]. apply sanitize_ascii. naive_solver.
    + apply Forall_cons in Hs as [Hb Hs]. rewrite sanitize_byte by done. rewrite (unescape_plain b t) by done.
      rewrite <- (IH Hs (sanitize_ascii t Hs)). destruct (must_encode b) eqn:Em.
      * destruct (hex2_upper_facts b Hb) as (x & y & -> & Hx & Hy & Hv & _). cbn [app].
        rewrite unescape_escape by (cbn [escape_at]; by rewrite Hx, Hy). by rewrite Hv.
      * cbn [app]. by rewrite unescape_plain by by apply sanitize_no_new_escape.
  - apply Hid; eapply Forall_impl; [exact Hc| |exact Hc|]; naive_solver.
Qed.

Lemma sanitize_uri_correct_witness :
  sanitize_uri (bs "http://h/a b%2F{}%zz\") = bs "http://h/a%20b%2F%7B%7D%zz\" ∧
  sanitize_uri (sanitize_uri (bs "http://h/a b%2F{}%zz\")) = sanitize_uri (bs "http://h/a b%2F{}%zz\").
Proof.
  split; [vm_compute; reflexivity|]. apply sanitize_uri_correct.
  repeat (apply Forall_cons; split; [unfold ascii_char; vm_compute; by split|]). constructor.
Defined.

(** Other bytes do not pass through: the two bytes of U+00E9 become four. *)
Example sanitize_uri_reencodes_utf8 : sanitize_uri [0xC3; 0xA9] = [0xC3; 0x83; 0xC2; 0xA9].
Proof. reflexivity. Qed.

(** ** The back-off *)

Lemma u32_pow2_large a : 32 ≤ a < 64 → u32 (2 ^ a) = 0.
Proof.
  intros Ha. unfold u32. replace a with (32 + (a - 32)) by lia. rewrite Z.pow_add_r by lia.
  rewrite Z.mul_comm. apply Z.mod_mul. lia.
Qed.

Lemma retry_backoff_bounds attempt min_wait max_wait :
  0 ≤ attempt → 0 ≤ min_wait → 0 ≤ max_wait ≤ DURATION_MAX_MS →
  0 ≤ retry_backoff attempt min_wait max_wait ≤ max_wait.
Proof.
  intros Ha Hmin Hmax. unfold retry_backoff. pose proof (u32_range (saturating_pow2 attempt)) as Hr.
  split; [apply Z.min_glb; [apply Z.min_glb; [nia|done]|lia]|lia].
Qed.

(** Up to 2^31 the wait is the documented [min(2^attempt × min, max)], it
    never exceeds the maximum, and from attempt 32 to 63 the narrowing of the factor
    to 32 bits makes it zero. *)
Theorem retry_backoff_spec (attempt min_wait max_wait : Z) :
  0 ≤ attempt → 0 ≤ min_wait → 0 ≤ max_wait ≤ DURATION_MAX_MS →
  0 ≤ retry_backoff attempt min_wait max_wait ≤ max_wait ∧
  (attempt < 32 → retry_backoff attempt min_wait max_wait = Z.min (2 ^ attempt * min_wait) max_wait) ∧
  (32 ≤ attempt < 64 → retry_backoff attempt min_wait max_wait = 0).
Proof.
  intros Ha Hmin Hmax. split; [by apply retry_backoff_bounds|].
  unfold retry_backoff, saturating_pow2. split.
  - intros H32. assert (0 < 2 ^ attempt ≤ 2 ^ 31) as Hp.
    { split; [apply Z.pow_pos_nonneg; lia|apply Z.pow_le_mono_r; lia]. }
    rewrite (Z.min_l (2 ^ attempt)) by (unfold u64_max; lia). rewrite u32_small by lia. lia.
  - intros H64. assert (2 ^ attempt ≤ 2 ^ 63) by (apply Z.pow_le_mono_r; lia).
    rewrite (Z.min_l (2 ^ attempt)) by (unfold u64_max; lia). rewrite u32_pow2_large by done. lia.
Qed.

Lemma retry_backoff_spec_witness :
  retry_backoff 3 1000 30000 = 8000 ∧ retry_backoff 32 1000 30000 = 0.
Proof.
  split.
  - exact (proj1 (proj2 (retry_backoff_spec 3 1000 30000 ltac:(lia) ltac:(lia) ltac:(unfold DURATION_MAX_MS, u64_max; lia))) ltac:(lia)).
  - exact (proj2 (proj2 (retry_backoff_spec 32 1000 30000 ltac:(lia) ltac:(lia) ltac:(unfold DURATION_MAX_MS, u64_max; lia))) ltac:(lia)).
Defined.

(** ** ALPN *)

(** A peer's reading of a protocol list (RFC 7301): length-prefixed names. *)
Fixpoint read_alpn (fuel : nat) (w : bytes) : option (list bytes) :=
  match w, fuel with
  | [], _ => Some []
  | n :: w, S fuel =>
      if bool_decide (n = 0) || bool_decide (zlen w < n) then None
      else (cons (take (Z.to_nat n) w)) <$> read_alpn fuel (drop (Z.to_nat n) w)
  | _, O => None
  end.

(** The ALPN list is encoded exactly when every name has 1 to 255 bytes, and
    a peer then reads back the names that were offered, in order. *)
Theorem alpn_roundtrip (protos : list bytes) :
  match encode_alpn_protocols protos with
  | Ok w => Forall (λ p, 1 ≤ zlen p ≤ 255) protos ∧ read_alpn (length w) w = Some protos
  | Err e => kind e = Tls ∧ Exists (λ p, zlen p = 0 ∨ 255 < zlen p) protos
  | Panic => False
  end.
Proof.
  assert (∀ w protos, encode_alpn_protocols protos = Ok w → ∀ fuel, (length w ≤ fuel)%nat → read_alpn fuel w = Some protos) as Hread.
  { intros w ps. revert w. induction ps as [|p ps IH]; intros w; cbn [encode_alpn_protocols].
    - intros [= <-] fuel _. by destruct fuel.
    - destruct (bool_decide (p = [])) eqn:E1; [done|]. destruct (bool_decide (zlen p > 255)) eqn:E2; [done|].
      apply bool_decide_eq_false in E1, E2. intros H. inv_bind.
      intros fuel Hf. cbn [length] in Hf. destruct fuel as [|fuel]; [lia|]. cbn [read_alpn].
      assert (0 < zlen p) by (destruct p; [done|]; rewrite zlen_cons; pose proof (zlen_nonneg p); lia).
      rewrite u8_small by (unfold is_byte; lia). rewrite !bool_decide_false by (simp_len; pose proof (zlen_nonneg r); lia).
      cbn [orb]. rewrite take_zlen_app, drop_zlen_app.
      rewrite (IH r); [done|done|]. rewrite length_app in Hf. lia. }
  induction protos as [|p ps IH]; [by split|]. cbn [encode_alpn_protocols].
  destruct (bool_decide (p = [])) eqn:E1.
  { apply bool_decide_eq_true in E1 as ->. split; [done|]. left. by left. }
  destruct (bool_decide (zlen p > 255)) eqn:E2.
  { apply bool_decide_eq_true in E2. split; [done|]. left. right. lia. }
  pose proof (Hread) as Hr. apply bool_decide_eq_false in E2.
  assert (1 ≤ zlen p) by (destruct p; [done|]; rewrite zlen_cons; pose proof (zlen_nonneg p); lia).
  destruct (encode_alpn_protocols ps) as [w|e|] eqn:E; cbn [mbind exec_bind]; [| |done].
  - split; [constructor; [lia|apply IH]|]. apply Hread; [|done]. cbn [encode_alpn_protocols].
    rewrite E1, bool_decide_false, E by lia. done.
  - destruct IH. split; [done|]. by right.
Qed.

Lemma alpn_roundtrip_witness : read_alpn 12 (default [] (exec_ok (encode_alpn_protocols [bs "h2"; bs "http/1.1"]))) = Some [bs "h2"; bs "http/1.1"].
Proof. exact (proj2 (alpn_roundtrip [bs "h2"; bs "http/1.1"])). Defined.

(** ** The request's headers *)

(** The cookie pairs of a header value, blanks around them removed. *)
Definition cookie_pairs (value : bytes) : list bytes := map trim (split (ch ";") value).

Lemma split_app_sep c a s : split c (a ++ c :: s) = split c a ++ split c s.
Proof.
  induction a as [|x a IH]; cbn [app split]; [by rewrite Z.eqb_refl|].
  destruct (Z.eqb_spec x c) as [->|]; [by rewrite IH|]. rewrite IH.
  destruct (split_cons c a) as (p & ps & ->). done.
Qed.

Lemma cookie_pairs_merge value extra : caller_cookies value ≠ [] →
  cookie_pairs (merge_cookies value extra) = cookie_pairs (caller_cookies value) ++ cookie_pairs extra.
Proof.
  intros Hne. unfold merge_cookies, cookie_pairs. rewrite bool_decide_false by done.
  change (bs "; ") with [ch ";"; 32]. cbn [app]. rewrite split_app_sep, map_app. f_equal.
  cbn [split]. change (32 =? ch ";") with false. cbn match.
  destruct (split_cons (ch ";") extra) as (p & ps & ->). done.
Qed.

Lemma emit_headers_none l m : emit_headers None l m = (l, m).
Proof. induction l as [|[n v] l IH]; [done|]. cbn. by rewrite IH. Qed.

Lemma emit_headers_merged e l : emit_headers (Some e) l true = (l, true).
Proof. induction l as [|[n v] l IH]; [done|]. cbn. by rewrite IH. Qed.

Lemma has_header_app n l k : has_header n (l ++ k) = has_header n l || has_header n k.
Proof. apply existsb_app. Qed.
Lemma has_header_cons n m v l : has_header n ((m, v) :: l) = eq_ignore_ascii_case m n || has_header n l.
Proof. done. Qed.

Lemma emit_headers_some e l :
  (has_header (bs "cookie") l = false ∧ emit_headers (Some e) l false = (l, false)) ∨
  (∃ pre n v post, l = pre ++ (n, v) :: post ∧ has_header (bs "cookie") pre = false ∧
     eq_ignore_ascii_case n (bs "cookie") = true ∧
     emit_headers (Some e) l false = (pre ++ (n, merge_cookies v e) :: post, true)).
Proof.
  induction l as [|[n v] l IH]; [by left|]. cbn [emit_headers negb andb].
  destruct (eq_ignore_ascii_case n (bs "cookie")) eqn:En.
  - right. exists [], n, v, l. by rewrite emit_headers_merged.
  - destruct IH as [[Hh ->]|(pre & n' & v' & post & -> & Hp & Hn & ->)].
    + left. split; [|done]. by rewrite has_header_cons, En.
    + right. exists ((n, v) :: pre), n', v', post. split_and!; [done| |done|done].
      by rewrite has_header_cons, En.
Qed.

(** Renaming a value keeps the names. *)
Lemma has_header_value n pre m v v' post :
  has_header n (pre ++ (m, v) :: post) = has_header n (pre ++ (m, v') :: post).
Proof. by rewrite !has_header_app. Qed.

(** A name is there exactly if it has values. *)
Lemma has_header_values n l : has_header n l = negb (bool_decide (values_of n l = [])).
Proof.
  unfold has_header, values_of. induction l as [|h l IH]; [done|]. cbn [existsb List.filter].
  destruct (named n h); [done|]. exact IH.
Qed.

Lemma values_of_app n l k : values_of n (l ++ k) = values_of n l ++ values_of n k.
Proof. unfold values_of. by rewrite List.filter_app, map_app. Qed.

Lemma values_of_one n m v : values_of n [(m, v)] = if eq_ignore_ascii_case m n then [v] else [].
Proof. unfold values_of, named. cbn. by case_match. Qed.

(** ** A header map

    Grouped by the first occurrence of each name. *)
Fixpoint first_names (seen : list bytes) (l : list (bytes * bytes)) : list bytes :=
  match l with
  | [] => []
  | h :: l =>
      let n := to_ascii_lowercase h.1 in
      if bool_decide (n ∈ seen) then first_names seen l else n :: first_names (n :: seen) l
  end.
Definition group_headers (l : list (bytes * bytes)) : list (bytes * bytes) :=
  flat_map (λ n, map (pair n) (values_of n l)) (first_names [] l).

Lemma first_names_spec l : ∀ seen, NoDup (first_names seen l) ∧
  ∀ n, n ∈ first_names seen l ↔ n ∉ seen ∧ ∃ h, h ∈ l ∧ to_ascii_lowercase h.1 = n.
Proof.
  induction l as [|h l IH]; intros seen; cbn [first_names].
  { split; [constructor|]. intros n. split; [by intros ?%not_elem_of_nil|]. by intros (_ & h & ?%not_elem_of_nil & _). }
  case_bool_decide as Hs.
  - destruct (IH seen) as [Hn Hin]. split; [done|]. intros n. rewrite Hin. split.
    + intros (? & h' & Hh & ?). split; [done|]. exists h'. split; [by right|done].
    + intros (? & h' & Hh & <-). split; [done|]. apply elem_of_cons in Hh as [->|Hh]; [done|]. by exists h'.
  - destruct (IH (to_ascii_lowercase h.1 :: seen)) as [Hn Hin]. split.
    + constructor; [|done]. rewrite Hin. intros [H _]. apply H. by left.
    + intros n. rewrite elem_of_cons, Hin, not_elem_of_cons. split.
      * intros [-> | ((_ & ?) & h' & Hh & ?)]; (split; [done|]); [exists h|exists h']; (split; [|done]); [by left|by right].
      * intros (? & h' & Hh & <-). destruct (decide (to_ascii_lowercase h'.1 = to_ascii_lowercase h.1)); [by left|].
        right. split_and!; [done..|]. apply elem_of_cons in Hh as [->|Hh]; [done|]. by exists h'.
Qed.

Lemma values_of_lower n l : values_of (to_ascii_lowercase n) l = values_of n l.
Proof.
  unfold values_of. f_equal. apply List.filter_ext. intros h. unfold named, eq_ignore_ascii_case.
  by rewrite to_ascii_lowercase_idem.
Qed.

Lemma values_of_group n l names : NoDup names → Forall (λ m, to_ascii_lowercase m = m) names →
  values_of n (flat_map (λ m, map (pair m) (values_of m l)) names) =
  if bool_decide (to_ascii_lowercase n ∈ names) then values_of n l else [].
Proof.
  intros Hnd Hl. induction Hnd as [|m names Hm _ IH]; [done|]. apply Forall_cons in Hl as [Hlm Hl].
  cbn [flat_map]. rewrite values_of_app, (IH Hl).
  assert (values_of n (map (pair m) (values_of m l)) = if bool_decide (m = to_ascii_lowercase n) then values_of m l else []) as ->.
  { induction (values_of m l) as [|v vs IHv]; cbn [map]; [destruct (bool_decide (m = _)); reflexivity|].
    change ((m, v) :: map (pair m) vs) with ([(m, v)] ++ map (pair m) vs). rewrite values_of_app, values_of_one, IHv.
    unfold eq_ignore_ascii_case. rewrite Hlm. by case_bool_decide. }
  destruct (bool_decide_reflect (m = to_ascii_lowercase n)) as [->|Hne].
  - rewrite (bool_decide_false (to_ascii_lowercase n ∈ names)), (bool_decide_true (_ ∈ _ :: _)) by (done || by left).
    by rewrite app_nil_r, values_of_lower.
  - cbn [app]. assert (bool_decide (to_ascii_lowercase n ∈ m :: names) = bool_decide (to_ascii_lowercase n ∈ names)) as ->;
      [|done]. apply bool_decide_ext. rewrite elem_of_cons. naive_solver.
Qed.

Lemma group_headers_lower l : Forall (λ h, to_ascii_lowercase h.1 = h.1) (group_headers l).
Proof.
  unfold group_headers. apply Forall_forall. intros h Hh. apply list_elem_of_In, in_flat_map in Hh as (n & Hn & Hh).
  apply in_map_iff in Hh as (v & <- & _). apply list_elem_of_In in Hn.
  apply (proj2 (first_names_spec l [])) in Hn as (_ & h' & _ & <-). cbn. apply to_ascii_lowercase_idem.
Qed.

Lemma group_headers_values n l : values_of n (group_headers l) = values_of n l.
Proof.
  unfold group_headers. destruct (first_names_spec l []) as [Hnd Hin]. rewrite values_of_group; [|done|].
  - case_bool_decide as Hd; [done|]. symmetry. destruct (values_of n l) eqn:E; [done|]. exfalso. apply Hd, Hin.
    assert (has_header n l = true) as Hh by (by rewrite has_header_values, E).
    apply existsb_exists in Hh as (h & Hh & Hn). split; [apply not_elem_of_nil|]. exists h.
    split; [by apply list_elem_of_In|]. unfold named, eq_ignore_ascii_case in Hn. by apply bool_decide_eq_true in Hn.
  - apply Forall_forall. intros m Hm. apply Hin in Hm as (_ & h & _ & <-). apply to_ascii_lowercase_idem.
Qed.

Definition grouped_headers : HeaderMap := {|
  header_map := group_headers; header_map_lower := group_headers_lower; header_map_values := group_headers_values
|}.

Section headers.
Context `{Headers : !HeaderMap} (parse_uri : bytes → bytes + Uri) (builder_error : Request → option bytes).

(** The defaults, name by name: one where the caller has no value, and only there. *)
Lemma default_headers_values uri config mh n :
  let own m := values_of m (default [] config.(cfg_headers)) in
  values_of n (default_headers uri config mh) =
    (if eq_ignore_ascii_case (bs "host") n
     then (if bool_decide (own (bs "host") = []) && mh then from_option (λ a, [a]) [] uri.(authority) else []) else []) ++
    (if eq_ignore_ascii_case (bs "user-agent") n
     then (if bool_decide (own (bs "user-agent") = []) then [bs "blasthttp/0.1.0"] else []) else []) ++
    (if eq_ignore_ascii_case (bs "accept-encoding") n
     then (if bool_decide (own (bs "accept-encoding") = []) then [bs "gzip, deflate, br"] else []) else []).
Proof.
  intros own. unfold default_headers. rewrite !values_of_app, !has_header_values. fold (own (bs "host")) (own (bs "user-agent")) (own (bs "accept-encoding")).
  f_equal; [|f_equal].
  - destruct (authority uri), mh, (bool_decide (own (bs "host") = [])); cbn [andb negb]; rewrite ?values_of_one;
      by destruct (eq_ignore_ascii_case _ n).
  - destruct (bool_decide _); cbn [negb]; rewrite ?values_of_one; by destruct (eq_ignore_ascii_case _ n).
  - destruct (bool_decide _); cbn [negb]; rewrite ?values_of_one; by destruct (eq_ignore_ascii_case _ n).
Qed.

(** What the builder is given. *)
Lemma build_request_given uri config origin_form mh rc r :
  build_request parse_uri builder_error uri config origin_form mh rc = Ok r →
  r_method r = method config ∧ r_body r = default [] config.(cfg_body) ∧ (origin_form = false → r_uri r = uri) ∧
  ∃ emitted merged, emit_headers rc (default [] config.(cfg_headers)) false = (emitted, merged) ∧
    r_headers r = header_map (default_headers uri config mh ++ emitted ++
      match rc with Some extra => if merged then [] else [(bs "Cookie", extra)] | None => [] end).
Proof.
  intros Hb. unfold build_request in Hb. inv_bind. destruct (emit_headers _ _ _) as [emitted merged] eqn:E.
  destruct (builder_error _); [done|]. injection Hb as <-. cbn. split_and!; [done..| |by eexists _, _].
  intros ->. unfold effective_uri in *. congruence.
Qed.

(** Headers other than Cookie are untouched by the merge, whatever the chain adds. *)
Lemma emit_headers_values rc l emitted merged : emit_headers rc l false = (emitted, merged) →
  let own := match rc with Some extra => if merged then [] else [(bs "Cookie", extra)] | None => [] end in
  (∀ n, eq_ignore_ascii_case n (bs "cookie") = false → values_of n (emitted ++ own) = values_of n l) ∧
  values_of (bs "cookie") (emitted ++ own) =
    match rc, values_of (bs "cookie") l with
    | None, vs => vs
    | Some extra, [] => [extra]
    | Some extra, v :: vs => merge_cookies v extra :: vs
    end.
Proof.
  assert (∀ n m v, eq_ignore_ascii_case n (bs "cookie") = false → eq_ignore_ascii_case m (bs "cookie") = true →
    values_of n [(m, v)] = []) as Hother.
  { intros n m v Hn Hm. rewrite values_of_one. destruct (eq_ignore_ascii_case m n) eqn:E; [|done].
    unfold eq_ignore_ascii_case in *. rewrite bool_decide_eq_true in *. rewrite bool_decide_eq_false in Hn. congruence. }
  destruct rc as [extra|].
  - destruct (emit_headers_some extra l) as [[Hc ->]|(pre & n & v & post & -> & Hp & Hk & ->)]; intros [= <- <-] own; subst own.
    + rewrite has_header_values in Hc. apply negb_false_iff, bool_decide_eq_true in Hc. split.
      * intros n Hn. by rewrite values_of_app, (Hother n), app_nil_r.
      * by rewrite values_of_app, Hc.
    + rewrite has_header_values in Hp. apply negb_false_iff, bool_decide_eq_true in Hp. rewrite app_nil_r.
      assert (∀ w m, values_of m (pre ++ (n, w) :: post) = values_of m pre ++ values_of m [(n, w)] ++ values_of m post) as Hs
        by (intros w m; by rewrite <- !values_of_app).
      split.
      * intros m Hm. by rewrite !Hs, !(Hother m).
      * by rewrite !Hs, Hp, !values_of_one, Hk.
  - rewrite emit_headers_none. intros [= <- <-]. cbn. rewrite app_nil_r. by split.
Qed.

End headers.

Definition example_uri : Uri :=
  mkUri (Some (bs "https")) (Some (bs "example.com")) None (bs "/a") None (Some (bs "example.com")) (bs "https://example.com/a").

Definition with_headers (hs : list (bytes * bytes)) (c : RequestConfig) : RequestConfig :=
  mkConfig (cfg_url c) (cfg_method c) (Some hs) (cfg_body c) (timeout_seconds c) (max_body_size c)
    (follow_redirects c) (max_redirects c) (redirect_cookies c) (verify_certs c) (proxy c) (no_proxy c)
    (cipher_string c) (min_tls_version c) (max_tls_version c) (retries c) (retry_wait_min_ms c)
    (retry_wait_max_ms c) (raw_path c) (request_target c) (resolve_ip c) (alpn_protocols c) (verbosity c).

Definition cookie_config : RequestConfig :=
  with_headers [(bs "X-Test", bs "1"); (bs "cookie", bs "a=1; "); (bs "x-test", bs "2")] (RequestConfig_new (bs "https://example.com/a")).

Definition cookie_request : Request :=
  mkRequest (bs "GET") example_uri
    [(bs "host", bs "example.com"); (bs "user-agent", bs "blasthttp/0.1.0");
     (bs "accept-encoding", bs "gzip, deflate, br"); (bs "x-test", bs "1"); (bs "x-test", bs "2");
     (bs "cookie", bs "a=1; sid=2")] [].
#[local] Existing Instance grouped_headers.


(** Only [;] and blanks are taken off the end of the caller's header: behind a tab a
    stray separator survives, and the merged header has an empty pair. *)
Example merge_cookies_keeps_tab_separator :
  cookie_pairs (merge_cookies (bs "a=1;" ++ [9] ++ bs ";") (bs "sid=2")) = [bs "a=1"; []; bs "sid=2"].
Proof. vm_compute. reflexivity. Qed.
