(* ===== verification/Utf8.v ===== *)
(** * UTF-8 (the standard library's [str::from_utf8] and [String::from_utf8_lossy]) *)
From S2P Require Import Prelude RustStd.

Definition between (lo hi b : Z) : bool := (lo <=? b) && (b <=? hi).

(** The range of the second byte after a lead byte, and how many bytes follow. *)
Definition lead (b : Z) : option (Z * Z * nat) :=
  if between 0xC2 0xDF b then Some (0x80, 0xBF, 1%nat)
  else if b =? 0xE0 then Some (0xA0, 0xBF, 2%nat)
  else if b =? 0xED then Some (0x80, 0x9F, 2%nat)
  else if between 0xE1 0xEF b then Some (0x80, 0xBF, 2%nat)
  else if b =? 0xF0 then Some (0x90, 0xBF, 3%nat)
  else if between 0xF1 0xF3 b then Some (0x80, 0xBF, 3%nat)
  else if b =? 0xF4 then Some (0x80, 0x8F, 3%nat)
  else None.

(** The continuation bytes at the head of [s], at most [n]; the first in its own range. *)
Fixpoint continuation (lo hi : Z) (n : nat) (s : bytes) : nat :=
  match n, s with
  | S n, b :: s => if between lo hi b then S (continuation 0x80 0xBF n s) else O
  | _, _ => O
  end.

(** The first character: whether it is well-formed, and its length; for an
    ill-formed one, the length of its longest well-formed prefix (at least 1). *)
Definition first_char (b : Z) (s : bytes) : bool * nat :=
  if b <? 0x80 then (true, 1%nat)
  else match lead b with
       | Some (lo, hi, n) => let k := continuation lo hi n s in (bool_decide (k = n), S k)
       | None => (false, 1%nat)
       end.

(** [skip] bytes of the current character are still to be passed over, copied when
    [keep]. *)
Fixpoint lossy_loop (skip : nat) (keep : bool) (s : bytes) : bytes :=
  match s with
  | [] => []
  | b :: s' =>
      match skip with
      | S skip => (if keep then [b] else []) ++ lossy_loop skip keep s'
      | O =>
          let '(ok, n) := first_char b s' in
          (if ok then [b] else [0xEF; 0xBF; 0xBD]) ++ lossy_loop (pred n) ok s'
      end
  end.
Definition from_utf8_lossy (s : bytes) : bytes := lossy_loop 0 true s.

Fixpoint utf8_loop (skip : nat) (s : bytes) : bool :=
  match s with
  | [] => true
  | b :: s' =>
      match skip with
      | S skip => utf8_loop skip s'
      | O => let '(ok, n) := first_char b s' in ok && utf8_loop (pred n) s'
      end
  end.
(** [from_utf8(s).is_ok()]. *)
Definition is_utf8 (s : bytes) : bool := utf8_loop 0 s.

(** ** Facts *)

Lemma lossy_loop_valid skip s : utf8_loop skip s = true → lossy_loop skip true s = s.
Proof.
  revert skip. induction s as [|b s IH]; intros skip; [done|]. cbn [utf8_loop lossy_loop].
  destruct skip as [|skip]; [|intros H; by rewrite IH].
  destruct (first_char b s) as [ok n]. rewrite andb_true_iff. intros [-> H]. by rewrite IH.
Qed.

Lemma from_utf8_lossy_valid s : is_utf8 s = true → from_utf8_lossy s = s.
Proof. apply lossy_loop_valid. Qed.

(** A well-formed character is read off the front whatever follows. *)
Lemma continuation_app lo hi n s t : (n ≤ length s)%nat → continuation lo hi n (s ++ t) = continuation lo hi n s.
Proof.
  revert lo hi s. induction n as [|n IH]; intros lo hi s Hn; [by destruct s, t|].
  destruct s as [|b s]; cbn in *; [lia|]. case_match; [|done]. f_equal. apply IH. lia.
Qed.

Lemma continuation_le lo hi n s : (continuation lo hi n s ≤ n)%nat ∧ (continuation lo hi n s ≤ length s)%nat.
Proof.
  revert lo hi s. induction n as [|n IH]; intros lo hi s; [destruct s; cbn; lia|].
  destruct s as [|b s]; cbn; [lia|]. case_match; [|lia]. destruct (IH 0x80 0xBF s). lia.
Qed.

Lemma first_char_length b s : (1 ≤ (first_char b s).2 ≤ S (length s))%nat.
Proof.
  unfold first_char. case_match; [cbn; lia|]. destruct (lead b) as [[[lo hi] n]|]; [|cbn; lia].
  cbn. destruct (continuation_le lo hi n s). lia.
Qed.

(** Enough continuation bytes are found again after truncation to them. *)
Lemma continuation_take lo hi n s k t : continuation lo hi n s = n → (n ≤ k)%nat →
  continuation lo hi n (take k s ++ t) = n.
Proof.
  revert lo hi s k. induction n as [|n IH]; intros lo hi s k H Hk; [by destruct (take k s ++ t)|].
  destruct s as [|b s]; [done|]. destruct k as [|k]; [lia|]. cbn in *. destruct (between lo hi b); [|done].
  f_equal. injection H as H. apply IH; [done|lia].
Qed.

Lemma lossy_loop_keep skip s : (skip ≤ length s)%nat →
  lossy_loop skip true s = take skip s ++ lossy_loop 0 true (drop skip s).
Proof.
  revert skip. induction s as [|b s IH]; intros [|skip] H; cbn in *; [done|lia|done|].
  rewrite IH by lia. done.
Qed.
Lemma lossy_loop_drop skip s : (skip ≤ length s)%nat →
  lossy_loop skip false s = lossy_loop 0 true (drop skip s).
Proof.
  revert skip. induction s as [|b s IH]; intros [|skip] H; cbn in *; [done|lia|done|]. apply IH. lia.
Qed.

Lemma utf8_loop_skip skip s t : skip = length s → utf8_loop skip (s ++ t) = utf8_loop 0 t.
Proof. revert skip. induction s as [|b s IH]; intros skip ->; [done|]. cbn. by apply IH. Qed.

(** The lossy text is always well-formed. *)
Lemma from_utf8_lossy_is_utf8 s : is_utf8 (from_utf8_lossy s) = true.
Proof.
  unfold is_utf8, from_utf8_lossy. induction s as [s IH] using (induction_ltof1 _ length). unfold ltof in IH.
  destruct s as [|b s]; [done|]. cbn [lossy_loop]. pose proof (first_char_length b s) as Hlen.
  destruct (first_char b s) as [ok n] eqn:E. cbn [snd] in Hlen. destruct ok.
  - rewrite lossy_loop_keep by lia. cbn [app utf8_loop].
    assert (first_char b (take (pred n) s ++ lossy_loop 0 true (drop (pred n) s)) = (true, n)) as ->.
    { unfold first_char in *. destruct (b <? 128); [done|]. destruct (lead b) as [[[lo hi] m]|]; [|done].
      injection E as Ek En. apply bool_decide_eq_true in Ek. subst n. rewrite Ek in *.
      rewrite continuation_take by (done || cbn; lia). by rewrite bool_decide_true. }
    cbn [andb]. rewrite utf8_loop_skip by (rewrite length_take; lia). apply IH. rewrite length_drop. cbn. lia.
  - rewrite lossy_loop_drop by lia. cbn -[lossy_loop]. apply IH. rewrite length_drop. cbn. lia.
Qed.
