(* ===== verification/Raw.v ===== *)
(** * The raw connection (src/client/raw.rs)

    A handle on a stream with no framing.  The operations hold the stream's lock from
    start to end, so calls from several tasks are some sequence of whole operations. *)
From S2P Require Import Prelude ClientError Wire.

(** The stream, until it is closed. *)
Definition RawConnection : Type := option Tcp.

Definition closed : ClientError := err_connection (bs "connection is closed").

(** Runs a computation on the stream in place. *)
Definition on_stream {A} (m : io A) (self : RawConnection) : exec ClientError A * RawConnection :=
  match self with
  | None => (Err closed, None)
  | Some t => let '(r, t) := m t in (r, Some t)
  end.

(** [flush] fails with a text, or not. *)
Definition flush (result : option bytes) : io () := λ t,
  match result with Some e => (Err (err_connection (bs "flush failed: " ++ e)), t) | None => (Ok tt, t) end.

Definition send_bytes (data : bytes) (flushed : option bytes) (self : RawConnection)
    : exec ClientError () * RawConnection :=
  on_stream (write_all (bs "write failed: ") data;; flush flushed) self.

(** [timed_out]: the wait, if it is bounded, ends before bytes, the end or an error
    arrive. *)
(** [vec![0u8; max_bytes]]: more than [isize::MAX] bytes are a capacity overflow. *)
Definition isize_max : Z := 2 ^ 63 - 1.

Definition read_raw (max_bytes : Z) (timeout_ms : option Z) (timed_out : bool) (self : RawConnection)
    : exec ClientError bytes * RawConnection :=
  on_stream
    (if bool_decide (isize_max < max_bytes) then io_lift Panic
     else match timeout_ms with
          | Some ms => if timed_out then mret [] else read (bs "read failed: ") max_bytes
          | None => read (bs "read failed: ") max_bytes
          end) self.

(** [shutdown]'s result is dropped. *)
Definition close (self : RawConnection) : exec ClientError () * RawConnection := (Ok tt, None).

(** ** Sequences of operations *)

Inductive raw_op :=
  | SendBytes (data : bytes) (flushed : option bytes)
  | ReadRaw (max_bytes : Z) (timeout_ms : option Z) (timed_out : bool)
  | Close.

(** The outcome of an operation: the bytes read, empty for the others. *)
Definition run_op (op : raw_op) (self : RawConnection) : exec ClientError bytes * RawConnection :=
  match op with
  | SendBytes data fl => let '(r, s) := send_bytes data fl self in ((λ _, []) <$> r, s)
  | ReadRaw n ms late => read_raw n ms late self
  | Close => let '(r, s) := close self in ((λ _, []) <$> r, s)
  end.

Fixpoint run_ops (ops : list raw_op) (self : RawConnection) : list (exec ClientError bytes) * RawConnection :=
  match ops with
  | [] => ([], self)
  | op :: ops =>
      let '(r, self) := run_op op self in
      let '(rs, self) := run_ops ops self in (r :: rs, self)
  end.

(** What was read, and what was written, by operations with these outcomes. *)
Definition received (rs : list (exec ClientError bytes)) : bytes :=
  concat (map (λ r, match r with Ok b => b | _ => [] end) rs).
Definition wrote (op : raw_op) : bytes := match op with SendBytes d _ => d | _ => [] end.

(** An operation that panics: a read into a buffer that cannot be. *)
Definition oversized (op : raw_op) : Prop := match op with ReadRaw n _ _ => isize_max < n | _ => False end.

Lemma run_op_open op t : op ≠ Close → write_results t = [] →
  ∃ r t', run_op op (Some t) = (r, Some t') ∧ (r = Panic ↔ oversized op) ∧ write_results t' = [] ∧
    sent t' = sent t ++ wrote op ∧
    pending t = match r with Ok b => b | _ => [] end ++ pending t'.
Proof.
  intros Hop Hw. destruct op as [d fl|n ms late|]; [| |done].
  - unfold run_op, send_bytes, on_stream, mbind, io_bind. rewrite write_all_ok by done.
    destruct fl; cbn; (eexists _, _; split_and!; [reflexivity|done..]).
  - assert (∀ t, write_results t = [] → ∃ r t', read (bs "read failed: ") n t = (r, t') ∧ r ≠ Panic ∧ write_results t' = [] ∧
      sent t' = sent t ∧ pending t = match r with Ok b => b | _ => [] end ++ pending t') as Hread.
    { intros u Hu. unfold read, pending. destruct (chunks u) as [|c cs] eqn:Ec.
      - destruct (at_end u); eexists _, _; (split_and!; [reflexivity|done|done|done|cbn; by rewrite Ec]).
      - eexists _, _. split_and!; [reflexivity|done|done|done|]. cbn [chunks concat].
        rewrite <- (take_drop (Z.to_nat n) c) at 1. rewrite <- (assoc_L (++)). f_equal.
        by destruct (drop (Z.to_nat n) c). }
    destruct (Hread t Hw) as (r & t' & Hr & H1 & H2 & H3 & H4).
    unfold run_op, read_raw, on_stream, oversized. case_bool_decide as Hn.
    { eexists _, _. split_and!; [reflexivity|done|done|by rewrite app_nil_r|done]. }
    destruct ms; [destruct late|].
    + eexists _, _. split_and!; [reflexivity|done|done|by rewrite app_nil_r|done].
    + rewrite Hr. eexists _, _. split_and!; [reflexivity|done|done|by rewrite app_nil_r|done].
    + rewrite Hr. eexists _, _. split_and!; [reflexivity|done|done|by rewrite app_nil_r|done].
Qed.

(** Over any sequence of operations before a close, the peer is sent exactly the
    bytes given to [send_bytes], in order and unframed, and the reads return exactly
    the peer's bytes, in order, a timed-out or short read losing none of them; only a
    read for more than [isize::MAX] bytes panics, and leaves the stream as it was; after
    a close every operation but another close fails with "connection is closed". *)
Theorem raw_connection_transparent (ops : list raw_op) (t : Tcp) :
  write_results t = [] → Close ∉ ops →
  (∃ rs t', run_ops ops (Some t) = (rs, Some t') ∧ Forall2 (λ op r, r = Panic ↔ oversized op) ops rs ∧
     sent t' = sent t ++ concat (map wrote ops) ∧ pending t = received rs ++ pending t') ∧
  (run_ops (Close :: ops) (Some t)).1 = Ok [] :: map (λ _, Err closed) ops ∧
  (run_ops [Close; Close] (Some t)).1 = [Ok []; Ok []].
Proof.
  intros Hw Hc. split; [|split; [|done]].
  - revert t Hw. induction ops as [|op ops IH]; intros t Hw.
    { exists [], t. split_and!; [done|constructor|by rewrite app_nil_r|done]. }
    apply not_elem_of_cons in Hc as [Hop Hc].
    destruct (run_op_open op t ltac:(congruence) Hw) as (r & t1 & Hr & Hnp & Hw1 & Hs & Hp).
    destruct (IH Hc t1 Hw1) as (rs & t' & Hrs & Hf & Hs' & Hp'). exists (r :: rs), t'.
    cbn [run_ops]. rewrite Hr, Hrs. split_and!; [done|by constructor|..].
    + rewrite Hs', Hs, <- (assoc_L (++)). done.
    + rewrite Hp, Hp'. unfold received. cbn. by rewrite (assoc_L (++)).
  - assert (run_ops ops None = (map (λ _, Err closed) ops, None)) as Hn.
    { induction ops as [|op ops IH]; [done|]. apply not_elem_of_cons in Hc as [Hop Hc]. specialize (IH Hc).
      destruct op; [| |done]; cbn [run_ops run_op send_bytes read_raw on_stream]; unfold fmap, exec_fmap;
        rewrite IH; done. }
    cbn [run_ops]. destruct (run_op Close (Some t)) as [r s] eqn:E. injection E as <- <-. by rewrite Hn.
Qed.

Lemma raw_connection_transparent_witness :
  let t := mkTcp [bs "HTTP"; bs "/1.1"] None [] [] in
  let ops := [SendBytes (bs "GET") None; ReadRaw 3 (Some 10) false; ReadRaw 9 (Some 10) true; ReadRaw 9 None false] in
  (∃ rs t', run_ops ops (Some t) = (rs, Some t') ∧ Forall2 (λ op r, r = Panic ↔ oversized op) ops rs ∧
     sent t' = [] ++ bs "GET" ∧ pending t = received rs ++ pending t').
Proof.
  refine (proj1 (raw_connection_transparent
    [SendBytes (bs "GET") None; ReadRaw 3 (Some 10) false; ReadRaw 9 (Some 10) true; ReadRaw 9 None false]
    (mkTcp [bs "HTTP"; bs "/1.1"] None [] []) eq_refl _)).
  rewrite !not_elem_of_cons. split_and!; try done. apply not_elem_of_nil.
Defined.
