(* ===== verification/Response.v ===== *)
(** * The response (src/response.rs)

    The record handed to the caller, its lazily computed views, and their caching.
    The digests (OpenSSL, murmur3) are parameters. *)
From stdpp Require Import gmap.
From S2P Require Import Prelude RustStd Utf8.

Record RedirectHop := mkHop { hop_url : bytes; hop_status : Z; hop_peer_ip : option bytes }.

Record CertInfo := mkCert {
  common_name : option bytes;
  sans : list bytes;
  emails : list bytes;
  issuer : option bytes;
  not_before : option bytes;
  not_after : option bytes;
  fingerprint_sha256 : option bytes
}.

Record ResponseHash := mkHash {
  body_md5 : bytes; body_mmh3 : Z; body_sha256 : bytes;
  header_md5 : bytes; header_mmh3 : Z; header_sha256 : bytes
}.

(** The caches are [OnceLock]s: empty until first set. *)
Record Response := mkResponse {
  url : bytes;
  status : Z;
  headers : list (bytes * bytes);
  body_bytes : bytes;
  elapsed_ms : Z;
  redirect_chain : list RedirectHop;
  cert_info : option CertInfo;
  peer_ip : option bytes;
  request_url : bytes;
  request_method : bytes;
  debug_log : list bytes;
  decode_error : option bytes;
  body_cache : option bytes;
  raw_headers_cache : option bytes;
  cookies_cache : option (gmap bytes bytes);
  hash_cache : option ResponseHash
}.

Definition set_caches (r : Response) bc rc cc hc : Response :=
  mkResponse (url r) (status r) (headers r) (body_bytes r) (elapsed_ms r) (redirect_chain r) (cert_info r)
    (peer_ip r) (request_url r) (request_method r) (debug_log r) (decode_error r) bc rc cc hc.

(** ** Derived views *)

Definition is_success (r : Response) : bool := (200 <=? status r) && (status r <? 400).

Fixpoint raw_headers_loop (first : bool) (headers : list (bytes * bytes)) : bytes :=
  match headers with
  | [] => []
  | (k, v) :: headers =>
      (if first then [] else [13; 10]) ++ k ++ bs ": " ++ v ++ raw_headers_loop false headers
  end.
Definition build_raw_headers (headers : list (bytes * bytes)) : bytes := raw_headers_loop true headers.

Definition insert_pair (value : bytes) (out : gmap bytes bytes) : gmap bytes bytes :=
  let pair := default [] (head (split (ch ";") value)) in
  match split_once (ch "=") pair with
  | Some (name, v) => <[trim name := trim v]> out
  | None => out
  end.
Fixpoint set_cookies_loop (headers : list (bytes * bytes)) (out : gmap bytes bytes) : gmap bytes bytes :=
  match headers with
  | [] => out
  | (k, v) :: headers =>
      set_cookies_loop headers (if negb (eq_ignore_ascii_case k (bs "set-cookie")) then out else insert_pair v out)
  end.
Definition parse_set_cookies (headers : list (bytes * bytes)) : gmap bytes bytes := set_cookies_loop headers ∅.

Section hashes.
(** [hex_digest] with MD5 and SHA-256, and [mmh3_32]. *)
Context (md5 sha256 : bytes → bytes) (mmh3_32 : bytes → Z).

Definition compute (body raw_headers : bytes) : ResponseHash :=
  mkHash (md5 body) (mmh3_32 body) (sha256 body) (md5 raw_headers) (mmh3_32 raw_headers) (sha256 raw_headers).

(** The accessors: the value, and the response with the cache filled. *)
Definition body (r : Response) : bytes * Response :=
  let b := default (if is_utf8 (body_bytes r) then body_bytes r else from_utf8_lossy (body_bytes r)) (body_cache r) in
  (b, set_caches r (Some b) (raw_headers_cache r) (cookies_cache r) (hash_cache r)).
Definition raw_headers (r : Response) : bytes * Response :=
  let b := default (build_raw_headers (headers r)) (raw_headers_cache r) in
  (b, set_caches r (body_cache r) (Some b) (cookies_cache r) (hash_cache r)).
Definition cookies (r : Response) : gmap bytes bytes * Response :=
  let c := default (parse_set_cookies (headers r)) (cookies_cache r) in
  (c, set_caches r (body_cache r) (raw_headers_cache r) (Some c) (hash_cache r)).
Definition hash (r : Response) : ResponseHash * Response :=
  let '(raw, r) := raw_headers r in
  let h := default (compute (body_bytes r) raw) (hash_cache r) in
  (h, set_caches r (body_cache r) (raw_headers_cache r) (cookies_cache r) (Some h)).

Definition clone (r : Response) : Response := set_caches r None None None None.

(** A sequence of accessor calls on one response. *)
Inductive access := AccBody | AccRawHeaders | AccCookies | AccHash | AccClone.
Definition access_step (a : access) (r : Response) : Response :=
  match a with
  | AccBody => (body r).2 | AccRawHeaders => (raw_headers r).2 | AccCookies => (cookies r).2
  | AccHash => (hash r).2 | AccClone => clone r
  end.

(** What the accessors mean, with no caching. *)
Definition view (r : Response) : bytes * bytes * gmap bytes bytes * ResponseHash :=
  (from_utf8_lossy (body_bytes r), build_raw_headers (headers r), parse_set_cookies (headers r),
   compute (body_bytes r) (build_raw_headers (headers r))).

(** A filled cache holds the derived value. *)
Definition caches_ok (r : Response) : Prop :=
  (∀ b, body_cache r = Some b → b = from_utf8_lossy (body_bytes r)) ∧
  (∀ b, raw_headers_cache r = Some b → b = build_raw_headers (headers r)) ∧
  (∀ c, cookies_cache r = Some c → c = parse_set_cookies (headers r)) ∧
  (∀ h, hash_cache r = Some h → h = compute (body_bytes r) (build_raw_headers (headers r))).

Lemma body_ok r : caches_ok r → (body r).1 = from_utf8_lossy (body_bytes r).
Proof.
  intros (H & _). unfold body. cbn [fst]. destruct (body_cache r); cbn [default from_option id]; [by apply H|].
  destruct (is_utf8 (body_bytes r)) eqn:E; [|done]. by rewrite from_utf8_lossy_valid.
Qed.
Lemma raw_headers_ok r : caches_ok r → (raw_headers r).1 = build_raw_headers (headers r).
Proof. intros (_ & H & _). unfold raw_headers. cbn. destruct (raw_headers_cache r); [by apply H|done]. Qed.
Lemma cookies_ok r : caches_ok r → (cookies r).1 = parse_set_cookies (headers r).
Proof. intros (_ & _ & H & _). unfold cookies. cbn. destruct (cookies_cache r); [by apply H|done]. Qed.
Lemma hash_ok r : caches_ok r → (hash r).1 = compute (body_bytes r) (build_raw_headers (headers r)).
Proof.
  intros Hc. pose proof (raw_headers_ok r Hc) as Hr. destruct Hc as (_ & _ & _ & H). unfold hash, raw_headers in *.
  cbn in *. destruct (hash_cache r); [by apply H|]. cbn. by rewrite Hr.
Qed.

Lemma caches_ok_step a r : caches_ok r → caches_ok (access_step a r) ∧ view (access_step a r) = view r.
Proof.
  intros H. split; [|by destruct a].
  pose proof (body_ok r H) as Eb. pose proof (raw_headers_ok r H) as Er. pose proof (cookies_ok r H) as Ec.
  pose proof (hash_ok r H) as Eh.
  destruct H as (H1 & H2 & H3 & H4).
  destruct a; split_and!; cbn; intros ?; try done; try (intros [= <-]; done); naive_solver.
Qed.

(** Whatever accessors ran before, in any order, and whether the response
    was cloned in between, each returns the value derived from the response's own
    bytes and headers: the caches are never stale. *)
Theorem accessors_agree (r : Response) (before : list access) :
  body_cache r = None → raw_headers_cache r = None → cookies_cache r = None → hash_cache r = None →
  let r' := foldl (λ r a, access_step a r) r before in
  ((body r').1, (raw_headers r').1, (cookies r').1, (hash r').1) = view r ∧ body_bytes r' = body_bytes r ∧
  is_utf8 (body r').1 = true.
Proof.
  intros H1 H2 H3 H4. assert (caches_ok r) as H by (split_and!; intros ?; congruence).
  clear H1 H2 H3 H4. revert r H. induction before as [|a l IH]; intros r H; cbn zeta.
  - cbn [foldl]. rewrite body_ok, raw_headers_ok, cookies_ok, hash_ok by done.
    split_and!; [done|done|apply from_utf8_lossy_is_utf8].
  - destruct (caches_ok_step a r H) as [Ha Hv]. cbn [foldl]. destruct (IH _ Ha) as (-> & -> & ?).
    split_and!; [done|by destruct a|done].
Qed.
End hashes.

Definition example_response : Response :=
  mkResponse (bs "http://h/") 200 [(bs "Set-Cookie", bs "a=1; Path=/"); (bs "set-cookie", bs "a=2")] [104; 255] 0
    [] None None (bs "http://h/") (bs "GET") [] None None None None None.

Lemma accessors_agree_witness :
  let r' := foldl (λ r a, access_step (λ b, b) (λ b, b) zlen a r) example_response [AccHash; AccClone; AccCookies] in
  (body r').1 = [104; 0xEF; 0xBF; 0xBD] ∧ is_utf8 (body r').1 = true.
Proof.
  split; [vm_compute; reflexivity|].
  exact (proj2 (proj2 (accessors_agree (λ b, b) (λ b, b) zlen example_response [AccHash; AccClone; AccCookies]
    eq_refl eq_refl eq_refl eq_refl))).
Defined.

(** ** Cookies: the last Set-Cookie of a name wins *)

(** The name and value one Set-Cookie header gives. *)
Definition named_value (value : bytes) : option (bytes * bytes) :=
  '(n, v) ← split_once (ch "=") (default [] (head (split (ch ";") value))); Some (trim n, trim v).

Definition cookie_values (name : bytes) (headers : list (bytes * bytes)) : list bytes :=
  omap (λ h, if eq_ignore_ascii_case h.1 (bs "set-cookie") then
               '(n, v) ← named_value h.2; if bool_decide (n = name) then Some v else None
             else None) headers.

Lemma insert_pair_lookup value out name :
  insert_pair value out !! name =
    match ('(n, v) ← named_value value; if bool_decide (n = name) then Some v else None) with
    | Some v => Some v
    | None => out !! name
    end.
Proof.
  unfold insert_pair, named_value. destruct (split_once _ _) as [[n v]|]; cbn; [|done].
  destruct (bool_decide (trim n = name)) eqn:E.
  - apply bool_decide_eq_true in E as <-. apply lookup_insert_eq.
  - apply bool_decide_eq_false in E. by apply lookup_insert_ne.
Qed.

Lemma set_cookies_loop_lookup headers out name :
  set_cookies_loop headers out !! name =
    match last (cookie_values name headers) with Some v => Some v | None => out !! name end.
Proof.
  revert out. induction headers as [|[k v] l IH]; intros out; [done|]. cbn [set_cookies_loop].
  rewrite IH. unfold cookie_values at 2. cbn [omap list_omap fst snd]. fold (cookie_values name l).
  destruct (eq_ignore_ascii_case k (bs "set-cookie")); cbn [negb]; [|done].
  rewrite insert_pair_lookup. destruct ('(n, v) ← named_value v; _) as [w|]; [|done].
  destruct (cookie_values name l) as [|x xs]; [done|]. rewrite (last_cons w). destruct (last (x :: xs)) eqn:E; [done|].
  by apply last_None in E.
Qed.

(** [cookies()] maps a name to the value of its last Set-Cookie, and nothing else. *)
Theorem parse_set_cookies_last_wins (headers : list (bytes * bytes)) (name : bytes) :
  parse_set_cookies headers !! name = last (cookie_values name headers).
Proof. unfold parse_set_cookies. rewrite set_cookies_loop_lookup, lookup_empty. by destruct (last _). Qed.
