(* ===== verification/MockClient.v ===== *)
(** * The test doubles of HttpClient (src/client/mock.rs)

    The clients that the unit tests put in place of the real one, and what those
    tests read off them: [peak_concurrent] is the most sends that were ever inside at
    once, and neither driver of [Dispatch] lets it pass [concurrency]. *)
From S2P Require Import Prelude RustStd Utf8 ClientError Config Dispatch Paced.
From S2P Require Import Response.

(** ** The doubles *)

(** The two counters are atomics of their own ([counters]). *)
Record MockClient := mkMockClient {
  mc_status : Z;
  mc_body : bytes;
  mc_headers : list (bytes * bytes);
  mc_error : option bytes;
  mc_delay : option Z;
  echo_config : bool
}.

Definition MockClient_new (status : Z) (body : bytes) : MockClient := mkMockClient status body [] None None false.
Definition with_error (message : bytes) : MockClient := mkMockClient 0 [] [] (Some message) None false.
Definition with_delay (delay : Z) (m : MockClient) : MockClient :=
  mkMockClient (mc_status m) (mc_body m) (mc_headers m) (mc_error m) (Some delay) (echo_config m).
Definition with_headers (headers : list (bytes * bytes)) (m : MockClient) : MockClient :=
  mkMockClient (mc_status m) (mc_body m) headers (mc_error m) (mc_delay m) (echo_config m).
Definition with_echo (m : MockClient) : MockClient :=
  mkMockClient (mc_status m) (mc_body m) (mc_headers m) (mc_error m) (mc_delay m) true.

(** [format!("method={} body={} headers={}", ..)]. *)
Definition echo_body (c : RequestConfig) : bytes :=
  bs "method=" ++ method c ++ bs " body=" ++ from_option from_utf8_lossy [] (cfg_body c) ++
  bs " headers=" ++ dec (from_option zlen 0 (cfg_headers c)).

Definition plain_response (c : RequestConfig) (status : Z) (headers : list (bytes * bytes)) (body : bytes) : Response :=
  mkResponse (cfg_url c) status headers body 0 [] None None (cfg_url c) (method c) [] None None None None None.

(** What a send answers; the counters are in [advance]. *)
Definition answer (m : MockClient) (c : RequestConfig) : exec ClientError Response :=
  match mc_error m with
  | Some msg => Err (err_connection msg)
  | None => Ok (plain_response c (mc_status m) (mc_headers m) (if echo_config m then echo_body c else mc_body m))
  end.

Record ErrorKindMockClient := mkErrorKindMock { ek_kind : ErrorKind; ek_message : bytes }.
Definition error_kind_send (m : ErrorKindMockClient) (_ : RequestConfig) : exec ClientError Response :=
  Err (mkError (ek_message m) (ek_kind m)).

Record SequenceMockClient := mkSequenceMock {
  call_count : Z; fail_count : Z; fail_kind : ErrorKind; success_status : Z
}.
Definition SequenceMockClient_new (fail_count : Z) (fail_kind : ErrorKind) (success_status : Z) : SequenceMockClient :=
  mkSequenceMock 0 fail_count fail_kind success_status.
Definition total_calls (m : SequenceMockClient) : Z := call_count m.

Definition sequence_send (c : RequestConfig) (m : SequenceMockClient) : exec ClientError Response * SequenceMockClient :=
  let call := call_count m in
  let m := mkSequenceMock (u32 (call + 1)) (fail_count m) (fail_kind m) (success_status m) in
  (if call <? fail_count m then Err (mkError (bs "mock error on call " ++ dec call) (fail_kind m))
   else Ok (plain_response c (success_status m) [] (bs "ok")), m).

Fixpoint sequence_sends (n : nat) (c : RequestConfig) (m : SequenceMockClient) : SequenceMockClient :=
  match n with O => m | S n => sequence_sends n c (sequence_send c m).2 end.

(** The double fails exactly its first [fail_count] calls. *)
Lemma sequence_fails_first fail k status c n : 0 ≤ fail → Z.of_nat n < 2 ^ 32 →
  let m := sequence_sends n c (SequenceMockClient_new fail k status) in
  total_calls m = Z.of_nat n ∧
  (sequence_send c m).1 = if Z.of_nat n <? fail then Err (mkError (bs "mock error on call " ++ dec (Z.of_nat n)) k)
                          else Ok (plain_response c status [] (bs "ok")).
Proof.
  intros Hf Hn m. assert (m = mkSequenceMock (Z.of_nat n) fail k status) as ->; [|done].
  unfold m, SequenceMockClient_new. clear m Hf.
  assert (∀ n i, i + Z.of_nat n < 2 ^ 32 → 0 ≤ i → sequence_sends n c (mkSequenceMock i fail k status) =
    mkSequenceMock (i + Z.of_nat n) fail k status) as Hgen; [|by rewrite Hgen].
  clear n Hn. induction n as [|n IH]; intros i Hn Hi; cbn [sequence_sends]; [f_equal; lia|].
  cbn [sequence_send snd call_count fail_count fail_kind success_status]. unfold u32.
  rewrite Z.mod_small, IH by lia. f_equal. lia.
Qed.

(** ** The counters, and sends running in tasks *)

Record counters := mkCounters { concurrent_count : Z; peak : Z }.
Definition peak_concurrent (c : counters) : Z := peak c.

(** Where a call of [send] stands: before [fetch_add], between it and [fetch_max],
    asleep between [fetch_max] and [fetch_sub], past it. *)
Inductive call := Enters | Counted (current : Z) | Sleeping | Answers.
#[export] Instance call_eq_dec : EqDecision call.
Proof. solve_decision. Defined.

(** The next atomic operation of a call.  The sum of [fetch_add] and 1 wraps, as in a
    release build; it never does below. *)
Definition advance (m : MockClient) (p : call) (c : counters) : call * counters :=
  match p with
  | Enters =>
      if mc_error m then (Answers, c)
      else let current := u32 (concurrent_count c + 1) in (Counted current, mkCounters current (peak c))
  | Counted current => (Sleeping, mkCounters (concurrent_count c) (Z.max (peak c) current))
  | Sleeping => (Answers, mkCounters (u32 (concurrent_count c - 1)) (peak c))
  | Answers => (Answers, c)
  end.

Definition inside (p : call) : bool := match p with Counted _ | Sleeping => true | _ => false end.
Definition inside_count (l : list call) : Z := zlen (List.filter inside l).

Lemma inside_count_app l k : inside_count (l ++ k) = inside_count l + inside_count k.
Proof. unfold inside_count. by rewrite List.filter_app, zlen_app. Qed.
Lemma inside_count_enters n : inside_count (replicate n Enters) = 0.
Proof. by induction n. Qed.
Lemma inside_count_insert l k p p' : l !! k = Some p →
  inside_count (<[k := p']> l) = inside_count l - (if inside p then 1 else 0) + (if inside p' then 1 else 0).
Proof.
  unfold inside_count. revert k. induction l as [|x l IH]; intros [|k] Hk; [done|done|..].
  - injection Hk as ->. change (<[0%nat := p']> (p :: l)) with (p' :: l). cbn [List.filter].
    destruct (inside p), (inside p'); rewrite ?zlen_cons; lia.
  - specialize (IH k Hk). change (<[S k := p']> (x :: l)) with (x :: <[k := p']> l). cbn [List.filter].
    destruct (inside x); rewrite ?zlen_cons; lia.
Qed.

Lemma inside_count_nonneg l : 0 ≤ inside_count l.
Proof. apply zlen_nonneg. Qed.
Lemma inside_count_pos l k p : l !! k = Some p → inside p = true → 1 ≤ inside_count l.
Proof.
  intros Hk Hi. pose proof (inside_count_insert l k p Answers Hk) as Hc. rewrite Hi in Hc. cbn in Hc.
  pose proof (inside_count_nonneg (<[k := Answers]> l)). lia.
Qed.

Section run.
Context (m : MockClient).
#[local] Instance mock_client : HttpClient RequestConfig Response := {
  url_of := cfg_url;
  sends c o := o = answer m c
}.
Context {D : Type} `{!Driver D RequestConfig Response}.

(** The tasks of a driver, their calls of [send], the counters, and the most calls
    that were inside at once. *)
Record run := mkRun { r_driver : D; r_calls : list call; r_counters : counters; r_highest : Z }.

Definition r_tasks (r : run) : list (RequestConfig * task) := tasks (d_base (r_driver r)).

Definition run_init (configs : list RequestConfig) (concurrency : Z) : run :=
  mkRun (d_init configs concurrency) [] (mkCounters 0 0) 0.

(** A task is over once its call has answered. *)
Definition answered (d d' : D) (calls : list call) : Prop :=
  ∀ k c, tasks (d_base d) !! k = Some (c, Running) →
    tasks (d_base d') !! k = Some (c, Running) ∨ calls !! k = Some Answers.

Inductive run_step : run → run → Prop :=
  | run_driver d calls cs top d' : d_step d d' → answered d d' calls →
      run_step (mkRun d calls cs top)
        (mkRun d' (calls ++ replicate (length (tasks (d_base d')) - length (tasks (d_base d))) Enters) cs top)
  | run_call d calls cs top k c p : tasks (d_base d) !! k = Some (c, Running) → calls !! k = Some p →
      let calls' := <[k := (advance m p cs).1]> calls in
      run_step (mkRun d calls cs top) (mkRun d calls' (advance m p cs).2 (Z.max top (inside_count calls'))).

Record run_inv (configs : list RequestConfig) (n : Z) (r : run) : Prop := mkRunInv {
  ri_driver : d_ok configs n (r_driver r);
  ri_length : length (r_calls r) = length (r_tasks r);
  ri_inside k p : r_calls r !! k = Some p → inside p = true → ∃ c, r_tasks r !! k = Some (c, Running);
  ri_count : concurrent_count (r_counters r) = inside_count (r_calls r);
  ri_highest : inside_count (r_calls r) ≤ r_highest r ≤ n;
  ri_peak : 0 ≤ peak (r_counters r) ≤ r_highest r;
  ri_counted k v : r_calls r !! k = Some (Counted v) → 0 ≤ v ≤ r_highest r;
  ri_pending : peak (r_counters r) = r_highest r ∨ ∃ k, r_calls r !! k = Some (Counted (r_highest r))
}.

(** The calls inside are running tasks. *)
Lemma inside_running (calls : list call) (l : list (RequestConfig * @task Response)) :
  (∀ k p, calls !! k = Some p → inside p = true → ∃ c, l !! k = Some (c, Running)) →
  inside_count calls ≤ running l.
Proof.
  revert l. induction calls as [|p calls IH]; intros l Hin.
  { unfold inside_count. cbn. apply running_nonneg. }
  destruct l as [|[c t] l].
  - enough (List.filter inside (p :: calls) = []) as Hf by (unfold inside_count; by rewrite Hf).
    destruct (List.filter inside (p :: calls)) as [|q r] eqn:Hf; [done|]. exfalso.
    assert (q ∈ List.filter inside (p :: calls)) as Hq by (rewrite Hf; set_solver).
    apply list_elem_of_In, List.filter_In in Hq as [Hq Hi]. apply list_elem_of_In, list_elem_of_lookup in Hq as [k Hk].
    destruct (Hin k q Hk Hi) as [? Hc]. by rewrite lookup_nil in Hc.
  - specialize (IH l (λ k q, Hin (S k) q)). rewrite running_cons. unfold inside_count in *. cbn [List.filter].
    destruct (inside p) eqn:Hp; [|destruct (is_running (c, t)); lia].
    destruct (Hin 0%nat p eq_refl Hp) as [c' [= <- ->]]. rewrite zlen_cons. cbn. lia.
Qed.

Lemma run_inv_init configs n : 0 ≤ n → run_inv configs n (run_init configs n).
Proof.
  intros Hn. split; cbn; unfold r_tasks; cbn; rewrite ?d_init_empty; try done; [by apply d_ok_init|by left].
Qed.

Lemma run_inv_driver configs n d calls cs top d' : d_step d d' → answered d d' calls →
  run_inv configs n (mkRun d calls cs top) →
  run_inv configs n (mkRun d' (calls ++ replicate (length (tasks (d_base d')) - length (tasks (d_base d))) Enters) cs top).
Proof.
  intros Hs Ha [Hd Hl Hin Hc Hh Hp Hv Hpd]. unfold r_tasks in *. cbn in *.
  assert (∀ k p, (calls ++ replicate (length (tasks (d_base d')) - length (tasks (d_base d))) Enters) !! k = Some p →
    calls !! k = Some p ∨ p = Enters) as Hk.
  { intros k p [Hk|[_ Hk]]%lookup_app_Some; [by left|right]. by apply lookup_replicate in Hk as [-> _]. }
  split; unfold r_tasks; cbn.
  - by eapply d_ok_step.
  - rewrite length_app, length_replicate. destruct (d_one_by_one _ _ Hs); lia.
  - intros k p [Hkp| ->]%Hk Hi; [|done]. destruct (Hin k p Hkp Hi) as [c Ht]. destruct (Ha k c Ht) as [|Hans]; [by exists c|].
    rewrite Hans in Hkp. by simplify_eq.
  - rewrite inside_count_app, inside_count_enters. lia.
  - rewrite inside_count_app, inside_count_enters. lia.
  - done.
  - intros k v [Hkv|]%Hk; [by eapply Hv|done].
  - destruct Hpd as [|[k Hkv]]; [by left|right]. exists k. by apply lookup_app_l_Some.
Qed.

(** What one atomic operation does to a call and the counters, when the count is right. *)
Lemma advance_count p cs (x : Z) : concurrent_count cs = x → 0 ≤ x < 2 ^ 32 - 1 → (inside p = true → 1 ≤ x) →
  concurrent_count (advance m p cs).2 =
    x - (if inside p then 1 else 0) + (if inside (advance m p cs).1 then 1 else 0).
Proof.
  intros Hx Hr Hp. destruct p; cbn in *; [destruct (mc_error m); cbn|..]; unfold u32; try lia.
  - rewrite Z.mod_small by lia. lia.
  - specialize (Hp eq_refl). rewrite Z.mod_small by lia. lia.
Qed.

Lemma run_inv_call configs n d calls cs top k c p : n < 2 ^ 32 - 1 → tasks (d_base d) !! k = Some (c, Running) →
  calls !! k = Some p → run_inv configs n (mkRun d calls cs top) →
  let calls' := <[k := (advance m p cs).1]> calls in
  run_inv configs n (mkRun d calls' (advance m p cs).2 (Z.max top (inside_count calls'))).
Proof.
  intros Hn32 Ht Hk [Hd Hl Hin Hc Hh Hp Hv Hpd] calls'. unfold r_tasks in *. cbn in *.
  assert (∀ j q, calls' !! j = Some q → (j = k ∧ q = (advance m p cs).1) ∨ (j ≠ k ∧ calls !! j = Some q)) as Hj.
  { intros j q. unfold calls'. destruct (decide (j = k)) as [->|Hne].
    - rewrite list_lookup_insert_eq by (by eapply lookup_lt_Some). intros [= <-]. by left.
    - rewrite list_lookup_insert_ne by done. by right. }
  assert (∀ j q, calls' !! j = Some q → inside q = true → ∃ c, tasks (d_base d) !! j = Some (c, Running)) as Hin'.
  { intros j q Hjq Hi. destruct (Hj j q Hjq) as [[-> _]|[_ ?]]; [by exists c|by eapply Hin]. }
  pose proof (d_ok_base _ _ _ Hd) as (_ & Hperm & Hsum & _).
  pose proof (inside_running _ _ Hin) as Hle. pose proof (inside_running _ _ Hin') as Hle'.
  pose proof (inside_count_nonneg calls). pose proof (inside_count_nonneg calls'). pose proof (inside_count_pos _ _ _ Hk).
  pose proof (inside_count_insert calls k p (advance m p cs).1 Hk) as Hcount. fold calls' in Hcount.
  pose proof (advance_count p cs _ Hc) as Hadv.
  assert (concurrent_count (advance m p cs).2 = inside_count calls') as Hnew
    by (rewrite Hadv; [lia|lia|done]).
  assert (∀ j q, calls !! j = Some q → j ≠ k → calls' !! j = Some q) as Hother
    by (intros j q ? ?; unfold calls'; by rewrite list_lookup_insert_ne).
  assert (calls' !! k = Some (advance m p cs).1) as Hself
    by (apply list_lookup_insert_eq; by eapply lookup_lt_Some).
  split; unfold r_tasks; cbn.
  - done.
  - unfold calls'. by rewrite length_insert.
  - done.
  - done.
  - lia.
  - clear Hadv Hnew. destruct p as [|v| |]; cbn; [destruct (mc_error m); cbn; lia| |lia..]. specialize (Hv k v Hk). lia.
  - intros j v Hjv. destruct (Hj j _ Hjv) as [[-> Hq]|[_ Hq]]; [|specialize (Hv j v Hq); lia].
    destruct p; cbn in Hq, Hnew; [destruct (mc_error m); [done|]|done..]. cbn in Hnew. injection Hq as ->.
    rewrite Hnew. lia.
  - destruct (decide (inside_count calls' ≤ top)) as [Htop|Htop].
    + rewrite Z.max_l by done. destruct Hpd as [Hpd|[j Hjt]].
      * destruct p as [|v| |]; cbn; [by destruct (mc_error m); left| |by left..]. specialize (Hv k v Hk). left. lia.
      * destruct (decide (j = k)) as [->|Hne]; [|right; exists j; by apply Hother].
        rewrite Hk in Hjt. injection Hjt as ->. left. cbn. lia.
    + right. exists k. rewrite Z.max_r, Hself by lia. destruct p as [|v| |]; cbn in *; [|lia..].
      destruct (mc_error m); cbn in *; [lia|by rewrite Hnew].
Qed.

Lemma run_inv_step configs n r r' : n < 2 ^ 32 - 1 → run_step r r' → run_inv configs n r → run_inv configs n r'.
Proof. intros Hn [d calls cs top d' Hs Ha|d calls cs top k c p Ht Hk]; [by apply run_inv_driver|by eapply run_inv_call]. Qed.

Lemma run_reach_inv configs n r : 0 ≤ n < 2 ^ 32 - 1 → rtc run_step (run_init configs n) r → run_inv configs n r.
Proof.
  intros Hn. apply (rtc_invariant _ (run_inv configs n)); [apply run_inv_init; lia|].
  intros a b. apply run_inv_step. lia.
Qed.

(** *** Progress *)

Lemma mock_total c : ∃ o, sends c o.
Proof. by exists (answer m c). Qed.

Definition remaining (p : call) : nat := match p with Enters => 3 | Counted _ => 2 | Sleeping => 1 | Answers => 0 end.

Lemma advance_remaining p cs : p ≠ Answers → (remaining (advance m p cs).1 < remaining p)%nat.
Proof. destruct p; cbn; try lia; [destruct (mc_error m); cbn; lia|done]. Qed.

(** A call of a running task can come to its answer on its own. *)
Lemma run_call_answers d calls cs top k c : tasks (d_base d) !! k = Some (c, Running) → (k < length calls)%nat →
  ∃ calls' cs' top', rtc run_step (mkRun d calls cs top) (mkRun d calls' cs' top') ∧ length calls' = length calls ∧
    calls' !! k = Some Answers ∧ ∀ j, j ≠ k → calls' !! j = calls !! j.
Proof.
  intros Ht Hlt. destruct (lookup_lt_is_Some_2 _ _ Hlt) as [p Hp]. remember (remaining p) as w eqn:Hw.
  revert p calls cs top Hp Hlt Hw. induction (lt_wf w) as [w _ IH]. intros p calls cs top Hp Hlt ->.
  destruct (decide (p = Answers)) as [->|Hne]; [by exists calls, cs, top; split_and!; [apply rtc_refl|..]|].
  set (calls1 := <[k := (advance m p cs).1]> calls).
  destruct (IH _ (advance_remaining p cs Hne) (advance m p cs).1 calls1 (advance m p cs).2 (Z.max top (inside_count calls1)))
    as (calls' & cs' & top' & Hr & Hl & Ha & Ho); [by apply list_lookup_insert_eq|by unfold calls1; rewrite length_insert|done|].
  exists calls', cs', top'. split_and!; [|by unfold calls1 in Hl; rewrite length_insert in Hl|done|].
  - eapply rtc_l; [by apply (run_call _ _ _ _ k c p)|exact Hr].
  - intros j Hj. rewrite Ho by done. unfold calls1. by rewrite list_lookup_insert_ne.
Qed.

Lemma running_answer d ks : Forall (λ k, ∃ c, tasks (d_base d) !! k = Some (c, Running)) ks → ∀ calls cs top,
  length calls = length (tasks (d_base d)) →
  ∃ calls' cs' top', rtc run_step (mkRun d calls cs top) (mkRun d calls' cs' top') ∧ length calls' = length calls ∧
    (∀ k, calls !! k = Some Answers → calls' !! k = Some Answers) ∧ ∀ k, k ∈ ks → calls' !! k = Some Answers.
Proof.
  induction 1 as [|k ks [c Hk] _ IH]; intros calls cs top Hlen.
  { exists calls, cs, top. split_and!; [apply rtc_refl|done|done|by intros ? ?%not_elem_of_nil]. }
  destruct (run_call_answers d calls cs top k c Hk) as (calls1 & cs1 & top1 & H1 & L1 & A1 & O1).
  { rewrite Hlen. by eapply lookup_lt_Some. }
  destruct (IH calls1 cs1 top1) as (calls2 & cs2 & top2 & H2 & L2 & K2 & A2); [by rewrite L1|].
  exists calls2, cs2, top2. split_and!; [by etrans|by rewrite L2| |].
  - intros j Hj. apply K2. destruct (decide (j = k)) as [->|Hne]; [done|by rewrite O1].
  - intros j [->|Hj]%elem_of_cons; [by apply K2|by apply A2].
Qed.

Definition is_run (t : option (RequestConfig * @task Response)) : bool :=
  match t with Some (_, Running) => true | _ => false end.

(** Whatever the driver can do next, it can come to do once its calls have answered. *)
Lemma run_follows configs n d calls cs top d' : run_inv configs n (mkRun d calls cs top) → d_step d d' →
  ∃ r', rtc run_step (mkRun d calls cs top) r' ∧ r_driver r' = d'.
Proof.
  intros Hi Hs. set (ks := List.filter (λ k, is_run (tasks (d_base d) !! k)) (seq 0 (length calls))).
  assert (∀ k c, tasks (d_base d) !! k = Some (c, Running) → k ∈ ks) as Hks.
  { intros k c Hk. apply list_elem_of_In, List.filter_In. rewrite Hk. split; [|done]. apply in_seq.
    apply lookup_lt_Some in Hk. pose proof (ri_length _ _ _ Hi) as Hl. unfold r_tasks in Hl. cbn in Hl. lia. }
  destruct (running_answer d ks) with (calls := calls) (cs := cs) (top := top)
    as (calls' & cs' & top' & Hr & _ & _ & Ha); [|apply (ri_length _ _ _ Hi)|].
  { apply Forall_forall. intros k Hk. apply list_elem_of_In, List.filter_In in Hk as [_ Hk].
    destruct (tasks (d_base d) !! k) as [[c [| |o]]|]; try done. by exists c. }
  eexists. split; [eapply rtc_r; [exact Hr|]|].
  - apply (run_driver _ _ _ _ d'); [done|]. intros k c Hk. right. apply Ha. by eapply Hks.
  - done.
Qed.

Lemma run_completes configs n r : 1 ≤ n < 2 ^ 32 - 1 → run_inv configs n r →
  ∃ r', rtc run_step r r' ∧ all_finished (d_base (r_driver r')) = true.
Proof.
  intros Hn. remember (measure (d_base (r_driver r))) as w eqn:Hw. revert r Hw.
  induction (lt_wf w) as [w _ IH]. intros r -> Hi. destruct (all_finished (d_base (r_driver r))) eqn:Ha.
  { exists r. split; [apply rtc_refl|done]. }
  destruct (d_ok_progress configs n (r_driver r) mock_total ltac:(lia) (ri_driver _ _ _ Hi) Ha) as [d Hd].
  destruct r as [d0 calls cs top]. destruct (run_follows _ _ _ _ _ _ _ Hi Hd) as (r1 & H1 & <-).
  destruct (IH _ (d_shrinks _ _ Hd) r1 eq_refl) as (r2 & H2 & Hf).
  { eapply (rtc_invariant _ (run_inv configs n)); [exact Hi| |exact H1]. intros a b. apply run_inv_step. lia. }
  exists r2. split; [by etrans|done].
Qed.
(** C27: what the tests read off the double.  Under either driver, whatever the order
    in which its tasks and the atomic operations of their sends run, [peak_concurrent]
    never passes the number of sends that were inside at once, nor that number
    [concurrency]; once the batch is over the two are equal, so the peak is exact; every
    result is the answer of the double to its configuration; and, when
    [concurrency] is at least 1, the batch can always come to its end.  ([concurrency] is
    less than the largest [u32], which the counters wrap at.) *)
Theorem mock_peak_exact (configs : list RequestConfig) (concurrency : Z) (r : run) :
  0 ≤ concurrency < 2 ^ 32 - 1 → rtc run_step (run_init configs concurrency) r →
  peak_concurrent (r_counters r) ≤ r_highest r ≤ concurrency ∧
  inside_count (r_calls r) ≤ r_highest r ∧
  (∀ k c o, r_tasks r !! k = Some (c, Finished o) → o = answer m c) ∧
  (all_finished (d_base (r_driver r)) = true → (r_tasks r).*1 = configs ∧
     concurrent_count (r_counters r) = 0 ∧ peak_concurrent (r_counters r) = r_highest r) ∧
  (1 ≤ concurrency → ∃ r', rtc run_step r r' ∧ all_finished (d_base (r_driver r')) = true).
Proof.
  intros Hn Hr. pose proof (run_reach_inv configs concurrency r Hn Hr) as Hi.
  pose proof Hi as [Hd Hl Hin Hc Hh Hp _ Hpd]. pose proof (d_ok_base _ _ _ Hd) as Hb. unfold peak_concurrent.
  split_and!; try lia.
  - intros k c o Hk. destruct Hb as (_ & _ & _ & Hf). by apply (Forall_lookup_1 _ _ _ _ Hf Hk).
  - intros Ha. destruct (final_task _ _ _ Hb Ha) as [Hcs Hf].
    assert (∀ k p, r_calls r !! k = Some p → inside p = false) as Hno.
    { intros k p Hk. destruct (inside p) eqn:Hip; [|done]. destruct (Hin k p Hk Hip) as [c Ht].
      destruct (Forall_lookup_1 _ _ _ _ Hf Ht) as (o & ? & _). done. }
    split_and!; [done| |].
    + rewrite Hc. unfold inside_count. destruct (List.filter inside (r_calls r)) as [|q l] eqn:Hq; [done|]. exfalso.
      assert (q ∈ List.filter inside (r_calls r)) as Hqi by (rewrite Hq; set_solver).
      apply list_elem_of_In, List.filter_In in Hqi as [Hqi Hit].
      apply list_elem_of_In, list_elem_of_lookup in Hqi as [k Hk]. by rewrite (Hno k q Hk) in Hit.
    + destruct Hpd as [|[k Hk]]; [done|]. by specialize (Hno k _ Hk).
  - intros Hn1. apply (run_completes configs concurrency r); [lia|done].
Qed.
End run.

(** One slow send of [send_batch], counted and not yet recorded in the peak. *)
Definition slow_client : MockClient := with_delay 200 (MockClient_new 200 (bs "ok")).
Definition one_config : RequestConfig := RequestConfig_new (bs "http://example.com").

#[local] Instance slow_http : HttpClient RequestConfig Response := mock_client slow_client.
#[local] Instance slow_batch : @Driver batch_state RequestConfig Response (mock_client slow_client) := send_batch_driver.
#[local] Instance slow_stream : @Driver stream_state RequestConfig Response (mock_client slow_client) := stream_driver.

Lemma mock_peak_exact_witness :
  let start : @run batch_state := run_init slow_client [one_config] 1 in
  let r : @run batch_state := mkRun (mkBS [] [(one_config, Running)] 0) [Counted 1] (mkCounters 1 0) 1 in
  let streaming : @run stream_state := run_init slow_client [one_config] 1 in
  (rtc (run_step slow_client) start r ∧ peak_concurrent (r_counters r) ≤ r_highest r ≤ 1) ∧
  ∃ r', rtc (run_step slow_client) streaming r' ∧ all_finished (base (r_driver r')) = true.
Proof.
  intros start r streaming.
  assert (rtc (run_step slow_client) start r) as Hr.
  { eapply rtc_l.
    { apply (run_driver slow_client _ [] _ 0 (mkBS [] [(one_config, Waiting)] 1)); [apply (batch_dispatch one_config [] [] 1)|].
      intros k c Hk. by destruct k. }
    eapply rtc_l.
    { apply (run_driver slow_client _ [Enters] _ 0 (mkBS [] [(one_config, Running)] 0)).
      - apply (batch_start [] [] one_config [] 1). lia.
      - intros [|[|k]] c Hk; discriminate Hk. }
    eapply rtc_l; [apply (run_call slow_client _ [Enters] _ 0 0 one_config Enters); reflexivity|].
    apply rtc_refl. }
  split.
  - split; [exact Hr|].
    destruct (mock_peak_exact slow_client [one_config] 1 r) as (Hpeak & _); [lia|exact Hr|exact Hpeak].
  - destruct (mock_peak_exact slow_client [one_config] 1 streaming) as (_ & _ & _ & _ & Hend); [lia|apply rtc_refl|].
    apply Hend. lia.
Defined.
