(* ===== verification/Conn.v ===== *)
(** * Connections and the client cache (src/client/hyper.rs)

    The connection mode of a request, the TLS connector it needs, and the cache of
    pooled clients keyed by mode.  OpenSSL's refusals and the system's certificate
    store are parameters. *)
From stdpp Require Import gmap.
From S2P Require Import Prelude RustStd NetAddr ClientError Uri Config Request Response.

(** ** Connection modes *)

(** [Display] of an address. *)
Definition hex_digits (n : Z) : bytes :=
  let d i := Z.land (Z.shiftr n (4 * i)) 15 in
  let digit x := if x <? 10 then 48 + x else 87 + x in
  if n <? 16 then [digit (d 0)] else if n <? 256 then [digit (d 1); digit (d 0)]
  else if n <? 4096 then [digit (d 2); digit (d 1); digit (d 0)]
  else [digit (d 3); digit (d 2); digit (d 1); digit (d 0)].
Fixpoint joined (sep : bytes) (l : list bytes) : bytes :=
  match l with [] => [] | [x] => x | x :: l => x ++ sep ++ joined sep l end.

(** The first longest run of zero segments: [(start, length)]. *)
Fixpoint zero_run (l : list Z) (i : nat) (cur best : nat * nat) : nat * nat :=
  match l with
  | [] => best
  | x :: l =>
      if x =? 0 then
        let cur := (if Nat.eqb cur.2 0 then i else cur.1, S cur.2) in
        zero_run l (S i) cur (if Nat.ltb best.2 cur.2 then cur else best)
      else zero_run l (S i) (0, 0)%nat best
  end.
Definition ipv4_text (a : Ipv4Addr) : bytes := joined (bs ".") (map dec a).
Definition ipv6_text (a : Ipv6Addr) : bytes :=
  match a with
  | [0; 0; 0; 0; 0; 0xffff; x; y] => bs "::ffff:" ++ ipv4_text (be16 x ++ be16 y)
  | _ =>
      let '(start, len) := zero_run a 0 (0, 0)%nat (0, 0)%nat in
      if Nat.ltb 1 len then
        joined (bs ":") (map hex_digits (take start a)) ++ bs "::"
        ++ joined (bs ":") (map hex_digits (drop (start + len) a))
      else joined (bs ":") (map hex_digits a)
  end.
Definition ip_text (a : IpAddr) : bytes := match a with V4 a => ipv4_text a | V6 a => ipv6_text a end.

Record TlsKey := mkTlsKey {
  k_verify_certs : bool;
  k_cipher_string : option bytes;
  k_min_tls_version : option bytes;
  k_max_tls_version : option bytes;
  k_alpn_protocols : option (list bytes)
}.

#[export] Instance TlsKey_eq_dec : EqDecision TlsKey.
Proof. solve_decision. Defined.
#[export] Instance TlsKey_countable : Countable TlsKey.
Proof.
  refine (inj_countable' (λ k, (k_verify_certs k, k_cipher_string k, k_min_tls_version k, k_max_tls_version k, k_alpn_protocols k))
    (λ '(v, c, mi, ma, a), mkTlsKey v c mi ma a) _). by intros [].
Defined.

Definition from_config (c : RequestConfig) : TlsKey :=
  mkTlsKey (should_verify_certs c) c.(cipher_string) c.(min_tls_version) c.(max_tls_version) c.(alpn_protocols).

Inductive ConnMode :=
  | Direct (tls : TlsKey)
  | ForwardProxy (proxy_url : bytes)
  | Tunnel (proxy_url : bytes) (tls : TlsKey)
  | Socks5 (proxy_url : bytes) (tls : TlsKey).

#[export] Instance ConnMode_eq_dec : EqDecision ConnMode.
Proof. solve_decision. Defined.
#[export] Instance ConnMode_countable : Countable ConnMode.
Proof.
  refine (inj_countable' (λ m, match m with
      | Direct k => inl (inl k) | ForwardProxy u => inl (inr u)
      | Tunnel u k => inr (inl (u, k)) | Socks5 u k => inr (inr (u, k)) end)
    (λ x, match x with
      | inl (inl k) => Direct k | inl (inr u) => ForwardProxy u
      | inr (inl (u, k)) => Tunnel u k | inr (inr (u, k)) => Socks5 u k end) _). by intros [].
Defined.

Section parse.
Context (parse_uri : bytes → bytes + Uri).

Definition proxy_uri_of (proxy_url : bytes) : exec ClientError Uri :=
  parse_url parse_uri (bs "invalid proxy URL: ") proxy_url.

Definition conn_mode (config : RequestConfig) (target_uri : Uri) : exec ClientError ConnMode :=
  let tls := from_config config in
  match effective_proxy config (default [] target_uri.(host)) with
  | None => Ok (Direct tls)
  | Some proxy_url =>
      proxy_uri ← proxy_uri_of proxy_url;
      let proxy_scheme := default [] proxy_uri.(scheme_str) in
      if bool_decide (proxy_scheme = bs "http") || bool_decide (proxy_scheme = bs "https") then
        if bool_decide (target_uri.(scheme_str) = Some (bs "https")) then Ok (Tunnel proxy_url tls)
        else Ok (ForwardProxy proxy_url)
      else if bool_decide (proxy_scheme = bs "socks5") || bool_decide (proxy_scheme = bs "socks5h") then
        Ok (Socks5 proxy_url tls)
      else Err (err_other (bs "unsupported proxy scheme '" ++ proxy_scheme ++ bs "' (use http, https, socks5)"))
  end.

(** ** The connector *)

(** What the OpenSSL builder is told, with security level 0. *)
Record SslConnector := mkSsl {
  verify_peer : bool;
  ciphers : option bytes;
  min_proto : option SslVersion;
  max_proto : option SslVersion;
  alpn_wire : bytes
}.

#[export] Instance SslConnector_eq_dec : EqDecision SslConnector.
Proof. solve_decision. Defined.

(** The builder calls that can be refused. *)
Inductive ssl_call :=
  | SslBuilder
  | LoadCaCerts
  | SetCipherList (s : bytes)
  | SetMinProto (v : SslVersion)
  | SetMaxProto (v : SslVersion)
  | SetAlpnProtos (w : bytes).

(** The refusals' texts. *)
Context (refuses : ssl_call → option bytes).

Definition ssl_try (c : ssl_call) (ctx : bytes) : exec ClientError () :=
  match refuses c with Some e => Err (err_tls (ctx ++ e)) | None => Ok tt end.

Definition proto_version (v : option bytes) (call : SslVersion → ssl_call) (ctx : bytes)
    : exec ClientError (option SslVersion) :=
  match v with
  | None => Ok None
  | Some s => v ← parse_tls_version s; ssl_try (call v) ctx;; Ok (Some v)
  end.

(** The settings of [config], with the ALPN list to offer when it names none. *)
Definition ssl_settings (config : RequestConfig) (default_alpn : bytes) : exec ClientError SslConnector :=
  ssl_try SslBuilder (bs "SSL setup failed: ");;
  (if should_verify_certs config then ssl_try LoadCaCerts [] else Ok tt);;
  (match config.(cipher_string) with
   | Some c => ssl_try (SetCipherList c) (bs "invalid cipher string '" ++ c ++ bs "': ")
   | None => Ok tt
   end);;
  min ← proto_version config.(min_tls_version) SetMinProto (bs "failed to set min TLS version: ");
  max ← proto_version config.(max_tls_version) SetMaxProto (bs "failed to set max TLS version: ");
  alpn ← match config.(alpn_protocols) with
         | Some protos => encode_alpn_protocols protos
         | None => Ok default_alpn
         end;
  ssl_try (SetAlpnProtos alpn) (bs "failed to set ALPN: ");;
  Ok (mkSsl (should_verify_certs config) config.(cipher_string) min max alpn).

(** The pooled client offers h2 and http/1.1, the direct one http/1.1 only. *)
Definition pooled_alpn : bytes := 2 :: bs "h2" ++ 8 :: bs "http/1.1".
Definition direct_alpn : bytes := 8 :: bs "http/1.1".

Record OpenSslConnector := mkConnector { ssl : SslConnector; connect_timeout : Z }.

Definition OpenSslConnector_new (config : RequestConfig) : exec ClientError OpenSslConnector :=
  ssl ← ssl_settings config pooled_alpn;
  Ok (mkConnector ssl (timeout config)).

(** The server name sent, and the identity the certificate is checked against. *)
Record Identity := mkIdentity { sni : option bytes; pinned : option (IpAddr + bytes) }.
Definition ssl_identity (host : bytes) (verify : bool) : Identity :=
  mkIdentity (if bool_decide (parse_ip host = None) then Some host else None)
    (if verify then Some (match parse_ip host with Some ip => inl ip | None => inr host end) else None).

End parse.

(** ** The cache *)

Inductive AnyClient := DirectClient | TunnelProxyClient (proxy : Uri) | Socks5ProxyClient (proxy : Uri).

(** The slots are shared by all clones of an entry, so they live in it. *)
Record CachedClient := mkCached {
  inner : AnyClient;
  connector : OpenSslConnector;
  cert_slot : option CertInfo;
  peer_slot : gmap bytes IpAddr
}.

Abbreviation HyperClient := (gmap ConnMode CachedClient).
Definition HyperClient_new : HyperClient := ∅.

Section cache.
Context (parse_uri : bytes → bytes + Uri) (refuses : ssl_call → option bytes).

(** A connection that the pooled client opened through the connector: the address it
    was asked for, the peer, and, once a TLS handshake is through, the certificate. *)
Record opened := mkOpened { o_uri : Uri; o_peer : option IpAddr; o_handshake : option (option CertInfo) }.

(** [OpenSslConnector::call]: what it leaves in the slots. *)
Definition connector_call (c : CachedClient) (o : opened) : CachedClient :=
  let peers := match peer_slot_key o.(o_uri), o.(o_peer) with
               | Some key, Some ip => <[key := ip]> c.(peer_slot)
               | _, _ => c.(peer_slot)
               end in
  let cert := if bool_decide (o.(o_uri).(scheme_str) = Some (bs "https"))
              then match o.(o_handshake) with Some cert => cert | None => c.(cert_slot) end
              else c.(cert_slot) in
  mkCached c.(inner) c.(connector) cert peers.

Definition build_inner (mode : ConnMode) : exec ClientError AnyClient :=
  match mode with
  | Direct _ => Ok DirectClient
  | ForwardProxy _ => Panic
  | Tunnel proxy_url _ => u ← proxy_uri_of parse_uri proxy_url; Ok (TunnelProxyClient u)
  | Socks5 proxy_url _ => u ← proxy_uri_of parse_uri proxy_url; Ok (Socks5ProxyClient u)
  end.

Definition get_or_build (self : HyperClient) (config : RequestConfig) (mode : ConnMode)
    : exec ClientError (CachedClient * HyperClient) :=
  match self !! mode with
  | Some cached => Ok (cached, self)
  | None =>
      connector ← OpenSslConnector_new refuses config;
      inner ← build_inner mode;
      let cached := mkCached inner connector None ∅ in
      Ok (cached, <[mode := cached]> self)
  end.

(** ** Facts *)

(** The TLS settings of a mode. *)
Definition mode_tls (m : ConnMode) : option TlsKey :=
  match m with Direct k | Tunnel _ k | Socks5 _ k => Some k | ForwardProxy _ => None end.

(** A mode that [conn_mode] chooses for [config]. *)
Lemma conn_mode_tls config uri m : conn_mode parse_uri config uri = Ok m →
  ∀ k, mode_tls m = Some k → k = from_config config.
Proof.
  unfold conn_mode. destruct (effective_proxy _ _) as [p|]; [|intros [= <-] k [= <-]; done].
  intros H k. inv_bind. repeat case_match; inv_bind; cbn; congruence.
Qed.

(** TLS settings depend on the key only. *)
Lemma ssl_settings_key c c' d : from_config c = from_config c' → ssl_settings refuses c d = ssl_settings refuses c' d.
Proof. unfold from_config, ssl_settings. intros [= -> -> -> -> ->]. done. Qed.

(** The client of a mode: none but a direct one reaches a target by itself, and a
    tunnelling one goes through the very proxy of the mode. *)
Definition inner_fits (m : ConnMode) (a : AnyClient) : Prop :=
  match m with
  | Direct _ => a = DirectClient
  | Tunnel p _ => ∃ u, parse_uri p = inr u ∧ a = TunnelProxyClient u
  | Socks5 p _ => ∃ u, parse_uri p = inr u ∧ a = Socks5ProxyClient u
  | ForwardProxy _ => False
  end.

(** Every cached client goes the way of its key, with the TLS settings the key asks for. *)
Definition cache_ok (self : HyperClient) : Prop :=
  map_Forall (λ m c, inner_fits m (inner c) ∧ ∃ k, mode_tls m = Some k ∧
    ∀ config, from_config config = k → ssl_settings refuses config pooled_alpn = Ok (ssl (connector c))) self.

Lemma cache_ok_empty : cache_ok HyperClient_new.
Proof. apply map_Forall_empty. Qed.

Lemma proxy_uri_of_ok p u : proxy_uri_of parse_uri p = Ok u → parse_uri p = inr u.
Proof. unfold proxy_uri_of, parse_url. destruct (parse_uri p); [done|by intros [= <-]]. Qed.

Lemma build_inner_fits mode a : build_inner mode = Ok a → inner_fits mode a.
Proof.
  destruct mode; cbn; intros H; inv_bind; [done| |];
    (eexists; split; [by apply proxy_uri_of_ok|done]).
Qed.

Lemma get_or_build_ok self config mode cached self' k :
  cache_ok self → mode_tls mode = Some k → from_config config = k →
  get_or_build self config mode = Ok (cached, self') →
  cache_ok self' ∧ self' !! mode = Some cached ∧ ssl_settings refuses config pooled_alpn = Ok (ssl (connector cached)) ∧
  (∀ m, m ≠ mode → self' !! m = self !! m) ∧ inner_fits mode (inner cached).
Proof.
  intros Hok Hk Hc H. unfold get_or_build in H. destruct (self !! mode) as [c|] eqn:E.
  - injection H as <- <-. destruct (Hok _ _ E) as (Hi & k' & Hk' & Hs). split_and!; [done|done| |done|done].
    rewrite Hk in Hk'. injection Hk' as <-. by apply Hs.
  - inv_bind. unfold OpenSslConnector_new in *. inv_bind. split_and!.
    + apply map_Forall_insert_2; [|done]. split; [by apply build_inner_fits|]. eexists. split; [exact Hk|]. intros c' Hc'.
      rewrite (ssl_settings_key c' config) by congruence. done.
    + apply lookup_insert_eq.
    + done.
    + intros m Hm. by apply lookup_insert_ne.
    + by apply build_inner_fits.
Qed.

Lemma connector_call_connector c o : connector (connector_call c o) = connector c.
Proof. done. Qed.
End cache.
