(* ===== verification/SharedCache.v ===== *)
(** * One client, many calls (the cache of src/client/hyper.rs)

    Calls that share a client interleave at its mutex and at the slots of the entries.
    Whatever they do is a sequence of two kinds of step: looking up or building the
    entry for a request, under the lock, and a connection that an entry's connector
    opens. *)
From stdpp Require Import gmap.
From S2P Require Import Prelude RustStd NetAddr ClientError Uri Config Request Response Conn.

(** A connection opened through the entry of a mode. *)
Abbreviation connection := (ConnMode * opened)%type.

Section shared.
Context (parse_uri : bytes → bytes + Uri) (refuses : ssl_call → option bytes).

(** A request of any call, with any configuration, or a connection made. *)
Inductive cache_step : HyperClient → list connection → HyperClient → Prop :=
  | step_request self config uri mode cached self' :
      conn_mode parse_uri config uri = Ok mode → is_Some (mode_tls mode) →
      get_or_build parse_uri refuses self config mode = Ok (cached, self') →
      cache_step self [] self'
  | step_connection self mode cached o :
      self !! mode = Some cached →
      cache_step self [(mode, o)] (<[mode := connector_call cached o]> self).

(** Any number of steps, and the connections made, in order. *)
Inductive cache_steps : HyperClient → list connection → HyperClient → Prop :=
  | steps_none self : cache_steps self [] self
  | steps_more self l1 self1 l2 self2 :
      cache_step self l1 self1 → cache_steps self1 l2 self2 → cache_steps self (l1 ++ l2) self2.

Lemma cache_step_ok self l self' : cache_step self l self' → cache_ok parse_uri refuses self → cache_ok parse_uri refuses self'.
Proof.
  intros Hs Hok. destruct Hs as [s0 config uri mode cached s1 Hm [k Hk] Hg|s0 mode cached o Hc].
  - destruct (get_or_build_ok parse_uri refuses s0 config mode cached s1 k) as (? & _); try done.
    symmetry. by eapply conn_mode_tls.
  - apply map_Forall_insert_2; [|done]. exact (Hok _ _ Hc).
Qed.

Lemma cache_steps_ok self l self' : cache_steps self l self' → cache_ok parse_uri refuses self → cache_ok parse_uri refuses self'.
Proof. induction 1; eauto using cache_step_ok. Qed.

(** The connections through one mode. *)
Definition through (mode : ConnMode) (l : list connection) : list opened :=
  omap (λ x, if decide (x.1 = mode) then Some x.2 else None) l.

Lemma through_app mode l k : through mode (l ++ k) = through mode l ++ through mode k.
Proof. apply omap_app. Qed.

(** An entry stays, and only its slots change, by its own connections. *)
Lemma cache_step_entry self l self' mode c : cache_step self l self' → self !! mode = Some c →
  self' !! mode = Some (foldl connector_call c (through mode l)).
Proof.
  intros Hs Hc. destruct Hs as [s0 config uri m cached s1 Hm Hk Hg|s0 m cached o Hm].
  - unfold get_or_build in Hg. destruct (s0 !! m) as [c'|] eqn:E; [by injection Hg as _ <-|]. inv_bind.
    rewrite lookup_insert_ne by (intros ->; congruence). done.
  - cbn. destruct (decide (m = mode)) as [->|Hne]; cbn.
    + rewrite Hc in Hm. injection Hm as ->. apply lookup_insert_eq.
    + by rewrite lookup_insert_ne.
Qed.

Lemma cache_steps_entry self l self' mode c : cache_steps self l self' → self !! mode = Some c →
  self' !! mode = Some (foldl connector_call c (through mode l)).
Proof.
  intros Hs. revert c. induction Hs as [|s0 l1 self1 l2 self2 Hs _ IH]; intros c Hc; [done|].
  rewrite through_app, foldl_app. apply IH. by eapply cache_step_entry.
Qed.

(** A new entry starts with empty slots. *)
Definition fresh_entry (c : CachedClient) : Prop := cert_slot c = None ∧ peer_slot c = ∅.

Lemma cache_step_new self l self' mode c : cache_step self l self' → self !! mode = None → self' !! mode = Some c →
  fresh_entry c ∧ l = [].
Proof.
  intros Hs Hn Hc. destruct Hs as [s0 config uri m cached s1 Hm Hk Hg|s0 m cached o Hm].
  - unfold get_or_build in Hg. destruct (s0 !! m) as [c'|] eqn:E; [injection Hg as _ <-; congruence|]. inv_bind.
    destruct (decide (m = mode)) as [->|Hne]; [|rewrite lookup_insert_ne in Hc by done; congruence].
    rewrite lookup_insert_eq in Hc. by injection Hc as <-.
  - rewrite lookup_insert_ne in Hc by congruence. congruence.
Qed.

(** Every entry is a fresh one with connections of its own mode applied. *)
Lemma cache_steps_history l self : cache_steps HyperClient_new l self → ∀ mode c, self !! mode = Some c →
  ∃ c0 pre post, l = pre ++ post ∧ fresh_entry c0 ∧ connector c = connector c0 ∧ Conn.inner c = Conn.inner c0 ∧
    c = foldl connector_call c0 (through mode post).
Proof.
  assert (∀ self0 l self, cache_steps self0 l self → ∀ mode c, self !! mode = Some c → self0 !! mode = None →
    ∃ c0 pre post, l = pre ++ post ∧ fresh_entry c0 ∧ c = foldl connector_call c0 (through mode post)) as Hgen.
  { intros self0 l0 self1 Hs. induction Hs as [s0|s0 l1 self1 l2 self2 Hs Hss IH]; intros mode c Hc Hn; [congruence|].
    destruct (self1 !! mode) as [c1|] eqn:E1.
    - destruct (cache_step_new _ _ _ _ _ Hs Hn E1) as [Hf ->]. exists c1, [], l2.
      rewrite (cache_steps_entry _ _ _ _ _ Hss E1) in Hc. injection Hc as <-. done.
    - destruct (IH mode c Hc E1) as (c0 & pre & post & -> & Hf & ->). exists c0, (l1 ++ pre), post.
      by rewrite (assoc_L (++)). }
  intros Hs mode c Hc. destruct (Hgen _ _ _ Hs mode c Hc) as (c0 & pre & post & -> & Hf & ->); [apply lookup_empty|].
  exists c0, pre, post. split_and!; [done|done| | |done]; clear; revert c0; induction (through mode post) as [|o os IH];
    intros c0; cbn; [done|by rewrite IH|done|by rewrite IH].
Qed.

(** What the slots hold comes from the connections. *)
Lemma slots_of_connections os : ∀ c0,
  (∀ key ip, peer_slot (foldl connector_call c0 os) !! key = Some ip →
     peer_slot c0 !! key = Some ip ∨ ∃ o, o ∈ os ∧ peer_slot_key (o_uri o) = Some key ∧ o_peer o = Some ip) ∧
  (∀ cert, cert_slot (foldl connector_call c0 os) = Some cert →
     cert_slot c0 = Some cert ∨ ∃ o, o ∈ os ∧ scheme_str (o_uri o) = Some (bs "https") ∧ o_handshake o = Some (Some cert)) ∧
  (∀ key, is_Some (peer_slot c0 !! key) → is_Some (peer_slot (foldl connector_call c0 os) !! key)).
Proof.
  induction os as [|o os IH]; intros c0; cbn [foldl]; [split_and!; auto|].
  destruct (IH (connector_call c0 o)) as (H1 & H2 & H3). split_and!.
  - intros key ip Hk. destruct (H1 key ip Hk) as [Hc|(o' & Ho & ?)]; [|right; exists o'; set_solver].
    unfold connector_call in Hc. cbn in Hc. destruct (peer_slot_key (o_uri o)) as [k|] eqn:Ek; [|by left].
    destruct (o_peer o) as [p|] eqn:Ep; [|by left]. apply lookup_insert_Some in Hc as [[-> ->]|[_ Hc]]; [|by left].
    right. exists o. split; [by left|done].
  - intros cert Hk. destruct (H2 cert Hk) as [Hc|(o' & Ho & ?)]; [|right; exists o'; set_solver].
    unfold connector_call in Hc. cbn [Conn.cert_slot] in Hc. case_bool_decide as Hs; [|by left].
    destruct (o_handshake o) as [h|] eqn:Eh; [|by left]. right. exists o. subst h. split_and!; [by left|done|done].
  - intros key Hk. apply H3. unfold connector_call. cbn. destruct (peer_slot_key (o_uri o)); [|done].
    destruct (o_peer o); [|done]. by apply lookup_insert_is_Some'; right.
Qed.

(** C20: however the calls that share a client interleave, with whatever
    configurations: every entry has the TLS settings of its own mode; once built it is
    never replaced, its connector never changes, and a known peer is never forgotten;
    an address in its slot is one that a connection to that very host and port through
    that very mode had, and its certificate is one that such a connection to some https
    host presented.  Building an entry for a request at any moment gives exactly the
    TLS settings of that request. *)
Theorem shared_cache (l l' : list connection) (self self' : HyperClient) :
  cache_steps HyperClient_new l self → cache_steps self l' self' →
  cache_ok parse_uri refuses self' ∧
  (∀ mode c, self !! mode = Some c → ∃ c', self' !! mode = Some c' ∧ connector c' = connector c ∧
     Conn.inner c' = Conn.inner c ∧ ∀ key, is_Some (peer_slot c !! key) → is_Some (peer_slot c' !! key)) ∧
  (∀ mode c key ip, self !! mode = Some c → peer_slot c !! key = Some ip →
     ∃ o, (mode, o) ∈ l ∧ peer_slot_key (o_uri o) = Some key ∧ o_peer o = Some ip) ∧
  (∀ mode c cert, self !! mode = Some c → cert_slot c = Some cert →
     ∃ o, (mode, o) ∈ l ∧ scheme_str (o_uri o) = Some (bs "https") ∧ o_handshake o = Some (Some cert)) ∧
  (∀ config uri mode cached self'', conn_mode parse_uri config uri = Ok mode → is_Some (mode_tls mode) →
     get_or_build parse_uri refuses self' config mode = Ok (cached, self'') →
     ssl_settings refuses config pooled_alpn = Ok (ssl (connector cached)) ∧ self'' !! mode = Some cached).
Proof.
  intros Hs Hs'. pose proof (cache_steps_ok _ _ _ Hs (cache_ok_empty parse_uri refuses)) as Hok.
  pose proof (cache_steps_ok _ _ _ Hs' Hok) as Hok'.
  assert (∀ mode o post pre, o ∈ through mode post → (mode, o) ∈ pre ++ post) as Hthrough.
  { intros mode o post pre ([m x] & Hin & Hx)%list_elem_of_omap. cbn in Hx. destruct (decide (m = mode)) as [->|]; [|done].
    injection Hx as ->. set_solver. }
  split_and!; [done| | | |].
  - intros mode c Hc. exists (foldl connector_call c (through mode l')). split; [by eapply cache_steps_entry|].
    destruct (slots_of_connections (through mode l') c) as (_ & _ & Hkeep). split_and!; [| |exact Hkeep];
      clear; revert c; induction (through mode l') as [|o os IH]; intros c; cbn; [done|by rewrite IH|done|by rewrite IH].
  - intros mode c key ip Hc Hp. destruct (cache_steps_history _ _ Hs mode c Hc) as (c0 & pre & post & -> & [_ Hf] & _ & _ & ->).
    destruct (slots_of_connections (through mode post) c0) as (H1 & _).
    destruct (H1 key ip Hp) as [Hn|(o & Ho & ?)]; [rewrite Hf in Hn; by rewrite lookup_empty in Hn|]. exists o. auto.
  - intros mode c cert Hc Hp. destruct (cache_steps_history _ _ Hs mode c Hc) as (c0 & pre & post & -> & [Hf _] & _ & _ & ->).
    destruct (slots_of_connections (through mode post) c0) as (_ & H2 & _).
    destruct (H2 cert Hp) as [Hn|(o & Ho & ?)]; [congruence|]. exists o. auto.
  - intros config uri mode cached self'' Hm [k Hk] Hg.
    destruct (get_or_build_ok parse_uri refuses self' config mode cached self'' k) as (_ & ? & ? & _); try done.
    symmetry. by eapply conn_mode_tls.
Qed.
End shared.
