(* ===== verification/Client.v ===== *)
(** * The client (src/client/hyper.rs)

    Dispatching one request over each kind of connection, following redirects, and
    retrying.  The network, OpenSSL's handshakes, hyper and the clock are an
    environment ([Env]) that answers from everything done so far; what the program
    does to it is recorded as a list of events. *)
From stdpp Require Import gmap.
From S2P Require Import Prelude RustStd NetAddr ClientError Uri Config Cookies Wire.
From S2P Require Import Proxy Request Decompress Response Conn.

(** ** The environment *)

(** An await: it completes, it fails with a text, or [send]'s timer fires first. *)
Inductive answer (A : Type) : Type :=
  | Done (a : A)
  | Fails (text : bytes)
  | TimerFires.
Arguments Done {A} _.
Arguments Fails {A} _.
Arguments TimerFires {A}.

(** The same with a timeout of its own. *)
Inductive timed (A : Type) : Type :=
  | Within (a : answer A)
  | TimesOut.
Arguments Within {A} _.
Arguments TimesOut {A}.

(** A response head, its header values raw, and the frames of its body. *)
Record HttpResponse := mkHttp {
  h_status : Z;
  h_headers : list (bytes * bytes);
  h_frames : list frame
}.

(** What [TcpStream::connect] gives: the stream, the peer, and [set_nodelay]'s error. *)
Record Dialed := mkDialed { d_tcp : Tcp; d_peer : option IpAddr; d_nodelay : option bytes }.

(** What a finished TLS handshake gives. *)
Record Handshake := mkHandshake { t_cert : option CertInfo; t_alpn : option bytes }.

(** Whether a proxy handshake runs to its end before its timer and [send]'s. *)
Inductive tunnel_run := RunsThrough | TunnelTimesOut | TunnelTimerFires.

(** What the program does to the outside, with the answers to its requests;
    [EvTunnel] has what the handshake sends when it is not cut short. *)
Inductive event :=
  | EvRequest (mode : ConnMode) (via : CachedClient) (request : Request) (reply : answer HttpResponse)
  | EvDial (addr : bytes)
  | EvTunnel (scheme : ProxyScheme) (host : bytes) (port : Z) (sent : bytes)
  | EvTls (identity : Identity) (settings : SslConnector)
  | EvDirect (h2 : bool) (request : Request) (reply : answer HttpResponse)
  | EvForwardDial (addr : bytes)
  | EvForward (request : Request) (reply : answer HttpResponse)
  | EvSleep (ms : Z).

Record Env := mkEnv {
  (** the pooled client: the connections it opens, and its answer *)
  env_request : list event → ConnMode → CachedClient → Request → list opened * answer HttpResponse;
  env_dial : list event → bytes → timed Dialed;
  env_tunnel : list event → tunnel_run;
  env_ssl_setup : list event → Identity → option bytes;
  env_tls : list event → timed Handshake;
  env_handshake : list event → bool → answer ();
  env_direct : list event → Request → answer HttpResponse;
  env_forward_dial : list event → bytes → answer ();
  env_forward : list event → Request → answer HttpResponse;
  env_elapsed_ms : list event → Z;
  env_now_unix : list event → Z;
  (** what other calls do to the shared client meanwhile, at each place where this one
      meets it *)
  env_others : nat → list event → HyperClient → HyperClient
}.

(** ** The monad *)

Record St := mkSt { client : HyperClient; log : DebugLog; trace : list event }.

(** Why a computation of an attempt stops early. *)
Inductive stop := Raise (e : ClientError) | TimerFired.

Definition net (A : Type) : Type := St → exec stop A * St.

#[export] Instance net_ret : MRet net := λ _ a s, (Ok a, s).
#[export] Instance net_bind : MBind net := λ _ _ k m s,
  match m s with
  | (Ok a, s) => k a s
  | (Err e, s) => (Err e, s)
  | (Panic, s) => (Panic, s)
  end.

Definition raise {A} (e : ClientError) : net A := λ s, (Err (Raise e), s).
Definition lift {A} (r : exec ClientError A) : net A := λ s, (map_err Raise r, s).
(** A computation without errors of its own. *)
Definition total {A} (r : exec Empty_set A) : net A :=
  λ s, (match r with Ok a => Ok a | Err e => match e with end | Panic => Panic end, s).
Definition io_lift_net {A} (r : answer A) (on_error : bytes → ClientError) : net A :=
  λ s, (match r with Done a => Ok a | Fails t => Err (Raise (on_error t)) | TimerFires => Err TimerFired end, s).
Definition timed_net {A} (r : timed A) (timed_out : ClientError) (on_error : bytes → ClientError) : net A :=
  match r with
  | Within a => io_lift_net a on_error
  | TimesOut => raise timed_out
  end.
Definition get_trace : net (list event) := λ s, (Ok s.(trace), s).
Definition get_log : net (list bytes) := λ s, (Ok s.(log).(messages), s).
Definition others (env : Env) (place : nat) : net () :=
  λ s, (Ok tt, mkSt (env_others env place s.(trace) s.(client)) s.(log) s.(trace)).
Definition emit (e : event) : net () := λ s, (Ok tt, mkSt s.(client) s.(log) (s.(trace) ++ [e])).

(** [debug_record(log, v, 1, msg)]. *)
Definition note1 (v : Z) (msg : bytes) : net () :=
  λ s, (Ok tt, mkSt s.(client) (debug_record s.(log) v 1 msg) s.(trace)).
Fixpoint notes (v : Z) (msgs : list bytes) : net () :=
  match msgs with [] => mret tt | m :: msgs => note1 v m;; notes v msgs end.

(** ** One response *)

Record SingleResponse := mkSingle {
  sr_status : Z;
  sr_headers : list (bytes * bytes);
  sr_body : bytes;
  sr_location : option bytes;
  sr_decode_error : option bytes
}.

(** [str.contains(pat)]. *)
Definition str_contains (s pat : bytes) : bool := bool_decide (is_Some (split_once_str pat s)).

(** A hyper error's kind, by its text (ASCII, so that [to_lowercase] is the ASCII one). *)
Definition request_error (msg text : bytes) : ClientError :=
  let err_str := to_ascii_lowercase text in
  if str_contains err_str (bs "ssl") || str_contains err_str (bs "tls") || str_contains err_str (bs "certificate")
  then err_tls (msg ++ text)
  else err_connection (msg ++ text).

Section client.
Context {R : Type} `{!Read R} `{Headers : !HeaderMap}.
Context (env : Env).
(** Third-party functions: URI parsing, the request builder's checks, OpenSSL's
    refusals, [HeaderValue::to_str], the decoders, the Public Suffix List, and how
    bytes are shown in messages. *)
Context (parse_uri : bytes → bytes + Uri).
Context (builder_error : Request → option bytes).
Context (refuses : ssl_call → option bytes).
Context (to_str : bytes → option bytes).
Context (new_decoder : flavor → bytes → R) (spare : list bytes → Z).
Context (domain_str : bytes → option bytes).
Context (lossy debug_lossy : bytes → bytes).

(** The value of the first header with a (lower-case) name. *)
Definition find_header (name : bytes) (l : list (bytes * bytes)) : option bytes :=
  snd <$> List.find (λ h, bool_decide (h.1 = name)) l.

Definition header_text (h : bytes * bytes) : bytes * bytes := (h.1, default (bs "<binary>") (to_str h.2)).
Definition header_line (h : bytes * bytes) : bytes := bs "     " ++ h.1 ++ bs ": " ++ (header_text h).2.

Definition content_encoding (headers : list (bytes * bytes)) : bytes :=
  to_ascii_lowercase (join (bs ",")
    (map (λ h, default (bs "<unreadable>") (to_str h.2))
       (List.filter (λ h, bool_decide (h.1 = bs "content-encoding")) headers))).

Definition outermost_is_deflate (encoding : bytes) : bool :=
  bool_decide (trim (default [] (last (split (ch ",") encoding))) = bs "deflate").

(** The body as handed out, and why it is not content. *)
Definition decode_body (v : Z) (encoding raw_bytes : bytes) (cut_by_cap : bool) (max_body : Z)
    : net (bytes * option bytes) :=
  if bool_decide (encoding = []) then mret (raw_bytes, None)
  else
    let decoded := decompress new_decoder spare encoding raw_bytes max_body in
    let len := dec (zlen decoded.(Decompress.body)) in
    match decoded.(Decompress.decode_error) with
    | None =>
        note1 v (bs "   Decompressed (" ++ encoding ++ bs "): " ++ dec (zlen raw_bytes) ++ bs " -> " ++ len ++ bs " bytes");;
        mret (decoded.(Decompress.body), None)
    | Some reason =>
        let cause := if cut_by_cap then reason ++ bs " (body hit the max_body cap mid-stream)" else reason in
        note1 v (bs "   Body not fully decoded, " ++ len ++ bs " bytes: " ++ cause);;
        mret (decoded.(Decompress.body), Some cause)
    end.

Definition parse_response (http : HttpResponse) (config : RequestConfig) : net SingleResponse :=
  let v := config.(verbosity) in
  let headers := http.(h_headers) in
  notes v (bs "   Response headers:" :: map header_line headers);;
  let encoding := content_encoding headers in
  let max_body := max_body config in
  '(raw_bytes, cut_by_cap) ← lift (read_body http.(h_frames) max_body);
  note1 v (bs "   Raw body: " ++ dec (zlen raw_bytes) ++ bs " bytes");;
  (if (cut_by_cap : bool) then note1 v (bs "   Body cut at the " ++ dec max_body ++ bs " byte max_body cap") else mret tt);;
  (if outermost_is_deflate encoding then
     note1 v (bs "   deflate body: "
              ++ if has_zlib_header raw_bytes then bs "zlib header present (RFC 1950)"
                 else bs "no zlib header, raw stream (RFC 1951)")
   else mret tt);;
  '(body_bytes, decode_error) ← decode_body v encoding raw_bytes cut_by_cap max_body;
  (if bool_decide (zlen body_bytes >= max_body)
   then note1 v (bs "   Body truncated at " ++ dec max_body ++ bs " bytes") else mret tt);;
  mret (mkSingle http.(h_status) (map header_text headers) body_bytes
          (find_header (bs "location") headers ≫= to_str) decode_error).

(** The log lines that show a request. *)
Definition note_request (v : Z) (request : Request) (sending : bytes) : net () :=
  notes v (bs "   Request headers:" :: map header_line request.(r_headers) ++ [sending]).

(** ** The pooled client *)

(** The pool opens its connections through the entry's connector. *)
Definition apply_opened (mode : ConnMode) (os : list opened) : net () :=
  λ s, (Ok tt, mkSt (alter (λ c, foldl connector_call c os) mode s.(client)) s.(log) s.(trace)).

Definition dispatch_request (mode : ConnMode) (cached : CachedClient) (uri : Uri) (config : RequestConfig)
    (redirect_cookies : option bytes) : net SingleResponse :=
  request ← lift (build_request parse_uri builder_error uri config false false redirect_cookies);
  note_request config.(verbosity) request (bs "   Sending request...");;
  tr ← get_trace;
  let '(os, reply) := env_request env tr mode cached request in
  emit (EvRequest mode cached request reply);;
  others env 1;;
  apply_opened mode os;;
  http ← io_lift_net reply (request_error (bs "request failed: "));
  parse_response http config.

(** ** A direct stream *)

Record Stream := mkStream {
  st_tcp : Tcp;
  st_cert_info : option CertInfo;
  st_alpn : option bytes;
  st_peer_ip : option IpAddr
}.

Definition target_port (uri : Uri) : Z :=
  default (if bool_decide (uri.(scheme_str) = Some (bs "https")) then 443 else 80) uri.(port_u16).

Definition seconds (config : RequestConfig) : bytes := dec (timeout config) ++ bs "s".

(** The proxy handshake over a fresh connection. *)
Definition open_tunnel (p : ProxyConfig) (host : bytes) (port : Z) (config : RequestConfig) (tcp : Tcp) : net Tcp :=
  tr ← get_trace;
  let '(run, timed_out) :=
    match p.(Proxy.scheme) with
    | Proxy.Http => (perform_http_connect lossy debug_lossy host port tcp,
               bs "proxy CONNECT to " ++ host ++ bs ":" ++ dec port ++ bs " timed out after " ++ seconds config)
    | Proxy.Socks5 => (perform_socks5 host port p.(username) p.(password) tcp,
               bs "SOCKS5 handshake timed out after " ++ seconds config)
    end in
  emit (EvTunnel p.(Proxy.scheme) host port (sent run.2));;
  match env_tunnel env tr with
  | RunsThrough => lift run.1
  | TunnelTimesOut => raise (err_timeout timed_out)
  | TunnelTimerFires => λ s, (Err TimerFired, s)
  end;;
  note1 config.(verbosity) (bs "   proxy tunnel to " ++ host ++ bs ":" ++ dec port ++ bs " established");;
  mret run.2.

(** The TLS handshake over a stream to the target. *)
Definition start_tls (host : bytes) (config : RequestConfig) (tcp : Tcp) (peer_ip : option IpAddr) : net Stream :=
  settings ← lift (ssl_settings refuses config direct_alpn);
  let identity := ssl_identity host settings.(verify_peer) in
  tr ← get_trace;
  match env_ssl_setup env tr identity with
  | Some e => raise (err_tls e)
  | None =>
      emit (EvTls identity settings);;
      hs ← timed_net (env_tls env tr)
             (err_timeout (bs "TLS handshake with " ++ host ++ bs " timed out after " ++ seconds config))
             (λ e, err_tls (bs "TLS handshake failed: " ++ e));
      mret (mkStream tcp hs.(t_cert) hs.(t_alpn) peer_ip)
  end.

Definition connect_addr (config : RequestConfig) (host : bytes) (port : Z) (proxy_config : option ProxyConfig) : bytes :=
  match proxy_config with
  | Some p => p.(p_host) ++ bs ":" ++ dec p.(p_port)
  | None => default host config.(resolve_ip) ++ bs ":" ++ dec port
  end.

Definition connect_stream (target_uri : Uri) (config : RequestConfig) : net Stream :=
  lift (map_err err_other (validate_proxy config));;
  let v := config.(verbosity) in
  let host := default [] target_uri.(Uri.host) in
  let is_https := bool_decide (target_uri.(scheme_str) = Some (bs "https")) in
  let port := target_port target_uri in
  proxy_config ← lift (match effective_proxy config host with
                       | Some p => Some <$> parse_proxy_url p
                       | None => Ok None
                       end);
  let addr := connect_addr config host port proxy_config in
  note1 v (bs "   connect_stream: connecting to " ++ addr ++ bs " (target=" ++ host ++ bs ":" ++ dec port
           ++ (if bool_decide (is_Some proxy_config) then bs " via proxy" else []) ++ bs ")");;
  tr ← get_trace;
  emit (EvDial addr);;
  dialed ← timed_net (env_dial env tr addr)
             (err_timeout (bs "TCP connect to " ++ addr ++ bs " timed out after " ++ seconds config))
             (λ e, err_connection (bs "failed to connect to " ++ addr ++ bs ": " ++ e));
  let peer_ip := match proxy_config with Some _ => None | None => dialed.(d_peer) end in
  (match dialed.(d_nodelay) with
   | Some e => note1 v (bs "   set_nodelay failed (non-fatal): " ++ e)
   | None => mret tt
   end);;
  tcp ← match proxy_config with
        | Some p => open_tunnel p host port config dialed.(d_tcp)
        | None => mret dialed.(d_tcp)
        end;
  if is_https then start_tls host config tcp peer_ip
  else mret (mkStream tcp None None peer_ip).

Definition h2_target_error : bytes :=
  bs "request_target cannot be sent over HTTP/2: hyper builds :path from the request URI, so a verbatim request target has nowhere to go. Offer http/1.1 in alpn_protocols, or use raw_connect with blasthttp.h2 to write the pseudo-headers yourself.".

Definition dispatch_direct (target_uri : Uri) (config : RequestConfig)
    : net (SingleResponse * option CertInfo * option IpAddr) :=
  let v := config.(verbosity) in
  stream ← connect_stream target_uri config;
  let h2 := bool_decide (stream.(st_alpn) = Some (bs "h2")) in
  if h2 && bool_decide (is_Some config.(request_target)) then raise (err_other h2_target_error)
  else
    (if h2 then note1 v (bs "   ALPN negotiated h2, dispatching over HTTP/2") else mret tt);;
    tr ← get_trace;
    io_lift_net (env_handshake env tr h2)
      (λ e, err_connection ((if h2 then bs "HTTP/2 handshake failed: " else bs "HTTP handshake failed: ") ++ e));;
    request_uri ← lift (match config.(request_target) with
                        | Some rt => parse_url parse_uri (bs "invalid request_target '" ++ rt ++ bs "': ") rt
                        | None => Ok target_uri
                        end);
    request ← lift (if h2 then build_request parse_uri builder_error request_uri config false false None
                    else build_request parse_uri builder_error request_uri config
                           (bool_decide (config.(request_target) = None)) true None);
    note_request v request (bs "   Sending request via dispatch_direct...");;
    let reply := env_direct env tr request in
    emit (EvDirect h2 request reply);;
    http ← io_lift_net reply (request_error (bs "dispatch_direct request failed: "));
    resp ← parse_response http config;
    mret (resp, stream.(st_cert_info), stream.(st_peer_ip)).

(** ** The forward proxy *)

Definition dispatch_forward_proxy (proxy_url : bytes) (target_uri : Uri) (config : RequestConfig)
    (redirect_cookies : option bytes) : net SingleResponse :=
  let v := config.(verbosity) in
  proxy_uri ← lift (proxy_uri_of parse_uri proxy_url);
  proxy_host ← lift (ok_or proxy_uri.(Uri.host) (err_other (bs "proxy URL has no host")));
  let proxy_addr := proxy_host ++ bs ":" ++ dec (default 8080 proxy_uri.(port_u16)) in
  note1 v (bs "   Forward proxy: connecting to " ++ proxy_addr);;
  tr ← get_trace;
  emit (EvForwardDial proxy_addr);;
  io_lift_net (env_forward_dial env tr proxy_addr)
    (λ e, err_connection (bs "failed to connect to proxy " ++ proxy_addr ++ bs ": " ++ e));;
  tr ← get_trace;
  io_lift_net (env_handshake env tr false) (λ e, err_connection (bs "proxy handshake failed: " ++ e));;
  request ← lift (build_request parse_uri builder_error target_uri config false true redirect_cookies);
  note_request v request (bs "   Sending request via forward proxy...");;
  let reply := env_forward env tr request in
  emit (EvForward request reply);;
  http ← io_lift_net reply (λ e, err_connection (bs "forward proxy request failed: " ++ e));
  parse_response http config.
End client.
