(* ===== verification/ClientProps.v ===== *)
(** * A logic for the client's computations

    [safe t0 m Q]: from any state whose trace extends [t0] and whose cache satisfies
    [I], [m] does not panic, does to the outside only events allowed by [E] after
    what came before them, keeps [I], and returns what satisfies [Q], which may
    mention the trace at that point.  The rules compose along the program's own
    structure. *)
From stdpp Require Import gmap.
From S2P Require Import Prelude RustStd NetAddr ClientError Uri Config Cookies CookiesProps.
From S2P Require Import Wire Proxy ProxyProps Request Decompress Response Conn Client.

Section logic.
Context (E : list event → event → Prop) (I : HyperClient → Prop).

(** Each event of [new] is allowed after [t] and the events before it. *)
Definition all_allowed (t new : list event) : Prop := ∀ pre e post, new = pre ++ e :: post → E (t ++ pre) e.

Lemma all_allowed_nil t : all_allowed t [].
Proof. intros pre e post H. by destruct pre. Qed.
Lemma all_allowed_app t a b : all_allowed t a → all_allowed (t ++ a) b → all_allowed t (a ++ b).
Proof.
  intros Ha Hb pre e post H. apply app_eq_app in H as (l & [[-> H]|[-> H]]).
  - destruct l as [|x l]; cbn in H.
    + rewrite app_nil_r in *. specialize (Hb [] e post (eq_sym H)). by rewrite app_nil_r in Hb.
    + injection H as <- ->. by apply (Ha pre e l).
  - rewrite (assoc_L (++)). by apply (Hb l e post).
Qed.
Lemma all_allowed_one t e : E t e → all_allowed t [e].
Proof.
  intros He pre e' post H. destruct pre as [|x pre]; [|by destruct pre].
  injection H as <- <-. by rewrite app_nil_r.
Qed.

(** With a postcondition on the trace too. *)
Definition safe_at (t0 : list event) {A} (m : net A) (Q : A → list event → Prop) : Prop :=
  ∀ s, I (client s) → t0 `prefix_of` trace s →
  (∃ new, trace (m s).2 = trace s ++ new ∧ all_allowed (trace s) new) ∧ I (client (m s).2) ∧
  match (m s).1 with Ok a => Q a (trace (m s).2) | Err _ => True | Panic => False end.
Definition safe (t0 : list event) {A} (m : net A) (Q : A → Prop) : Prop := safe_at t0 m (λ a _, Q a).

Lemma safe_at_bind {A B} t0 (m : net A) (k : A → net B) Q Q' :
  safe_at t0 m Q → (∀ a t, t0 `prefix_of` t → Q a t → safe_at t (k a) Q') → safe_at t0 (m ≫= k) Q'.
Proof.
  intros Hm Hk s Hs Ht0. unfold mbind, net_bind. destruct (Hm s Hs Ht0) as ((new & Ht & Hn) & Hi & Hq).
  destruct (m s) as [[a|e|] s1]; cbn [fst snd] in *; [|by split_and!; eauto|done].
  assert (t0 `prefix_of` trace s1) as Hp by (rewrite Ht; by apply prefix_app_r).
  destruct (Hk a (trace s1) Hp Hq s1 Hi ltac:(done)) as ((new' & Ht' & Hn') & Hi' & Hq').
  split_and!; [|done|done]. exists (new ++ new'). rewrite Ht', Ht, (assoc_L (++)). split; [done|].
  apply all_allowed_app; [done|]. by rewrite <- Ht.
Qed.

Lemma safe_at_later {A} t0 t (m : net A) Q : safe_at t0 m Q → t0 `prefix_of` t → safe_at t m Q.
Proof. intros H Hp s Hs Ht. apply H; [done|]. by etrans. Qed.

Lemma safe_at_weaken {A} t0 (m : net A) (Q Q' : A → list event → Prop) :
  safe_at t0 m Q → (∀ a t, t0 `prefix_of` t → Q a t → Q' a t) → safe_at t0 m Q'.
Proof.
  intros H Hq s Hs Ht. destruct (H s Hs Ht) as ((new & Hn & Ha) & Hi & Hr). split_and!; [by exists new|done|].
  destruct (m s).1; [|done..]. apply Hq; [|done]. rewrite Hn. by apply prefix_app_r.
Qed.

(** Where the postcondition does not need the trace, what was known stays known. *)
Lemma safe_bind {A B} t0 (m : net A) (k : A → net B) Q Q' :
  safe t0 m Q → (∀ a, Q a → safe_at t0 (k a) Q') → safe_at t0 (m ≫= k) Q'.
Proof.
  intros Hm Hk. eapply safe_at_bind; [exact Hm|]. intros a t Hp Hq. eapply safe_at_later; [by apply Hk|done].
Qed.

Lemma safe_ret {A} t0 (a : A) (Q : A → Prop) : Q a → safe t0 (mret a) Q.
Proof. intros H s Hs Ht. split_and!; [exists []; rewrite app_nil_r; split; [done|apply all_allowed_nil]|done|done]. Qed.

Lemma safe_at_ret {A} t0 (a : A) (Q : A → list event → Prop) :
  (∀ t, t0 `prefix_of` t → Q a t) → safe_at t0 (mret a) Q.
Proof.
  intros H s Hs Ht. split_and!; [exists []; rewrite app_nil_r; split; [done|apply all_allowed_nil]|done|by apply H].
Qed.

Lemma safe_weaken {A} t0 (m : net A) (Q Q' : A → Prop) : safe t0 m Q → (∀ a, Q a → Q' a) → safe t0 m Q'.
Proof. intros H Hq. eapply safe_at_weaken; [exact H|]. intros a t _. apply Hq. Qed.

(** Computations that leave the state alone. *)
Lemma safe_pure {A} t0 (f : St → exec stop A) (Q : A → Prop) :
  (∀ s, match f s with Ok a => Q a | Err _ => True | Panic => False end) → safe t0 (λ s, (f s, s)) Q.
Proof.
  intros H s Hs Ht. split_and!; [exists []; rewrite app_nil_r; split; [done|apply all_allowed_nil]|done|apply H].
Qed.

(** What a fallible value of the program returns, without panics. *)
Definition returns {X A} (r : exec X A) (Q : A → Prop) : Prop :=
  match r with Ok a => Q a | Err _ => True | Panic => False end.

Lemma safe_lift {A} t0 (r : exec ClientError A) (Q : A → Prop) : returns r Q → safe t0 (lift r) Q.
Proof. intros H. apply (safe_pure _ (λ _, map_err Raise r)). intros _. by destruct r. Qed.
Lemma safe_at_stop {A} t0 x (Q : A → list event → Prop) : safe_at t0 (λ s, (Err x, s)) Q.
Proof. intros s Hs Ht. split_and!; [exists []; rewrite app_nil_r; split; [done|apply all_allowed_nil]|done|done]. Qed.
Lemma safe_raise {A} t0 e (Q : A → list event → Prop) : safe_at t0 (raise e) Q.
Proof. apply safe_at_stop. Qed.
Lemma safe_timer {A} t0 (Q : A → list event → Prop) : safe_at t0 (λ s, (Err TimerFired, s)) Q.
Proof. apply safe_at_stop. Qed.
Lemma safe_answer {A} t0 (r : answer A) f : safe t0 (io_lift_net r f) (λ a, r = Done a).
Proof. apply (safe_pure _ (λ _, _)). intros _. by destruct r. Qed.
Lemma safe_timed {A} t0 (r : timed A) e f : safe t0 (timed_net r e f) (λ a, r = Within (Done a)).
Proof.
  destruct r as [a|]; [|apply safe_raise]. eapply safe_weaken; [apply safe_answer|]. by intros x ->.
Qed.
Lemma safe_trace t0 : safe t0 get_trace (λ _, True).
Proof. by apply (safe_pure _ (λ s, Ok (trace s))). Qed.
Lemma safe_get_log t0 : safe t0 get_log (λ _, True).
Proof. by apply (safe_pure _ (λ s, Ok (messages (log s)))). Qed.

Lemma safe_note t0 v msg : safe t0 (note1 v msg) (λ _, True).
Proof.
  intros s Hs Ht. split_and!; [exists []; rewrite app_nil_r; split; [done|apply all_allowed_nil]|done|done].
Qed.
Lemma safe_notes t0 v msgs : safe t0 (notes v msgs) (λ _, True).
Proof.
  induction msgs as [|m l IH]; [by apply safe_ret|]. eapply safe_bind; [apply safe_note|]. intros _ _. apply IH.
Qed.

(** An event; afterwards the trace ends in it. *)
Lemma safe_emit_at t0 e : (∀ t, t0 `prefix_of` t → E t e) →
  safe_at t0 (emit e) (λ _ t, ∃ t', t0 `prefix_of` t' ∧ t = t' ++ [e]).
Proof.
  intros He s Hs Ht. cbn. split_and!; [exists [e]; split; [done|by apply all_allowed_one, He]|done|by exists (trace s)].
Qed.
Lemma safe_emit t0 e : (∀ t, t0 `prefix_of` t → E t e) → safe t0 (emit e) (λ _, True).
Proof. intros He. eapply safe_at_weaken; [by apply safe_emit_at|done]. Qed.

(** An optional log line. *)
Lemma safe_when t0 (b : bool) v msg : safe t0 (if b then note1 v msg else mret tt) (λ _, True).
Proof. destruct b; [apply safe_note|by apply safe_ret]. Qed.

Section rules.
Context {R : Type} `{!Read R} `{Headers : !HeaderMap}.
Context (env : Env) (parse_uri : bytes → bytes + Uri) (builder_error : Request → option bytes)
  (refuses : ssl_call → option bytes) (to_str : bytes → option bytes)
  (new_decoder : flavor → bytes → R) (spare : list bytes → Z) (lossy debug_lossy : bytes → bytes).

(** ** Pure parts never panic *)

Lemma returns_bind {X A B} (r : exec X A) (k : A → exec X B) Q Q' :
  returns r Q → (∀ a, Q a → returns (k a) Q') → returns (r ≫= k) Q'.
Proof. destruct r; cbn; naive_solver. Qed.

Lemma returns_true {X A} (r : exec X A) (Q : A → Prop) : returns r (λ _, True) → (∀ a, r = Ok a → Q a) → returns r Q.
Proof. destruct r; cbn; naive_solver. Qed.

Lemma returns_ok_or {X A} (o : option A) (e : X) : returns (ok_or o e) (λ a, o = Some a).
Proof. by destruct o. Qed.

Lemma returns_parse_url ctx url : returns (parse_url parse_uri ctx url) (λ u, parse_uri url = inr u).
Proof. unfold parse_url. by destruct (parse_uri url). Qed.

(** The one URI the program unwraps. *)
Definition root_parses : Prop := ∃ u, parse_uri (bs "/") = inr u.

Lemma build_request_returns uri config origin mh rc :
  root_parses →
  returns (build_request parse_uri builder_error uri config origin mh rc)
    (λ r, build_request parse_uri builder_error uri config origin mh rc = Ok r).
Proof.
  intros [u Hu]. apply returns_true; [|done]. unfold build_request.
  apply (returns_bind _ _ (λ _, True)).
  - unfold effective_uri. rewrite Hu. repeat case_match; done.
  - intros eu _. destruct (emit_headers _ _ _). by destruct (builder_error _).
Qed.

Lemma conn_mode_returns config uri :
  returns (conn_mode parse_uri config uri) (λ m, conn_mode parse_uri config uri = Ok m).
Proof.
  apply returns_true; [|done]. unfold conn_mode. destruct (effective_proxy _ _) as [p|]; [|done].
  apply (returns_bind _ _ (λ _, True)); [unfold proxy_uri_of, parse_url; by destruct (parse_uri p)|].
  intros pu _. repeat case_match; done.
Qed.

Lemma resolve_redirect_returns uri loc :
  returns (resolve_redirect parse_uri uri loc) (λ u, resolve_redirect parse_uri uri loc = Ok u).
Proof.
  apply returns_true; [|done]. unfold resolve_redirect.
  assert (∀ f, returns (authority ← ok_or uri.(authority) (err_invalid_url (bs "no authority in current URL to resolve relative redirect: " ++ loc));
      parse_url parse_uri (bs "invalid redirect URL '" ++ f authority ++ bs "': ") (f authority)) (λ _, True)) as Hrel.
  { intros f. destruct (authority uri); cbn; [|done]. unfold parse_url. by destruct (parse_uri _). }
  destruct (parse_uri (sanitize_uri loc)); [apply (Hrel (λ a, _ ++ _ ++ a ++ _))|].
  case_match; [done|apply (Hrel (λ a, _ ++ _ ++ a ++ _))].
Qed.

Lemma proto_version_returns v call ctx : returns (proto_version refuses v call ctx) (λ _, True).
Proof.
  unfold proto_version, ssl_try, parse_tls_version. destruct v; [|done].
  repeat (case_match; cbn; try done); by destruct (refuses _).
Qed.

Lemma ssl_settings_returns config d : returns (ssl_settings refuses config d) (λ x, ssl_settings refuses config d = Ok x).
Proof.
  apply returns_true; [|done].
  assert (∀ c ctx, returns (ssl_try refuses c ctx) (λ _, True)) as Ht.
  { intros c ctx. unfold ssl_try. by destruct (refuses c). }
  unfold ssl_settings. eapply returns_bind; [apply Ht|]. intros _ _.
  apply (returns_bind _ _ (λ _, True)); [case_match; [apply Ht|done]|]. intros _ _.
  apply (returns_bind _ _ (λ _, True)); [case_match; [apply Ht|done]|]. intros _ _.
  eapply returns_bind; [apply proto_version_returns|]. intros mi _.
  eapply returns_bind; [apply proto_version_returns|]. intros ma _.
  eapply (returns_bind _ _ (λ _, True)).
  - destruct (alpn_protocols config) as [ps|]; [|done]. induction ps as [|p ps IH]; [done|]. cbn.
    repeat case_match; try done. by destruct (encode_alpn_protocols ps).
  - intros alpn _. eapply returns_bind; [apply Ht|]. done.
Qed.

Definition io_safe {A} (m : io A) : Prop := ∀ t, is_panic (m t).1 = false.

Lemma io_safe_bind {A B} (m : io A) (k : A → io B) : io_safe m → (∀ a, io_safe (k a)) → io_safe (m ≫= k).
Proof.
  intros Hm Hk t. specialize (Hm t). unfold mbind, io_bind.
  destruct (m t) as [[a|e|] t']; [apply Hk|done|done].
Qed.
Lemma io_safe_lift {A} (r : exec ClientError A) : is_panic r = false → io_safe (io_lift r).
Proof. by intros H t. Qed.
Lemma io_safe_write ctx data : io_safe (write_all ctx data).
Proof. intros t. unfold write_all. by destruct (write_results t) as [|[[]|]]. Qed.
Lemma io_safe_read ctx n : io_safe (read_exact ctx n).
Proof. intros t. apply read_exact_no_panic. Qed.

Lemma connect_read_safe fuel buf : zlen buf ≤ BUF_LEN → BUF_LEN < zlen buf + Z.of_nat fuel →
  io_safe (connect_read fuel buf).
Proof.
  revert buf. induction fuel as [|fuel IH]; intros buf Hl Hf t; [lia|]. cbn [connect_read].
  destruct (bool_decide (zlen buf >= BUF_LEN)) eqn:Eb; [done|]. apply bool_decide_eq_false in Eb.
  unfold mbind, io_bind. destruct (read _ _ t) as [[got|e|] t'] eqn:Er; [|done|].
  - destruct (bool_decide (got = [])) eqn:Eg; [done|]. apply bool_decide_eq_false in Eg.
    destruct (find_crlf_crlf _); [done|].
    assert (zlen got ≤ BUF_LEN - zlen buf) as Hg.
    { unfold read in Er. destruct (chunks t) as [|c cs]; [destruct (at_end t); [done|]; injection Er as <- _; rewrite zlen_nil; lia|].
      injection Er as <- _. unfold zlen in *. rewrite length_take. lia. }
    assert (1 ≤ zlen got) by (destruct got; [done|]; rewrite zlen_cons; pose proof (zlen_nonneg got); lia).
    apply IH; rewrite zlen_app; lia.
  - unfold read in Er. destruct (chunks t); [by destruct (at_end t)|done].
Qed.

Lemma perform_http_connect_safe host port : io_safe (perform_http_connect lossy debug_lossy host port).
Proof.
  unfold perform_http_connect. apply io_safe_bind; [apply io_safe_write|]. intros _.
  apply io_safe_bind; [apply connect_read_safe; unfold BUF_LEN; rewrite ?zlen_nil; lia|]. intros b. apply io_safe_lift.
  pose proof (connect_verdict_kind lossy debug_lossy host port b). by destruct (connect_verdict _ _ _ _ _).
Qed.

Lemma perform_socks5_safe host port u p : io_safe (perform_socks5 host port u p).
Proof.
  unfold perform_socks5, socks5_negotiate, socks5_connect, socks5_auth.
  repeat first
    [ apply io_safe_bind; [|intros ?]
    | apply io_safe_write | apply io_safe_read
    | case_match; try done
    | apply io_safe_lift; unfold socks5_address, ok_or; repeat case_match; done
    | done ].
Qed.

Lemma parse_proxy_url_returns url : returns (parse_proxy_url url) (λ c, parse_proxy_url url = Ok c).
Proof.
  apply returns_true; [|done]. unfold parse_proxy_url, parse_scheme, parse_host_port.
  destruct (split_once_str _ _) as [[sc rest]|]; cbn; [|done].
  repeat first [done|progress cbn|match goal with |- context [parse_u16 ?x] => destruct (parse_u16 x) end|case_match].
Qed.

(** ** A response *)

Definition text_ascii : Prop := ∀ b t, to_str b = Some t → ascii t.

(** What a parsed response promises. *)
Definition good_response (config : RequestConfig) (sr : SingleResponse) : Prop :=
  Forall (λ h, ascii h.2) (sr_headers sr) ∧ zlen (sr_body sr) ≤ max_body config.

Lemma header_text_ascii h : text_ascii → ascii (header_text to_str h).2.
Proof.
  intros Ht. unfold header_text. destruct (to_str h.2) as [t|] eqn:Es; cbn; [by eapply Ht|].
  repeat (apply Forall_cons; split; [vm_compute; split; [discriminate|reflexivity]|]). constructor.
Qed.

(** A parsed response says what the wire said. *)
Definition parsed_from (http : HttpResponse) (sr : SingleResponse) : Prop :=
  sr_status sr = h_status http ∧ sr_headers sr = map (header_text to_str) (h_headers http) ∧
  sr_location sr = find_header (bs "location") (h_headers http) ≫= to_str.

Lemma parse_response_safe t0 http config : text_ascii → 0 ≤ max_body config →
  safe t0 (parse_response to_str new_decoder spare http config)
    (λ sr, good_response config sr ∧ parsed_from http sr).
Proof.
  intros Ht Hm. unfold parse_response. eapply safe_bind; [apply safe_notes|]. intros _ _.
  eapply (safe_bind _ _ _ (λ x, zlen x.1 ≤ max_body config)).
  { apply safe_lift. pose proof (read_body_split (max_body config) (h_frames http) [] ltac:(by rewrite zlen_nil)) as Hs.
    unfold returns, read_body. destruct Hs as [[Hi Hz]|[(pre & t & post & -> & Hi & Hz)|(pre & c & post & -> & Hi & Hz & Hc)]].
    - pose proof (read_body_loop_app (max_body config) (h_frames http) [] [] Hi Hz) as E'. rewrite app_nil_r in E'.
      by rewrite E'.
    - by rewrite read_body_loop_app.
    - rewrite read_body_loop_app by done. cbn [read_body_loop]. destruct (bool_decide (c = [])) eqn:Ec.
      { apply bool_decide_eq_true in Ec as ->. rewrite app_nil_r in Hc. lia. }
      cbn [app] in *. rewrite bool_decide_true by (simp_len; lia). cbn [fst]. simp_len.
      unfold zlen in *. rewrite length_take. lia. }
  intros [raw cut] Hraw. cbn [fst] in Hraw.
  eapply safe_bind; [apply safe_note|]. intros _ _.
  eapply safe_bind; [apply safe_when|]. intros _ _.
  eapply safe_bind; [apply safe_when|]. intros _ _.
  eapply (safe_bind _ _ _ (λ x, zlen x.1 ≤ max_body config)).
  { unfold decode_body. destruct (bool_decide _) eqn:Ee; [by apply safe_ret|].
    pose proof (decompress_size new_decoder spare (content_encoding to_str (h_headers http)) raw (max_body config) Hm Hraw).
    destruct (Decompress.decode_error _); (eapply safe_bind; [apply safe_note|]; intros _ _; by apply safe_ret). }
  intros [b e] Hb. eapply safe_bind; [apply safe_when|]. intros _ _. apply safe_ret. split; [|by split_and!]. split; [|done].
  cbn [sr_headers]. apply Forall_map, Forall_true. intros h. by apply header_text_ascii.
Qed.
End rules.
End logic.
