(* ===== verification/ConnectProps.v ===== *)
(** * Opening a stream (src/client/hyper.rs, connect_stream)

    What [connect_stream] does to the outside and what it gives, for the one-shot
    requests of [Send] and for the raw connections of [RawConnect]. *)
From stdpp Require Import gmap.
From S2P Require Import Prelude RustStd NetAddr ClientError Uri Config Cookies CookiesProps.
From S2P Require Import Wire Proxy ProxyProps Request Decompress Response Conn.
From S2P Require Import Client ClientProps.

(** The proxy of a direct stream. *)
Definition chosen_proxy (config : RequestConfig) (host : bytes) (pc : option ProxyConfig) : Prop :=
  match effective_proxy config host with
  | Some p => ∃ c, parse_proxy_url p = Ok c ∧ pc = Some c
  | None => pc = None
  end.

Definition host_of (uri : Uri) : bytes := default [] uri.(Uri.host).

Section connecting.
Context (env : Env) (refuses : ssl_call → option bytes) (lossy debug_lossy : bytes → bytes).

Lemma ssl_settings_verify config d st : ssl_settings refuses config d = Ok st → verify_peer st = should_verify_certs config.
Proof. unfold ssl_settings. intros H. inv_bind. done. Qed.

Section events.
Context (config : RequestConfig) (uri : Uri).

(** The events that opening a stream to [uri] may have. *)
Definition stream_event (e : event) : Prop :=
  match e with
  | EvDial addr =>
      ∃ pc, chosen_proxy config (host_of uri) pc ∧ addr = connect_addr config (host_of uri) (target_port uri) pc
  | EvTunnel sch host port _ =>
      ∃ c, chosen_proxy config (host_of uri) (Some c) ∧ sch = c.(Proxy.scheme) ∧ host = host_of uri ∧ port = target_port uri
  | EvTls id st =>
      uri.(scheme_str) = Some (bs "https") ∧ ssl_settings refuses config direct_alpn = Ok st ∧
      id = ssl_identity (host_of uri) (should_verify_certs config)
  | _ => False
  end.

Context (E : list event → event → Prop) (I : HyperClient → Prop).
Hypothesis HE : ∀ l e, stream_event e → E l e.
Local Abbreviation safe := (safe E I).

Lemma open_tunnel_safe t0 c tcp :
  chosen_proxy config (host_of uri) (Some c) →
  safe t0 (open_tunnel env lossy debug_lossy c (host_of uri) (target_port uri) config tcp) (λ _, True).
Proof.
  intros Hc. unfold open_tunnel. eapply safe_bind; [apply safe_trace|]. intros tr _.
  pose proof (perform_http_connect_safe lossy debug_lossy (host_of uri) (target_port uri) tcp) as H1.
  pose proof (perform_socks5_safe (host_of uri) (target_port uri) c.(username) c.(password) tcp) as H2.
  assert (∃ run t, match c.(Proxy.scheme) with
    | Proxy.Http => (perform_http_connect lossy debug_lossy (host_of uri) (target_port uri) tcp,
               bs "proxy CONNECT to " ++ host_of uri ++ bs ":" ++ dec (target_port uri) ++ bs " timed out after " ++ seconds config)
    | Proxy.Socks5 => (perform_socks5 (host_of uri) (target_port uri) c.(username) c.(password) tcp,
               bs "SOCKS5 handshake timed out after " ++ seconds config)
    end = (run, t) ∧ is_panic run.1 = false) as (run & t & -> & Hrun) by (destruct (Proxy.scheme c); by eexists _, _).
  eapply safe_bind; [apply safe_emit; intros t' _; apply HE; exists c; by split_and!|]. intros _ _.
  eapply (safe_bind _ _ _ _ _ (λ _, True)).
  - destruct (env_tunnel env tr); [|apply safe_raise|apply safe_timer]. apply safe_lift. by destruct run.1.
  - intros _ _. eapply safe_bind; [apply safe_note|]. intros _ _. by apply safe_ret.
Qed.

Lemma start_tls_safe t0 tcp peer :
  uri.(scheme_str) = Some (bs "https") →
  safe t0 (start_tls env refuses (host_of uri) config tcp peer) (λ st, st_peer_ip st = peer).
Proof.
  intros Hs. unfold start_tls. eapply safe_bind; [apply safe_lift, ssl_settings_returns|]. intros st Hst.
  pose proof (ssl_settings_verify _ _ _ Hst) as Hv.
  eapply safe_bind; [apply safe_trace|]. intros tr _. destruct (env_ssl_setup _ _ _); [apply safe_raise|].
  eapply safe_bind; [apply safe_emit; intros t _; apply HE; cbn; rewrite <- Hv; by split_and!|]. intros _ _.
  eapply safe_bind; [apply safe_timed|]. intros hs _. by apply safe_ret.
Qed.

Lemma connect_stream_safe t0 :
  safe t0 (connect_stream env refuses lossy debug_lossy uri config)
    (λ st, effective_proxy config (host_of uri) ≠ None → st_peer_ip st = None).
Proof.
  unfold connect_stream. fold (host_of uri).
  eapply (safe_bind _ _ _ _ _ (λ _, True)).
  { apply safe_lift. unfold validate_proxy. repeat case_match; done. }
  intros _ _. eapply (safe_bind _ _ _ _ _ (chosen_proxy config (host_of uri))).
  { apply safe_lift. unfold chosen_proxy. destruct (effective_proxy _ _) as [p|]; [|done].
    pose proof (parse_proxy_url_returns p) as H. destruct (parse_proxy_url p); cbn in *; [by eexists|done..]. }
  intros pc Hpc. eapply safe_bind; [apply safe_note|]. intros _ _. eapply safe_bind; [apply safe_trace|]. intros tr _.
  eapply safe_bind; [apply safe_emit; intros t _; apply HE; exists pc; by split_and!|]. intros _ _.
  eapply safe_bind; [apply safe_timed|]. intros dialed _.
  eapply (safe_bind _ _ _ _ _ (λ _, True)).
  { destruct (d_nodelay dialed); [apply safe_note|by apply safe_ret]. }
  intros _ _. eapply (safe_bind _ _ _ _ _ (λ _, True)).
  { destruct pc as [c|]; [by apply open_tunnel_safe|by apply safe_ret]. }
  intros tcp _.
  assert (∀ st, st_peer_ip st = match pc with Some _ => None | None => d_peer dialed end →
    effective_proxy config (host_of uri) ≠ None → st_peer_ip st = None) as Hpeer.
  { intros st ->. unfold chosen_proxy in Hpc. destruct (effective_proxy _ _); [|done]. by destruct Hpc as (c & _ & ->). }
  destruct (bool_decide (scheme_str uri = Some (bs "https"))) eqn:Es.
  - apply bool_decide_eq_true in Es. eapply safe_weaken; [by apply start_tls_safe|exact Hpeer].
  - apply safe_ret. by apply Hpeer.
Qed.
End events.

(** ** A stream that was opened *)

Lemma net_bind_ok {A B} (m : net A) (k : A → net B) s b s' : (m ≫= k) s = (Ok b, s') →
  ∃ a s1, m s = (Ok a, s1) ∧ k a s1 = (Ok b, s').
Proof. unfold mbind, net_bind. destruct (m s) as [[a| |] s1]; [|done..]. intros H. by exists a, s1. Qed.

(** Computations that only write to the log. *)
Definition silent (s s' : St) : Prop := client s' = client s ∧ trace s' = trace s.
Lemma lift_ok {A} (r : exec ClientError A) s a s' : lift r s = (Ok a, s') → r = Ok a ∧ s' = s.
Proof. unfold lift. destruct r; [|done..]. by intros [= -> ->]. Qed.
Lemma timed_ok {A} (r : timed A) e f s a s' : timed_net r e f s = (Ok a, s') → r = Within (Done a) ∧ s' = s.
Proof. destruct r as [[]|]; try done. by intros [= -> ->]. Qed.
Lemma note_ok v msg s a s' : note1 v msg s = (Ok a, s') → silent s s'.
Proof. by intros [= <- <-]. Qed.

(** The handshake with a proxy, and its text. *)
Definition tunnel_run (c : ProxyConfig) (host : bytes) (port : Z) : io () :=
  match c.(Proxy.scheme) with
  | Proxy.Http => perform_http_connect lossy debug_lossy host port
  | Proxy.Socks5 => perform_socks5 host port c.(username) c.(password)
  end.

Lemma open_tunnel_ok c host port config tcp s tcp' s' :
  open_tunnel env lossy debug_lossy c host port config tcp s = (Ok tcp', s') →
  tunnel_run c host port tcp = (Ok tt, tcp') ∧ client s' = client s ∧
  trace s' = trace s ++ [EvTunnel c.(Proxy.scheme) host port (sent tcp')].
Proof.
  unfold open_tunnel. intros (tr & s1 & [= <- <-] & H)%net_bind_ok.
  assert (∃ text, match c.(Proxy.scheme) with
    | Proxy.Http => (perform_http_connect lossy debug_lossy host port tcp,
               bs "proxy CONNECT to " ++ host ++ bs ":" ++ dec port ++ bs " timed out after " ++ seconds config)
    | Proxy.Socks5 => (perform_socks5 host port c.(username) c.(password) tcp,
               bs "SOCKS5 handshake timed out after " ++ seconds config)
    end = (tunnel_run c host port tcp, text)) as (text & Hrun)
    by (unfold tunnel_run; destruct (Proxy.scheme c); by eexists).
  rewrite Hrun in H. clear Hrun. destruct (tunnel_run c host port tcp) as [r t]. cbn [fst snd] in H.
  apply net_bind_ok in H as ([] & s2 & [= <-] & H).
  apply net_bind_ok in H as ([] & s3 & H3 & H). destruct (env_tunnel env (trace s)); [|done..].
  apply lift_ok in H3 as [-> ->]. apply net_bind_ok in H as ([] & s4 & [Hc Ht]%note_ok & [= <- <-]).
  rewrite Hc, Ht. done.
Qed.

Lemma start_tls_ok host config tcp peer s st s' :
  start_tls env refuses host config tcp peer s = (Ok st, s') →
  ∃ settings hs, ssl_settings refuses config direct_alpn = Ok settings ∧
    st = mkStream tcp (t_cert hs) (t_alpn hs) peer ∧ client s' = client s ∧
    trace s' = trace s ++ [EvTls (ssl_identity host (should_verify_certs config)) settings] ∧
    env_tls env (trace s) = Within (Done hs).
Proof.
  unfold start_tls. intros (settings & s1 & [Hs ->]%lift_ok & H)%net_bind_ok. rewrite (ssl_settings_verify _ _ _ Hs) in H.
  apply net_bind_ok in H as (tr & s2 & [= <- <-] & H). destruct (env_ssl_setup _ _ _); [done|].
  apply net_bind_ok in H as ([] & s3 & [= <-] & H). apply net_bind_ok in H as (hs & s4 & [Hhs ->]%timed_ok & [= <- <-]).
  exists settings, hs. done.
Qed.

(** The events and the answers behind an open stream: one dial, to the proxy or to the
    target; the proxy's handshake; the target's TLS handshake. *)
Definition opening (config : RequestConfig) (uri : Uri) (t new : list event) (st : Stream) : Prop :=
  let host := host_of uri in
  let port := target_port uri in
  ∃ pc dialed tunnel tls,
    let addr := connect_addr config host port pc in
    new = EvDial addr :: tunnel ++ tls ∧ chosen_proxy config host pc ∧
    env_dial env t addr = Within (Done dialed) ∧
    match pc with
    | None => tunnel = [] ∧ st_tcp st = Client.d_tcp dialed ∧ st_peer_ip st = Client.d_peer dialed
    | Some c => tunnel = [EvTunnel c.(Proxy.scheme) host port (sent (st_tcp st))] ∧
        tunnel_run c host port (Client.d_tcp dialed) = (Ok tt, st_tcp st) ∧ st_peer_ip st = None
    end ∧
    if bool_decide (uri.(scheme_str) = Some (bs "https")) then
      ∃ settings hs, ssl_settings refuses config direct_alpn = Ok settings ∧
        tls = [EvTls (ssl_identity host (should_verify_certs config)) settings] ∧
        env_tls env (t ++ EvDial addr :: tunnel) = Within (Done hs) ∧ st_cert_info st = t_cert hs ∧ st_alpn st = t_alpn hs
    else tls = [] ∧ st_cert_info st = None ∧ st_alpn st = None.

Lemma connect_stream_ok config uri s st s' :
  connect_stream env refuses lossy debug_lossy uri config s = (Ok st, s') →
  client s' = client s ∧ ∃ new, trace s' = trace s ++ new ∧ opening config uri (trace s) new st.
Proof.
  unfold connect_stream. fold (host_of uri). intros ([] & s1 & [_ ->]%lift_ok & H)%net_bind_ok.
  apply net_bind_ok in H as (pc & s2 & [Hpc ->]%lift_ok & H).
  apply net_bind_ok in H as ([] & s3 & [Hc3 Ht3]%note_ok & H).
  apply net_bind_ok in H as (tr & s4 & [= <- <-] & H).
  apply net_bind_ok in H as ([] & s5 & [= <-] & H).
  apply net_bind_ok in H as (dialed & s6 & [Hd ->]%timed_ok & H).
  apply net_bind_ok in H as ([] & s7 & H7 & H).
  assert (silent (mkSt (client s3) (log s3) (trace s3 ++ [EvDial (connect_addr config (host_of uri) (target_port uri) pc)])) s7)
    as [Hc7 Ht7]. { destruct (d_nodelay dialed); [by eapply note_ok|by injection H7 as <-]. }
  apply net_bind_ok in H as (tcp & s8 & H8 & H). cbn in Hc7, Ht7. rewrite Hc3 in Hc7. rewrite Ht3 in Ht7, Hd.
  assert (chosen_proxy config (host_of uri) pc) as Hch.
  { unfold chosen_proxy. destruct (effective_proxy _ _) as [p|]; [|by injection Hpc as <-].
    destruct (parse_proxy_url p); [|done..]. injection Hpc as <-. by eexists. }
  assert (∃ tunnel, client s8 = client s ∧
    trace s8 = trace s ++ EvDial (connect_addr config (host_of uri) (target_port uri) pc) :: tunnel ∧
    match pc with
    | None => tunnel = [] ∧ tcp = Client.d_tcp dialed
    | Some c => tunnel = [EvTunnel c.(Proxy.scheme) (host_of uri) (target_port uri) (sent tcp)] ∧
        tunnel_run c (host_of uri) (target_port uri) (Client.d_tcp dialed) = (Ok tt, tcp)
    end) as (tunnel & Hc8 & Ht8 & Htcp).
  { destruct pc as [c|].
    - apply open_tunnel_ok in H8 as (Hr & Hc & Ht). eexists. split_and!; [congruence| |done|done].
      by rewrite Ht, Ht7, <- (assoc_L (++)).
    - injection H8 as <- <-. exists []. by split_and!. }
  case_bool_decide as Es.
  - apply start_tls_ok in H as (settings & hs & Hs & -> & Hc & Ht & Hhs). split; [congruence|].
    eexists. split; [by rewrite Ht, Ht8, <- (assoc_L (++))|]. exists pc, dialed, tunnel. rewrite bool_decide_true by done.
    eexists. split_and!; [done|done|done| |].
    + destruct pc; [by destruct Htcp as [-> ?]|by destruct Htcp as [-> ->]].
    + exists settings, hs. rewrite <- Ht8. by split_and!.
  - injection H as <- <-. split; [done|]. eexists. split; [exact Ht8|]. exists pc, dialed, tunnel, [].
    rewrite bool_decide_false by done. rewrite app_nil_r. split_and!; [done|done|done| |done|done|done].
    destruct pc; [by destruct Htcp as [-> ?]|by destruct Htcp as [-> ->]].
Qed.
End connecting.
