(* ===== verification/Send.v ===== *)
(** * Redirects and retries (send_inner and send of src/client/hyper.rs) *)
From stdpp Require Import gmap.
From S2P Require Import Prelude RustStd NetAddr ClientError Uri Config Cookies Wire.
From S2P Require Import Proxy Request Decompress Response Conn Client.

Section send.
Context {R : Type} `{!Read R} `{Headers : !HeaderMap}.
Context (env : Env).
Context (parse_uri : bytes → bytes + Uri).
Context (builder_error : Request → option bytes).
Context (refuses : ssl_call → option bytes).
Context (to_str : bytes → option bytes).
Context (new_decoder : flavor → bytes → R) (spare : list bytes → Z).
Context (domain_str : bytes → option bytes).
Context (lossy debug_lossy : bytes → bytes) (debug_text : option bytes → bytes) (debug_list : list bytes → bytes).

Local Abbreviation dispatch_request := (dispatch_request env parse_uri builder_error to_str new_decoder spare).
Local Abbreviation dispatch_forward_proxy := (dispatch_forward_proxy env parse_uri builder_error to_str new_decoder spare).
Local Abbreviation dispatch_direct :=
  (dispatch_direct env parse_uri builder_error refuses to_str new_decoder spare lossy debug_lossy).

(** Milliseconds since [start]. *)
Definition elapsed : net Z := λ s, (Ok (env_elapsed_ms env s.(trace)), s).

(** The lines that describe the request's configuration. *)
Definition preamble (config : RequestConfig) (uri : Uri) : list bytes :=
  [bs "-> " ++ method config ++ bs " " ++ uri.(uri_text)]
  ++ (match effective_proxy config (default [] uri.(Uri.host)) with
      | Some p => [bs "   Proxy: " ++ p] | None => [] end)
  ++ (if should_verify_certs config then [] else [bs "   TLS certificate validation: disabled"])
  ++ (match config.(cipher_string) with Some c => [bs "   Cipher string: " ++ c] | None => [] end)
  ++ (match config.(min_tls_version) with Some c => [bs "   Min TLS: " ++ c] | None => [] end)
  ++ (match config.(max_tls_version) with Some c => [bs "   Max TLS: " ++ c] | None => [] end)
  ++ (match config.(resolve_ip) with Some c => [bs "   Resolve IP: " ++ c] | None => [] end)
  ++ (match config.(request_target) with Some c => [bs "   Request target: " ++ c] | None => [] end).

(** [<- status (ms)]. *)
Definition note_status (v : Z) (status : Z) : net () :=
  ms ← elapsed; note1 v (bs "<- " ++ dec status ++ bs " (" ++ dec ms ++ bs "ms)").

Definition to_response (uri : Uri) (config : RequestConfig) (resp : SingleResponse) (elapsed_ms : Z)
    (chain : list RedirectHop) (cert : option CertInfo) (peer : option bytes) (log : list bytes) : Response :=
  mkResponse uri.(uri_text) resp.(sr_status) resp.(sr_headers) resp.(sr_body) (u64 elapsed_ms) chain cert peer
    config.(cfg_url) (method config) log resp.(sr_decode_error) None None None None.

(** With [resolve_ip] or [request_target]: one request, no redirects. *)
Definition send_direct (config : RequestConfig) (uri : Uri) : net Response :=
  '(resp, cert_info, peer_ip) ← dispatch_direct uri config;
  note_status config.(verbosity) resp.(sr_status);;
  elapsed_ms ← elapsed;
  debug_log ← get_log;
  mret (to_response uri config resp elapsed_ms [] cert_info (ip_text <$> peer_ip) debug_log).

(** One exchange of the redirect loop: the answer and the cached entry used. *)
Definition exchange (config : RequestConfig) (uri : Uri) (hop_cookies : option bytes)
    : net (SingleResponse * option ConnMode) :=
  mode ← lift (conn_mode parse_uri config uri);
  match mode with
  | ForwardProxy proxy_url =>
      resp ← dispatch_forward_proxy proxy_url uri config hop_cookies;
      mret (resp, None)
  | _ =>
      others env 0;;
      cached ← (λ s, match get_or_build parse_uri refuses s.(client) config mode with
                     | Ok (cached, cl) => (Ok cached, mkSt cl s.(log) s.(trace))
                     | Err e => (Err (Raise e), s)
                     | Panic => (Panic, s)
                     end);
      resp ← dispatch_request mode cached uri config hop_cookies;
      mret (resp, Some mode)
  end.

(** The slots of the entry, shared with the connector. *)
Definition cached_entry (mode : option ConnMode) : net (option CachedClient) :=
  others env 2;;
  ((λ s, (Ok (m ← mode; s.(client) !! m), s)) : net (option CachedClient)).

Definition hop_peer (cached : option CachedClient) (uri : Uri) : option bytes :=
  key ← peer_slot_key uri; c ← cached; ip_text <$> (c.(peer_slot) !! key).

(** Taking a hop's cookies, and the [Cookie] header for where it redirects to. *)
Definition walk_cookies (v : Z) (chain : option ChainCookies) (headers : list (bytes * bytes)) (uri next_uri : Uri)
    (hop_cookies : option bytes) : net (option ChainCookies * option bytes) :=
  match chain with
  | None => mret (None, hop_cookies)
  | Some chain =>
      tr ← get_trace;
      '(chain, rejected) ← total (store domain_str (env_now_unix env tr) chain headers uri);
      (if bool_decide (caller_owned rejected = []) then mret tt
       else note1 v (bs "   Kept the caller's own cookie(s) over a Set-Cookie for: " ++ join (bs ", ") (caller_owned rejected)));;
      (if bool_decide (over_limit rejected = []) then mret tt
       else note1 v (bs "   Cookie limit reached, dropped: " ++ join (bs ", ") (over_limit rejected)));;
      let hop_cookies := header_for chain next_uri in
      (match hop_cookies with
       | Some c => note1 v (bs "   Sending cookies: " ++ c)
       | None => mret tt
       end);;
      mret (Some chain, hop_cookies)
  end.

(** What the loop carries from hop to hop. *)
Record hop_state := mkHopState {
  hs_uri : Uri;
  hs_chain : list RedirectHop;
  hs_hops : Z;
  hs_cookies : option ChainCookies;
  hs_header : option bytes
}.

Definition too_many (config : RequestConfig) : ClientError :=
  err_too_many_redirects (bs "too many redirects (limit: " ++ dec (redirect_limit config) ++ bs ")").

(** A redirect is followed: the state of the next iteration. *)
Definition follow (config : RequestConfig) (st : hop_state) (resp : SingleResponse) (peer : option bytes)
    : net hop_state :=
  let v := config.(verbosity) in
  let hops := u32 (st.(hs_hops) + 1) in
  if bool_decide (hops > redirect_limit config) then raise (too_many config)
  else
    location ← lift (ok_or resp.(sr_location)
      (err_other (bs "redirect " ++ dec resp.(sr_status) ++ bs " but no Location header")));
    next_uri ← lift (resolve_redirect parse_uri st.(hs_uri) location);
    note1 v (bs "   Redirect #" ++ dec hops ++ bs ": " ++ st.(hs_uri).(uri_text) ++ bs " -> " ++ next_uri.(uri_text));;
    let chain := st.(hs_chain) ++ [mkHop st.(hs_uri).(uri_text) resp.(sr_status) peer] in
    '(cookies, header) ← walk_cookies v st.(hs_cookies) resp.(sr_headers) st.(hs_uri) next_uri st.(hs_header);
    mret (mkHopState next_uri chain hops cookies header).

(** The last hop's response. *)
Definition finish (config : RequestConfig) (st : hop_state) (resp : SingleResponse)
    (cached : option CachedClient) (peer : option bytes) : net Response :=
  let v := config.(verbosity) in
  let cert_info := cached ≫= cert_slot in
  elapsed_ms ← elapsed;
  note1 v (bs "   Total time: " ++ dec elapsed_ms ++ bs "ms (" ++ dec (zlen st.(hs_chain)) ++ bs " redirect(s))");;
  (match cert_info with
   | Some info =>
       notes v [bs "   Cert CN: " ++ debug_text (common_name info);
                bs "   Cert SANs: " ++ debug_list (sans info)]
   | None => mret tt
   end);;
  debug_log ← get_log;
  mret (to_response st.(hs_uri) config resp elapsed_ms st.(hs_chain) cert_info peer debug_log).

(** The loop.  [hops] grows with each iteration and is at most the redirect limit, so
    [redirect_limit + 1] iterations suffice; running out is shown unreachable. *)
Fixpoint redirect_loop (fuel : nat) (config : RequestConfig) (st : hop_state) : net Response :=
  match fuel with
  | O => λ s, (Panic, s)
  | S fuel =>
      '(resp, mode) ← exchange config st.(hs_uri) st.(hs_header);
      note_status config.(verbosity) resp.(sr_status);;
      cached ← cached_entry mode;
      let peer := hop_peer cached st.(hs_uri) in
      if is_redirect resp.(sr_status) && should_follow_redirects config then
        st ← follow config st resp peer;
        redirect_loop fuel config st
      else finish config st resp cached peer
  end.

Definition loop_fuel (config : RequestConfig) : nat := S (Z.to_nat (redirect_limit config)).

Definition loop_init (config : RequestConfig) (uri : Uri) : hop_state :=
  mkHopState uri [] 0
    (if should_forward_redirect_cookies config
     then Some (with_caller_cookies (caller_cookie_names (default [] config.(cfg_headers)))) else None)
    None.

Definition send_inner (config : RequestConfig) : net Response :=
  uri ← lift (parse_url parse_uri (bs "invalid URL: ") (sanitize_uri config.(cfg_url)));
  notes config.(verbosity) (preamble config uri);;
  if bool_decide (is_Some config.(resolve_ip)) || bool_decide (is_Some config.(request_target))
  then send_direct config uri
  else redirect_loop (loop_fuel config) config (loop_init config uri).

(** ** Retries *)

Definition timeout_error (config : RequestConfig) : ClientError :=
  err_timeout (bs "request timed out after " ++ dec (timeout config) ++ bs "s").

(** The loop over the attempts from [attempt] on; [remaining] is [max_retries - attempt].
    Its last round always returns, so the error after the loop is never built. *)
Fixpoint attempts (remaining : nat) (attempt : Z) (config : RequestConfig) : St → exec ClientError Response * St :=
  λ s,
    let v := config.(verbosity) in
    let s :=
      if bool_decide (attempt > 0) then
        let backoff := retry_backoff (attempt - 1) (retry_wait_min config) (retry_wait_max config) in
        let s := (note1 v (bs "   Retry " ++ dec attempt ++ bs "/" ++ dec (max_retries config) ++ bs " after "
                           ++ dec backoff ++ bs "ms") s).2 in
        (emit (EvSleep backoff) s).2
      else s in
    match send_inner config s with
    | (Ok response, s) =>
        match remaining with
        | S remaining =>
            if is_retryable (Status response.(status)) then
              attempts remaining (attempt + 1) config
                (note1 v (bs "   Retryable status " ++ dec response.(status) ++ bs " from " ++ config.(cfg_url)) s).2
            else (Ok response, s)
        | O => (Ok response, s)
        end
    | (Err (Raise e), s) =>
        match remaining with
        | S remaining =>
            if is_retryable e.(kind) then
              attempts remaining (attempt + 1) config (note1 v (bs "   Retryable error: " ++ e.(message)) s).2
            else (Err e, s)
        | O => (Err e, s)
        end
    | (Err TimerFired, s) => (Err (timeout_error config), s)
    | (Panic, s) => (Panic, s)
    end.

(** The log is fresh for each call; the cache of clients is the client's own. *)
Definition send (config : RequestConfig) (self : HyperClient) (tr : list event) : exec ClientError Response * St :=
  let s := mkSt self new_debug_log tr in
  match validate_proxy config with
  | Err m => (Err (err_other m), s)
  | Panic => (Panic, s)
  | Ok _ => attempts (Z.to_nat (max_retries config)) 0 config s
  end.
End send.
