(* ===== verification/SendProps.v ===== *)
(** * Properties of sending (src/client/hyper.rs)

    What a call of [send] does to the outside, event by event, and what it returns. *)
From stdpp Require Import gmap.
From S2P Require Import Prelude RustStd NetAddr ClientError Uri Config Cookies CookiesProps.
From S2P Require Import Wire Proxy ProxyProps Request RequestProps Decompress Response Conn SharedCache.
From S2P Require Import Client ClientProps ConnectProps Send.

(** Sizes and waits are unsigned; a [Duration] of milliseconds fits; and the hop counter
    can pass the limit, which it cannot when that is the largest [u32]. *)
Definition wf_config (c : RequestConfig) : Prop :=
  0 ≤ max_body c ∧ 0 ≤ redirect_limit c < u32_max ∧ 0 ≤ max_retries c ∧
  0 ≤ retry_wait_min c ∧ 0 ≤ retry_wait_max c ≤ u64_max.

Section props.
Context {R : Type} `{!Read R} `{Headers : !HeaderMap}.
Context (env : Env) (parse_uri : bytes → bytes + Uri) (builder_error : Request → option bytes)
  (refuses : ssl_call → option bytes) (to_str : bytes → option bytes)
  (new_decoder : flavor → bytes → R) (spare : list bytes → Z) (domain_str : bytes → option bytes)
  (lossy debug_lossy : bytes → bytes) (debug_text : option bytes → bytes) (debug_list : list bytes → bytes).

Local Abbreviation send :=
  (send env parse_uri builder_error refuses to_str new_decoder spare domain_str lossy debug_lossy debug_text debug_list).
Local Abbreviation send_inner :=
  (send_inner env parse_uri builder_error refuses to_str new_decoder spare domain_str lossy debug_lossy debug_text debug_list).
Local Abbreviation redirect_loop :=
  (redirect_loop env parse_uri builder_error refuses to_str new_decoder spare domain_str debug_text debug_list).
Local Abbreviation build_request := (build_request parse_uri builder_error).
Local Abbreviation conn_mode := (conn_mode parse_uri).

(** Documented behaviour of the third-party functions: a header value is text only
    if it is ASCII, and "/" is a URI; and other calls do to the shared client what
    calls of this program do. *)
Definition third_party : Prop :=
  text_ascii to_str ∧ root_parses parse_uri ∧
  ∀ place t c, ∃ l, cache_steps parse_uri refuses c l (env_others env place t c).

(** The names of the cookies the caller sends. *)
Definition own_names (config : RequestConfig) : list bytes :=
  caller_cookie_names (default [] config.(cfg_headers)).

(** The request and the answer of an event. *)
Definition request_of (e : event) : option Request :=
  match e with EvRequest _ _ req _ | EvDirect _ req _ | EvForward req _ => Some req | _ => None end.
Definition reply_of (e : event) : option HttpResponse :=
  match e with EvRequest _ _ _ (Done h) | EvDirect _ _ (Done h) | EvForward _ (Done h) => Some h | _ => None end.

(** In the events [l], a request to [uri] was answered by [http]. *)
Definition answered (l : list event) (uri : Uri) (http : HttpResponse) : Prop :=
  ∃ e req, e ∈ l ∧ request_of e = Some req ∧ r_uri req = uri ∧ reply_of e = Some http.

(** A response of a cookie chain was received in [l]. *)
Definition heard (l : list event) (x : response) : Prop :=
  ∃ http, answered l x.2 http ∧ x.1.2 = map (header_text to_str) (h_headers http).

(** The [Cookie] text that may accompany a request to [uri] after [l]: none, or what a
    chain of responses received in [l] has for it. *)
Definition chain_header (config : RequestConfig) (l : list event) (uri : Uri) (rc : option bytes) : Prop :=
  rc = None ∨
  (should_forward_redirect_cookies config = true ∧
   ∃ rs s, chain_of domain_str (own_names config) rs s ∧ Forall (heard l) rs ∧ rc = header_for s uri).

(** A request of the redirect loop. *)
Definition hop_request (config : RequestConfig) (l : list event) (mh : bool) (req : Request) : Prop :=
  ∃ rc, build_request (r_uri req) config false mh rc = Ok req ∧ chain_header config l (r_uri req) rc.

(** What may happen to the outside on behalf of [config], after the events [l]. *)
Definition allowed (config : RequestConfig) (l : list event) (e : event) : Prop :=
  match e with
  | EvRequest mode via req _ =>
      conn_mode config (r_uri req) = Ok mode ∧ is_Some (mode_tls mode) ∧
      ssl_settings refuses config pooled_alpn = Ok (ssl (connector via)) ∧ inner_fits parse_uri mode (Conn.inner via) ∧
      hop_request config l false req
  | EvForward req _ =>
      (∃ p, conn_mode config (r_uri req) = Ok (ForwardProxy p)) ∧ hop_request config l true req
  | EvForwardDial addr =>
      ∃ uri p pu h, conn_mode config uri = Ok (ForwardProxy p) ∧ parse_uri p = inr pu ∧ pu.(Uri.host) = Some h ∧
        addr = h ++ bs ":" ++ dec (default 8080 pu.(port_u16))
  | EvDial addr =>
      ∃ uri pc, parse_uri (sanitize_uri config.(cfg_url)) = inr uri ∧ chosen_proxy config (host_of uri) pc ∧
        addr = connect_addr config (host_of uri) (target_port uri) pc
  | EvTunnel sch host port _ =>
      ∃ uri c, parse_uri (sanitize_uri config.(cfg_url)) = inr uri ∧ chosen_proxy config (host_of uri) (Some c) ∧
        sch = c.(Proxy.scheme) ∧ host = host_of uri ∧ port = target_port uri
  | EvTls id st =>
      ∃ uri, parse_uri (sanitize_uri config.(cfg_url)) = inr uri ∧ uri.(scheme_str) = Some (bs "https") ∧
        ssl_settings refuses config direct_alpn = Ok st ∧ id = ssl_identity (host_of uri) (should_verify_certs config)
  | EvDirect h2 req _ =>
      (h2 = true → config.(request_target) = None) ∧
      ∃ uri, build_request uri config (negb h2 && bool_decide (config.(request_target) = None)) (negb h2) None = Ok req
  | EvSleep ms => 0 ≤ ms ≤ retry_wait_max config
  end.

(** The events of the call that started at the trace [base]. *)
Definition since (base t : list event) : list event := drop (length base) t.
Local Abbreviation safe_at config base := (safe_at (λ t, allowed config (since base t)) (cache_ok parse_uri refuses)).
Local Abbreviation safe config base := (safe (λ t, allowed config (since base t)) (cache_ok parse_uri refuses)).

Lemma since_later base t t' : t `prefix_of` t' → ∀ e, e ∈ since base t → e ∈ since base t'.
Proof. intros [k ->] e. unfold since. rewrite drop_app, elem_of_app. by left. Qed.

Lemma since_snoc base t e : base `prefix_of` t → e ∈ since base (t ++ [e]).
Proof.
  intros [k ->]. unfold since. rewrite <- (assoc_L (++)), drop_app_length, elem_of_app. right. by apply list_elem_of_singleton.
Qed.

Section later.
Context (base t t' : list event) (Hp : t `prefix_of` t').

Lemma answered_later uri http : answered (since base t) uri http → answered (since base t') uri http.
Proof. intros (e & req & He & H). exists e, req. split; [by eapply since_later|done]. Qed.

Lemma heard_later x : heard (since base t) x → heard (since base t') x.
Proof. intros (http & Ha & H). exists http. split; [by apply answered_later|done]. Qed.

Lemma chain_header_later config uri rc :
  chain_header config (since base t) uri rc → chain_header config (since base t') uri rc.
Proof.
  intros [->|(Hf & rs & s & Hc & Hh & ->)]; [by left|]. right. split; [done|]. exists rs, s.
  split_and!; [done| |done]. eapply Forall_impl; [exact Hh|]. apply heard_later.
Qed.
End later.

(** ** Dispatching *)

Lemma connector_calls_connector os c : connector (foldl connector_call c os) = connector c.
Proof. revert c. induction os as [|o os IH]; intros c; [done|]. cbn. by rewrite IH. Qed.

Lemma connector_calls_inner os c : Conn.inner (foldl connector_call c os) = Conn.inner c.
Proof. revert c. induction os as [|o os IH]; intros c; [done|]. cbn. by rewrite IH. Qed.

Lemma others_safe config base t0 place : third_party → safe config base t0 (others env place) (λ _, True).
Proof.
  intros (_ & _ & Ho) s Hs Ht. destruct (Ho place (trace s) (client s)) as (l & Hl).
  split_and!; [exists []; rewrite app_nil_r; split; [done|apply all_allowed_nil]|cbn|done].
  by eapply cache_steps_ok.
Qed.

Lemma apply_opened_safe config base t0 mode os : safe config base t0 (apply_opened mode os) (λ _, True).
Proof.
  intros s Hs Ht. split_and!; [exists []; rewrite app_nil_r; split; [done|apply all_allowed_nil]| |done].
  cbn. intros m c Hm. rewrite lookup_alter in Hm. destruct (decide (mode = m)) as [<-|Hne].
  - destruct (client s !! mode) as [c0|] eqn:Hc; [|done]. injection Hm as <-.
    rewrite connector_calls_connector, connector_calls_inner. exact (Hs _ _ Hc).
  - exact (Hs _ _ Hm).
Qed.

Lemma note_request_safe config base t0 v req t : safe config base t0 (note_request to_str v req t) (λ _, True).
Proof. apply safe_notes. Qed.

Lemma build_request_uri uri config mh rc req : build_request uri config false mh rc = Ok req → r_uri req = uri.
Proof. intros H. exact (proj1 (proj2 (proj2 (build_request_given _ _ _ _ _ _ _ _ H))) eq_refl). Qed.

(** What an exchange with [uri] gives. *)
Definition received_from (config : RequestConfig) (base : list event) (uri : Uri) (sr : SingleResponse)
    (t : list event) : Prop :=
  good_response config sr ∧ ∃ http, answered (since base t) uri http ∧ parsed_from to_str http sr.

(** From an event with its answer to the parsed response. *)
Lemma receive_safe config base t0 e req reply on_error uri :
  third_party → wf_config config → base `prefix_of` t0 →
  request_of e = Some req → r_uri req = uri → (∀ http, reply = Done http → reply_of e = Some http) →
  (∃ t, base `prefix_of` t ∧ t ++ [e] `prefix_of` t0) →
  safe_at config base t0
    (http ← io_lift_net reply on_error; parse_response to_str new_decoder spare http config)
    (received_from config base uri).
Proof.
  intros (Ht & _) (Hm & _) Hb Hreq Hu Hrep (t & Hbt & Htt). eapply safe_bind; [apply safe_answer|]. intros http ->.
  eapply safe_at_weaken; [by apply parse_response_safe|]. intros sr t' Hp [Hg Hsr]. split; [done|].
  exists http. split; [|done]. exists e, req. split_and!; [|done|done|by apply Hrep].
  eapply since_later; [|by apply (since_snoc base t)]. by etrans.
Qed.

Lemma dispatch_request_safe base t0 mode cached uri config rc :
  third_party → wf_config config → base `prefix_of` t0 → conn_mode config uri = Ok mode → is_Some (mode_tls mode) →
  ssl_settings refuses config pooled_alpn = Ok (ssl (connector cached)) → inner_fits parse_uri mode (Conn.inner cached) →
  chain_header config (since base t0) uri rc →
  safe_at config base t0
    (dispatch_request env parse_uri builder_error to_str new_decoder spare mode cached uri config rc)
    (received_from config base uri).
Proof.
  intros H3 Hwf Hb Hmode Htls Hssl Hin Hrc. unfold dispatch_request.
  eapply safe_bind; [apply safe_lift, build_request_returns, H3|]. intros req Hreq.
  pose proof (build_request_uri _ _ _ _ _ Hreq) as Hu.
  eapply safe_bind; [apply note_request_safe|]. intros _ _. eapply safe_bind; [apply safe_trace|]. intros tr _.
  destruct (env_request env tr mode cached req) as [os reply].
  eapply safe_at_bind; [apply safe_emit_at|].
  { intros t Hp. cbn. rewrite Hu. split_and!; [done..|]. exists rc. rewrite Hu. split; [done|].
    by eapply chain_header_later. }
  intros _ t1 _ (t & Hp & ->). eapply safe_bind; [by apply others_safe|]. intros _ _.
  eapply safe_bind; [apply apply_opened_safe|]. intros _ _. apply (receive_safe config base _ (EvRequest mode cached req reply) req); [done|done| |done|done|by intros http ->|exists t; split; [by etrans|done]].
  etrans; [exact Hb|]. etrans; [exact Hp|]. by apply prefix_app_r.
Qed.

Lemma dispatch_forward_proxy_safe base t0 p uri config rc :
  third_party → wf_config config → base `prefix_of` t0 → conn_mode config uri = Ok (ForwardProxy p) →
  chain_header config (since base t0) uri rc →
  safe_at config base t0
    (dispatch_forward_proxy env parse_uri builder_error to_str new_decoder spare p uri config rc)
    (received_from config base uri).
Proof.
  intros H3 Hwf Hb Hmode Hrc. unfold dispatch_forward_proxy.
  eapply safe_bind; [apply safe_lift, returns_parse_url|]. intros pu Hpu.
  eapply safe_bind; [apply safe_lift, returns_ok_or|]. intros h Hh.
  eapply safe_bind; [apply safe_note|]. intros _ _. eapply safe_bind; [apply safe_trace|]. intros tr _.
  eapply safe_bind; [apply safe_emit|intros _ _]. { intros t _. exists uri, p, pu, h. by split_and!. }
  eapply safe_bind; [apply safe_answer|]. intros _ _. eapply safe_bind; [apply safe_trace|]. intros tr' _.
  eapply safe_bind; [apply safe_answer|]. intros _ _.
  eapply safe_bind; [apply safe_lift, build_request_returns, H3|]. intros req Hreq.
  pose proof (build_request_uri _ _ _ _ _ Hreq) as Hu.
  eapply safe_bind; [apply note_request_safe|]. intros _ _.
  eapply safe_at_bind; [apply safe_emit_at|].
  { intros t Hp. cbn. rewrite Hu. split; [by exists p|]. exists rc. rewrite Hu. split; [done|].
    by eapply chain_header_later. }
  intros _ t1 _ (t & Hp & ->).
  apply (receive_safe config base _ (EvForward req (env_forward env tr' req)) req); [done|done| |done|done|by intros http ->|exists t; split; [by etrans|done]].
  etrans; [exact Hb|]. etrans; [exact Hp|]. by apply prefix_app_r.
Qed.

Lemma allowed_stream_event config uri l e : parse_uri (sanitize_uri config.(cfg_url)) = inr uri →
  stream_event refuses config uri e → allowed config l e.
Proof.
  intros Hu. destruct e as [| |? ? ? ?|? ?| | | |]; cbn; try done.
  - intros (pc & H). by exists uri, pc.
  - intros (c & H). by exists uri, c.
  - intros H. by exists uri.
Qed.

Lemma dispatch_direct_safe config base t0 uri :
  third_party → wf_config config → base `prefix_of` t0 → parse_uri (sanitize_uri config.(cfg_url)) = inr uri →
  safe_at config base t0
    (dispatch_direct env parse_uri builder_error refuses to_str new_decoder spare lossy debug_lossy uri config)
    (λ x t, good_response config x.1.1 ∧ (effective_proxy config (host_of uri) ≠ None → x.2 = None) ∧
       ∃ e http, e ∈ since base t ∧ reply_of e = Some http ∧ parsed_from to_str http x.1.1).
Proof.
  intros (Ht & Hroot & _) (Hm & _) Hb Hu. unfold dispatch_direct.
  eapply safe_bind; [apply connect_stream_safe; intros l e; by apply allowed_stream_event|]. intros st Hpeer. cbn beta in Hpeer.
  set (h2 := bool_decide (st_alpn st = Some (bs "h2"))).
  destruct (h2 && bool_decide (is_Some (request_target config))) eqn:Eh; [apply safe_raise|].
  eapply safe_bind; [apply safe_when|]. intros _ _. eapply safe_bind; [apply safe_trace|]. intros tr _.
  eapply safe_bind; [apply safe_answer|]. intros _ _.
  eapply (safe_bind _ _ _ _ _ (λ _, True)).
  { apply safe_lift. destruct (request_target config) as [rt|]; [|done]. unfold parse_url. by destruct (parse_uri rt). }
  intros ru _. eapply (safe_bind _ _ _ _ _ (λ req, ∀ l reply, allowed config l (EvDirect h2 req reply))).
  { apply safe_lift. destruct h2 eqn:E2; cbn [allowed negb andb] in *.
    - pose proof (build_request_returns parse_uri builder_error ru config false false None Hroot) as H.
      apply bool_decide_eq_false in Eh. rewrite <- eq_None_not_Some in Eh.
      destruct (build_request ru config false false None) eqn:Eb; cbn in *; [|done..]. intros _ _. split; [done|]. by exists ru.
    - pose proof (build_request_returns parse_uri builder_error ru config (bool_decide (request_target config = None)) true None Hroot) as H.
      destruct (build_request ru config _ true None) eqn:Eb; cbn in *; [|done..]. intros _ _. split; [done|]. by exists ru. }
  intros req Hreq. eapply safe_bind; [apply note_request_safe|]. intros _ _.
  eapply safe_at_bind; [apply safe_emit_at; intros t _; apply Hreq|]. intros _ t1 _ (t & Hp & ->).
  eapply safe_bind; [apply safe_answer|]. intros http Hrep.
  eapply safe_bind; [by apply parse_response_safe|]. intros sr [Hsr Hfrom]. apply safe_at_ret. intros t2 Ht2. cbn.
  split_and!; [done|done|]. exists (EvDirect h2 req (env_direct env tr req)), http. split_and!; [|by rewrite Hrep|done].
  eapply since_later; [exact Ht2|]. apply since_snoc. by etrans.
Qed.

(** ** The redirect loop *)

Lemma get_or_build_safe config base t0 mode k :
  mode_tls mode = Some k → from_config config = k →
  safe config base t0 (λ s, match get_or_build parse_uri refuses s.(client) config mode with
     | Ok (cached, cl) => (Ok cached, mkSt cl s.(log) s.(trace))
     | Err e => (Err (Raise e), s)
     | Panic => (Panic, s)
     end) (λ cached, ssl_settings refuses config pooled_alpn = Ok (ssl (connector cached)) ∧
                     inner_fits parse_uri mode (Conn.inner cached)).
Proof.
  intros Hk Hc s Hs _. assert (∃ new, trace s = trace s ++ new ∧
    all_allowed (λ t, allowed config (since base t)) (trace s) new) as Hn.
  { exists []. rewrite app_nil_r. split; [done|apply all_allowed_nil]. }
  destruct (get_or_build parse_uri refuses (client s) config mode) as [[cached cl]|e|] eqn:Hg; [|done|].
  - destruct (get_or_build_ok _ _ _ _ _ _ _ _ Hs Hk Hc Hg) as (Hok & _ & Hssl & _ & Hin). by split_and!.
  - exfalso. revert Hg. unfold get_or_build. destruct (client s !! mode); [done|]. unfold OpenSslConnector_new.
    pose proof (ssl_settings_returns refuses config pooled_alpn) as Hr.
    destruct (ssl_settings refuses config pooled_alpn); [cbn|done|done].
    destruct mode; try done; cbn; unfold proxy_uri_of, parse_url; by destruct (parse_uri proxy_url).
Qed.

Lemma received_later config base uri sr t t' : t `prefix_of` t' →
  received_from config base uri sr t → received_from config base uri sr t'.
Proof. intros Hp (Hg & http & Ha & H). split; [done|]. exists http. split; [by eapply answered_later|done]. Qed.

Lemma exchange_safe config base t0 uri rc :
  third_party → wf_config config → base `prefix_of` t0 → chain_header config (since base t0) uri rc →
  safe_at config base t0 (exchange env parse_uri builder_error refuses to_str new_decoder spare config uri rc)
    (λ x, received_from config base uri x.1).
Proof.
  intros H3 Hwf Hb Hrc. unfold exchange.
  eapply safe_bind; [apply safe_lift, conn_mode_returns|]. intros mode Hmode. cbn beta in Hmode.
  assert (∀ k, mode_tls mode = Some k → safe_at config base t0
    (others env 0;;
      cached ← (λ s, match get_or_build parse_uri refuses s.(client) config mode with
                     | Ok (cached, cl) => (Ok cached, mkSt cl s.(log) s.(trace))
                     | Err e => (Err (Raise e), s)
                     | Panic => (Panic, s)
                     end);
      resp ← dispatch_request env parse_uri builder_error to_str new_decoder spare mode cached uri config rc;
      mret (resp, Some mode)) (λ x, received_from config base uri x.1)) as Hpooled.
  { intros k Hk. eapply safe_bind; [by apply others_safe|]. intros _ _.
    eapply safe_bind; [apply (get_or_build_safe config base t0 mode k Hk)|].
    { symmetry. exact (conn_mode_tls _ _ _ _ Hmode k Hk). }
    intros cached [Hssl Hin]. eapply safe_at_bind; [by apply dispatch_request_safe|].
    intros sr t Hp Hsr. apply safe_at_ret. intros t' Hp'. by eapply received_later. }
  destruct mode as [k|p|p k|p k]; [by apply (Hpooled k)| |by apply (Hpooled k)|by apply (Hpooled k)].
  eapply safe_at_bind; [by apply dispatch_forward_proxy_safe|]. intros sr t Hp Hsr. apply safe_at_ret.
  intros t' Hp'. by eapply received_later.
Qed.

(** A chain of redirects from one URI to another: each hop's URI answered, in [l], with
    the hop's status and the Location that resolves to the next. *)
Inductive redirect_path (l : list event) : Uri → list RedirectHop → Uri → Prop :=
  | path_start u : redirect_path l u [] u
  | path_hop u hops u1 http peer location u2 :
      redirect_path l u hops u1 → answered l u1 http → is_redirect http.(h_status) = true →
      find_header (bs "location") http.(h_headers) ≫= to_str = Some location →
      resolve_redirect parse_uri u1 location = Ok u2 →
      redirect_path l u (hops ++ [mkHop u1.(uri_text) http.(h_status) peer]) u2.

Definition hop_inv (config : RequestConfig) (l : list event) (u0 : Uri) (st : hop_state) : Prop :=
  redirect_path l u0 st.(hs_chain) st.(hs_uri) ∧
  st.(hs_hops) = zlen st.(hs_chain) ∧ zlen st.(hs_chain) ≤ redirect_limit config ∧
  chain_header config l st.(hs_uri) st.(hs_header) ∧
  (should_follow_redirects config = false → st.(hs_chain) = []) ∧
  match st.(hs_cookies) with
  | Some c => should_forward_redirect_cookies config = true ∧
      ∃ rs, chain_of domain_str (own_names config) rs c ∧ Forall (heard l) rs
  | None => st.(hs_header) = None
  end.

(** The response of a chain from [u0]: its last URI's answer, decoded within the cap. *)
Definition delivered (config : RequestConfig) (l : list event) (u0 : Uri) (r : Response) : Prop :=
  (∃ uf http, redirect_path l u0 r.(redirect_chain) uf ∧ answered l uf http ∧ r.(url) = uf.(uri_text) ∧
     r.(status) = http.(h_status) ∧ r.(Response.headers) = map (header_text to_str) http.(h_headers)) ∧
  zlen r.(redirect_chain) ≤ redirect_limit config ∧
  (should_follow_redirects config = false → r.(redirect_chain) = []) ∧
  zlen r.(body_bytes) ≤ max_body config ∧
  r.(request_url) = config.(cfg_url) ∧ r.(request_method) = method config.

Lemma redirect_path_later base t t' u hops u' : t `prefix_of` t' →
  redirect_path (since base t) u hops u' → redirect_path (since base t') u hops u'.
Proof. intros Hp. induction 1; [constructor|]. econstructor; [done| |done..]. by eapply answered_later. Qed.

Lemma delivered_later config base t t' u0 r : t `prefix_of` t' →
  delivered config (since base t) u0 r → delivered config (since base t') u0 r.
Proof.
  intros Hp [(uf & http & H1 & H2 & H3) H]. split; [|done]. exists uf, http.
  split_and!; [by eapply redirect_path_later|by eapply answered_later|apply H3..].
Qed.

Lemma hop_inv_later config base t t' u0 st : t `prefix_of` t' →
  hop_inv config (since base t) u0 st → hop_inv config (since base t') u0 st.
Proof.
  intros Hp (H1 & H2 & H3 & H4 & H5 & H6). split_and!; [by eapply redirect_path_later|done|done| |done|].
  - by eapply chain_header_later.
  - destruct (hs_cookies st); [|done]. destruct H6 as (Hf & rs & Hc & Hh). split; [done|]. exists rs. split; [done|].
    eapply Forall_impl; [exact Hh|]. intros x. by apply heard_later.
Qed.

Lemma walk_cookies_safe config base t0 u0 st resp next :
  third_party → hop_inv config (since base t0) u0 st → received_from config base st.(hs_uri) resp t0 →
  safe config base t0
    (walk_cookies env domain_str config.(verbosity) st.(hs_cookies) resp.(sr_headers) st.(hs_uri) next st.(hs_header))
    (λ x, chain_header config (since base t0) next x.2 ∧
      match x.1 with
      | Some c => should_forward_redirect_cookies config = true ∧
          ∃ rs, chain_of domain_str (own_names config) rs c ∧ Forall (heard (since base t0)) rs
      | None => x.2 = None
      end).
Proof.
  intros H3 (_ & _ & _ & _ & _ & Hc) [[Ha _] (http & Hans & (_ & Hhdr & _))]. unfold walk_cookies.
  destruct (hs_cookies st) as [c|].
  2: { apply safe_ret. cbn. split; [by left|done]. }
  destruct Hc as [Hf (rs & Hc & Hrs)]. eapply safe_bind; [apply safe_trace|]. intros tr _.
  destruct (store_ascii domain_str (env_now_unix env tr) c (sr_headers resp) (hs_uri st) Ha) as (c' & rej & Hst).
  rewrite Hst. eapply (safe_bind _ _ _ _ _ (λ x, x = (c', rej))).
  { unfold total. apply (safe_pure _ _ _ (λ _, Ok (c', rej))). done. }
  intros [? ?] [= -> ->]. pose proof (chain_store _ _ _ _ _ _ _ _ _ Hc Hst) as Hc'.
  assert (Forall (heard (since base t0)) (rs ++ [(env_now_unix env tr, sr_headers resp, hs_uri st)])) as Hrs'.
  { apply Forall_app. split; [done|]. constructor; [|constructor]. by exists http. }
  eapply (safe_bind _ _ _ _ _ (λ _, True)); [case_match; [by apply safe_ret|apply safe_note]|]. intros _ _.
  eapply (safe_bind _ _ _ _ _ (λ _, True)); [case_match; [by apply safe_ret|apply safe_note]|]. intros _ _.
  eapply (safe_bind _ _ _ _ _ (λ _, True)); [case_match; [apply safe_note|by apply safe_ret]|]. intros _ _.
  apply safe_ret. cbn. split; [right|]; (split; [exact Hf|]).
  - eexists _, c'. split; [exact Hc'|split; [exact Hrs'|reflexivity]].
  - eexists. split; [exact Hc'|exact Hrs'].
Qed.

Lemma follow_safe config base t0 u0 st resp peer :
  third_party → wf_config config → hop_inv config (since base t0) u0 st →
  received_from config base st.(hs_uri) resp t0 → is_redirect resp.(sr_status) = true → should_follow_redirects config = true →
  safe config base t0 (follow env parse_uri domain_str config st resp peer)
    (λ st', hop_inv config (since base t0) u0 st' ∧ st'.(hs_hops) = st.(hs_hops) + 1).
Proof.
  intros H3 (_ & Hmax & _) Hinv Hgood Hred Hfol. unfold follow.
  rewrite (u32_small (hs_hops st + 1)) by (destruct Hinv as (_ & -> & ? & _); pose proof (zlen_nonneg (hs_chain st)); unfold u32_max in *; lia).
  destruct (bool_decide _) eqn:El; [apply safe_raise|].
  apply bool_decide_eq_false in El. eapply safe_bind; [apply safe_lift, returns_ok_or|]. intros loc Hloc.
  eapply safe_bind; [apply safe_lift, resolve_redirect_returns|]. intros next Hnext.
  eapply safe_bind; [apply safe_note|]. intros _ _.
  eapply safe_bind; [by apply (walk_cookies_safe config base t0 u0)|]. intros [cs hdr] [Hh Hcs]. cbn [fst snd] in *.
  destruct Hgood as (_ & http & Hans & (Hst & _ & Hl')). rewrite Hst in *. rewrite Hl' in Hloc.
  apply safe_ret. split; [|done]. destruct Hinv as (Hp & Hn & Hl & _ & _ & _). unfold hop_inv.
  cbn [hs_uri hs_chain hs_hops hs_cookies hs_header]. split_and!; [by econstructor| | |done| |done].
  - rewrite zlen_app, zlen_cons, zlen_nil. lia.
  - rewrite zlen_app, zlen_cons, zlen_nil. lia.
  - rewrite Hfol. done.
Qed.

Lemma elapsed_safe config base t0 : safe config base t0 (elapsed env) (λ _, True).
Proof. by apply (safe_pure _ _ _ (λ s, Ok (env_elapsed_ms env (trace s)))). Qed.

Lemma note_status_safe config base t0 v st : safe config base t0 (note_status env v st) (λ _, True).
Proof. eapply safe_bind; [apply elapsed_safe|]. intros ms _. apply safe_note. Qed.

Lemma finish_safe config base t0 u0 st resp cached peer :
  hop_inv config (since base t0) u0 st → received_from config base st.(hs_uri) resp t0 →
  safe config base t0 (finish env debug_text debug_list config st resp cached peer)
    (λ r, delivered config (since base t0) u0 r ∧ r.(status) = resp.(sr_status)).
Proof.
  intros (Hp & Hn & Hl & _ & Hf & _) [[Ha Hb] (http & Hans & (Hst & Hhd & _))]. unfold finish.
  eapply safe_bind; [apply elapsed_safe|]. intros ms _. eapply safe_bind; [apply safe_note|]. intros _ _.
  eapply (safe_bind _ _ _ _ _ (λ _, True)); [case_match; [apply safe_notes|by apply safe_ret]|]. intros _ _.
  eapply safe_bind; [apply safe_get_log|]. intros lg _. apply safe_ret. split; [|done].
  unfold delivered. cbn. split_and!; try done. by exists (hs_uri st), http.
Qed.

Lemma redirect_loop_safe fuel config base t0 u0 st :
  third_party → wf_config config → base `prefix_of` t0 → hop_inv config (since base t0) u0 st →
  redirect_limit config < st.(hs_hops) + Z.of_nat fuel →
  safe_at config base t0 (redirect_loop fuel config st)
    (λ r t, delivered config (since base t) u0 r ∧
       (should_follow_redirects config = true → is_redirect r.(status) = false)).
Proof.
  intros H3 Hwf. revert t0 st. induction fuel as [|fuel IH]; intros t0 st Hb Hinv Hfuel.
  { destruct Hinv as (_ & Hn & Hl & _). lia. }
  cbn [Send.redirect_loop]. eapply safe_at_bind; [apply exchange_safe; [done..|]; apply Hinv|].
  intros [resp mode] t Hp Hgood. cbn [fst] in Hgood. apply (hop_inv_later _ base t0 t) in Hinv; [|done].
  assert (base `prefix_of` t) as Hbt by by etrans.
  eapply safe_bind; [apply note_status_safe|]. intros _ _.
  eapply (safe_bind _ _ _ _ _ (λ _, True)).
  { unfold cached_entry. eapply safe_bind; [by apply others_safe|]. intros _ _.
    by apply (safe_pure _ _ _ (λ s, Ok (m ← mode; client s !! m))). }
  intros cached _. destruct (is_redirect (sr_status resp) && should_follow_redirects config) eqn:Er.
  - apply andb_true_iff in Er as [E1 E2]. eapply safe_bind; [by apply (follow_safe config base t u0)|].
    intros st' [Hinv' Hh]. apply IH; [done|done|]. lia.
  - eapply safe_at_weaken; [by apply (finish_safe config base t u0)|]. intros r t' Ht' [Hr Hs].
    split; [by eapply delivered_later|]. intros Hf. by rewrite Hs, <- Er, Hf, andb_true_r.
Qed.
(** ** One attempt *)

Definition is_direct (config : RequestConfig) : bool :=
  bool_decide (is_Some config.(resolve_ip)) || bool_decide (is_Some config.(request_target)).

(** What a returned response is, after the events [l] of the call. *)
Definition good_result (config : RequestConfig) (l : list event) (r : Response) : Prop :=
  ∃ u0, parse_uri (sanitize_uri config.(cfg_url)) = inr u0 ∧
    (if is_direct config
     then r.(redirect_chain) = [] ∧ (effective_proxy config (host_of u0) ≠ None → r.(peer_ip) = None) ∧
          zlen r.(body_bytes) ≤ max_body config ∧
          ∃ e http, e ∈ l ∧ reply_of e = Some http ∧ r.(status) = http.(h_status) ∧
            r.(Response.headers) = map (header_text to_str) http.(h_headers)
     else delivered config l u0 r ∧ (should_follow_redirects config = true → is_redirect r.(status) = false)).

Lemma send_direct_safe config base t0 u0 :
  third_party → wf_config config → base `prefix_of` t0 → parse_uri (sanitize_uri config.(cfg_url)) = inr u0 →
  is_direct config = true →
  safe_at config base t0
    (send_direct env parse_uri builder_error refuses to_str new_decoder spare lossy debug_lossy config u0)
    (λ r t, good_result config (since base t) r).
Proof.
  intros H3 Hwf Hb Hu Hdir. unfold send_direct. eapply safe_at_bind; [by apply dispatch_direct_safe|].
  intros [[resp cert] peer] t Hp ([Ha Hbd] & Hpeer & e & http & He & Hre & (Hst & Hhd & _)). cbn [fst snd] in *.
  eapply safe_bind; [apply note_status_safe|]. intros _ _. eapply safe_bind; [apply elapsed_safe|]. intros ms _.
  eapply safe_bind; [apply safe_get_log|]. intros lg _. apply safe_at_ret. intros t' Ht'.
  exists u0. split; [done|]. rewrite Hdir. cbn. split_and!; [done|intros Hpx; by rewrite Hpeer|done|].
  exists e, http. split_and!; [by eapply since_later|done..].
Qed.

Lemma send_inner_safe config base t0 : third_party → wf_config config → base `prefix_of` t0 →
  safe_at config base t0 (send_inner config) (λ r t, good_result config (since base t) r).
Proof.
  intros H3 Hwf Hb. unfold Send.send_inner. eapply safe_bind; [apply safe_lift, returns_parse_url|]. intros u0 Hu.
  eapply safe_bind; [apply safe_notes|]. intros _ _. fold (is_direct config). destruct (is_direct config) eqn:Ed.
  - by apply send_direct_safe.
  - eapply safe_at_weaken; [apply (redirect_loop_safe (loop_fuel config) config base t0 u0); [done..| |]|].
    + unfold hop_inv, loop_init. cbn. destruct Hwf as (_ & Hl & _).
      split_and!; [constructor|done|rewrite zlen_nil; lia|by left|done|].
      destruct (should_forward_redirect_cookies config); [|done]. split; [done|]. exists []. split; constructor.
    + unfold loop_fuel, loop_init. cbn [hs_hops]. lia.
    + intros r t _ Hr. exists u0. split; [done|]. by rewrite Ed.
Qed.

(** ** Attempts *)

Inductive outcome := Answered (r : Response) | Errored (e : ClientError) | Late.

(** [send_inner] under [send]'s timer. *)
Definition outcome_of (r : exec stop Response) : option outcome :=
  match r with
  | Ok r => Some (Answered r) | Err (Raise e) => Some (Errored e) | Err TimerFired => Some Late | Panic => None
  end.

(** Rate-limited answers and connection errors are tried again; a timeout never is. *)
Definition try_again (o : outcome) : bool :=
  match o with
  | Answered r => r.(status) =? 429
  | Errored e => bool_decide (e.(kind) = Connection ∨ e.(kind) = Status 429)
  | Late => false
  end.
Definition result_of (config : RequestConfig) (o : outcome) : exec ClientError Response :=
  match o with Answered r => Ok r | Errored e => Err e | Late => Err (timeout_error config) end.

(** The wait before attempt [n], if it is not the first. *)
Definition waited (config : RequestConfig) (n : Z) (s s' : St) : Prop :=
  s'.(client) = s.(client) ∧
  s'.(trace) = s.(trace) ++ (if bool_decide (n > 0)
                             then [EvSleep (retry_backoff (n - 1) (retry_wait_min config) (retry_wait_max config))]
                             else []).

(** The outcomes of attempts [n], [n + 1], ..., each from the state the last left (logs
    apart). *)
Inductive attempted (config : RequestConfig) : Z → St → list outcome → St → Prop :=
  | attempted_none n s s' : client s' = client s → trace s' = trace s → attempted config n s [] s'
  | attempted_one n s s1 s2 s3 o os s' :
      waited config n s s1 → send_inner config s1 = (s2.1, s2.2) → outcome_of s2.1 = Some o →
      client s3 = client s2.2 → trace s3 = trace s2.2 →
      attempted config (n + 1) s3 os s' → attempted config n s (o :: os) s'.

Lemma is_retryable_errored e : is_retryable (kind e) = try_again (Errored e).
Proof.
  cbn. destruct (kind e) as [| | | | |st|]; try done. cbn. destruct (Z.eqb_spec st 429) as [->|Hn]; [done|].
  symmetry. apply bool_decide_eq_false. intros [?|[= ?]]; done.
Qed.

Local Abbreviation attempts :=
  (attempts env parse_uri builder_error refuses to_str new_decoder spare domain_str lossy debug_lossy debug_text debug_list).

Definition before_attempt (config : RequestConfig) (n : Z) (s : St) : St :=
  if bool_decide (n > 0) then
    let backoff := retry_backoff (n - 1) (retry_wait_min config) (retry_wait_max config) in
    (emit (EvSleep backoff) (note1 config.(verbosity) (bs "   Retry " ++ dec n ++ bs "/" ++ dec (max_retries config)
       ++ bs " after " ++ dec backoff ++ bs "ms") s).2).2
  else s.

Lemma before_attempt_waited config n s : waited config n s (before_attempt config n s).
Proof.
  unfold waited, before_attempt. destruct (bool_decide (n > 0)); [done|]. by rewrite app_nil_r.
Qed.

Lemma attempts_unfold remaining n config s :
  attempts remaining n config s =
  match send_inner config (before_attempt config n s) with
  | (Panic, s) => (Panic, s)
  | (Err TimerFired, s) => (Err (timeout_error config), s)
  | (Ok r, s) =>
      match remaining with
      | S remaining =>
          if is_retryable (Status r.(status)) then
            attempts remaining (n + 1) config
              (note1 config.(verbosity) (bs "   Retryable status " ++ dec r.(status) ++ bs " from " ++ config.(cfg_url)) s).2
          else (Ok r, s)
      | O => (Ok r, s)
      end
  | (Err (Raise e), s) =>
      match remaining with
      | S remaining =>
          if is_retryable e.(kind) then
            attempts remaining (n + 1) config (note1 config.(verbosity) (bs "   Retryable error: " ++ e.(message)) s).2
          else (Err e, s)
      | O => (Err e, s)
      end
  end.
Proof.
  destruct remaining; cbn [Send.attempts]; fold (before_attempt config n s);
    destruct (Send.send_inner _ _ _ _ _ _ _ _ _ _ _ _ _ _) as [[r|[e|]|] s']; done.
Qed.

Lemma attempts_spec remaining n config s :
  is_panic (attempts remaining n config s).1 = false →
  ∃ os o, attempted config n s (os ++ [o]) (attempts remaining n config s).2 ∧
    Forall (λ o, try_again o = true) os ∧ (length os ≤ remaining)%nat ∧
    (length os = remaining ∨ try_again o = false) ∧
    (attempts remaining n config s).1 = result_of config o.
Proof.
  revert n s. induction remaining as [|m IH]; intros n s; rewrite attempts_unfold;
    pose proof (before_attempt_waited config n s) as Hw;
    destruct (send_inner config (before_attempt config n s)) as [[r|[e|]|] s2] eqn:Hs; intros Hp; try done.
  all: assert (∀ o, outcome_of (fst (send_inner config (before_attempt config n s))) = Some o →
    attempted config n s [o] s2) as Hone
    by (intros o Ho; eapply attempted_one; [exact Hw|apply surjective_pairing|exact Ho|by rewrite Hs..|by constructor]).
  all: rewrite Hs in Hone; cbn [fst outcome_of] in Hone.
  - exists [], (Answered r). split_and!; [by apply Hone|constructor|done|by left|done].
  - exists [], (Errored e). split_and!; [by apply Hone|constructor|done|by left|done].
  - exists [], Late. split_and!; [by apply Hone|constructor|done|by left|done].
  - change (is_retryable (Status (status r))) with (try_again (Answered r)) in *.
    destruct (try_again (Answered r)) eqn:Et.
    + destruct (IH _ _ Hp) as (os & o & Ha & Hf & Hl & He & Hr). exists (Answered r :: os), o.
      split_and!; [|by constructor|cbn; lia|cbn; destruct He; [left; lia|by right]|done].
      eapply attempted_one; [exact Hw|apply surjective_pairing|by rewrite Hs|..|exact Ha]; by rewrite Hs.
    + exists [], (Answered r). split_and!; [by apply Hone|constructor|cbn; lia|by right|done].
  - rewrite is_retryable_errored in *. destruct (try_again (Errored e)) eqn:Et.
    + destruct (IH _ _ Hp) as (os & o & Ha & Hf & Hl & He & Hr). exists (Errored e :: os), o.
      split_and!; [|by constructor|cbn; lia|cbn; destruct He; [left; lia|by right]|done].
      eapply attempted_one; [exact Hw|apply surjective_pairing|by rewrite Hs|..|exact Ha]; by rewrite Hs.
    + exists [], (Errored e). split_and!; [by apply Hone|constructor|cbn; lia|by right|done].
  - exists [], Late. split_and!; [by apply Hone|constructor|cbn; lia|by right|done].
Qed.

(** ** The whole call *)

Definition fine (config : RequestConfig) (base : list event) (s : St) (x : exec ClientError Response * St) : Prop :=
  (∃ new, trace x.2 = trace s ++ new ∧ all_allowed (λ t, allowed config (since base t)) (trace s) new) ∧
  cache_ok parse_uri refuses (client x.2) ∧ returns x.1 (good_result config (since base (trace x.2))).

Lemma fine_later config base s s' x :
  (∃ new, trace s' = trace s ++ new ∧ all_allowed (λ t, allowed config (since base t)) (trace s) new) →
  fine config base s' x → fine config base s x.
Proof.
  intros (l & Ht & Hl) ((l' & Ht' & Hl') & H). split; [|done]. exists (l ++ l').
  rewrite Ht', Ht, (assoc_L (++)). split; [done|]. apply all_allowed_app; [done|]. by rewrite <- Ht.
Qed.

Lemma attempts_fine remaining n config base s :
  third_party → wf_config config → 0 ≤ n → cache_ok parse_uri refuses (client s) → base `prefix_of` trace s →
  fine config base s (attempts remaining n config s).
Proof.
  intros H3 Hwf. revert n s. induction remaining as [|m IH]; intros n s Hn Hs Hbase; rewrite attempts_unfold.
  all: destruct (before_attempt_waited config n s) as [Hcl Htr].
  all: assert (∃ new, trace (before_attempt config n s) = trace s ++ new ∧
    all_allowed (λ t, allowed config (since base t)) (trace s) new) as Hb by
    (eexists; split; [exact Htr|]; destruct (bool_decide (n > 0)) eqn:E0; [|apply all_allowed_nil];
     apply bool_decide_eq_true in E0; destruct Hwf as (_ & _ & _ & Hmin & Hmax);
     apply all_allowed_one; cbn; apply retry_backoff_bounds; [lia|lia|unfold DURATION_MAX_MS; lia]).
  all: apply (fine_later config base s (before_attempt config n s)); [exact Hb|].
  all: assert (base `prefix_of` trace (before_attempt config n s)) as Hb1
    by (rewrite Htr; by apply prefix_app_r).
  all: rewrite <- Hcl in Hs.
  all: pose proof (send_inner_safe config base base H3 Hwf ltac:(done) _ Hs Hb1) as (Ht & Hi & Hr).
  all: assert (base `prefix_of` trace (send_inner config (before_attempt config n s)).2) as Hb2
    by (destruct Ht as (new & -> & _); by apply prefix_app_r).
  all: destruct (send_inner config (before_attempt config n s)) as [[r|[e|]|] s2]; cbn [fst snd] in *; try done.
  - destruct (is_retryable (Status (status r))); [|done].
    eapply fine_later; [exact Ht|]. by apply (IH (n + 1) (note1 _ _ s2).2 ltac:(lia) Hi Hb2).
  - destruct (is_retryable (kind e)); [|done].
    eapply fine_later; [exact Ht|]. by apply (IH (n + 1) (note1 _ _ s2).2 ltac:(lia) Hi Hb2).
Qed.

Lemma send_fine config self tr : third_party → wf_config config → cache_ok parse_uri refuses self →
  fine config tr (mkSt self new_debug_log tr) (send config self tr).
Proof.
  intros H3 Hwf Hs. unfold Send.send. destruct (validate_proxy config) as [u|m|] eqn:Ev.
  - by apply attempts_fine.
  - split_and!; [exists []; rewrite app_nil_r; split; [done|apply all_allowed_nil]|done|done].
  - exfalso. revert Ev. unfold validate_proxy. by repeat case_match.
Qed.

(** The events of a call, each allowed after those before it. *)
Lemma send_events config self tr : third_party → wf_config config → cache_ok parse_uri refuses self →
  ∃ new, trace (send config self tr).2 = tr ++ new ∧
    (∀ pre e post, new = pre ++ e :: post → allowed config pre e) ∧ cache_ok parse_uri refuses (client (send config self tr).2) ∧
    returns (send config self tr).1 (good_result config new).
Proof.
  intros H3 Hwf Hs. destruct (send_fine config self tr H3 Hwf Hs) as ((new & Ht & Hn) & Hi & Hr). exists new.
  split_and!; [done| |done|].
  - intros pre e post He. specialize (Hn pre e post He). unfold since in Hn. cbn in Hn. by rewrite drop_app_length in Hn.
  - rewrite Ht in Hr. unfold since in Hr. by rewrite drop_app_length in Hr.
Qed.

Lemma Forall_events (P : event → Prop) config new :
  (∀ pre e post, new = pre ++ e :: post → allowed config pre e) → (∀ l e, allowed config l e → P e) → Forall P new.
Proof.
  intros H HP. apply Forall_forall. intros e He. apply list_elem_of_split in He as (pre & post & He).
  eapply HP. by apply (H pre e post).
Qed.

(** C2: with a redirect limit below the largest [u32] (at which the hop counter could
    not pass it), a call of [send] always returns, without panicking (no [unwrap] fails, the
    [unreachable!] is not reached, no date slice is cut, the redirect loop ends).  A
    response it returns is the status and headers that its final URI answered in
    this call.  That URI ends a chain of redirects that starts at the requested URL:
    every hop was really answered with that redirect status, and its Location
    resolves to the next; the chain has at most [max_redirects] hops, none unless
    redirects are followed, and when they are the final status is not a redirect.
    The body fits the cap.  On the direct path there is one answer, no redirect, and
    no peer address through a proxy. *)
Theorem send_returns_good (config : RequestConfig) (self : HyperClient) (tr : list event) :
  third_party → wf_config config → cache_ok parse_uri refuses self →
  ∃ new, trace (send config self tr).2 = tr ++ new ∧
  match (send config self tr).1 with
  | Ok r => good_result config new r
  | Err e => True
  | Panic => False
  end.
Proof.
  intros H3 Hwf Hs. destruct (send_events config self tr H3 Hwf Hs) as (new & Ht & _ & _ & Hr). by exists new.
Qed.

(** The proxy a mode goes through. *)
Definition mode_proxy (m : ConnMode) : option bytes :=
  match m with Direct _ => None | ForwardProxy p | Tunnel p _ | Socks5 p _ => Some p end.

(** The two kinds of proxy URL that a pooled or forwarded request can go through. *)
Definition http_proxy (u : Uri) : Prop :=
  u.(scheme_str) = Some (bs "http") ∨ u.(scheme_str) = Some (bs "https").
Definition socks_proxy (u : Uri) : Prop :=
  u.(scheme_str) = Some (bs "socks5") ∨ u.(scheme_str) = Some (bs "socks5h").

(** An event takes the route that its own target host requires. *)
Definition routed (config : RequestConfig) (e : event) : Prop :=
  match e with
  | EvRequest mode via req _ =>
      mode_proxy mode = effective_proxy config (host_of (r_uri req)) ∧
      match effective_proxy config (host_of (r_uri req)) with
      | None => Conn.inner via = DirectClient
      | Some p => ∃ u, parse_uri p = inr u ∧
          (http_proxy u ∧ (r_uri req).(scheme_str) = Some (bs "https") ∧ Conn.inner via = TunnelProxyClient u ∨
           socks_proxy u ∧ Conn.inner via = Socks5ProxyClient u)
      end
  | EvForward req _ =>
      ∃ p u, effective_proxy config (host_of (r_uri req)) = Some p ∧ parse_uri p = inr u ∧ http_proxy u ∧
        (r_uri req).(scheme_str) ≠ Some (bs "https")
  | EvForwardDial addr =>
      ∃ host p pu h, effective_proxy config host = Some p ∧ parse_uri p = inr pu ∧ pu.(Uri.host) = Some h ∧
        addr = h ++ bs ":" ++ dec (default 8080 pu.(port_u16))
  | EvDial addr =>
      ∃ uri, parse_uri (sanitize_uri config.(cfg_url)) = inr uri ∧
        match effective_proxy config (host_of uri) with
        | Some p => ∃ c, parse_proxy_url p = Ok c ∧ addr = c.(p_host) ++ bs ":" ++ dec c.(p_port)
        | None => addr = default (host_of uri) config.(resolve_ip) ++ bs ":" ++ dec (target_port uri)
        end
  | EvTunnel sch host port _ =>
      ∃ uri p c, parse_uri (sanitize_uri config.(cfg_url)) = inr uri ∧ effective_proxy config (host_of uri) = Some p ∧
        parse_proxy_url p = Ok c ∧ sch = c.(Proxy.scheme) ∧ host = host_of uri ∧ port = target_port uri
  | _ => True
  end.

Lemma conn_mode_route config uri m : conn_mode config uri = Ok m →
  mode_proxy m = effective_proxy config (host_of uri) ∧
  match m with
  | Direct _ => True
  | ForwardProxy p => ∃ u, parse_uri p = inr u ∧ http_proxy u ∧ uri.(scheme_str) ≠ Some (bs "https")
  | Tunnel p _ => ∃ u, parse_uri p = inr u ∧ http_proxy u ∧ uri.(scheme_str) = Some (bs "https")
  | Socks5 p _ => ∃ u, parse_uri p = inr u ∧ socks_proxy u
  end.
Proof.
  unfold Conn.conn_mode. fold (host_of uri). destruct (effective_proxy config (host_of uri)) as [p|]; [|by intros [= <-]].
  intros H. inv_bind. match goal with H : proxy_uri_of _ p = Ok ?u |- _ => apply proxy_uri_of_ok in H; rename u into pu end.
  assert (∀ s, s ≠ [] → default [] (scheme_str pu) = s → scheme_str pu = Some s) as Hs
    by (intros s Hne; destruct (scheme_str pu); cbn; congruence).
  destruct (bool_decide _ || bool_decide _) eqn:E1 in *.
  - assert (http_proxy pu) as Hp
      by (apply orb_true_iff in E1 as [E|E]; apply bool_decide_eq_true in E; [left|right]; by apply Hs).
    clear E1. case_bool_decide; inv_bind; (split; [done|by exists pu]).
  - clear E1. destruct (bool_decide _ || bool_decide _) eqn:E2 in *; [|done]. inv_bind. split; [done|]. exists pu. split; [done|].
    apply orb_true_iff in E2 as [E|E]; apply bool_decide_eq_true in E; [left|right]; by apply Hs.
Qed.

Lemma allowed_routed config l e : allowed config l e → routed config e.
Proof.
  destruct e; cbn; try done.
  - intros (Hm & [k Hk] & _ & Hin & _). apply conn_mode_route in Hm as [<- Hr]. split; [done|].
    destruct mode; [done..| |]; cbn in *; destruct Hin as (u & Hu & ->), Hr as (u' & Hu' & Hr);
      (exists u; split; [done|]); rewrite Hu in Hu'; injection Hu' as <-; [left|right]; tauto.
  - intros (uri & pc & Hu & Hc & ->). exists uri. split; [done|]. unfold chosen_proxy in Hc.
    destruct (effective_proxy config (host_of uri)) as [p|]; [|by subst pc].
    destruct Hc as (c & Hp & ->). by exists c.
  - intros (uri & c & Hu & Hc & -> & -> & ->). unfold chosen_proxy in Hc.
    destruct (effective_proxy config (host_of uri)) as [p|] eqn:Hp; [|done].
    destruct Hc as (c' & Hc & [= <-]). by exists uri, p, c.
  - intros (uri & p & pu & h & Hm & Hp & Hh & ->). apply conn_mode_route in Hm as [Hr _].
    by exists (host_of uri), p, pu, h.
  - intros [[p Hm] _]. apply conn_mode_route in Hm as [Hr (u & Hu & Hs & Hn)]. by exists p, u.
Qed.

(** C3: every connection and request of a call, on every hop of the redirect
    chain and on every attempt, takes the route its own target host requires.  A
    pooled request to a host without an effective proxy, or under no_proxy, goes
    through a client that connects directly; to a host with one, through a client
    that tunnels through that very proxy, by CONNECT for an https target behind an
    http or https proxy, by SOCKS5 behind a socks5 proxy; the rest, http behind an
    http proxy, is forwarded to the proxy's address.  A direct stream dials the
    proxy, or the target or its [resolve_ip], and tunnels to the target's own host
    and port.  This holds whatever calls filled the cache, as long as its entries
    were built by the client ([cache_ok], kept by every call). *)
Theorem send_routes_by_target (config : RequestConfig) (self : HyperClient) (tr : list event) :
  third_party → wf_config config → cache_ok parse_uri refuses self →
  ∃ new, trace (send config self tr).2 = tr ++ new ∧ Forall (routed config) new.
Proof.
  intros H3 Hwf Hs. destruct (send_events config self tr H3 Hwf Hs) as (new & Ht & Hn & _).
  exists new. split; [done|]. eapply Forall_events; [exact Hn|apply allowed_routed].
Qed.

(** An event uses the TLS settings that [config] asks for. *)
Definition tls_as_configured (config : RequestConfig) (e : event) : Prop :=
  match e with
  | EvRequest mode via _ _ =>
      mode_tls mode = Some (from_config config) ∧ ssl_settings refuses config pooled_alpn = Ok (ssl (connector via))
  | EvTls id st =>
      ssl_settings refuses config direct_alpn = Ok st ∧ verify_peer st = should_verify_certs config ∧
      (should_verify_certs config = true → is_Some id.(pinned))
  | _ => True
  end.

Lemma allowed_tls config l e : allowed config l e → tls_as_configured config e.
Proof.
  destruct e; cbn; try done.
  - intros (Hm & [k Hk] & Hs & _). split; [|done]. rewrite Hk. f_equal. by eapply conn_mode_tls.
  - intros (uri & _ & _ & Hs & ->). split_and!; [done|by eapply ssl_settings_verify|]. intros ->. by eexists.
Qed.


(** C4: whatever Cookie text the redirect loop adds to a request is what the
    rules of [ChainCookies::header_for] give for that request's own URI, from a
    chain of Set-Cookie headers that were all received earlier in this same call,
    each stored for the URI it was received from; none is added with
    [redirect_cookies] off, nor on the direct path; and the rest of the request is
    built from the caller's configuration alone, so nothing of another call is ever
    sent. *)
Theorem send_cookies_scoped (config : RequestConfig) (self : HyperClient) (tr : list event) :
  third_party → wf_config config → cache_ok parse_uri refuses self →
  ∃ new, trace (send config self tr).2 = tr ++ new ∧
    ∀ earlier e later, new = earlier ++ e :: later →
      match e with
      | EvRequest _ _ req _ => hop_request config earlier false req
      | EvForward req _ => hop_request config earlier true req
      | EvDirect h2 req _ => ∃ uri origin_form mh, build_request uri config origin_form mh None = Ok req
      | _ => True
      end.
Proof.
  intros H3 Hwf Hs. destruct (send_events config self tr H3 Hwf Hs) as (new & Ht & Hn & _).
  exists new. split; [done|]. intros pre e post He. specialize (Hn pre e post He).
  destruct e; try done; [apply Hn| |apply Hn]. destruct Hn as [_ [uri H]]. by eexists _, _, _.
Qed.

(** C6: a call makes at least one attempt and at most [max_retries + 1].  Every
    attempt but the last ended in a 429 or a connection error; the last one ended
    otherwise (a timeout is never retried) or used the last retry, and its outcome,
    a 429 included, is what the call returns.  Before retry [n] the client sleeps
    the back-off of [n - 1]. *)
Theorem send_retry_policy (config : RequestConfig) (self : HyperClient) (tr : list event) :
  third_party → wf_config config → cache_ok parse_uri refuses self → exec_ok (validate_proxy config) = Some tt →
  ∃ os o, attempted config 0 (mkSt self new_debug_log tr) (os ++ [o]) (send config self tr).2 ∧
    Forall (λ o, try_again o = true) os ∧ zlen os ≤ max_retries config ∧
    (zlen os = max_retries config ∨ try_again o = false) ∧
    (send config self tr).1 = result_of config o.
Proof.
  intros H3 Hwf Hs Hv. destruct (send_events config self tr H3 Hwf Hs) as (new & _ & _ & _ & Hr).
  unfold Send.send in *. destruct (validate_proxy config); try done.
  destruct (attempts_spec (Z.to_nat (max_retries config)) 0 config (mkSt self new_debug_log tr)) as (os & o & Ha & Hf & Hl & He & Hres).
  { by destruct (attempts _ _ _ _) as [[]]. }
  destruct Hwf as (_ & _ & Hm & _). exists os, o. unfold zlen. split_and!; [done|done|lia| |done].
  destruct He; [left; lia|by right].
Qed.
End props.
