(* ===== verification/SendExamples.v ===== *)
(** * A concrete world (witnesses for the properties of sending)

    A small network with one redirect, one rate-limited answer and a proxy; the
    theorems of [SendProps] are applied in it, and two calls show what a shared
    client reports about earlier ones. *)
From stdpp Require Import gmap.
From S2P Require Import Prelude RustStd NetAddr ClientError Uri Config Cookies CookiesProps.
From S2P Require Import Wire Proxy ProxyProps Request RequestProps Decompress DecompressProps Response.
From S2P Require Import Conn SharedCache Client ClientProps ConnectProps Send SendProps.

#[local] Existing Instance grouped_headers.

Definition uri_of (s host path : string) : Uri :=
  mkUri (Some (bs s)) (Some (bs host)) None (bs path) None (Some (bs host)) (bs s ++ bs "://" ++ bs host ++ bs path).

Definition start_uri : Uri := uri_of "http" "a.test" "/".
Definition next_uri : Uri := uri_of "https" "b.a.test" "/next".

Definition toy_parse (s : bytes) : bytes + Uri :=
  if bool_decide (s = bs "/") then inr (mkUri None None None (bs "/") None None (bs "/"))
  else if bool_decide (s = uri_text start_uri) then inr start_uri
  else if bool_decide (s = uri_text next_uri) then inr next_uri
  else if bool_decide (s = bs "http://proxy:3128") then
    inr (mkUri (Some (bs "http")) (Some (bs "proxy")) (Some 3128) (bs "/") None (Some (bs "proxy:3128")) s)
  else inl (bs "invalid uri character").

Definition toy_to_str (b : bytes) : option bytes := if bool_decide (ascii b) then Some b else None.

Definition is_sleep (e : event) : bool := match e with EvSleep _ => true | _ => false end.

(** The start page redirects with a cookie; the next one is rate-limited once. *)
Definition toy_answer (tr : list event) (req : Request) : HttpResponse :=
  if bool_decide (uri_text (r_uri req) = uri_text start_uri) then
    mkHttp 302 [(bs "location", uri_text next_uri); (bs "set-cookie", bs "sid=1; Domain=a.test")] []
  else if existsb is_sleep tr then mkHttp 200 [(bs "content-encoding", bs "gzip")] [Data [1; 104]; Data [105]]
  else mkHttp 429 [] [].

Definition toy_cert (name : bytes) : CertInfo := mkCert (Some name) [name] [] None None None None.

(** Each host's connection is opened once and then reused. *)
Definition already (uri : Uri) (e : event) : bool :=
  match e with EvRequest _ _ req _ => bool_decide (uri_text (r_uri req) = uri_text uri) | _ => false end.
Definition toy_opened (tr : list event) (req : Request) : list opened :=
  if existsb (already (r_uri req)) tr then []
  else [mkOpened (r_uri req) (Some (V4 [10; 0; 0; 1])) (Some (Some (toy_cert (host_of (r_uri req)))))].

Definition toy_env : Env := {|
  env_request tr mode via req := (toy_opened tr req, Done (toy_answer tr req));
  env_dial tr addr := Within (Done (mkDialed (mkTcp [] None [] []) (Some (V4 [10; 0; 0; 1])) None));
  env_tunnel tr := RunsThrough;
  env_ssl_setup tr id := None;
  env_tls tr := Within (Done (mkHandshake None None));
  env_handshake tr h2 := Done tt;
  env_direct tr req := Done (toy_answer tr req);
  env_forward_dial tr addr := Done tt;
  env_forward tr req := Done (toy_answer tr req);
  env_elapsed_ms tr := zlen tr;
  env_now_unix tr := 1700000000;
  env_others place tr c := c
|}.

Definition toy_config (px : option bytes) : RequestConfig :=
  mkConfig (uri_text start_uri) None (Some [(bs "X-A", bs "1")]) None None None (Some true) (Some 3) None None
    px (match px with Some _ => [bs "b.a.test"] | None => [] end) None None None None None None None None None None 0.

Definition toy_psl (d : bytes) : option bytes :=
  if bool_decide (d = bs "a.test") || ends_with d (bs ".a.test") then Some (bs "a.test") else None.

Local Abbreviation toy_send :=
  (send toy_env toy_parse (λ _, None) (λ _, None) toy_to_str toy_decoder (λ _, 2) toy_psl (λ b, b) (λ b, b)
    (λ _, []) (λ _, [])).

Lemma toy_third_party : third_party toy_env toy_parse (λ _, None) toy_to_str.
Proof.
  split_and!; [|by eexists|intros; exists []; constructor]. intros b t. unfold toy_to_str. destruct (bool_decide (ascii b)) eqn:E; [|done].
  intros [= <-]. by apply bool_decide_eq_true in E.
Qed.

Lemma toy_wf px : wf_config (toy_config px).
Proof. unfold wf_config. vm_compute. by split_and!. Qed.

Definition toy_status (x : exec ClientError Response * St) : option (Z * Z * bytes) :=
  match x.1 with Ok r => Some (status r, zlen (redirect_chain r), body_bytes r) | _ => None end.

Lemma send_returns_good_witness :
  toy_status (toy_send (toy_config None) HyperClient_new []) = Some (200, 1, bs "hi") ∧
  ∃ new, trace (toy_send (toy_config None) HyperClient_new []).2 = [] ++ new ∧
  match (toy_send (toy_config None) HyperClient_new []).1 with
  | Ok r => good_result toy_parse toy_to_str (toy_config None) new r
  | Err e => True
  | Panic => False
  end.
Proof.
  split; [vm_compute; reflexivity|].
  pose proof (send_returns_good toy_env toy_parse (λ _, None) (λ _, None) toy_to_str toy_decoder (λ _, 2) toy_psl
    (λ b, b) (λ b, b) (λ _, []) (λ _, []) (toy_config None) HyperClient_new [] toy_third_party (toy_wf None)
    (cache_ok_empty _ _)) as H.
  exact H.
Defined.

(** With a proxy, the start host is forwarded, and the next one, which is https, is
    tunnelled, or reached directly where no_proxy lists it. *)
Definition tunnel_config : RequestConfig :=
  mkConfig (uri_text start_uri) None None None None None (Some true) (Some 3) None None
    (Some (bs "http://proxy:3128")) [] None None None None None None None None None None 0.
Definition pooled_ways (t : list event) : list AnyClient :=
  omap (λ e, match e with EvRequest _ via _ _ => Some (Conn.inner via) | _ => None end) t.

Lemma send_routes_by_target_witness :
  (∃ u, pooled_ways (trace (toy_send tunnel_config HyperClient_new []).2) = [TunnelProxyClient u; TunnelProxyClient u]) ∧
  (∃ new, trace (toy_send tunnel_config HyperClient_new []).2 = [] ++ new ∧ Forall (routed toy_parse tunnel_config) new) ∧
  pooled_ways (trace (toy_send (toy_config (Some (bs "http://proxy:3128"))) HyperClient_new []).2) =
    [DirectClient; DirectClient] ∧
  ∃ new, trace (toy_send (toy_config (Some (bs "http://proxy:3128"))) HyperClient_new []).2 = [] ++ new ∧
    Forall (routed toy_parse (toy_config (Some (bs "http://proxy:3128")))) new.
Proof.
  assert (∀ config, wf_config config → ∃ new, trace (toy_send config HyperClient_new []).2 = [] ++ new ∧
    Forall (routed toy_parse config) new) as H.
  { intros config Hwf. exact (send_routes_by_target toy_env toy_parse (λ _, None) (λ _, None) toy_to_str toy_decoder (λ _, 2) toy_psl
      (λ b, b) (λ b, b) (λ _, []) (λ _, []) config HyperClient_new [] toy_third_party Hwf (cache_ok_empty _ _)). }
  split_and!; [eexists; vm_compute; reflexivity|apply H; unfold wf_config; vm_compute; by split_and!|vm_compute; reflexivity|].
  apply H, toy_wf.
Defined.


Definition sent_cookies (e : event) : list bytes :=
  match e with
  | EvRequest _ _ req _ => map snd (List.filter (named (bs "cookie")) (r_headers req))
  | _ => []
  end.

Lemma send_cookies_scoped_witness :
  flat_map sent_cookies (trace (toy_send (toy_config None) HyperClient_new []).2) = [bs "sid=1"; bs "sid=1"] ∧
  ∃ new, trace (toy_send (toy_config None) HyperClient_new []).2 = [] ++ new ∧
    ∀ earlier e later, new = earlier ++ e :: later →
      match e with
      | EvRequest _ _ req _ => hop_request toy_parse (λ _, None) toy_to_str toy_psl (toy_config None) earlier false req
      | EvForward req _ => hop_request toy_parse (λ _, None) toy_to_str toy_psl (toy_config None) earlier true req
      | EvDirect h2 req _ => ∃ uri origin_form mh,
          build_request toy_parse (λ _, None) uri (toy_config None) origin_form mh None = Ok req
      | _ => True
      end.
Proof.
  split; [vm_compute; reflexivity|].
  pose proof (send_cookies_scoped toy_env toy_parse (λ _, None) (λ _, None) toy_to_str toy_decoder (λ _, 2) toy_psl
    (λ b, b) (λ b, b) (λ _, []) (λ _, []) (toy_config None) HyperClient_new [] toy_third_party (toy_wf _) (cache_ok_empty _ _)) as H.
  exact H.
Defined.

Lemma send_retry_policy_witness :
  List.filter is_sleep (trace (toy_send (toy_config None) HyperClient_new []).2) = [EvSleep 1000] ∧
  ∃ os o, attempted toy_env toy_parse (λ _, None) (λ _, None) toy_to_str toy_decoder (λ _, 2) toy_psl
      (λ b, b) (λ b, b) (λ _, []) (λ _, []) (toy_config None) 0 (mkSt HyperClient_new new_debug_log []) (os ++ [o])
      (toy_send (toy_config None) HyperClient_new []).2 ∧
    Forall (λ o, try_again o = true) os ∧ zlen os ≤ 1 ∧ (zlen os = 1 ∨ try_again o = false) ∧
    (toy_send (toy_config None) HyperClient_new []).1 = result_of (toy_config None) o.
Proof.
  split; [vm_compute; reflexivity|].
  pose proof (send_retry_policy toy_env toy_parse (λ _, None) (λ _, None) toy_to_str toy_decoder (λ _, 2) toy_psl
    (λ b, b) (λ b, b) (λ _, []) (λ _, []) (toy_config None) HyperClient_new [] toy_third_party (toy_wf _)
    (cache_ok_empty _ _) eq_refl) as H.
  exact H.
Defined.

(** ** What a shared client reports about earlier connections

    The connector writes the certificate of each handshake into one slot per cached
    client, and a reused connection writes nothing: a second call to the first host
    is answered over its own connection but reports the other host's certificate. *)
Definition plain_config (u : Uri) : RequestConfig := RequestConfig_new (uri_text u).
Definition reported (x : exec ClientError Response * St) : option (option bytes) :=
  match x.1 with Ok r => Some (cert_info r ≫= common_name) | _ => None end.

Definition other_uri : Uri := uri_of "https" "other.test" "/".
Definition two_hosts (s : bytes) : bytes + Uri :=
  if bool_decide (s = uri_text next_uri) then inr next_uri
  else if bool_decide (s = uri_text other_uri) then inr other_uri else toy_parse s.
Local Abbreviation call u self tr :=
  (send toy_env two_hosts (λ _, None) (λ _, None) toy_to_str toy_decoder (λ _, 2) toy_psl (λ b, b) (λ b, b)
    (λ _, []) (λ _, []) (plain_config u) self tr).

Example stale_certificate :
  let first := call next_uri HyperClient_new [] in
  let second := call other_uri (client first.2) (trace first.2) in
  let third := call next_uri (client second.2) (trace second.2) in
  (reported first, reported second, reported third) =
  (Some (Some (bs "b.a.test")), Some (Some (bs "other.test")), Some (Some (bs "other.test"))).
Proof. vm_compute. reflexivity. Qed.

(** The connect timeout of a pooled client is that of the call that built it: it is
    not part of the cache key. *)
Definition with_timeout (t : Z) (c : RequestConfig) : RequestConfig :=
  mkConfig (cfg_url c) (cfg_method c) (cfg_headers c) (cfg_body c) (Some t) (max_body_size c)
    (follow_redirects c) (max_redirects c) (redirect_cookies c) (verify_certs c) (proxy c) (no_proxy c)
    (cipher_string c) (min_tls_version c) (max_tls_version c) (retries c) (retry_wait_min_ms c)
    (retry_wait_max_ms c) (raw_path c) (request_target c) (resolve_ip c) (alpn_protocols c) (verbosity c).

Example stale_connect_timeout :
  let c1 := with_timeout 1 (plain_config next_uri) in
  let c2 := with_timeout 60 (plain_config next_uri) in
  let used c self := match get_or_build two_hosts (λ _, None) self c (Direct (from_config c)) with
                     | Ok (cached, self) => (Some (connect_timeout (connector cached)), self)
                     | _ => (None, self) end in
  (used c2 (used c1 HyperClient_new).2).1 = Some 1.
Proof. vm_compute. reflexivity. Qed.

(** The host of a URI with an IPv6 literal is bracketed, so it is taken for a name:
    it is sent as SNI and pinned as a name. *)
Example ipv6_literal_taken_for_a_name :
  ssl_identity (bs "[::1]") true = mkIdentity (Some (bs "[::1]")) (Some (inr (bs "[::1]"))).
Proof. vm_compute. reflexivity. Qed.

(** ** Calls that share a client *)

Definition next_config : RequestConfig := RequestConfig_new (uri_text next_uri).
Definition next_mode : ConnMode := Direct (from_config next_config).
Definition next_peer : IpAddr := V4 [10; 0; 0; 2].
Definition next_opened : opened := mkOpened next_uri (Some next_peer) (Some (Some (toy_cert (bs "b.a.test")))).
Definition next_entry : CachedClient :=
  mkCached DirectClient (mkConnector (mkSsl false None None None pooled_alpn) 10) None ∅.
Definition after_build : HyperClient := <[next_mode := next_entry]> HyperClient_new.
Definition after_connection : HyperClient := <[next_mode := connector_call next_entry next_opened]> after_build.

(** One call builds the entry, its connector opens a connection, and another call for
    the same mode finds the entry. *)
Lemma shared_cache_witness :
  peer_slot (connector_call next_entry next_opened) !! bs "b.a.test:443" = Some next_peer ∧
  cache_ok toy_parse (λ _, None) after_connection ∧
  ∃ o, (next_mode, o) ∈ [(next_mode, next_opened)] ∧ peer_slot_key (o_uri o) = Some (bs "b.a.test:443") ∧
    o_peer o = Some next_peer.
Proof.
  assert (OpenSslConnector_new (λ _, None) next_config = Ok (connector next_entry)) as Hc by (vm_compute; reflexivity).
  assert (get_or_build toy_parse (λ _, None) HyperClient_new next_config next_mode = Ok (next_entry, after_build)) as Hb.
  { unfold get_or_build, HyperClient_new. rewrite lookup_empty, Hc. reflexivity. }
  assert (after_build !! next_mode = Some next_entry) as Hl by apply lookup_insert_eq.
  assert (after_connection !! next_mode = Some (connector_call next_entry next_opened)) as Hl' by apply lookup_insert_eq.
  assert (cache_steps toy_parse (λ _, None) HyperClient_new ([] ++ [(next_mode, next_opened)] ++ []) after_connection) as H1.
  { eapply steps_more; [eapply (step_request _ _ _ next_config next_uri next_mode); [reflexivity|by eexists|exact Hb]|].
    eapply steps_more; [by apply step_connection|constructor]. }
  assert (cache_steps toy_parse (λ _, None) after_connection ([] ++ []) after_connection) as H2.
  { eapply steps_more; [|constructor].
    eapply (step_request _ _ _ next_config next_uri next_mode (connector_call next_entry next_opened)); [reflexivity|by eexists|].
    unfold get_or_build. rewrite Hl'. reflexivity. }
  destruct (shared_cache toy_parse (λ _, None) _ _ _ _ H1 H2) as (Hok & _ & Hp & _).
  split; [vm_compute; reflexivity|]. split; [exact Hok|].
  apply (Hp next_mode (connector_call next_entry next_opened)); [exact Hl'|vm_compute; reflexivity].
Defined.
