(* ===== verification/SendLog.v ===== *)
(** * What a call writes to standard error (debug_record of src/debug.rs, through send)

    Every computation of the client keeps the log and standard error in step: each
    message that is collected is also printed, with its prefix, when the verbosity is
    at least 1, and nothing else is. *)
From stdpp Require Import gmap.
From S2P Require Import Prelude RustStd NetAddr ClientError Uri Config Cookies Wire.
From S2P Require Import Proxy Request Decompress Response Conn Client Send SendProps.

(** The lines on standard error for some messages. *)
Definition echoed (verbosity : Z) (msgs : list bytes) : list bytes :=
  if 1 <=? verbosity then map (app (bs "[blasthttp] ")) msgs else [].

Lemma echoed_app v a b : echoed v (a ++ b) = echoed v a ++ echoed v b.
Proof. unfold echoed. destruct (1 <=? v); [apply map_app|done]. Qed.

(** ** The judgments *)

Definition in_step (v : Z) (l : DebugLog) : Prop := stderr l = echoed v (messages l).

(** A computation keeps the two in step, however it ends. *)
Definition logs (v : Z) {A} (m : net A) : Prop := ∀ s, in_step v s.(log) → in_step v (m s).2.(log).

(** What a computation gives when it succeeds, with the state it leaves. *)
Definition gives {A} (m : net A) (Q : A → St → Prop) : Prop := ∀ s a s', m s = (Ok a, s') → Q a s'.

Lemma in_step_new v : in_step v new_debug_log.
Proof. unfold in_step, echoed. cbn. by destruct (1 <=? v). Qed.

Lemma in_step_record v l msg : in_step v l → in_step v (debug_record l v 1 msg).
Proof.
  unfold in_step. cbn. intros ->. rewrite echoed_app. unfold echoed. destruct (Z.leb_spec 1 v).
  - by rewrite bool_decide_true by lia.
  - by rewrite bool_decide_false by lia.
Qed.

Create HintDb logs discriminated.

Lemma logs_bind {A B} v (m : net A) (k : A → net B) : logs v m → (∀ a, logs v (k a)) → logs v (m ≫= k).
Proof.
  intros Hm Hk s Hs. unfold mbind, net_bind. specialize (Hm s Hs). destruct (m s) as [[a|e|] s']; cbn in *; [|done..].
  by apply Hk.
Qed.

(** A computation that leaves the log alone. *)
Lemma logs_same {A} v (m : net A) : (∀ s, (m s).2.(log) = s.(log)) → logs v m.
Proof. intros Hm s Hs. by rewrite Hm. Qed.

Lemma logs_note1 v msg : logs v (note1 v msg).
Proof. intros s Hs. by apply in_step_record. Qed.
Lemma logs_notes v msgs : logs v (notes v msgs).
Proof.
  induction msgs as [|m msgs IH]; cbn [notes]; [by apply logs_same|]. apply logs_bind; [apply logs_note1|done].
Qed.
Lemma logs_ret {A} v (a : A) : logs v (mret a).
Proof. by apply logs_same. Qed.
Lemma logs_raise {A} v e : logs v (raise (A := A) e).
Proof. by apply logs_same. Qed.
Lemma logs_lift {A} v (r : exec ClientError A) : logs v (lift r).
Proof. by apply logs_same. Qed.
Lemma logs_total {A} v (r : exec Empty_set A) : logs v (total r).
Proof. by apply logs_same. Qed.
Lemma logs_answer {A} v (r : answer A) f : logs v (io_lift_net r f).
Proof. by apply logs_same. Qed.
Lemma logs_timed {A} v (r : timed A) e f : logs v (timed_net r e f).
Proof. by destruct r; apply logs_same. Qed.
Lemma logs_emit v e : logs v (emit e).
Proof. by apply logs_same. Qed.
Lemma logs_get_trace v : logs v get_trace.
Proof. by apply logs_same. Qed.
Lemma logs_get_log v : logs v get_log.
Proof. by apply logs_same. Qed.
Lemma logs_others env v place : logs v (others env place).
Proof. by apply logs_same. Qed.
Lemma logs_opened v mode os : logs v (apply_opened mode os).
Proof. by apply logs_same. Qed.
Lemma logs_elapsed env v : logs v (elapsed env).
Proof. by apply logs_same. Qed.
#[export] Hint Resolve logs_note1 logs_notes logs_ret logs_raise logs_lift logs_total logs_answer logs_timed
  logs_emit logs_get_trace logs_get_log logs_others logs_opened logs_elapsed : logs.

(** Goes through binds, pairs and branches; the leaves are in the database. *)
Ltac step_logs :=
  repeat first
    [ progress cbv zeta
    | solve [auto with logs]
    | apply logs_bind; [|intros ?]
    | match goal with |- logs _ (match ?x with _ => _ end) => destruct x end ].

Lemma gives_bind {A B} (m : net A) (k : A → net B) Q : (∀ a, gives (k a) Q) → gives (m ≫= k) Q.
Proof.
  intros Hk s b s'. unfold mbind, net_bind. destruct (m s) as [[a|e|] s1]; [|discriminate..]. by apply Hk.
Qed.
Lemma gives_raise {A} e (Q : A → St → Prop) : gives (raise e) Q.
Proof. intros s a s'. discriminate. Qed.

Section client.
Context {R : Type} `{!Read R} `{Headers : !HeaderMap}.
Context (env : Env) (parse_uri : bytes → bytes + Uri) (builder_error : Request → option bytes)
  (refuses : ssl_call → option bytes) (to_str : bytes → option bytes)
  (new_decoder : flavor → bytes → R) (spare : list bytes → Z) (domain_str : bytes → option bytes)
  (lossy debug_lossy : bytes → bytes) (debug_text : option bytes → bytes) (debug_list : list bytes → bytes).

Local Abbreviation send_inner :=
  (send_inner env parse_uri builder_error refuses to_str new_decoder spare domain_str lossy debug_lossy debug_text debug_list).
Local Abbreviation attempts :=
  (attempts env parse_uri builder_error refuses to_str new_decoder spare domain_str lossy debug_lossy debug_text debug_list).
Local Abbreviation send :=
  (send env parse_uri builder_error refuses to_str new_decoder spare domain_str lossy debug_lossy debug_text debug_list).

(** ** Every part of a call *)

Lemma logs_decode_body v enc raw cut mb : logs v (decode_body new_decoder spare v enc raw cut mb).
Proof. unfold decode_body. step_logs. Qed.
#[local] Hint Resolve logs_decode_body : logs.

Lemma logs_parse_response http config : logs config.(verbosity) (parse_response to_str new_decoder spare http config).
Proof. unfold parse_response. step_logs. Qed.
Lemma logs_note_request v req t : logs v (note_request to_str v req t).
Proof. apply logs_notes. Qed.
#[local] Hint Resolve logs_parse_response logs_note_request : logs.

Lemma logs_dispatch_request mode cached uri config rc : logs config.(verbosity)
  (dispatch_request env parse_uri builder_error to_str new_decoder spare mode cached uri config rc).
Proof. unfold dispatch_request. step_logs. Qed.

Lemma logs_dispatch_forward p uri config rc : logs config.(verbosity)
  (dispatch_forward_proxy env parse_uri builder_error to_str new_decoder spare p uri config rc).
Proof. unfold dispatch_forward_proxy. step_logs. Qed.

Lemma logs_open_tunnel p host port config tcp :
  logs config.(verbosity) (open_tunnel env lossy debug_lossy p host port config tcp).
Proof. unfold open_tunnel. step_logs; by apply logs_same. Qed.

Lemma logs_start_tls host config tcp peer : logs config.(verbosity) (start_tls env refuses host config tcp peer).
Proof. unfold start_tls. step_logs. Qed.
#[local] Hint Resolve logs_dispatch_request logs_dispatch_forward logs_open_tunnel logs_start_tls : logs.

Lemma logs_connect_stream uri config :
  logs config.(verbosity) (connect_stream env refuses lossy debug_lossy uri config).
Proof. unfold connect_stream. step_logs. Qed.
#[local] Hint Resolve logs_connect_stream : logs.

Lemma logs_dispatch_direct uri config : logs config.(verbosity)
  (dispatch_direct env parse_uri builder_error refuses to_str new_decoder spare lossy debug_lossy uri config).
Proof. unfold dispatch_direct. step_logs. Qed.

Lemma logs_note_status v st : logs v (note_status env v st).
Proof. unfold note_status. step_logs. Qed.
#[local] Hint Resolve logs_dispatch_direct logs_note_status : logs.

Lemma logs_get_or_build v config mode : logs v (λ s,
  match get_or_build parse_uri refuses s.(client) config mode with
  | Ok (cached, cl) => (Ok cached, mkSt cl s.(log) s.(trace))
  | Err e => (Err (Raise e), s)
  | Panic => (Panic, s)
  end : exec stop CachedClient * St).
Proof. apply logs_same. intros s. by destruct (get_or_build _ _ _ _ _) as [[]| |]. Qed.

Lemma logs_cached_entry v mode : logs v (cached_entry env mode).
Proof. unfold cached_entry. step_logs. by apply logs_same. Qed.
#[local] Hint Resolve logs_get_or_build logs_cached_entry : logs.

Lemma logs_exchange config uri rc : logs config.(verbosity)
  (exchange env parse_uri builder_error refuses to_str new_decoder spare config uri rc).
Proof. unfold exchange. step_logs. Qed.

Lemma logs_walk_cookies v chain hs uri next hc : logs v (walk_cookies env domain_str v chain hs uri next hc).
Proof. unfold walk_cookies. step_logs. Qed.
#[local] Hint Resolve logs_exchange logs_walk_cookies : logs.

Lemma logs_follow config st resp peer : logs config.(verbosity) (follow env parse_uri domain_str config st resp peer).
Proof. unfold follow. step_logs. Qed.

Lemma logs_finish config st resp cached peer :
  logs config.(verbosity) (finish env debug_text debug_list config st resp cached peer).
Proof. unfold finish. step_logs. Qed.
#[local] Hint Resolve logs_follow logs_finish : logs.

Lemma logs_redirect_loop fuel config st : logs config.(verbosity)
  (redirect_loop env parse_uri builder_error refuses to_str new_decoder spare domain_str debug_text debug_list fuel config st).
Proof.
  revert st. induction fuel as [|fuel IH]; intros st; cbn [redirect_loop]; [by apply logs_same|]. step_logs.
Qed.
#[local] Hint Resolve logs_redirect_loop : logs.

Lemma logs_send_inner config : logs config.(verbosity) (send_inner config).
Proof. unfold Send.send_inner, send_direct. step_logs. Qed.

(** ** The response *)

(** A response of the loop carries the messages so far, and none of its caches is
    filled. *)
Definition fresh_response (r : Response) (s : St) : Prop :=
  debug_log r = messages s.(log) ∧
  body_cache r = None ∧ raw_headers_cache r = None ∧ cookies_cache r = None ∧ hash_cache r = None.

Lemma gives_response uri config resp ms chain cert peer :
  gives (l ← get_log; mret (to_response uri config resp ms chain cert peer l)) fresh_response.
Proof. intros s a s'. intros [= <- <-]. done. Qed.

Lemma gives_redirect_loop fuel config st :
  gives (redirect_loop env parse_uri builder_error refuses to_str new_decoder spare domain_str debug_text debug_list fuel config st)
        fresh_response.
Proof.
  revert st. induction fuel as [|fuel IH]; intros st; cbn [redirect_loop]; [by intros ???|].
  apply gives_bind. intros [resp mode]. apply gives_bind. intros []. apply gives_bind. intros cached. cbv zeta.
  destruct (is_redirect _ && _).
  - apply gives_bind. apply IH.
  - unfold finish. cbv zeta. do 3 (apply gives_bind; intros ?). apply gives_response.
Qed.

Lemma gives_send_inner config : gives (send_inner config) fresh_response.
Proof.
  unfold Send.send_inner. do 2 (apply gives_bind; intros ?). destruct (_ || _); [|apply gives_redirect_loop].
  unfold send_direct. apply gives_bind. intros [[resp cert] peer]. do 2 (apply gives_bind; intros ?).
  apply gives_response.
Qed.

(** ** The whole call *)

Definition fresh_result (x : exec ClientError Response * St) : Prop := ∀ r, x.1 = Ok r → fresh_response r x.2.

Lemma logs_before config n s : in_step config.(verbosity) s.(log) → in_step config.(verbosity) (before_attempt config n s).(log).
Proof. intros Hs. unfold before_attempt. destruct (bool_decide _); [by apply in_step_record|done]. Qed.

Lemma attempts_logs remaining n config s : in_step config.(verbosity) s.(log) →
  in_step config.(verbosity) (attempts remaining n config s).2.(log) ∧ fresh_result (attempts remaining n config s).
Proof.
  revert n s. induction remaining as [|remaining IH]; intros n s Hs; rewrite attempts_unfold;
    pose proof (logs_send_inner config _ (logs_before config n s Hs)) as Hl;
    pose proof (gives_send_inner config (before_attempt config n s)) as Hg;
    destruct (send_inner config (before_attempt config n s)) as [[r|[e|]|] s2]; cbn [snd] in Hl.
  all: try (split; [exact Hl|intros ? [=]]; fail).
  - split; [done|]. intros ? [= <-]. by apply (Hg _ _ eq_refl).
  - destruct (is_retryable _); [apply IH, in_step_record, Hl|]. split; [done|]. intros ? [= <-]. by apply (Hg _ _ eq_refl).
  - destruct (is_retryable _); [apply IH, in_step_record, Hl|]. split; [done|intros ? [=]].
Qed.

Lemma send_logs config self tr :
  in_step config.(verbosity) (send config self tr).2.(log) ∧ fresh_result (send config self tr).
Proof.
  unfold Send.send. cbv zeta. pose proof (in_step_new config.(verbosity)) as Hn.
  destruct (validate_proxy config); [by apply attempts_logs| |]; (split; [done|by intros ?]).
Qed.
End client.
