(* ===== verification/PyValue.v ===== *)
(** * Python values (what PyO3 shows of them)

    The values that Python callers pass in and get back, the exceptions the bindings
    raise, and the conversions ([extract], [cast]) the bindings rely on.  The
    interpreter itself is the interface [Python]. *)
From S2P Require Import Prelude RustStd.

(** A [str] may hold lone surrogates, and then has no UTF-8 form.  [PyOther] is any
    other object, under a number that identifies it. *)
Inductive PyObj :=
  | PyNone
  | PyBool (b : bool)
  | PyInt (z : Z)
  | PyBytes (b : bytes)
  | PyStr (utf8 : option bytes)
  | PyTuple (items : list PyObj)
  | PyList (items : list PyObj)
  | PyDict (entries : list (PyObj * PyObj))
  | PyOther (id : Z).

(** An exception raised here, or one passed on, under a number that identifies it. *)
Inductive PyErr :=
  | TypeError (msg : bytes)
  | ValueError (msg : bytes)
  | KeyError (key : bytes)
  | RuntimeError (msg : bytes)
  | StopAsyncIteration (msg : bytes)
  | HTTPStatusError (msg : bytes)
  | Propagated (exn : Z).

#[export] Instance PyErr_eq_dec : EqDecision PyErr.
Proof. solve_decision. Defined.

(** The interpreter and PyO3: [str()] of a value as UTF-8 (or what it raises), what a
    failed conversion raises, and [extract::<Vec<u8>>]. *)
Class Python := {
  py_str : PyObj → Z + bytes;
  conversion_error : PyObj → Z;
  extract_bytes : PyObj → option bytes
}.

Definition is_none (o : PyObj) : bool := match o with PyNone => true | _ => false end.

(** [o.is_some_and(|o| !o.is_none())]. *)
Definition is_set (o : option PyObj) : bool := match o with Some o => negb (is_none o) | None => false end.

(** [extract::<String>]. *)
Definition extract_string (o : PyObj) : option bytes := match o with PyStr s => s | _ => None end.

(** [dict.get_item(key)] for a text key. *)
Fixpoint dict_get (key : bytes) (entries : list (PyObj * PyObj)) : option PyObj :=
  match entries with
  | [] => None
  | (k, v) :: entries => if bool_decide (extract_string k = Some key) then Some v else dict_get key entries
  end.

(** [dict.set_item(key, value)]: an entry of that key keeps its place. *)
Fixpoint dict_set (key : bytes) (value : PyObj) (entries : list (PyObj * PyObj)) : list (PyObj * PyObj) :=
  match entries with
  | [] => [(PyStr (Some key), value)]
  | (k, v) :: entries =>
      if bool_decide (extract_string k = Some key) then (k, value) :: entries else (k, v) :: dict_set key value entries
  end.

(** [extract::<(String, String)>]: a tuple of two texts. *)
Definition extract_pair (o : PyObj) : option (bytes * bytes) :=
  match o with
  | PyTuple [a; b] => a ← extract_string a; b ← extract_string b; Some (a, b)
  | _ => None
  end.

Section python.
Context `{Python}.

Definition conversion {A} (o : PyObj) (r : option A) : exec PyErr A :=
  ok_or r (Propagated (conversion_error o)).

(** [extract::<String>()?]. *)
Definition extract_string_or (o : PyObj) : exec PyErr bytes := conversion o (extract_string o).
End python.

(** No conversion panics. *)
Lemma ok_or_no_panic {E A} (o : option A) (e : E) : ok_or o e ≠ Panic.
Proof. by destruct o. Qed.
Lemma bind_no_panic {E A B} (m : exec E A) (k : A → exec E B) :
  m ≠ Panic → (∀ a, m = Ok a → k a ≠ Panic) → (m ≫= k) ≠ Panic.
Proof. destruct m as [a|e|]; intros Hm Hk; [by apply Hk|done|done]. Qed.

(** A computation does not panic when its pieces do not. *)
Create HintDb panic discriminated.
#[export] Hint Constants Opaque : panic.
#[export] Hint Resolve ok_or_no_panic : panic.
#[export] Hint Extern 1 (Ok _ ≠ Panic) => discriminate : panic.
#[export] Hint Extern 1 (Err _ ≠ Panic) => discriminate : panic.

Ltac no_panic :=
  repeat (apply bind_no_panic; [auto with panic|intros ? _]) ||
  (case_match; no_panic) || auto with panic.

Lemma conversion_no_panic `{Python} {A} o (r : option A) : conversion o r ≠ Panic.
Proof. apply ok_or_no_panic. Qed.
Lemma extract_string_or_no_panic `{Python} o : extract_string_or o ≠ Panic.
Proof. apply ok_or_no_panic. Qed.
#[export] Hint Resolve conversion_no_panic extract_string_or_no_panic : panic.

(** What a call into Python gives: an exception or a value. *)
Definition raised {A} (r : Z + A) : exec PyErr A :=
  match r with inr a => Ok a | inl exn => Err (Propagated exn) end.
Lemma raised_no_panic {A} (r : Z + A) : raised r ≠ Panic.
Proof. by destruct r. Qed.
#[export] Hint Resolve raised_no_panic : panic.

(** ** Stateful computations *)

(** Code that runs while [S] may change, an exception included. *)
Definition py (S A : Type) : Type := S → exec PyErr A * S.

#[export] Instance py_ret S : MRet (py S) := λ _ a s, (Ok a, s).
#[export] Instance py_bind S : MBind (py S) := λ _ _ k m s,
  match m s with
  | (Ok a, s) => k a s
  | (Err e, s) => (Err e, s)
  | (Panic, s) => (Panic, s)
  end.

#[export] Instance py_fmap S : FMap (py S) := λ _ _ f m s, let '(r, s) := m s in (f <$> r, s).

(** A computation that leaves the state alone ([?]). *)
Definition pure {S A} (r : exec PyErr A) : py S A := λ s, (r, s).

Lemma dict_get_set k k' v entries :
  dict_get k (dict_set k' v entries) = if bool_decide (k' = k) then Some v else dict_get k entries.
Proof.
  induction entries as [|[o w] entries IH]; cbn [dict_set dict_get].
  - cbn. repeat case_bool_decide; naive_solver.
  - destruct (decide (extract_string o = Some k')) as [E|E];
      [rewrite (bool_decide_true (_ = Some k')) by done|rewrite (bool_decide_false (_ = Some k')) by done];
      cbn [dict_get]; [|rewrite IH]; repeat case_bool_decide; naive_solver congruence.
Qed.
