(* ===== verification/Headers.v ===== *)
(** * The header mapping (class Headers of src/python.rs)

    A case-insensitive mutable mapping that also remembers the original list.  The
    order in which a [HashMap] iterates is a parameter.  Header names that differ in
    ASCII case only are equivalent ([name_eq]); the lookups respect it. *)
From stdpp Require Import gmap fin_maps.
From S2P Require Import Prelude RustStd PyValue.

Record PyHeaders := mkHeaders {
  h_list : list (bytes * bytes);     (* order, case and duplicates as received *)
  h_lookup : gmap bytes bytes        (* lower-case name to its last value *)
}.

(** How a [HashMap] iterates: some order, the same as long as the map is. *)
Class HashOrder := {
  order : gmap bytes bytes → list (bytes * bytes);
  order_perm : ∀ m, order m ≡ₚ map_to_list m
}.

Definition insert_lower (lookup : gmap bytes bytes) (h : bytes * bytes) : gmap bytes bytes :=
  <[to_ascii_lowercase h.1 := h.2]> lookup.
Definition from_list (l : list (bytes * bytes)) : PyHeaders := mkHeaders l (foldl insert_lower ∅ l).
Definition new (headers : option (list (bytes * bytes))) : PyHeaders := from_list (default [] headers).

(** [list.retain(|(k, _)| !k.eq_ignore_ascii_case(key))]. *)
Definition retain_others (key : bytes) (l : list (bytes * bytes)) : list (bytes * bytes) :=
  List.filter (λ h, negb (eq_ignore_ascii_case h.1 key)) l.

Definition getitem (self : PyHeaders) (key : bytes) : exec PyErr bytes :=
  ok_or (h_lookup self !! to_ascii_lowercase key) (KeyError key).

Definition setitem (self : PyHeaders) (key value : bytes) : PyHeaders :=
  mkHeaders (retain_others key (h_list self) ++ [(key, value)])
    (<[to_ascii_lowercase key := value]> (h_lookup self)).

Definition delitem (self : PyHeaders) (key : bytes) : exec PyErr PyHeaders :=
  match h_lookup self !! to_ascii_lowercase key with
  | None => Err (KeyError key)
  | Some _ => Ok (mkHeaders (retain_others key (h_list self)) (delete (to_ascii_lowercase key) (h_lookup self)))
  end.

Definition contains_key (self : PyHeaders) (key : bytes) : bool :=
  bool_decide (is_Some (h_lookup self !! to_ascii_lowercase key)).

Definition len (self : PyHeaders) : Z := Z.of_nat (size (h_lookup self)).

Definition items (self : PyHeaders) : list (bytes * bytes) := h_list self.

Definition get (self : PyHeaders) (key : bytes) (dflt : option PyObj) : option PyObj :=
  match h_lookup self !! to_ascii_lowercase key with
  | Some v => Some (PyStr (Some v))
  | None => dflt
  end.

Section order.
Context `{HashOrder}.
Definition keys (self : PyHeaders) : list bytes := (order (h_lookup self)).*1.
Definition values (self : PyHeaders) : list bytes := (order (h_lookup self)).*2.
End order.

(** What a comparison is made with. *)
Inductive comparand := AHeaders (h : PyHeaders) | AnObject (o : PyObj).

Section python.
Context `{Python}.

Fixpoint lower_entries (entries : list (PyObj * PyObj)) (out : gmap bytes bytes) : exec PyErr (gmap bytes bytes) :=
  match entries with
  | [] => Ok out
  | (k, v) :: entries =>
      k_str ← extract_string_or k;
      v_str ← extract_string_or v;
      lower_entries entries (<[to_ascii_lowercase k_str := v_str]> out)
  end.

Definition eq_ (self : PyHeaders) (other : comparand) : exec PyErr bool :=
  match other with
  | AHeaders h => Ok (bool_decide (h_lookup self = h_lookup h))
  | AnObject (PyDict d) =>
      other_map ← lower_entries d ∅;
      Ok (bool_decide (h_lookup self = other_map))
  | AnObject _ => Ok false
  end.
End python.

Example headers_duplicates :
  let h := from_list [(bs "Set-Cookie", bs "a"); (bs "set-cookie", bs "b"); (bs "X", bs "1")] in
  getitem h (bs "SET-COOKIE") = Ok (bs "b") ∧ len h = 2 ∧
  items (setitem h (bs "Set-cookie") (bs "c")) = [(bs "X", bs "1"); (bs "Set-cookie", bs "c")].
Proof. vm_compute. done. Qed.

(** ** Names up to case *)

Definition name_eq (a b : bytes) : Prop := to_ascii_lowercase a = to_ascii_lowercase b.

#[export] Instance name_eq_equivalence : Equivalence name_eq.
Proof. split; unfold name_eq; congruence. Qed.
#[export] Instance name_eq_dec a b : Decision (name_eq a b).
Proof. unfold name_eq. apply _. Defined.

Lemma eq_ignore_case_decides a b : eq_ignore_ascii_case a b = bool_decide (name_eq a b).
Proof. done. Qed.

#[export] Instance eq_ignore_ascii_case_proper : Proper (name_eq ==> name_eq ==> eq) eq_ignore_ascii_case.
Proof.
  intros a a' Ha b b' Hb. rewrite !eq_ignore_case_decides. apply bool_decide_ext. by rewrite Ha, Hb.
Qed.
#[export] Instance retain_others_proper : Proper (name_eq ==> eq ==> eq) retain_others.
Proof. intros a a' Ha l ? <-. unfold retain_others. apply filter_ext. intros h. by rewrite Ha. Qed.
#[export] Instance contains_key_proper h : Proper (name_eq ==> eq) (contains_key h).
Proof. intros a a' Ha. unfold contains_key. by rewrite Ha. Qed.

(** ** The specification: what a list of headers maps a name to *)

(** The value of the last header of that name. *)
Definition last_value (l : list (bytes * bytes)) (key : bytes) : option bytes :=
  last (List.filter (λ h, eq_ignore_ascii_case h.1 key) l).*2.

#[export] Instance last_value_proper l : Proper (name_eq ==> eq) (last_value l).
Proof. intros a a' Ha. unfold last_value. f_equal. f_equal. apply filter_ext. intros h. by rewrite Ha. Qed.

Lemma last_value_snoc l h key :
  last_value (l ++ [h]) key = if eq_ignore_ascii_case h.1 key then Some h.2 else last_value l key.
Proof.
  unfold last_value. rewrite List.filter_app, fmap_app. cbn. destruct (eq_ignore_ascii_case h.1 key); cbn.
  - apply last_snoc.
  - by rewrite app_nil_r.
Qed.

Lemma filter_retain key key' l :
  List.filter (λ h, eq_ignore_ascii_case h.1 key') (retain_others key l) =
  if eq_ignore_ascii_case key key' then [] else List.filter (λ h, eq_ignore_ascii_case h.1 key') l.
Proof.
  rewrite !eq_ignore_case_decides. unfold retain_others. induction l as [|h l IH]; [by case_bool_decide|].
  cbn [List.filter].
  assert (eq_ignore_ascii_case h.1 key = true → eq_ignore_ascii_case h.1 key' = bool_decide (name_eq key key')) as He.
  { rewrite !eq_ignore_case_decides. intros E%bool_decide_eq_true. apply bool_decide_ext. by rewrite E. }
  destruct (eq_ignore_ascii_case h.1 key) eqn:E1; cbn [negb List.filter]; rewrite IH.
  - rewrite (He eq_refl). by case_bool_decide.
  - case_bool_decide as Hk; [|done]. destruct (eq_ignore_ascii_case h.1 key') eqn:E2; [|done].
    rewrite <- Hk in E2. congruence.
Qed.

Lemma last_value_retain key key' l :
  last_value (retain_others key l) key' = if eq_ignore_ascii_case key key' then None else last_value l key'.
Proof. unfold last_value. rewrite filter_retain. by destruct (eq_ignore_ascii_case key key'). Qed.

(** ** The two halves of the state agree *)

Definition headers_ok (h : PyHeaders) : Prop :=
  (∀ key, h_lookup h !! to_ascii_lowercase key = last_value (h_list h) key) ∧
  (∀ k v, h_lookup h !! k = Some v → to_ascii_lowercase k = k).

Lemma lower_eq_ne a b : eq_ignore_ascii_case a b = false ↔ to_ascii_lowercase a ≠ to_ascii_lowercase b.
Proof. rewrite eq_ignore_case_decides. apply bool_decide_eq_false. Qed.
Lemma lower_eq_eq a b : eq_ignore_ascii_case a b = true ↔ to_ascii_lowercase a = to_ascii_lowercase b.
Proof. rewrite eq_ignore_case_decides. apply bool_decide_eq_true. Qed.

Lemma from_list_ok l : headers_ok (from_list l).
Proof.
  unfold headers_ok, from_list. cbn. induction l as [|h l IH] using rev_ind.
  { split; [intros; apply lookup_empty|intros k v; cbn [foldl]; by rewrite lookup_empty]. }
  rewrite foldl_snoc. destruct IH as [IH1 IH2]. split.
  - intros key. rewrite last_value_snoc, <- IH1. unfold insert_lower.
    destruct (eq_ignore_ascii_case h.1 key) eqn:E.
    + apply lower_eq_eq in E as <-. apply lookup_insert_eq.
    + apply lower_eq_ne in E. by apply lookup_insert_ne.
  - intros k v. unfold insert_lower. rewrite lookup_insert_Some. intros [[<- _]|[_ Hk]]; [apply to_ascii_lowercase_idem|eauto].
Qed.

Lemma setitem_ok h key value : headers_ok h → headers_ok (setitem h key value).
Proof.
  intros [H1 H2]. split; cbn.
  - intros key'. rewrite last_value_snoc. cbn [fst snd]. rewrite last_value_retain, <- H1.
    destruct (eq_ignore_ascii_case key key') eqn:E.
    + apply lower_eq_eq in E as <-. apply lookup_insert_eq.
    + apply lower_eq_ne in E. by apply lookup_insert_ne.
  - intros k v. rewrite lookup_insert_Some. intros [[<- _]|[_ Hk]]; [apply to_ascii_lowercase_idem|eauto].
Qed.

Lemma delitem_ok h key h' : headers_ok h → delitem h key = Ok h' → headers_ok h'.
Proof.
  intros [H1 H2]. unfold delitem. destruct (h_lookup h !! _) as [w|] eqn:Ew; [|done]. intros [= <-]. split; cbn.
  - intros key'. rewrite last_value_retain, <- H1. destruct (eq_ignore_ascii_case key key') eqn:E.
    + apply lower_eq_eq in E as <-. apply lookup_delete_eq.
    + apply lower_eq_ne in E. by apply lookup_delete_ne.
  - intros k v. rewrite lookup_delete_Some. intros [_ Hk]. eauto.
Qed.

(** ** The mapping contract *)

(** What [collections.abc.MutableMapping] asks of a mapping whose keys are compared by
    [same]; [k] is the key type, values are texts. *)
Class MutableMapping (M : Type) := {
  m_get : M → bytes → option bytes;
  m_set : M → bytes → bytes → M;
  m_del : M → bytes → option M;
  m_keys : M → list bytes
}.
Class MutableMappingLaws (M : Type) `{MutableMapping M} (same : bytes → bytes → Prop) (ok : M → Prop) := {
  m_same :: Equivalence same;
  m_get_proper m :: Proper (same ==> eq) (m_get m);
  m_set_ok m k v : ok m → ok (m_set m k v);
  m_get_set m k v : m_get (m_set m k v) k = Some v;
  m_get_set_ne m k k' v : ¬ same k k' → m_get (m_set m k v) k' = m_get m k';
  m_del_none m k : m_del m k = None ↔ m_get m k = None;
  m_del_some m k m' : ok m → m_del m k = Some m' →
    ok m' ∧ m_get m' k = None ∧ ∀ k', ¬ same k k' → m_get m' k' = m_get m k';
  m_keys_once m : ok m → NoDup (m_keys m);
  m_keys_get m k : ok m → is_Some (m_get m k) ↔ ∃ k', k' ∈ m_keys m ∧ same k k'
}.

(** A client of the interface: [update], as the mix-in defines it. *)
Definition update {M} `{MutableMapping M} (m : M) (other : list (bytes * bytes)) : M :=
  foldl (λ m h, m_set m h.1 h.2) m other.

Section client.
Context {M : Type} `{MutableMappingLaws M same ok}.

Lemma update_absent m other k : (∀ h, h ∈ other → ¬ same h.1 k) → m_get (update m other) k = m_get m k.
Proof.
  unfold update. revert m. induction other as [|h l IH]; intros m Hk; [done|]. cbn [foldl].
  rewrite IH by (intros; apply Hk; by right). apply m_get_set_ne. apply Hk. by left.
Qed.

Lemma update_last m other h k : same h.1 k → m_get (update m (other ++ [h])) k = Some h.2.
Proof. unfold update. rewrite foldl_snoc. intros Hk. rewrite <- Hk. apply m_get_set. Qed.
End client.

Section instance.
Context `{HashOrder}.

#[export] Instance headers_mapping : MutableMapping PyHeaders := {
  m_get h k := h_lookup h !! to_ascii_lowercase k;
  m_set := setitem;
  m_del h k := exec_ok (delitem h k);
  m_keys := keys
}.

Lemma keys_lookup h k : k ∈ keys h ↔ is_Some (h_lookup h !! k).
Proof.
  unfold keys. rewrite order_perm, list_elem_of_fmap. split.
  - intros ([k' v] & -> & Hin). apply elem_of_map_to_list in Hin. by exists v.
  - intros [v Hv]. exists (k, v). split; [done|]. by apply elem_of_map_to_list.
Qed.

#[export] Instance headers_mapping_laws : MutableMappingLaws PyHeaders name_eq headers_ok.
Proof.
  split; cbn.
  - apply _.
  - intros h k k' Hk. by rewrite Hk.
  - apply setitem_ok.
  - intros. apply lookup_insert_eq.
  - intros h k k' v Hk. apply lookup_insert_ne. exact Hk.
  - intros h k. unfold delitem. by destruct (h_lookup h !! _).
  - intros h k h' Hok Hd. unfold delitem in *. destruct (h_lookup h !! to_ascii_lowercase k) as [w|] eqn:Ew; [|done].
    cbn in Hd. injection Hd as <-. split_and!.
    + apply (delitem_ok h k); [done|]. unfold delitem. by rewrite Ew.
    + apply lookup_delete_eq.
    + intros k' Hk. apply lookup_delete_ne. exact Hk.
  - intros h _. unfold keys. rewrite order_perm. apply NoDup_fst_map_to_list.
  - intros h k [_ Hlow]. split.
    + intros Hk. exists (to_ascii_lowercase k). split; [by apply keys_lookup|].
      unfold name_eq. by rewrite to_ascii_lowercase_idem.
    + intros (k' & Hin & Hk). apply keys_lookup in Hin as [v Hv]. exists v.
      unfold name_eq in Hk. by rewrite Hk, (Hlow _ _ Hv).
Qed.
End instance.

(** ** Every sequence of uses *)

Inductive header_op := HSet (key value : bytes) | HDel (key : bytes).

(** A [KeyError] leaves the mapping as it was. *)
Definition run_op (h : PyHeaders) (op : header_op) : PyHeaders :=
  match op with
  | HSet k v => setitem h k v
  | HDel k => default h (exec_ok (delitem h k))
  end.
Definition run_ops : PyHeaders → list header_op → PyHeaders := foldl run_op.

(** On the list alone: the name's entries go, and a set one comes last. *)
Definition op_items (l : list (bytes * bytes)) (op : header_op) : list (bytes * bytes) :=
  match op with
  | HSet k v => retain_others k l ++ [(k, v)]
  | HDel k => retain_others k l
  end.

Lemma last_value_none l k : last_value l k = None ↔ Forall (λ h, eq_ignore_ascii_case h.1 k = false) l.
Proof.
  unfold last_value. rewrite last_None. induction l as [|h l IH]; [done|]. cbn [List.filter].
  rewrite Forall_cons. destruct (eq_ignore_ascii_case h.1 k); [|by rewrite IH; naive_solver]. cbn. split; [done|]. by intros [].
Qed.

Lemma retain_absent k l : last_value l k = None → retain_others k l = l.
Proof.
  rewrite last_value_none. unfold retain_others. induction 1 as [|h l Hh _ IH]; [done|].
  cbn. by rewrite Hh, IH.
Qed.

Lemma run_op_ok h op : headers_ok h → headers_ok (run_op h op) ∧ h_list (run_op h op) = op_items (h_list h) op.
Proof.
  intros Hok. destruct op as [k v|k]; cbn; [split; [by apply setitem_ok|done]|].
  destruct (delitem h k) as [h'|e|] eqn:E; cbn; unfold delitem in E.
  - split; [by apply (delitem_ok h k)|]. destruct (h_lookup h !! _); [|done]. by injection E as <-.
  - split; [done|]. rewrite retain_absent; [done|]. rewrite <- (proj1 Hok). by destruct (h_lookup h !! _).
  - by destruct (h_lookup h !! _).
Qed.

Lemma run_ops_ok h ops : headers_ok h → headers_ok (run_ops h ops) ∧ h_list (run_ops h ops) = foldl op_items (h_list h) ops.
Proof.
  unfold run_ops. revert h. induction ops as [|op ops IH]; intros h Hok; [done|]. cbn [foldl].
  destruct (run_op_ok h op Hok) as [Hok' <-]. by apply IH.
Qed.

(** The maps are equal when the lists give every name the same value. *)
Lemma lookups_agree h h' : headers_ok h → headers_ok h' →
  h_lookup h = h_lookup h' ↔ ∀ k, last_value (h_list h) k = last_value (h_list h') k.
Proof.
  intros [H1 H2] [H1' H2']. split; [intros He k; by rewrite <- H1, <- H1', He|]. intros Hg. apply map_eq. intros k.
  destruct (decide (to_ascii_lowercase k = k)) as [Hk|Hk].
  - rewrite <- Hk, H1, H1'. apply Hg.
  - destruct (h_lookup h !! k) eqn:E; [by apply H2 in E|]. destruct (h_lookup h' !! k) eqn:E'; [by apply H2' in E'|done].
Qed.

(** The entries of a dict of texts. *)
Definition text_entry (e : PyObj * PyObj) (p : bytes * bytes) : Prop := e = (PyStr (Some p.1), PyStr (Some p.2)).

Lemma lower_entries_texts `{Python} d pairs : Forall2 text_entry d pairs → ∀ out,
  lower_entries d out = Ok (foldl insert_lower out pairs).
Proof. induction 1 as [|e [k v] d pairs -> _ IH]; intros out; [done|]. cbn. apply IH. Qed.

(** C28: after any sequence of assignments and deletions on [Headers] made from any
    list, the two halves of the object tell the same story.  [items()] is the list
    with each deletion and assignment replayed on it.  A lookup under any case of a
    name gives the value of the last item of that name, or [KeyError] when there is
    none; [in] and [del] agree with it.  The keys are the distinct lower-case names,
    each once, [len] of them, and [values()] runs in step with them.  [==] with another
    [Headers], made and used likewise, holds exactly when every lookup agrees; with a
    dict of texts when the dict, read as a list of headers, gives every name the same
    value; and with anything else it does not. *)
Theorem headers_case_insensitive `{HashOrder, Python} (l l' : list (bytes * bytes)) (ops ops' : list header_op) (key : bytes) :
  let h := run_ops (from_list l) ops in
  let h' := run_ops (from_list l') ops' in
  items h = foldl op_items l ops ∧
  getitem h key = ok_or (last_value (items h) key) (KeyError key) ∧
  contains_key h key = negb (bool_decide (last_value (items h) key = None)) ∧
  (delitem h key = Err (KeyError key) ↔ last_value (items h) key = None) ∧
  NoDup (keys h) ∧ Z.of_nat (length (keys h)) = len h ∧
  (key ∈ keys h ↔ to_ascii_lowercase key = key ∧ is_Some (last_value (items h) key)) ∧
  zip (keys h) (values h) = map (λ k, (k, default [] (last_value (items h) k))) (keys h) ∧
  (∃ b, eq_ h (AHeaders h') = Ok b ∧ (b = true ↔ ∀ k, getitem h k = getitem h' k)) ∧
  (∀ d pairs, Forall2 text_entry d pairs →
     ∃ b, eq_ h (AnObject (PyDict d)) = Ok b ∧ (b = true ↔ ∀ k, last_value (items h) k = last_value pairs k)) ∧
  (∀ o, (∀ d, o ≠ PyDict d) → eq_ h (AnObject o) = Ok false).
Proof.
  intros h h'. destruct (run_ops_ok (from_list l) ops (from_list_ok l)) as [Hok Hl].
  destruct (run_ops_ok (from_list l') ops' (from_list_ok l')) as [Hok' _].
  fold h in Hok, Hl. fold h' in Hok'. pose proof (proj1 Hok) as H1. pose proof (proj2 Hok) as H2.
  unfold items, contains_key, delitem.
  assert (∀ k, getitem h k = ok_or (last_value (h_list h) k) (KeyError k)) as Hg by (intros k; unfold getitem; by rewrite H1).
  assert (∀ k, getitem h' k = ok_or (last_value (h_list h') k) (KeyError k)) as Hg' by (intros k; unfold getitem; by rewrite (proj1 Hok')).
  assert (∀ k v, (k, v) ∈ order (h_lookup h) → default [] (last_value (h_list h) k) = v) as Hv.
  { intros k v Hin. rewrite order_perm in Hin. apply elem_of_map_to_list in Hin.
    rewrite <- H1, (H2 _ _ Hin). by rewrite Hin. }
  rewrite H1. split_and!.
  - exact Hl.
  - apply Hg.
  - by destruct (last_value _ _).
  - by destruct (last_value _ _).
  - unfold keys. rewrite order_perm. apply NoDup_fst_map_to_list.
  - unfold keys, len. by rewrite length_fmap, order_perm, length_map_to_list.
  - rewrite keys_lookup, <- H1. split.
    + intros [v Hk]. pose proof (H2 _ _ Hk) as ->. by split; [|exists v].
    + by intros [-> Hs].
  - unfold keys, values. clear - Hv. induction (order (h_lookup h)) as [|[k v] o IH]; [done|].
    cbn. rewrite (Hv k v) by by left. f_equal. apply IH. intros k' v' Hin. apply Hv. by right.
  - eexists. split; [reflexivity|]. rewrite bool_decide_eq_true, lookups_agree by done. setoid_rewrite Hg. setoid_rewrite Hg'.
    split; intros Hk k; specialize (Hk k); [by rewrite Hk|]. destruct (last_value _ k), (last_value _ k); cbn in Hk; congruence.
  - intros d pairs Hd. cbn [eq_]. rewrite (lower_entries_texts _ _ Hd). eexists. split; [reflexivity|].
    rewrite bool_decide_eq_true. exact (lookups_agree h (from_list pairs) Hok (from_list_ok pairs)).
  - intros o Ho. destruct o; try done. by destruct (Ho entries).
Qed.

(** An order to iterate in, and the theorem on a list with a repeated name. *)
#[local] Instance sample_order : HashOrder := { order := map_to_list; order_perm _ := reflexivity _ }.

#[local] Instance sample_values : Python := {
  py_str _ := inr []; conversion_error _ := 0; extract_bytes _ := None
}.

Lemma headers_case_insensitive_witness :
  let h := run_ops (from_list [(bs "X-A", bs "1"); (bs "x-a", bs "2")]) [HSet (bs "B") (bs "3")] in
  getitem h (bs "X-a") = Ok (bs "2") ∧ NoDup (keys h) ∧
  (∃ b, eq_ h (AHeaders (from_list [(bs "b", bs "3"); (bs "x-A", bs "2")])) = Ok b ∧ b = true) ∧
  ∃ b, eq_ h (AnObject (PyDict [(PyStr (Some (bs "b")), PyStr (Some (bs "4")))])) = Ok b ∧ b = false.
Proof.
  intros h.
  destruct (headers_case_insensitive [(bs "X-A", bs "1"); (bs "x-a", bs "2")] [(bs "b", bs "3"); (bs "x-A", bs "2")]
    [HSet (bs "B") (bs "3")] [] (bs "X-a")) as (_ & Hg & _ & _ & Hn & _ & _ & _ & (b & Hb & Hi) & Hd & _).
  fold h in Hg, Hn, Hb, Hi, Hd. split; [rewrite Hg; vm_compute; reflexivity|]. split; [exact Hn|]. split.
  - exists b. split; [exact Hb|]. unfold eq_ in Hb. injection Hb as <-. vm_compute. reflexivity.
  - destruct (Hd _ [(bs "b", bs "4")] ltac:(repeat constructor)) as (b' & Hb' & Hi'). exists b'.
    split; [exact Hb'|]. destruct b'; [|reflexivity]. specialize (proj1 Hi' eq_refl (bs "x-a")). vm_compute. discriminate.
Defined.
