(* ===== verification/Multipart.v ===== *)
(** * Multipart bodies (src/multipart.rs)

    The multipart/form-data encoder over Python values, and the theorem that a
    receiver of RFC 7578 reads back the parts that were given.  The standard
    library's randomly keyed hashers are parameters. *)
From S2P Require Import Prelude RustStd PyValue.

Record ParsedPart := mkPart {
  filename : option bytes;
  content_type : option bytes;
  part_content : bytes;
  extra_headers : list (bytes * bytes)
}.

(** The characters replaced are ASCII, so they are bytes of the UTF-8 text. *)
Definition quote_char (c : Z) : bytes :=
  if c =? 92 then bs "%5C" else if c =? 34 then bs "%22"
  else if c =? 13 then bs "%0D" else if c =? 10 then bs "%0A" else [c].
Definition quote_header (s : bytes) : bytes := concat (map quote_char s).

Example quote_header_breaks : quote_header [97; 34; 98; 92; 13; 10] = bs "a%22b%5C%0D%0A".
Proof. reflexivity. Qed.

Section python.
Context `{Python}.

(** [seq.get_item(i)?]. *)
Definition get_item (items : list PyObj) (i : nat) : exec PyErr PyObj := conversion (PyTuple items) (items !! i).

Definition coerce_content (value : PyObj) : exec PyErr bytes :=
  match value with
  | PyNone => Ok []
  | PyBytes b => Ok b
  | PyStr s => conversion value s
  | _ => raised (py_str value)
  end.

Fixpoint header_pairs (entries : list (PyObj * PyObj)) : exec PyErr (list (bytes * bytes)) :=
  match entries with
  | [] => Ok []
  | (k, v) :: entries =>
      k ← extract_string_or k;
      v ← extract_string_or v;
      rest ← header_pairs entries;
      Ok ((k, v) :: rest)
  end.

Definition optional_string (o : PyObj) (msg : bytes) : exec PyErr (option bytes) :=
  if is_none o then Ok None else Some <$> ok_or (extract_string o) (TypeError msg).

Definition parse_sequence (seq : list PyObj) : exec PyErr ParsedPart :=
  let len := zlen seq in
  if negb ((2 <=? len) && (len <=? 4)) then
    Err (TypeError (bs "files value tuple must have 2-4 elements: (filename, content[, content_type[, headers]])"))
  else
    filename_obj ← get_item seq 0;
    filename ← optional_string filename_obj (bs "files tuple filename must be a string or None");
    content_obj ← get_item seq 1;
    content ← coerce_content content_obj;
    content_type ← (if 3 <=? len then
                      ct_obj ← get_item seq 2;
                      optional_string ct_obj (bs "files tuple content_type must be a string or None")
                    else Ok None);
    extra_headers ← (if len =? 4 then
                       h_obj ← get_item seq 3;
                       match h_obj with
                       | PyNone => Ok []
                       | PyDict h => header_pairs h
                       | _ => Err (TypeError (bs "files tuple headers must be a dict or None"))
                       end
                     else Ok []);
    Ok (mkPart filename content_type content extra_headers).

Definition parse_value (value : PyObj) : exec PyErr ParsedPart :=
  match value with
  | PyTuple seq | PyList seq => parse_sequence seq
  | _ => content ← coerce_content value; Ok (mkPart None None content [])
  end.

(** ** Writing *)

Definition crlf : bytes := [13; 10].
Definition quoted (s : bytes) : bytes := [34] ++ quote_header s ++ [34].

Definition part_bytes (boundary field_name : bytes) (part : ParsedPart) : bytes :=
  bs "--" ++ boundary ++ crlf
  ++ bs "Content-Disposition: form-data; name=" ++ quoted field_name
  ++ (match part.(filename) with Some f => bs "; filename=" ++ quoted f | None => [] end)
  ++ crlf
  ++ (match part.(content_type) with
      | Some ct => bs "Content-Type: " ++ ct ++ crlf
      | None => if part.(filename) then bs "Content-Type: application/octet-stream" ++ crlf else []
      end)
  ++ concat (map (λ h, h.1 ++ bs ": " ++ h.2 ++ crlf) part.(extra_headers))
  ++ crlf ++ part.(part_content) ++ crlf.

Definition write_part (body boundary field_name : bytes) (value : PyObj) : exec PyErr bytes :=
  part ← parse_value value;
  Ok (body ++ part_bytes boundary field_name part).

Fixpoint write_parts (body boundary : bytes) (entries : list (PyObj * PyObj)) : exec PyErr bytes :=
  match entries with
  | [] => Ok body
  | (name_obj, value_obj) :: entries =>
      name ← ok_or (extract_string name_obj) (TypeError (bs "files dict keys must be strings"));
      body ← write_part body boundary name value_obj;
      write_parts body boundary entries
  end.

(** [{:016x}] of a [u64]. *)
Definition hex_digit (x : Z) : Z := if x <? 10 then 48 + x else 87 + x.
Definition hex16 (n : Z) : bytes :=
  map (λ i, hex_digit (Z.land (Z.shiftr n (4 * (15 - Z.of_nat i))) 15)) (seq 0 16).

(** The two hashers of one call, freshly keyed; the counter is process-wide. *)
Context (h1 h2 : Z → Z).

Definition random_boundary (counter : Z) : bytes * Z :=
  let v1 := h1 counter in
  let v2 := h2 (Z.lxor counter v1) in
  (bs "blasthttp-boundary-" ++ hex16 v1 ++ hex16 v2, u64 (counter + 1)).

Definition build_multipart (files : PyObj) (counter : Z) : exec PyErr (bytes * bytes) * Z :=
  match files with
  | PyDict entries =>
      let '(boundary, counter) := random_boundary counter in
      (body ← write_parts [] boundary entries;
       Ok (boundary, body ++ bs "--" ++ boundary ++ bs "--" ++ crlf), counter)
  | _ => (Err (TypeError (bs "files must be a dict mapping field name to content")), counter)
  end.
End python.

(** ** A receiver (RFC 7578, RFC 2046) *)

Record Received := mkReceived {
  rc_name : bytes;
  rc_filename : option bytes;
  rc_headers : list (bytes * bytes);
  rc_content : bytes
}.

Definition delimiter (boundary : bytes) : bytes := crlf ++ bs "--" ++ boundary.

(** [name="..."] and [filename="..."]. *)
Definition parse_disposition (v : bytes) : option (bytes * option bytes) :=
  r ← strip_prefix v (bs "form-data; name=" ++ [34]);
  '(name, r) ← split_once 34 r;
  if bool_decide (r = []) then Some (name, None)
  else
    r ← strip_prefix r (bs "; filename=" ++ [34]);
    '(filename, r) ← split_once 34 r;
    if bool_decide (r = []) then Some (name, Some filename) else None.

(** The lines up to the empty one. *)
Fixpoint read_head (fuel : nat) (s : bytes) : option (list bytes * bytes) :=
  '(line, s) ← split_once_str crlf s;
  if bool_decide (line = []) then Some ([], s)
  else match fuel with
       | O => None
       | S fuel => '(lines, s) ← read_head fuel s; Some (line :: lines, s)
       end.

Definition read_fields : list bytes → option (list (bytes * bytes)) := mapM (split_once_str (bs ": ")).

(** The parts that follow a boundary. *)
Fixpoint read_parts (fuel : nat) (boundary s : bytes) : option (list Received) :=
  match fuel with
  | O => None
  | S fuel =>
      if bool_decide (s = bs "--" ++ crlf) then Some []
      else
        s ← strip_prefix s crlf;
        '(lines, s) ← read_head (length s) s;
        fields ← read_fields lines;
        match fields with
        | (k, v) :: headers =>
            if bool_decide (k = bs "Content-Disposition") then
              '(name, filename) ← parse_disposition v;
              '(content, s) ← split_once_str (delimiter boundary) s;
              parts ← read_parts fuel boundary s;
              Some (mkReceived name filename headers content :: parts)
            else None
        | [] => None
        end
  end.

Definition receive (boundary body : bytes) : option (list Received) :=
  s ← strip_prefix body (bs "--" ++ boundary);
  read_parts (length body) boundary s.

(** What must be received. *)
Definition type_header (part : ParsedPart) : list (bytes * bytes) :=
  match part.(content_type), part.(filename) with
  | Some ct, _ => [(bs "Content-Type", ct)]
  | None, Some _ => [(bs "Content-Type", bs "application/octet-stream")]
  | None, None => []
  end.
Definition received (named : bytes * ParsedPart) : Received :=
  mkReceived (quote_header named.1) (quote_header <$> named.2.(filename))
    (type_header named.2 ++ named.2.(extra_headers)) named.2.(part_content).

(** [pat] does not occur in [s]. *)
Definition free (pat s : bytes) : Prop := split_once_str pat s = None.

(** A header that stays on its line, and content without the delimiter. *)
Definition header_line_ok (h : bytes * bytes) : Prop :=
  free (bs ": ") h.1 ∧ free crlf (h.1 ++ bs ": " ++ h.2).
Definition part_ok (boundary : bytes) (named : bytes * ParsedPart) : Prop :=
  Forall header_line_ok (type_header named.2 ++ named.2.(extra_headers)) ∧
  free (delimiter boundary) named.2.(part_content).

(** ** Splitting at a pattern *)

Lemma starts_with_app s p : starts_with (p ++ s) p = true.
Proof. apply starts_with_spec. by exists s. Qed.

Lemma strip_prefix_app p s : strip_prefix (p ++ s) p = Some s.
Proof. unfold strip_prefix. rewrite starts_with_app. f_equal. apply drop_app_length. Qed.

(** A pattern whose first character does not come again cannot straddle. *)
Lemma split_once_str_free c p a b : c ∉ p → free (c :: p) a →
  split_once_str (c :: p) (a ++ (c :: p) ++ b) = Some (a, b).
Proof.
  intros Hc. induction a as [|x a IH]; intros Hf.
  - cbn [app]. unfold split_once_str at 1. change (c :: p ++ b) with ((c :: p) ++ b).
    rewrite starts_with_app. f_equal. f_equal. apply (drop_app_length (c :: p)).
  - unfold free in Hf. cbn [split_once_str] in Hf.
    destruct (starts_with (x :: a) (c :: p)) eqn:Es; [done|].
    destruct (split_once_str (c :: p) a) as [[]|] eqn:Ea; [done|].
    cbn [app split_once_str]. change (c :: p ++ b) with ((c :: p) ++ b).
    destruct (starts_with (x :: a ++ (c :: p) ++ b) (c :: p)) eqn:E; [|by rewrite IH].
    exfalso. apply starts_with_spec in E as [k Hk]. injection Hk as -> Hk.
    assert (¬ ∃ k, c :: a = (c :: p) ++ k) as Hn.
    { intros Hk'. apply starts_with_spec in Hk'. congruence. }
    cbn [app] in Hk. apply app_eq_inv in Hk as [(l & -> & Hk)|(l & -> & Hk)].
    + apply Hn. by exists l.
    + destruct l as [|y l]; [apply Hn; exists []; by rewrite !app_nil_r|].
      injection Hk as <- _. apply Hc. set_solver.
Qed.

Lemma free_absent c p s : c ∉ s → free (c :: p) s.
Proof.
  unfold free. induction s as [|x s IH]; intros Hc; cbn [split_once_str].
  - unfold starts_with. by rewrite bool_decide_false.
  - destruct (starts_with (x :: s) (c :: p)) eqn:E.
    + apply starts_with_spec in E as [k Hk]. injection Hk as -> _. set_solver.
    + rewrite IH; [done|set_solver].
Qed.

(** ** What is written *)

Lemma quote_char_clean c x : x ∈ quote_char c → x ≠ 13 ∧ x ≠ 10 ∧ x ≠ 34 ∧ x ≠ 92.
Proof.
  unfold quote_char. intros Hx.
  repeat (case_match; [cbv in Hx; set_solver by lia|]).
  apply list_elem_of_singleton in Hx as ->. lia.
Qed.

Lemma quote_header_clean s x : x ∈ quote_header s → x ≠ 13 ∧ x ≠ 10 ∧ x ≠ 34 ∧ x ≠ 92.
Proof.
  unfold quote_header. intros Hx. apply list_elem_of_In, in_concat in Hx as (l & Hl & Hx).
  apply in_map_iff in Hl as (c & <- & _). eapply quote_char_clean. by apply list_elem_of_In.
Qed.

(** The header lines of a part. *)
Definition disposition (named : bytes * ParsedPart) : bytes :=
  bs "form-data; name=" ++ quoted named.1
  ++ match named.2.(filename) with Some f => bs "; filename=" ++ quoted f | None => [] end.
Definition part_fields (named : bytes * ParsedPart) : list (bytes * bytes) :=
  (bs "Content-Disposition", disposition named) :: type_header named.2 ++ named.2.(extra_headers).
Definition field_line (h : bytes * bytes) : bytes := h.1 ++ bs ": " ++ h.2.

(** What follows a boundary. *)
Fixpoint after_boundary (boundary : bytes) (parts : list (bytes * ParsedPart)) : bytes :=
  match parts with
  | [] => bs "--" ++ crlf
  | p :: parts =>
      crlf ++ concat (map (λ h, field_line h ++ crlf) (part_fields p)) ++ crlf
      ++ p.2.(part_content) ++ delimiter boundary ++ after_boundary boundary parts
  end.

Lemma concat_app' {A} (l k : list (list A)) : concat (l ++ k) = concat l ++ concat k.
Proof. apply concat_app. Qed.

Lemma part_bytes_fields boundary named :
  part_bytes boundary named.1 named.2 =
  bs "--" ++ boundary ++ crlf ++ concat (map (λ h, field_line h ++ crlf) (part_fields named)) ++ crlf
  ++ named.2.(part_content) ++ crlf.
Proof.
  unfold part_bytes, part_fields, disposition, type_header, field_line.
  rewrite map_cons, concat_cons, map_app, concat_app. cbn [fst snd].
  change (bs "Content-Disposition: form-data; name=")
    with (bs "Content-Disposition" ++ bs ": " ++ bs "form-data; name=").
  change (bs "Content-Type: application/octet-stream")
    with (bs "Content-Type" ++ bs ": " ++ bs "application/octet-stream").
  change (bs "Content-Type: ") with (bs "Content-Type" ++ bs ": ").
  rewrite (map_ext (λ h : bytes * bytes, h.1 ++ bs ": " ++ h.2 ++ crlf) (λ h, (h.1 ++ bs ": " ++ h.2) ++ crlf))
    by (intros; by rewrite <- !(assoc_L (++))).
  destruct (content_type named.2), (filename named.2); cbn [map concat fst snd app]; 
    rewrite ?app_nil_r, <- ?(assoc_L (++)); done.
Qed.

Lemma written_after_boundary boundary parts :
  concat (map (λ p, part_bytes boundary p.1 p.2) parts) ++ bs "--" ++ boundary ++ bs "--" ++ crlf
  = bs "--" ++ boundary ++ after_boundary boundary parts.
Proof.
  induction parts as [|p parts IH]; [done|].
  rewrite map_cons, concat_cons, <- (assoc_L (++)), IH, part_bytes_fields. cbn [after_boundary].
  unfold delimiter. rewrite <- !(assoc_L (++)). done.
Qed.

(** ** Reading it *)

Lemma split_crlf a b : free crlf a → split_once_str crlf (a ++ crlf ++ b) = Some (a, b).
Proof. apply split_once_str_free. set_solver by lia. Qed.

Lemma split_crlf_nil b : split_once_str crlf (crlf ++ b) = Some ([], b).
Proof. by apply (split_crlf []). Qed.

Lemma split_colon a b : free (bs ": ") a → split_once_str (bs ": ") (a ++ bs ": " ++ b) = Some (a, b).
Proof. apply (split_once_str_free 58 [32]). set_solver by lia. Qed.

Lemma read_head_lines lines s fuel : (length lines ≤ fuel)%nat → Forall (λ l, l ≠ [] ∧ free crlf l) lines →
  read_head fuel (concat (map (λ l, l ++ crlf) lines) ++ crlf ++ s) = Some (lines, s).
Proof.
  revert fuel. induction lines as [|l lines IH]; intros fuel Hl Hf.
  - change (concat (map (λ l, l ++ crlf) []) ++ crlf ++ s) with (crlf ++ s).
    destruct fuel; cbn [read_head]; by rewrite split_crlf_nil.
  - apply Forall_cons in Hf as [[Hn Hc] Hf]. cbn [length] in Hl. destruct fuel as [|fuel]; [lia|].
    rewrite map_cons, concat_cons, <- !(assoc_L (++)). cbn [read_head].
    rewrite split_crlf by done. cbn [mbind option_bind].
    rewrite bool_decide_false by done. rewrite IH by (lia || done). done.
Qed.

Lemma read_fields_lines fields : Forall (λ h, free (bs ": ") h.1) fields →
  read_fields (map field_line fields) = Some fields.
Proof.
  unfold read_fields. induction 1 as [|[k v] fields Hk _ IH]; [done|]. rewrite map_cons. cbn [mapM].
  change (field_line (k, v)) with (k ++ bs ": " ++ v).
  rewrite split_colon by done. cbn [mbind option_bind]. by rewrite IH.
Qed.

Lemma read_disposition named :
  parse_disposition (disposition named) = Some (quote_header named.1, quote_header <$> named.2.(filename)).
Proof.
  unfold parse_disposition, disposition, quoted.
  assert (∀ s, 34 ∉ quote_header s) as Hq by (intros s Hin; by apply quote_header_clean in Hin as (_ & _ & ? & _)).
  rewrite <- !(assoc_L (++)), (assoc_L (++)), strip_prefix_app. cbn [mbind option_bind app].
  rewrite (proj2 (split_once_spec 34 _ (quote_header named.1) _)) by (split; [reflexivity|apply Hq]).
  cbn [mbind option_bind]. destruct (filename named.2) as [f|]; [|done]. cbn [fmap option_fmap option_map].
  rewrite bool_decide_false by done.
  change (bs "; filename=" ++ 34 :: quote_header f ++ [34]) with ((bs "; filename=" ++ [34]) ++ quote_header f ++ [34]).
  rewrite strip_prefix_app. cbn [mbind option_bind].
  by rewrite (proj2 (split_once_spec 34 _ (quote_header f) [])) by (split; [reflexivity|apply Hq]).
Qed.

Lemma type_header_ok boundary named : part_ok boundary named →
  Forall header_line_ok (part_fields named).
Proof.
  intros [Hf _]. constructor; [|done]. split; [reflexivity|]. cbn [fst snd]. apply (free_absent 13 [10]).
  assert (∀ s, 13 ∉ quote_header s) as Hq by (intros s Hs; by apply quote_header_clean in Hs as (? & _)).
  assert (∀ s, 13 ∉ quoted s) as Hq'.
  { intros s. unfold quoted. rewrite !not_elem_of_app. specialize (Hq s). set_solver by lia. }
  assert (∀ s, contains 13 s = false → 13 ∉ s) as Hc by (intros s Hs Hin; apply contains_spec in Hin; congruence).
  unfold disposition. rewrite !not_elem_of_app.
  split_and!; try (by apply Hc); [apply Hq'|].
  destruct (filename named.2) as [f|]; [|by apply Hc]. rewrite not_elem_of_app. split; [by apply Hc|apply Hq'].
Qed.

Lemma field_line_ok h : header_line_ok h → field_line h ≠ [] ∧ free crlf (field_line h).
Proof. intros [_ H]. split; [|done]. unfold field_line. by destruct h.1. Qed.

Lemma read_parts_written boundary parts fuel : 13 ∉ boundary → (length parts < fuel)%nat →
  Forall (part_ok boundary) parts →
  read_parts fuel boundary (after_boundary boundary parts) = Some (map received parts).
Proof.
  intros Hb. revert fuel. induction parts as [|p parts IH]; intros fuel Hl Hok.
  - destruct fuel as [|fuel]; [lia|]. done.
  - apply Forall_cons in Hok as [Hp Hok]. destruct fuel as [|fuel]; [lia|]. cbn [length] in Hl.
    cbn [read_parts after_boundary]. rewrite bool_decide_false by done.
    rewrite strip_prefix_app. cbn [mbind option_bind].
    pose proof (type_header_ok boundary p Hp) as Hh.
    rewrite <- (map_map field_line (λ l, l ++ crlf)).
    rewrite read_head_lines.
    2: { rewrite length_app, length_map. etrans; [|apply Nat.le_add_r]. clear.
         induction (part_fields p) as [|h l IHl]; [done|]. cbn [map concat length].
         rewrite !length_app. change (length crlf) with 2%nat. lia. }
    2: { apply Forall_map. eapply Forall_impl; [exact Hh|]. apply field_line_ok. }
    cbn [mbind option_bind]. rewrite read_fields_lines.
    2: { eapply Forall_impl; [exact Hh|]. by intros ? [? _]. }
    cbn [mbind option_bind part_fields]. rewrite bool_decide_true by done.
    rewrite read_disposition. cbn [mbind option_bind].
    unfold delimiter at 1 2. change (crlf ++ bs "--" ++ boundary) with (13 :: 10 :: bs "--" ++ boundary).
    rewrite split_once_str_free.
    2: { change (bs "--") with [45; 45]. set_solver by lia. }
    2: { apply Hp. }
    cbn [mbind option_bind]. rewrite IH by (lia || done). done.
Qed.

(** ** Building *)

Section build.
Context `{P : Python} (h1 h2 : Z → Z).

(** *** What an entry of the dict means *)

(** The bytes of a content: nothing for [None], bytes and texts as they are, and what
    [str] makes of anything else. *)
Definition content_of (o : PyObj) (b : bytes) : Prop :=
  match o with
  | PyNone => b = []
  | PyBytes x => b = x
  | PyStr s => s = Some b
  | _ => py_str o = inr b
  end.
Definition optional_text (o : PyObj) (t : option bytes) : Prop :=
  (o = PyNone ∧ t = None) ∨ ∃ s, o = PyStr (Some s) ∧ t = Some s.
Definition header_dict (o : PyObj) (hs : list (bytes * bytes)) : Prop :=
  (o = PyNone ∧ hs = []) ∨
  ∃ d, o = PyDict d ∧ Forall2 (λ e h, e = (PyStr (Some h.1), PyStr (Some h.2))) d hs.

Definition a_sequence (o : PyObj) (l : list PyObj) : Prop := o = PyTuple l ∨ o = PyList l.

(** A value alone is a form field; a tuple or list is (file name, content), with a
    content type and further headers if they are given. *)
Inductive means : PyObj → ParsedPart → Prop :=
  | means_field o b : (∀ l, ¬ a_sequence o l) → content_of o b → means o (mkPart None None b [])
  | means_file o fo co f c :
      a_sequence o [fo; co] → optional_text fo f → content_of co c → means o (mkPart f None c [])
  | means_typed o fo co to f c t :
      a_sequence o [fo; co; to] → optional_text fo f → content_of co c → optional_text to t → means o (mkPart f t c [])
  | means_full o fo co to ho f c t hs :
      a_sequence o [fo; co; to; ho] → optional_text fo f → content_of co c → optional_text to t → header_dict ho hs →
      means o (mkPart f t c hs).

Lemma coerce_content_means o b : coerce_content o = Ok b ↔ content_of o b.
Proof.
  unfold coerce_content, content_of, raised, conversion. destruct o as [| | | |s| | | |]; try (destruct (py_str _); naive_solver); [naive_solver..|].
  destruct s; cbn; naive_solver.
Qed.
Lemma optional_string_means o msg t : optional_string o msg = Ok t ↔ optional_text o t.
Proof.
  unfold optional_string, optional_text. destruct o as [| | | |[s|]| | | |]; cbn; naive_solver.
Qed.
Lemma header_pairs_means d hs : header_pairs d = Ok hs ↔ Forall2 (λ e h, e = (PyStr (Some h.1), PyStr (Some h.2))) d hs.
Proof.
  revert hs. induction d as [|[k v] d IH]; intros hs; cbn [header_pairs].
  { split; [intros [= <-]; constructor|]. by intros ->%Forall2_nil_inv_l. }
  unfold extract_string_or, conversion. split.
  - intros (k' & Hk & (v' & Hv & (rest & Hr & [= <-])%bind_Ok)%bind_Ok)%bind_Ok. apply IH in Hr.
    destruct k as [| | | |[k|]| | | |]; cbn in Hk; try done. destruct v as [| | | |[v|]| | | |]; cbn in Hv; try done.
    injection Hk as <-. injection Hv as <-. by constructor.
  - intros ([k' v'] & hs' & [= -> ->] & Hr & ->)%Forall2_cons_inv_l. apply IH in Hr. cbn. by rewrite Hr.
Qed.
Lemma headers_means ho hs :
  (match ho with
   | PyNone => Ok []
   | PyDict h => header_pairs h
   | _ => Err (TypeError (bs "files tuple headers must be a dict or None"))
   end) = Ok hs ↔ header_dict ho hs.
Proof.
  unfold header_dict. destruct ho; try (split; [done|]; intros [[? _]|(? & ? & _)]; done); [naive_solver|].
  rewrite header_pairs_means. naive_solver.
Qed.

Abbreviation filename_message := (bs "files tuple filename must be a string or None").
Abbreviation type_message := (bs "files tuple content_type must be a string or None").

Lemma parse_sequence_2 fo co : parse_sequence [fo; co] =
  (f ← optional_string fo filename_message; c ← coerce_content co; Ok (mkPart f None c [])).
Proof. reflexivity. Qed.
Lemma parse_sequence_3 fo co to : parse_sequence [fo; co; to] =
  (f ← optional_string fo filename_message; c ← coerce_content co; t ← optional_string to type_message; Ok (mkPart f t c [])).
Proof. reflexivity. Qed.
Lemma parse_sequence_4 fo co to ho : parse_sequence [fo; co; to; ho] =
  (f ← optional_string fo filename_message; c ← coerce_content co; t ← optional_string to type_message;
   hs ← match ho with
        | PyNone => Ok []
        | PyDict h => header_pairs h
        | _ => Err (TypeError (bs "files tuple headers must be a dict or None"))
        end; Ok (mkPart f t c hs)).
Proof. reflexivity. Qed.

Lemma parse_sequence_means l p : parse_sequence l = Ok p ↔ means (PyTuple l) p.
Proof.
  split.
  - destruct l as [|fo [|co [|to [|ho [|x l]]]]]; [done..| | | |].
    + rewrite parse_sequence_2. intros (f & Hf & (c & Hc & [= <-])%bind_Ok)%bind_Ok.
      apply optional_string_means in Hf. apply coerce_content_means in Hc. eapply means_file; [by left|done..].
    + rewrite parse_sequence_3. intros (f & Hf & (c & Hc & (t & Ht & [= <-])%bind_Ok)%bind_Ok)%bind_Ok.
      apply optional_string_means in Hf, Ht. apply coerce_content_means in Hc. eapply means_typed; [by left|done..].
    + rewrite parse_sequence_4. intros (f & Hf & (c & Hc & (t & Ht & (hs & Hh & [= <-])%bind_Ok)%bind_Ok)%bind_Ok)%bind_Ok.
      apply optional_string_means in Hf, Ht. apply coerce_content_means in Hc. apply headers_means in Hh.
      eapply means_full; [by left|done..].
    + unfold parse_sequence.
      rewrite (proj2 (Z.leb_gt (zlen (fo :: co :: to :: ho :: x :: l)) 4)) by (unfold zlen; cbn [length]; lia).
      by rewrite andb_false_r.
  - inversion 1 as [o b Hn|o fo co f c Hs Hf Hc|o fo co to f c t Hs Hf Hc Ht|o fo co to ho f c t hs Hs Hf Hc Ht Hh]; subst;
      [by destruct (Hn l); left|..]; destruct Hs as [[= ->]|[=]];
      apply (proj2 (optional_string_means _ filename_message _)) in Hf; apply coerce_content_means in Hc;
      try apply (proj2 (optional_string_means _ type_message _)) in Ht; try apply headers_means in Hh.
    + rewrite parse_sequence_2, Hf. cbn [mbind exec_bind]. by rewrite Hc.
    + rewrite parse_sequence_3, Hf. cbn [mbind exec_bind]. rewrite Hc. cbn [mbind exec_bind]. by rewrite Ht.
    + rewrite parse_sequence_4, Hf. cbn [mbind exec_bind]. rewrite Hc. cbn [mbind exec_bind]. rewrite Ht. cbn [mbind exec_bind]. by rewrite Hh.
Qed.

Lemma means_list l p : means (PyList l) p ↔ means (PyTuple l) p.
Proof.
  assert (∀ k, a_sequence (PyList l) k ↔ a_sequence (PyTuple l) k) as Hs by (unfold a_sequence; naive_solver).
  assert (∀ o o', o ≠ PyNone → (∀ k, a_sequence o k ↔ a_sequence o' k) → (∃ k, a_sequence o k) → means o p → means o' p) as Hm.
  { intros o o' _ He [k Hk]. destruct 1 as [o b Hn|o fo co f c Hq|o fo co to f c t Hq|o fo co to ho f c t hs Hq]; [by destruct (Hn k)|..];
      apply He in Hq; [by eapply means_file|by eapply means_typed|by eapply means_full]. }
  split; (apply Hm; [done|intros k; by rewrite Hs|exists l; unfold a_sequence; naive_solver]).
Qed.

Lemma parse_value_means v p : parse_value v = Ok p ↔ means v p.
Proof.
  destruct v as [| | | | |l|l| |]; cbn [parse_value]; [..|apply parse_sequence_means|by rewrite means_list, parse_sequence_means| |].
  all: match goal with |- context [coerce_content ?v] => assert (∀ l, ¬ a_sequence v l) as Hn by (intros l [|]; done);
    split; [intros (x0 & Hx0%coerce_content_means & [= <-])%bind_Ok; by apply means_field|];
    inversion 1 as [? x0 _ Hc|? ? ? ? ? Hs|? ? ? ? ? ? ? Hs|? ? ? ? ? ? ? ? ? Hs]; subst; [|by destruct (Hn _ Hs)..];
    apply coerce_content_means in Hc; by rewrite Hc end.
Qed.

(** *** What is to be received *)

(** The characters that would end a quoted string or its line. *)
Definition breaking : bytes := [92; 34; 13; 10].
Definition hex16_digit (n : Z) : Z := nth (Z.to_nat n) (bs "0123456789ABCDEF") 0.

(** Percent-encoding of exactly those. *)
Inductive escaped : bytes → bytes → Prop :=
  | escaped_nil : escaped [] []
  | escaped_plain c s q : c ∉ breaking → escaped s q → escaped (c :: s) (c :: q)
  | escaped_breaking c s q : c ∈ breaking → escaped s q →
      escaped (c :: s) (ch "%" :: hex16_digit (c / 16) :: hex16_digit (c mod 16) :: q).

Lemma quote_header_escaped s : escaped s (quote_header s).
Proof.
  induction s as [|c s IH]; [constructor|]. unfold quote_header. cbn [map concat]. fold (quote_header s).
  destruct (decide (c ∈ breaking)) as [Hc|Hc].
  - assert (quote_char c = [ch "%"; hex16_digit (c / 16); hex16_digit (c mod 16)]) as ->.
    { unfold breaking in Hc. repeat (apply elem_of_cons in Hc as [->|Hc]; [reflexivity|]). by apply not_elem_of_nil in Hc. }
    by apply escaped_breaking.
  - assert (quote_char c = [c]) as ->; [|by apply escaped_plain].
    unfold breaking in Hc. rewrite !not_elem_of_cons in Hc. unfold quote_char.
    destruct Hc as (? & ? & ? & ? & _). by rewrite !(proj2 (Z.eqb_neq _ _)).
Qed.

(** No reader of a header can take a piece of such a text for its end. *)
Lemma quote_header_breaks_nothing s : Forall (λ c, c ∉ breaking) (quote_header s).
Proof.
  apply Forall_forall. intros x Hx. apply quote_header_clean in Hx. unfold breaking. rewrite !not_elem_of_cons.
  split_and!; try lia. apply not_elem_of_nil.
Qed.

(** A named part and what a receiver has of it: its type is the given one, or the
    default for a file. *)
Definition comes_as (named : bytes * ParsedPart) (r : Received) : Prop :=
  let part := named.2 in
  (escaped named.1 (rc_name r) ∧ Forall (λ c, c ∉ breaking) (rc_name r)) ∧
  match part.(filename), rc_filename r with
  | None, None => True
  | Some f, Some q => escaped f q ∧ Forall (λ c, c ∉ breaking) q
  | _, _ => False
  end ∧
  rc_headers r = (match part.(content_type), part.(filename) with
                  | Some ct, _ => [(bs "Content-Type", ct)]
                  | None, Some _ => [(bs "Content-Type", bs "application/octet-stream")]
                  | None, None => []
                  end) ++ part.(extra_headers) ∧
  rc_content r = part.(part_content).

Lemma received_comes_as p : comes_as p (received p).
Proof.
  unfold comes_as, received. cbn. split_and!; [apply quote_header_escaped|apply quote_header_breaks_nothing| |done|done].
  destruct (filename p.2); [|done]. split; [apply quote_header_escaped|apply quote_header_breaks_nothing].
Qed.

(** An entry of the dict and the part it becomes. *)
Definition entry_part (e : PyObj * PyObj) (p : bytes * ParsedPart) : Prop :=
  extract_string e.1 = Some p.1 ∧ parse_value e.2 = Ok p.2.

(** Why an entry is refused. *)
Definition refused (e : PyObj * PyObj) (err : PyErr) : Prop :=
  (extract_string e.1 = None ∧ err = TypeError (bs "files dict keys must be strings")) ∨
  (is_Some (extract_string e.1) ∧ parse_value e.2 = Err err).

Lemma header_pairs_no_panic l : header_pairs l ≠ Panic.
Proof. induction l as [|[k v] l IH]; cbn [header_pairs]; no_panic. Qed.
Lemma coerce_content_no_panic o : coerce_content o ≠ Panic.
Proof. unfold coerce_content. no_panic. Qed.
Lemma optional_string_no_panic o msg : optional_string o msg ≠ Panic.
Proof. unfold optional_string. case_match; [done|]. by destruct (extract_string o). Qed.
Lemma get_item_no_panic l i : get_item l i ≠ Panic.
Proof. apply conversion_no_panic. Qed.
Hint Resolve header_pairs_no_panic coerce_content_no_panic optional_string_no_panic get_item_no_panic : panic.

Lemma parse_sequence_no_panic l : parse_sequence l ≠ Panic.
Proof. unfold parse_sequence. no_panic. Qed.
Hint Resolve parse_sequence_no_panic : panic.

Lemma parse_value_no_panic v : parse_value v ≠ Panic.
Proof. unfold parse_value. no_panic. Qed.

Lemma write_parts_spec boundary entries body :
  match write_parts body boundary entries with
  | Ok body' => ∃ parts, Forall2 entry_part entries parts ∧
      body' = body ++ concat (map (λ p, part_bytes boundary p.1 p.2) parts)
  | Err e => ∃ pre entry post parts, entries = pre ++ entry :: post ∧ Forall2 entry_part pre parts ∧ refused entry e
  | Panic => False
  end.
Proof.
  revert body. induction entries as [|[k v] entries IH]; intros body; cbn [write_parts].
  - exists []. split; [constructor|]. by rewrite app_nil_r.
  - destruct (extract_string k) as [name|] eqn:Ek; cbn [ok_or mbind exec_bind].
    2: { exists [], (k, v), entries, []. split_and!; [done|constructor|by left]. }
    unfold write_part. pose proof (parse_value_no_panic v) as Hv.
    destruct (parse_value v) as [part|e|] eqn:Ev; cbn [mbind exec_bind]; [| |done].
    2: { exists [], (k, v), entries, []. split_and!; [done|constructor|right; split; [by eexists|done]]. }
    specialize (IH (body ++ part_bytes boundary name part)).
    destruct (write_parts _ boundary entries) as [body'|e|]; [| |done].
    + destruct IH as (parts & Hf & ->). exists ((name, part) :: parts). split; [by constructor|].
      by rewrite <- (assoc_L (++)).
    + destruct IH as (pre & entry & post & parts & -> & Hf & Hr).
      exists ((k, v) :: pre), entry, post, ((name, part) :: parts). split_and!; [done|by constructor|done].
Qed.

Lemma build_multipart_no_panic files counter : (build_multipart h1 h2 files counter).1 ≠ Panic.
Proof.
  destruct files; try done. cbn [build_multipart random_boundary fst].
  match goal with |- context [write_parts [] ?b ?l] => pose proof (write_parts_spec b l []); by destruct (write_parts [] b l) end.
Qed.

Lemma hex16_no_cr n : 13 ∉ hex16 n.
Proof.
  unfold hex16. intros Hin. apply list_elem_of_In, in_map_iff in Hin as (i & Hi & _).
  unfold hex_digit in Hi. assert (0 ≤ Z.land (Z.shiftr n (4 * (15 - Z.of_nat i))) 15) as Hp by (apply Z.land_nonneg; lia).
  case_match; lia.
Qed.

Lemma boundary_no_cr counter : 13 ∉ (random_boundary h1 h2 counter).1.
Proof.
  cbn [random_boundary fst]. rewrite !not_elem_of_app. split_and!; [|apply hex16_no_cr..].
  rewrite <- contains_spec. vm_compute. done.
Qed.

Lemma receive_written boundary parts : 13 ∉ boundary → Forall (part_ok boundary) parts →
  receive boundary (concat (map (λ p, part_bytes boundary p.1 p.2) parts) ++ bs "--" ++ boundary ++ bs "--" ++ crlf)
  = Some (map received parts).
Proof.
  intros Hb Hok. rewrite written_after_boundary. unfold receive.
  rewrite (assoc_L (++) (bs "--") boundary), strip_prefix_app. cbn [mbind option_bind].
  apply read_parts_written; [done| |done]. rewrite !length_app. change (length (bs "--")) with 2%nat.
  assert (length parts ≤ length (after_boundary boundary parts))%nat; [|lia]. clear.
  induction parts as [|p parts IH]; [cbn; lia|]. cbn [after_boundary]. rewrite !length_app.
  change (length crlf) with 2%nat. cbn [length]. lia.
Qed.

(** A text key and a value that means a part. *)
Definition entry_means (e : PyObj * PyObj) (p : bytes * ParsedPart) : Prop := e.1 = PyStr (Some p.1) ∧ means e.2 p.2.

Lemma entry_part_means e p : entry_part e p → entry_means e p.
Proof.
  intros [Hk Hv%parse_value_means]. split; [|done]. by destruct e.1; cbn in Hk; simplify_eq.
Qed.
Lemma refused_meaningless e err : refused e err →
  (∀ s, e.1 ≠ PyStr (Some s)) ∧ err = TypeError (bs "files dict keys must be strings") ∨
  (∃ s, e.1 = PyStr (Some s)) ∧ (∀ p, ¬ means e.2 p) ∧ parse_value e.2 = Err err.
Proof.
  intros [[Hk ->]|[[s Hk] He]]; [left|right].
  - split; [|done]. intros s Hs. by rewrite Hs in Hk.
  - split_and!; [exists s; by destruct e.1; cbn in Hk; simplify_eq| |done]. intros p Hp%parse_value_means. congruence.
Qed.

(** C36: [build_multipart] either makes a body or refuses, at the first entry whose key
    is no text or whose value means nothing.  A body it makes is read back by a receiver
    that knows the boundary as exactly what the entries mean, in order: a value alone is
    a field, a tuple or list a file name (or none), a content, and, if given, a content
    type and headers.  Names and file names come with the four breaking characters,
    and only those, percent-encoded, so none of them can end a header or forge one; with
    the given content type, or the default for a file; the extra headers; and the
    content byte for byte, provided the caller's own header text stays on its line and
    no content contains the delimiter. *)
Theorem multipart_received (files : PyObj) (counter : Z) :
  match (build_multipart h1 h2 files counter).1 with
  | Ok (boundary, body) =>
      boundary = (random_boundary h1 h2 counter).1 ∧
      ∃ entries parts, files = PyDict entries ∧ Forall2 entry_means entries parts ∧
        (Forall (part_ok boundary) parts → ∃ rs, receive boundary body = Some rs ∧ Forall2 comes_as parts rs)
  | Err e =>
      (e = TypeError (bs "files must be a dict mapping field name to content") ∧ ∀ entries, files ≠ PyDict entries) ∨
      (∃ pre entry post parts, files = PyDict (pre ++ entry :: post) ∧ Forall2 entry_means pre parts ∧
         ((∀ s, entry.1 ≠ PyStr (Some s)) ∧ e = TypeError (bs "files dict keys must be strings") ∨
          (∃ s, entry.1 = PyStr (Some s)) ∧ ∀ p, ¬ means entry.2 p))
  | Panic => False
  end.
Proof.
  destruct files as [| | | | | | |entries|]; try (by left). cbn [build_multipart].
  pose proof (boundary_no_cr counter) as Hb. destruct (random_boundary h1 h2 counter) as [boundary c]. cbn [fst] in *.
  pose proof (write_parts_spec boundary entries []) as H. destruct (write_parts [] boundary entries) as [body|e|].
  - destruct H as (parts & Hf & ->). cbn [mbind exec_bind app]. split; [done|]. exists entries, parts.
    split_and!; [done|by eapply Forall2_impl; [exact Hf|apply entry_part_means]|].
    intros Hok. exists (map received parts). split; [by apply receive_written|].
    apply Forall2_fmap_r, Forall_Forall2_diag, Forall_true, received_comes_as.
  - destruct H as (pre & entry & post & parts & -> & Hf & Hr%refused_meaningless). right. exists pre, entry, post, parts.
    split_and!; [done|by eapply Forall2_impl; [exact Hf|apply entry_part_means]|]. naive_solver.
  - done.
Qed.
End build.

(** A toy interpreter: opaque objects print as "42". *)
#[local] Instance toy_python : Python :=
  {| py_str _ := inr (bs "42"); conversion_error _ := 0; extract_bytes _ := None |}.

(** A file and a field, built and received. *)
Example multipart_two_parts :
  let str s := PyStr (Some (bs s)) in
  let files := PyDict [(str "doc", PyTuple [str "a.txt"; PyBytes [1; 13; 10; 2]]); (str "k", PyOther 7)] in
  match (build_multipart (λ _, 5) (λ _, 7) files 0).1 with
  | Ok (boundary, body) => receive boundary body
  | _ => None
  end = Some [mkReceived (bs "doc") (Some (bs "a.txt")) [(bs "Content-Type", bs "application/octet-stream")] [1; 13; 10; 2];
              mkReceived (bs "k") None [] (bs "42")].
Proof. vm_compute. reflexivity. Qed.
