(* ===== verification/PyApi.v ===== *)
(** * The Python API (src/python.rs)

    The entry points of class BlastHTTP: how keyword arguments become a request
    configuration, how outcomes become Python results, and the chunked iterator over a
    streamed batch.  The wrappers' attribute getters are in [PyResponses], the
    HTTP/2 functions in [PyH2]. *)
From S2P Require Import Prelude RustStd ClientError Config Batch Dispatch PyValue Multipart.
From S2P Require Response.

(** ** Bodies and files *)

Section body.
Context `{Python}.

Definition coerce_body (body : option PyObj) : exec PyErr (option bytes) :=
  match body with
  | None => Ok None
  | Some b =>
      if is_none b then Ok None
      else match extract_string b with
           | Some s => Ok (Some s)
           | None => match extract_bytes b with
                     | Some b => Ok (Some b)
                     | None => Err (TypeError (bs "body must be bytes, str, or None"))
                     end
           end
  end.

Definition reject_body_with_files (body files : option PyObj) : exec PyErr () :=
  if is_set body && is_set files then Err (ValueError (bs "got both body= and files=; pass only one")) else Ok tt.

Definition has_content_type (headers : list (bytes * bytes)) : bool :=
  existsb (λ h, eq_ignore_ascii_case h.1 (bs "content-type")) headers.

(** The boundary's hashers, and the process-wide counter threaded through. *)
Context (h1 h2 : Z → Z).

Definition apply_body_and_files (body files : option PyObj) (headers : option (list (bytes * bytes))) (counter : Z)
    : exec PyErr (option bytes * option (list (bytes * bytes))) * Z :=
  match reject_body_with_files body files with
  | Ok _ =>
      match files with
      | Some files =>
          if is_none files then (b ← coerce_body body; Ok (b, headers), counter)
          else
            let '(r, counter) := build_multipart h1 h2 files counter in
            ('(boundary, body_bytes) ← r;
             let header_list := default [] headers in
             Ok (Some body_bytes,
                 Some (if has_content_type header_list then header_list
                       else header_list ++ [(bs "Content-Type", bs "multipart/form-data; boundary=" ++ boundary)])),
             counter)
      | None => (b ← coerce_body body; Ok (b, headers), counter)
      end
  | Err e => (Err e, counter)
  | Panic => (Panic, counter)
  end.

(** ** Configurations *)

(** The keyword arguments of [request], and the fields of a [BatchConfig]; the latter
    has no [max_body_size]. *)
Record PyArgs := mkArgs {
  a_url : bytes;
  a_method : option bytes;
  a_headers : option (list (bytes * bytes));
  a_body : option PyObj;
  a_files : option PyObj;
  a_timeout : option Z;
  a_follow_redirects : option bool;
  a_max_redirects : option Z;
  a_redirect_cookies : option bool;
  a_verify_certs : option bool;
  a_proxy : option bytes;
  a_no_proxy : option (list bytes);
  a_cipher_string : option bytes;
  a_min_tls_version : option bytes;
  a_max_tls_version : option bytes;
  a_retries : option Z;
  a_retry_wait_min_ms : option Z;
  a_retry_wait_max_ms : option Z;
  a_raw_path : option bool;
  a_request_target : option bytes;
  a_resolve_ip : option bytes;
  a_alpn_protocols : option (list bytes)
}.

Definition request_config (a : PyArgs) (max_body_size : option Z) (counter : Z) : exec PyErr RequestConfig * Z :=
  let '(r, counter) := apply_body_and_files (a_body a) (a_files a) (a_headers a) counter in
  ('(body_bytes, headers) ← r;
   Ok (mkConfig (a_url a) (a_method a) headers body_bytes (a_timeout a) max_body_size (a_follow_redirects a)
         (a_max_redirects a) (a_redirect_cookies a) (a_verify_certs a) (a_proxy a) (default [] (a_no_proxy a))
         (a_cipher_string a) (a_min_tls_version a) (a_max_tls_version a) (a_retries a) (a_retry_wait_min_ms a)
         (a_retry_wait_max_ms a) (a_raw_path a) (a_request_target a) (a_resolve_ip a) (a_alpn_protocols a) 0),
   counter).

(** [PyBatchConfig], as its constructor fills it. *)
Definition PyBatchConfig : Type := PyArgs.
Definition PyBatchConfig_new (a : PyArgs) : PyBatchConfig := a.

(** The same Python objects in [body] and [files]. *)
Definition PyBatchConfig_clone (c : PyBatchConfig) : PyBatchConfig :=
  mkArgs (a_url c) (a_method c) (a_headers c) (a_body c) (a_files c) (a_timeout c) (a_follow_redirects c) (a_max_redirects c)
    (a_redirect_cookies c) (a_verify_certs c) (a_proxy c) (a_no_proxy c) (a_cipher_string c) (a_min_tls_version c)
    (a_max_tls_version c) (a_retries c) (a_retry_wait_min_ms c) (a_retry_wait_max_ms c) (a_raw_path c)
    (a_request_target c) (a_resolve_ip c) (a_alpn_protocols c).

Definition into_request_config (c : PyBatchConfig) (counter : Z) : exec PyErr RequestConfig * Z :=
  let '(r, counter) := apply_body_and_files (a_body c) (a_files c) (a_headers c) counter in
  ('(body_bytes, headers) ← r;
   Ok (mkConfig (a_url c) (a_method c) headers body_bytes (a_timeout c) None (a_follow_redirects c)
         (a_max_redirects c) (a_redirect_cookies c) (a_verify_certs c) (a_proxy c) (default [] (a_no_proxy c))
         (a_cipher_string c) (a_min_tls_version c) (a_max_tls_version c) (a_retries c) (a_retry_wait_min_ms c)
         (a_retry_wait_max_ms c) (a_raw_path c) (a_request_target c) (a_resolve_ip c) (a_alpn_protocols c) 0),
   counter).

(** [configs.into_iter().map(...).collect()]: the first error stops. *)
Fixpoint into_request_configs (cs : list PyBatchConfig) (counter : Z) : exec PyErr (list RequestConfig) * Z :=
  match cs with
  | [] => (Ok [], counter)
  | c :: cs =>
      match into_request_config c counter with
      | (Ok c, counter) => let '(r, counter) := into_request_configs cs counter in ((λ cs, c :: cs) <$> r, counter)
      | (Err e, counter) => (Err e, counter)
      | (Panic, counter) => (Panic, counter)
      end
  end.
End body.

Definition download_config (url : bytes) (max_size timeout : option Z) (verify_certs : option bool)
    (proxy : option bytes) (no_proxy : option (list bytes)) (headers : option (list (bytes * bytes)))
    (retries : option Z) (redirect_cookies : option bool) : RequestConfig :=
  mkConfig url (Some (bs "GET")) headers None timeout max_size (Some true) (Some 10) redirect_cookies verify_certs
    proxy (default [] no_proxy) None None None retries None None None None None None 0.

Definition raw_connect_config (url : bytes) (verify_certs : option bool)
    (cipher_string min_tls_version max_tls_version resolve_ip proxy : option bytes)
    (no_proxy : option (list bytes)) (alpn_protocols : option (list bytes)) (timeout : option Z) : RequestConfig :=
  mkConfig url None None None timeout None None None None verify_certs proxy (default [] no_proxy) cipher_string
    min_tls_version max_tls_version None None None None None resolve_ip alpn_protocols 0.

(** ** Outcomes *)

Abbreviation Response := Response.Response.

(** [map_err(|e| PyRuntimeError::new_err(e.message))]. *)
Definition runtime_error (e : ClientError) : PyErr := RuntimeError e.(message).
Definition request_result (r : exec ClientError Response) : exec PyErr Response := map_err runtime_error r.

(** [File::create] and [write_all]: what each fails with, if it does. *)
Definition download_result (r : exec ClientError Response) (path : bytes) (create write : option bytes)
    : exec PyErr bytes * option bytes :=
  match request_result r with
  | Ok response =>
      match create with
      | Some e => (Err (RuntimeError (bs "failed to create file '" ++ path ++ bs "': " ++ e)), None)
      | None =>
          match write with
          | Some e => (Err (RuntimeError (bs "failed to write to '" ++ path ++ bs "': " ++ e)), None)
          | None => (Ok path, Some (Response.body_bytes response))
          end
      end
  | Err e => (Err e, None)
  | Panic => (Panic, None)
  end.

Record PyBatchResult := mkPyBatchResult {
  br_url : bytes;
  br_response : option Response;
  br_error : option bytes
}.

(** The constructor clones the response, without its caches. *)
Definition BatchResult_new (url : bytes) (response : option Response) (error : option bytes) : PyBatchResult :=
  mkPyBatchResult url (Response.clone <$> response) error.

(** A batch holds no panic: [join_result] and [emit] turn it into an error or drop it. *)
Definition to_py_batch_result (r : BatchResult Response) : PyBatchResult :=
  match r.(result) with
  | Ok resp => mkPyBatchResult r.(url) (Some resp) None
  | Err e => mkPyBatchResult r.(url) None (Some e.(message))
  | Panic => mkPyBatchResult r.(url) None None
  end.

Definition success (r : PyBatchResult) : bool := bool_decide (is_Some (br_response r)).

(** [set_rate_limit]: a rate that is not positive disables the limiter. *)
Definition set_rate_limit (rate_limit : option f64) : exec Empty_set (option RateLimiter) :=
  match rate_limit with
  | Some r => if f64_pos r then l ← RateLimiter_new r; Ok (Some l) else Ok None
  | None => Ok None
  end.

(** ** The streamed batch, in chunks *)

(** What the underlying stream still does: each result with the milliseconds its
    [next()] takes, then the milliseconds until the stream ends. *)
Record arrivals := mkArrivals { upcoming : list (Z * BatchResult Response); end_after : Z }.

(** One [__anext__]: the chunk, or the end of the stream; what is left of the stream;
    and the milliseconds the call took. *)
Fixpoint fill (l : list (Z * BatchResult Response)) (end_after : Z) (batch : list PyBatchResult) (elapsed : Z)
    : exec PyErr (list PyBatchResult) * arrivals * Z :=
  if bool_decide (zlen batch >= 1000) || (negb (bool_decide (batch = [])) && bool_decide (elapsed >= 200))
  then (Ok batch, mkArrivals l end_after, elapsed)
  else match l with
       | (wait, r) :: l => fill l end_after (batch ++ [to_py_batch_result r]) (elapsed + wait)
       | [] =>
           (if bool_decide (batch = []) then Err (StopAsyncIteration (bs "end of stream")) else Ok batch,
            mkArrivals [] 0, elapsed + end_after)
       end.
Definition anext (s : arrivals) : exec PyErr (list PyBatchResult) * arrivals * Z :=
  fill (upcoming s) (end_after s) [] 0.

(** [async for]: the chunks, until the iteration stops. *)
Fixpoint chunks (fuel : nat) (s : arrivals) : option (list (list PyBatchResult)) :=
  match fuel with
  | O => None
  | S fuel =>
      match anext s with
      | (Ok batch, s, _) => cs ← chunks fuel s; Some (batch :: cs)
      | (Err (StopAsyncIteration _), _, _) => Some []
      | _ => None
      end
  end.

(** ** Facts *)

Section configs.
Context `{Python} (h1 h2 : Z → Z).

(** A [BatchConfig] is a [request] without a body cap. *)
Lemma into_request_config_eq c counter :
  into_request_config h1 h2 c counter = request_config h1 h2 c None counter.
Proof. done. Qed.

Lemma coerce_body_no_panic body : coerce_body body ≠ Panic.
Proof. unfold coerce_body. no_panic. Qed.
End configs.

Definition results_of (l : list (Z * BatchResult Response)) : list PyBatchResult := map (λ x, to_py_batch_result x.2) l.
Definition waited (l : list (Z * BatchResult Response)) : Z := fold_right (λ x acc, x.1 + acc) 0 l.

Lemma waited_app l k : waited (l ++ k) = waited l + waited k.
Proof. induction l as [|x l IH]; [done|]. cbn. unfold waited in *. lia. Qed.

Lemma fill_step l e batch t : batch ≠ [] → zlen batch < 1000 → t < 200 →
  fill l e batch t = match l with
                     | (w, r) :: l => fill l e (batch ++ [to_py_batch_result r]) (t + w)
                     | [] => (Ok batch, mkArrivals [] 0, t + e)
                     end.
Proof. intros Hb Hl Ht. destruct l as [|[w r] l]; cbn [fill]; repeat (rewrite bool_decide_false by (done || lia)); done. Qed.

Lemma fill_full l e batch t : batch ≠ [] → 1000 ≤ zlen batch ∨ 200 ≤ t →
  fill l e batch t = (Ok batch, mkArrivals l e, t).
Proof.
  intros Hb Hl. assert (bool_decide (batch = []) = false) as E by by apply bool_decide_false.
  destruct l as [|[w r] l]; cbn [fill]; rewrite E; cbn [negb andb];
    (destruct Hl; [rewrite (bool_decide_true (zlen batch >= 1000)) by lia|rewrite (bool_decide_true (t >= 200)) by lia]; by rewrite ?orb_true_r).
Qed.

(** A chunk under way is finished: it takes results until it is full, 200 ms have
    passed, or the stream ends. *)
Lemma fill_spec l e batch t : batch ≠ [] → zlen batch ≤ 1000 →
  ∃ pre s t', fill l e batch t = (Ok (batch ++ results_of pre), s, t') ∧ l = pre ++ upcoming s ∧
    zlen (batch ++ results_of pre) ≤ 1000 ∧ (upcoming s ≠ [] → end_after s = e) ∧
    (∀ p q, pre = p ++ q → q ≠ [] → t + waited p < 200) ∧
    (zlen (batch ++ results_of pre) < 1000 → t + waited pre < 200 → upcoming s = [] ∧ t' = t + waited pre + e).
Proof.
  revert batch t. induction l as [|[w r] l IH]; intros batch t Hb Hl.
  - destruct (decide (1000 ≤ zlen batch ∨ 200 ≤ t)) as [Hf|Hf].
    + exists [], (mkArrivals [] e), t. rewrite fill_full, app_nil_r by done. cbn.
      split_and!; [done..|by intros [] ? ?|lia].
    + exists [], (mkArrivals [] 0), (t + e). rewrite fill_step, app_nil_r by (done || lia). cbn.
      split_and!; [done..|by intros [] ? ?|]. intros. split; [done|lia].
  - destruct (decide (1000 ≤ zlen batch ∨ 200 ≤ t)) as [Hf|Hf].
    + exists [], (mkArrivals ((w, r) :: l) e), t. rewrite fill_full, app_nil_r by done. cbn.
      split_and!; [done..|by intros [] ? ?|lia].
    + rewrite fill_step by (done || lia).
      destruct (IH (batch ++ [to_py_batch_result r]) (t + w)) as (pre & s & t' & -> & -> & H1 & H2 & H3 & H4).
      { by destruct batch. } { rewrite zlen_app, zlen_cons, zlen_nil. lia. }
      exists ((w, r) :: pre), s, t'. rewrite <- (assoc_L (++)) in *. cbn [results_of map snd app] in *.
      split_and!; [done|done|done|done| |].
      * intros [|x p] q Hp Hq; [cbn; lia|]. injection Hp as <- Hp. cbn. specialize (H3 p q Hp Hq). unfold waited in *. lia.
      * intros Ha Hbd. cbn in Hbd. destruct H4 as [? ->]; [done|unfold waited in *; lia|]. split; [done|]. cbn. unfold waited. lia.
Qed.

Lemma anext_end e : anext (mkArrivals [] e) = (Err (StopAsyncIteration (bs "end of stream")), mkArrivals [] 0, 0 + e).
Proof. done. Qed.

Lemma anext_chunk x l e : ∃ taken s t, anext (mkArrivals (x :: l) e) = (Ok (results_of taken), s, t) ∧
  x :: l = taken ++ upcoming s ∧ 1 ≤ zlen taken ≤ 1000 ∧
  (∀ p y z q, taken = p ++ y :: z :: q → waited (p ++ [y]) < 200) ∧
  (zlen taken < 1000 → waited taken < 200 → upcoming s = [] ∧ t = waited taken + e).
Proof.
  destruct x as [w r]. unfold anext. cbn [upcoming end_after fill]. cbn [app].
  destruct (fill_spec l e [to_py_batch_result r] (0 + w)) as (pre & s & t & -> & -> & Hl & _ & Hp & Ht); [done|done|].
  exists ((w, r) :: pre), s, t. rewrite zlen_app, zlen_cons, zlen_nil in Hl, Ht.
  assert (zlen (results_of pre) = zlen pre) as Hz by (unfold zlen, results_of; by rewrite length_map).
  pose proof (zlen_nonneg pre). rewrite zlen_cons. split_and!; [done|done|lia|lia| |].
  - intros [|p0 p] y z q Heq; cbn in Heq; injection Heq as <- Heq; cbn [app waited fold_right fst].
    + specialize (Hp [] (z :: q)). unfold waited in Hp. cbn in Hp. specialize (Hp Heq). assert (z :: q ≠ []) as Hne by done. specialize (Hp Hne). lia.
    + specialize (Hp (p ++ [y]) (z :: q)). rewrite <- (assoc_L (++)) in Hp. specialize (Hp Heq ltac:(done)).
      unfold waited in *. lia.
  - intros H1 H2. cbn in H2. destruct Ht as [? ->]; [lia|unfold waited in *; lia|]. split; [done|]. unfold waited. cbn. lia.
Qed.

Lemma chunks_spec l e fuel : (length l < fuel)%nat →
  ∃ cs, chunks fuel (mkArrivals l e) = Some cs ∧ concat cs = results_of l ∧ Forall (λ c, 1 ≤ zlen c ≤ 1000) cs.
Proof.
  revert l e. induction fuel as [|fuel IH]; intros l e Hf; [lia|]. destruct l as [|x l].
  - exists []. split_and!; [done|done|constructor].
  - cbn [chunks]. destruct (anext_chunk x l e) as (taken & [l' e'] & t & -> & Heq & Hz & _). cbn in Heq.
    assert (length taken + length l' = S (length l))%nat as Hlen by (rewrite <- length_app, <- Heq; done).
    unfold zlen in Hz. cbn in Hf. destruct (IH l' e') as (cs & -> & Hc & Hcs); [lia|].
    exists (results_of taken :: cs). rewrite Heq. unfold results_of in *. rewrite map_app. cbn. rewrite Hc.
    split_and!; [done|done|]. constructor; [|done]. unfold zlen. rewrite length_map. lia.
Qed.

(** C26: iterating over a streamed batch ends, and the chunks put together are
    every result of the stream, in its order, each chunk with 1 to 1000 of them;
    [StopAsyncIteration] comes only at the end.  A chunk is cut when it is full or
    when a result arrives 200 ms or more after the call began; a smaller chunk that is
    handed out earlier is the last one.  In particular nothing is flushed while no
    result arrives: a call lasts until the arrival that fills or overdues the chunk. *)
Theorem stream_chunks (s : arrivals) :
  (∃ cs, chunks (S (length (upcoming s))) s = Some cs ∧ concat cs = results_of (upcoming s) ∧
     Forall (λ c, 1 ≤ zlen c ≤ 1000) cs) ∧
  ((anext s).1.1 = Err (StopAsyncIteration (bs "end of stream")) ↔ upcoming s = []) ∧
  (∀ batch, (anext s).1.1 = Ok batch → ∃ taken, upcoming s = taken ++ upcoming (anext s).1.2 ∧
     batch = results_of taken ∧
     (∀ p y z q, taken = p ++ y :: z :: q → waited (p ++ [y]) < 200) ∧
     (zlen taken < 1000 → waited taken < 200 →
        upcoming (anext s).1.2 = [] ∧ (anext s).2 = waited taken + end_after s)).
Proof.
  destruct s as [l e]. split; [apply chunks_spec; cbn; lia|]. destruct l as [|x l].
  - rewrite anext_end. done.
  - destruct (anext_chunk x l e) as (taken & s & t & -> & Heq & _ & H1 & H2). cbn. split; [done|].
    intros batch [= <-]. by exists taken.
Qed.

(** One result at once and the next after ten seconds: the first is handed out with
    the second. *)
Example partial_chunk_is_held (a b : BatchResult Response) :
  anext (mkArrivals [(0, a); (10000, b)] 0) =
    (Ok [to_py_batch_result a; to_py_batch_result b], mkArrivals [] 0, 10000).
Proof. reflexivity. Qed.

(** ** A batch against single requests *)

Section batch.
Context `{Python} (h1 h2 : Z → Z).
Context (send : RequestConfig → exec ClientError Response → Prop) (task_panicked : bytes).

(** The client that the drivers are given. *)
#[local] Instance hyper_client : HttpClient RequestConfig Response := { url_of := cfg_url; sends := send }.

(** The configuration of each entry, and the counter its boundary was made with. *)
Lemma into_request_configs_spec cs counter configs counter' :
  into_request_configs h1 h2 cs counter = (Ok configs, counter') →
  Forall2 (λ c config, ∃ n n', request_config h1 h2 c None n = (Ok config, n')) cs configs.
Proof.
  revert counter configs counter'. induction cs as [|c cs IH]; intros counter configs counter'; cbn [into_request_configs].
  - intros [= <- _]. constructor.
  - rewrite into_request_config_eq. destruct (request_config h1 h2 c None counter) as [[config|e|] n'] eqn:E; try done.
    destruct (into_request_configs h1 h2 cs n') as [[rest|e|] m] eqn:Er; try done. intros [= <- _].
    constructor; [by eexists _, _|]. by eapply IH.
Qed.

Lemma request_config_url c m n config n' : request_config h1 h2 c m n = (Ok config, n') → cfg_url config = a_url c.
Proof.
  unfold request_config. destruct (apply_body_and_files _ _ _ _ _ _) as [[[b h]|e|] k]; try done. by intros [= <- _].
Qed.

(** [request_batch] gives, for each [BatchConfig] in order, exactly what
    [request] with the same arguments would have given for the same outcome of the
    client: the response, or the text of the error that [request] raises; a task that
    panics becomes an error. *)
Theorem request_batch_agrees (cs : list PyBatchConfig) (counter counter' concurrency : Z)
    (configs : list RequestConfig) (s : batch_state) (results : list (BatchResult Response)) :
  0 ≤ concurrency → into_request_configs h1 h2 cs counter = (Ok configs, counter') →
  send_batch_reach configs concurrency s → send_batch_results task_panicked s = Some results →
  length results = length cs ∧
  ∀ i c, cs !! i = Some c → ∃ n n' config o r,
    request_config h1 h2 c None n = (Ok config, n') ∧ send config o ∧
    to_py_batch_result <$> results !! i = Some r ∧
    match request_result o with
    | Ok response => r = mkPyBatchResult (a_url c) (Some response) None
    | Err (RuntimeError msg) => r = mkPyBatchResult (a_url c) None (Some msg)
    | Err _ => False
    | Panic => br_response r = None ∧ is_Some (br_error r)
    end.
Proof.
  intros Hn Hc Hr Hres. pose proof (into_request_configs_spec _ _ _ _ Hc) as Hf.
  pose proof (send_batch_reach_inv configs concurrency s Hn Hr) as Hi.
  unfold send_batch_results in Hres. destruct (all_finished s) eqn:Ha; [|done]. injection Hres as <-.
  destruct (final_task _ _ _ Hi Ha) as [Htasks Hok]. rewrite length_map.
  pose proof (Forall2_length _ _ _ Hf) as Hlen. rewrite <- Htasks, length_fmap in Hlen. split; [done|].
  intros i c Hic. destruct (Forall2_lookup_l _ _ _ _ _ Hf Hic) as (config & Hcfg & n & n' & Hreq).
  rewrite <- Htasks in Hcfg. apply list_lookup_fmap_Some in Hcfg as ([config' t] & -> & Hit).
  pose proof (Forall_lookup_1 _ _ _ _ Hok Hit) as (o & Ho & Hs). cbn in Ho, Hs, Hreq. subst t.
  exists n, n', config', o, (to_py_batch_result (join_result task_panicked (config', Finished o))).
  pose proof (request_config_url _ _ _ _ _ Hreq) as <-.
  split_and!; [done|done|by rewrite list_lookup_fmap, Hit|]. by destruct o.
Qed.
End batch.
