(* ===== verification/RawConnect.v ===== *)
(** * Opening a raw connection (src/client/raw.rs)

    [RawConnection::connect] and the accessors of the handle; the operations on its
    stream are in [Raw]. *)
From stdpp Require Import gmap.
From S2P Require Import Prelude RustStd NetAddr ClientError Uri Config.
From S2P Require Import Wire Proxy Request Raw Response Conn Client ClientProps ConnectProps SendExamples.

(** The handle; [stream] is what the operations of [Raw] work on. *)
Record Handle := mkHandle {
  stream : Raw.RawConnection;
  h_cert_info : option CertInfo;
  h_alpn : option bytes;
  h_peer_ip : option IpAddr
}.

Definition cert_info (self : Handle) : option CertInfo := self.(h_cert_info).
Definition negotiated_alpn (self : Handle) : option bytes := self.(h_alpn).
Definition peer_ip (self : Handle) : option bytes := option_map ip_text self.(h_peer_ip).

Section connect.
Context (env : Env) (parse_uri : bytes → bytes + Uri) (refuses : ssl_call → option bytes)
  (lossy debug_lossy : bytes → bytes).

Definition open_handle (uri_str : bytes) (config : RequestConfig) : net Handle :=
  uri ← lift (parse_url parse_uri (bs "invalid URL '" ++ uri_str ++ bs "': ") uri_str);
  st ← connect_stream env refuses lossy debug_lossy uri config;
  mret (mkHandle (Some st.(st_tcp)) st.(st_cert_info) st.(st_alpn) st.(st_peer_ip)).

(** With a log of its own that is dropped, and no client; [tr] is what was done before.
    [TimerFired] stands for a caller that gives the wait up. *)
Definition connect (uri_str : bytes) (config : RequestConfig) (tr : list event) : exec stop Handle * list event :=
  let '(r, s) := open_handle uri_str config (mkSt HyperClient_new new_debug_log tr) in (r, s.(trace)).

(** C21: opening a raw connection never panics and touches nothing but the dial, the
    proxy's handshake and the TLS handshake for the host, port and scheme of the very
    URL given, by way of the proxy that [config] has for that host.  When it succeeds,
    exactly these happened, in this order, each as the configuration has it; the handle
    has the certificate and protocol of that handshake, and an address only when no
    proxy was used.  From then on, as long as no write fails and until the close, the
    peer gets exactly the bytes given to [send_bytes], in order and unframed, after those
    of the handshake with the proxy, and the reads give exactly the bytes that were left
    after it, in order; only a read for more than [isize::MAX] bytes panics, and it loses
    nothing; after the close every operation fails. *)
Theorem raw_session (uri_str : bytes) (config : RequestConfig) (tr : list event) :
  let '(r, tr') := connect uri_str config tr in
  r ≠ Panic ∧
  (∃ new, tr' = tr ++ new ∧
     Forall (λ e, ∃ uri, parse_uri uri_str = inr uri ∧ stream_event refuses config uri e) new) ∧
  (∀ text, parse_uri uri_str = inl text →
     r = Err (Raise (err_invalid_url (bs "invalid URL '" ++ uri_str ++ bs "': " ++ text))) ∧ tr' = tr) ∧
  ∀ h, r = Ok h → ∃ uri new st,
    parse_uri uri_str = inr uri ∧ tr' = tr ++ new ∧ opening env refuses lossy debug_lossy config uri tr new st ∧
    stream h = Some (st_tcp st) ∧ cert_info h = st_cert_info st ∧ negotiated_alpn h = st_alpn st ∧
    (effective_proxy config (host_of uri) ≠ None → peer_ip h = None) ∧
    ∀ ops, write_results (st_tcp st) = [] → Close ∉ ops →
      ∃ rs t', run_ops ops (stream h) = (rs, Some t') ∧ Forall2 (λ op o, o = Panic ↔ oversized op) ops rs ∧
        sent t' = sent (st_tcp st) ++ concat (map wrote ops) ∧
        pending (st_tcp st) = received rs ++ pending t' ∧
        (run_ops (Close :: ops) (stream h)).1 = Ok [] :: map (λ _, Err closed) ops.
Proof.
  unfold connect, open_handle, parse_url. set (s0 := mkSt HyperClient_new new_debug_log tr).
  destruct (parse_uri uri_str) as [text|uri] eqn:Hu.
  { cbn -[app bs]. split_and!; [done| | |done]; [exists []; by rewrite app_nil_r|].
    intros x [= ->]. by rewrite <- !(assoc_L (++)). }
  assert (safe (λ _ e, ∃ uri, parse_uri uri_str = inr uri ∧ stream_event refuses config uri e) (λ _, True) tr
    (connect_stream env refuses lossy debug_lossy uri config)
    (λ st, effective_proxy config (host_of uri) ≠ None → st_peer_ip st = None)) as Hsafe.
  { apply connect_stream_safe. intros _ e He. by exists uri. }
  destruct (Hsafe s0 I ltac:(done)) as ((new & Hnew & Hall) & _ & Hres).
  unfold mbind, net_bind, lift. cbn -[connect_stream s0].
  destruct (connect_stream env refuses lossy debug_lossy uri config s0) as [q s1] eqn:Hc. cbn [fst snd] in *. change (trace s0) with tr in Hnew.
  assert (Forall (λ e, ∃ u, inr uri = (inr u : bytes + Uri) ∧ stream_event refuses config u e) new) as Hf.
  { apply Forall_forall. intros e (l1 & l2 & ->)%list_elem_of_split. rewrite <- Hu. by apply (Hall l1 e l2 eq_refl). }
  destruct q as [st|x|]; cbn; [|split_and!; [done|by exists new|done|done]|done].
  split_and!; [done|by exists new|done|]. intros h [= <-].
  destruct (connect_stream_ok _ _ _ _ _ _ _ _ _ Hc) as (_ & new' & Hn & Hop).
  exists uri, new', st. cbn. split_and!; [done|done|done|done|done|done| |].
  - intros Hp. unfold peer_ip. cbn. by rewrite (Hres Hp).
  - intros ops Hw Hcl. destruct (raw_connection_transparent ops (st_tcp st) Hw Hcl) as ((rs & t' & H1 & H2 & H3 & H4) & H5 & _).
    exists rs, t'. by split_and!.
Qed.
End connect.

(** In the small network: one dial, then the TLS handshake, then bytes both ways. *)
Lemma raw_session_witness :
  let x := connect toy_env toy_parse (λ _, None) (λ b, b) (λ b, b) (uri_text next_uri) next_config [] in
  map (λ e, match e with EvDial addr => addr | EvTls id _ => default [] (sni id) | _ => [] end) x.2 =
    [bs "b.a.test:443"; bs "b.a.test"] ∧
  ∀ h, x.1 = Ok h → ∃ rs t', run_ops [SendBytes (bs "GET") None] (stream h) = (rs, Some t') ∧ sent t' = bs "GET".
Proof.
  split; [vm_compute; reflexivity|]. intros h Hh.
  pose proof (raw_session toy_env toy_parse (λ _, None) (λ b, b) (λ b, b) (uri_text next_uri) next_config []) as H.
  destruct (connect _ _ _ _ _ _ _ _) as [r tr'] eqn:E. cbn in Hh. subst r. destruct H as (_ & _ & _ & H).
  destruct (H h eq_refl) as (uri & new & st & _ & _ & _ & Hst & _ & _ & _ & Hops).
  assert (st_tcp st = mkTcp [] None [] []) as Ht.
  { vm_compute in E. injection E as <- _. cbn in Hst. injection Hst as Hst. by rewrite <- Hst. }
  destruct (Hops [SendBytes (bs "GET") None]) as (rs & t' & H1 & _ & H2 & _); [by rewrite Ht| |].
  { by intros ?%list_elem_of_singleton. }
  exists rs, t'. split; [exact H1|]. rewrite H2, Ht. reflexivity.
Defined.
