(* ===== verification/Blast.v ===== *)
(** * One BlastHTTP object and its rate limit (class BlastHTTP of src/python.rs)

    A Python program that calls the methods of one object, from any tasks, while the
    operations it started run: which limiter each operation is paced by, and what the
    limit means for all of them together.  The limiters are those of [Batch], one
    worker per operation; the client and the raw connections are interfaces. *)
From S2P Require Import Prelude RustStd ClientError Config Batch Dispatch PyValue PyApi.
From S2P Require Import Wire Raw RawConnect.

(** What an operation does on the wire, once it was paced. *)
Inductive work :=
  | WRequest (config : RequestConfig)
  | WDownload (config : RequestConfig) (path : bytes)
  | WConnect (url : bytes) (config : RequestConfig)
  | WSendBytes (conn : nat) (data : bytes)
  | WReadRaw (conn : nat) (max_bytes : Z) (timeout_ms : option Z)
  | WItem (batch : nat) (config : RequestConfig).

(** What its awaiter gets. *)
Inductive outcome :=
  | OResponse (r : exec PyErr Response)
  | OPath (r : exec PyErr bytes)
  | OConnection (r : exec PyErr nat)
  | OUnit (r : exec PyErr ())
  | OBytes (r : exec PyErr bytes)
  | OItem (o : exec ClientError Response).

(** In [acquire], past it since a time of its limiter, or over. *)
Inductive phase := Pacing | Started (at_ : Z) | Finished (at_ : Z) (o : outcome).

(** An operation; [o_limiter] is the [Arc] it holds, by its place in the arena. *)
Record op := mkOp { o_work : work; o_limiter : option nat; o_phase : phase }.

(** A [RawConnection] object; [pr_opened] is the operation that opened it. *)
Record PyRawConnection := mkPyRaw { inner : Handle; pr_limiter : option nat; pr_opened : nat }.

Definition py_cert_info (self : PyRawConnection) : option Response.CertInfo := RawConnect.cert_info (inner self).
Definition py_negotiated_alpn (self : PyRawConnection) : option bytes := RawConnect.negotiated_alpn (inner self).
Definition py_peer_ip (self : PyRawConnection) : option bytes := RawConnect.peer_ip (inner self).

(** A batch being dispatched, and its last operation. *)
Record batch := mkBatch { b_limiter : option nat; b_todo : list RequestConfig; b_last : option nat }.

Record BlastHTTP := mkBlast {
  limiters : list (RateLimiter * limiter_state);
  rate_limiter : option nat;
  ops : list op;
  conns : list PyRawConnection;
  batches : list batch;
  counter : Z;
  written : list (bytes * bytes)
}.
Definition BlastHTTP_new : BlastHTTP := mkBlast [] None [] [] [] 0 [].

(** *** Parts of the state *)
Definition new_op (w : work) (lim : option nat) (s : BlastHTTP) : BlastHTTP :=
  mkBlast (limiters s) (rate_limiter s) (ops s ++ [mkOp w lim Pacing]) (conns s) (batches s) (counter s) (written s).
Definition with_counter (n : Z) (s : BlastHTTP) : BlastHTTP :=
  mkBlast (limiters s) (rate_limiter s) (ops s) (conns s) (batches s) n (written s).
Definition with_limiter (l : RateLimiter) (s : BlastHTTP) : BlastHTTP :=
  mkBlast (limiters s ++ [(l, limiter_init)]) (rate_limiter s) (ops s) (conns s) (batches s) (counter s) (written s).
Definition with_rate_limiter (i : option nat) (s : BlastHTTP) : BlastHTTP :=
  mkBlast (limiters s) i (ops s) (conns s) (batches s) (counter s) (written s).
Definition with_phase (k : nat) (p : phase) (s : BlastHTTP) : BlastHTTP :=
  mkBlast (limiters s) (rate_limiter s) (alter (λ o, mkOp (o_work o) (o_limiter o) p) k (ops s)) (conns s) (batches s)
    (counter s) (written s).
Definition with_conns (l : list PyRawConnection) (s : BlastHTTP) : BlastHTTP :=
  mkBlast (limiters s) (rate_limiter s) (ops s) l (batches s) (counter s) (written s).
Definition with_batches (l : list batch) (s : BlastHTTP) : BlastHTTP :=
  mkBlast (limiters s) (rate_limiter s) (ops s) (conns s) l (counter s) (written s).
Definition with_file (path body : bytes) (s : BlastHTTP) : BlastHTTP :=
  mkBlast (limiters s) (rate_limiter s) (ops s) (conns s) (batches s) (counter s) (written s ++ [(path, body)]).
Definition with_limiter_state (i : nat) (ls : limiter_state) (s : BlastHTTP) : BlastHTTP :=
  mkBlast (alter (λ x, (x.1, ls)) i (limiters s)) (rate_limiter s) (ops s) (conns s) (batches s) (counter s) (written s).
(** The stream of a connection. *)
Definition with_stream (c : nat) (st : Raw.RawConnection) (s : BlastHTTP) : BlastHTTP :=
  with_conns (alter (λ p, mkPyRaw (mkHandle st (h_cert_info (inner p)) (h_alpn (inner p)) (h_peer_ip (inner p)))
                            (pr_limiter p) (pr_opened p)) c (conns s)) s.

(** ** The methods *)

(** The new limiter, if there is one, is an object of its own; those of operations and
    connections that exist stay theirs. *)
Definition py_set_rate_limit (rate : option f64) (s : BlastHTTP) : exec Empty_set BlastHTTP :=
  l ← set_rate_limit rate;
  Ok (match l with
      | Some l => with_rate_limiter (Some (length (limiters s))) (with_limiter l s)
      | None => with_rate_limiter None s
      end).

Section methods.
Context `{Python} (h1 h2 : Z → Z).

(** Starts an operation under the limiter of the object. *)
Definition py_request (a : PyArgs) (max_body_size : option Z) (s : BlastHTTP) : exec PyErr () * BlastHTTP :=
  let '(r, n) := request_config h1 h2 a max_body_size (counter s) in
  let s := with_counter n s in
  match r with
  | Ok config => (Ok tt, new_op (WRequest config) (rate_limiter s) s)
  | Err e => (Err e, s)
  | Panic => (Panic, s)
  end.

Definition py_download (url path : bytes) (max_size timeout : option Z) (verify_certs : option bool)
    (proxy : option bytes) (no_proxy : option (list bytes)) (headers : option (list (bytes * bytes)))
    (retries : option Z) (redirect_cookies : option bool) (s : BlastHTTP) : BlastHTTP :=
  let config := download_config url max_size timeout verify_certs proxy no_proxy headers retries redirect_cookies in
  new_op (WDownload config path) (rate_limiter s) s.

Definition py_raw_connect (url : bytes) (verify_certs : option bool)
    (cipher_string min_tls_version max_tls_version resolve_ip proxy : option bytes)
    (no_proxy : option (list bytes)) (alpn_protocols : option (list bytes)) (timeout : option Z) (s : BlastHTTP) : BlastHTTP :=
  let config := raw_connect_config url verify_certs cipher_string min_tls_version max_tls_version resolve_ip proxy
                  no_proxy alpn_protocols timeout in
  new_op (WConnect url config) (rate_limiter s) s.

(** [request_batch] and [request_batch_stream]: the arguments, then the limiter.  The
    panic is raised by the call of the one, by awaiting the result of the other. *)
Definition py_batch (configs : list PyBatchConfig) (rate_limit : option f64) (s : BlastHTTP) : exec PyErr () * BlastHTTP :=
  let '(r, n) := into_request_configs h1 h2 configs (counter s) in
  let s := with_counter n s in
  match r with
  | Ok configs =>
      let shared := rate_limiter s ≫= λ i, fst <$> limiters s !! i in
      match merge_limiters shared rate_limit with
      | Ok (Shared _) => (Ok tt, with_batches (batches s ++ [mkBatch (rate_limiter s) configs None]) s)
      | Ok (Fresh l) =>
          (Ok tt, with_batches (batches s ++ [mkBatch (Some (length (limiters s))) configs None]) (with_limiter l s))
      | Ok NoLimiter => (Ok tt, with_batches (batches s ++ [mkBatch None configs None]) s)
      | Err e => match e with end
      | Panic => (Panic, s)
      end
  | Err e => (Err e, s)
  | Panic => (Panic, s)
  end.

(** The methods of a connection that exists. *)
Definition py_send_bytes (c : nat) (conn : PyRawConnection) (data : bytes) (s : BlastHTTP) : BlastHTTP :=
  new_op (WSendBytes c data) (pr_limiter conn) s.
Definition py_read_raw (c : nat) (conn : PyRawConnection) (max_bytes : Z) (timeout_ms : option Z) (s : BlastHTTP) : BlastHTTP :=
  new_op (WReadRaw c max_bytes timeout_ms) (pr_limiter conn) s.
Definition py_close (c : nat) (conn : PyRawConnection) (s : BlastHTTP) : BlastHTTP :=
  with_stream c (close (stream (inner conn))).2 s.

(** ** Running *)

Context (sends : RequestConfig → exec ClientError Response → Prop)
  (connects : bytes → RequestConfig → exec ClientError Handle → Prop).

(** Operation [k] may go past [acquire]; [t] is the time of its limiter. *)
Definition may_start (s : BlastHTTP) (k : nat) (lim : option nat) (t : Z) : Prop :=
  match lim with
  | Some i => ∃ l ls slot ret, limiters s !! i = Some (l, ls) ∧
      workers ls k = Returned slot ret ∧ ret ≤ clock ls ∧ t = clock ls
  | None => t = 0
  end.

(** The rest of operation [k]; how files and streams behave is free. *)
Inductive finishes (k : nat) (lim : option nat) (s : BlastHTTP) : work → outcome → BlastHTTP → Prop :=
  | fin_request config o : sends config o →
      finishes k lim s (WRequest config) (OResponse (request_result o)) s
  | fin_download config path o create write r body : sends config o →
      download_result o path create write = (r, body) →
      finishes k lim s (WDownload config path) (OPath r) (match body with Some b => with_file path b s | None => s end)
  | fin_connect url config h : connects url config (Ok h) →
      finishes k lim s (WConnect url config) (OConnection (Ok (length (conns s))))
        (with_conns (conns s ++ [mkPyRaw h lim k]) s)
  | fin_connect_fails url config e : connects url config (Err e) →
      finishes k lim s (WConnect url config) (OConnection (Err (runtime_error e))) s
  | fin_send c conn data flushed r st : conns s !! c = Some conn →
      send_bytes data flushed (stream (inner conn)) = (r, st) →
      finishes k lim s (WSendBytes c data) (OUnit (map_err runtime_error r)) (with_stream c st s)
  | fin_read c conn max_bytes timeout_ms timed_out r st : conns s !! c = Some conn →
      read_raw max_bytes timeout_ms timed_out (stream (inner conn)) = (r, st) →
      finishes k lim s (WReadRaw c max_bytes timeout_ms) (OBytes (map_err runtime_error r)) (with_stream c st s)
  | fin_item b config o : sends config o → finishes k lim s (WItem b config) (OItem o) s.

(** The program's calls other than [set_rate_limit], and the runtime. *)
Inductive quiet_step (s : BlastHTTP) : BlastHTTP → Prop :=
  | st_request a m : quiet_step s (py_request a m s).2
  | st_download url path ms t v p np hs r rc : quiet_step s (py_download url path ms t v p np hs r rc s)
  | st_raw_connect url v cs mi ma ip p np alpn t : quiet_step s (py_raw_connect url v cs mi ma ip p np alpn t s)
  | st_batch configs rate : quiet_step s (py_batch configs rate s).2
  | st_send_bytes c conn data : conns s !! c = Some conn → quiet_step s (py_send_bytes c conn data s)
  | st_read_raw c conn n ms : conns s !! c = Some conn → quiet_step s (py_read_raw c conn n ms s)
  | st_close c conn : conns s !! c = Some conn → quiet_step s (py_close c conn s)
  | st_limiter i l ls ls' : limiters s !! i = Some (l, ls) → limiter_step l ls ls' →
      (∀ t, workers ls' t ≠ workers ls t → ∃ o, ops s !! t = Some o ∧ o_limiter o = Some i) →
      quiet_step s (with_limiter_state i ls' s)
  | st_item b lim c rest last : batches s !! b = Some (mkBatch lim (c :: rest) last) →
      (∀ k, last = Some k → ∃ o, ops s !! k = Some o ∧ (o_phase o = Pacing → ∃ t, may_start s k (o_limiter o) t)) →
      quiet_step s (new_op (WItem b c) lim
        (with_batches (<[b := mkBatch lim rest (Some (length (ops s)))]> (batches s)) s))
  | st_start k w lim t : ops s !! k = Some (mkOp w lim Pacing) → may_start s k lim t →
      quiet_step s (with_phase k (Started t) s)
  | st_finish k w lim t o s' : ops s !! k = Some (mkOp w lim (Started t)) → finishes k lim s w o s' →
      quiet_step s (with_phase k (Finished t o) s').

Inductive blast_step (s : BlastHTTP) : BlastHTTP → Prop :=
  | st_quiet s' : quiet_step s s' → blast_step s s'
  | st_set_rate_limit rate s' : py_set_rate_limit rate s = Ok s' → blast_step s s'.

Definition blast_reach : BlastHTTP → Prop := rtc blast_step BlastHTTP_new.

End methods.

(** ** Invariants *)

Abbreviation arena := (list (RateLimiter * limiter_state)).

(** A later arena: the same limiters, further on, and perhaps more. *)
Definition later (ls ls' : arena) : Prop := ∀ i l x, ls !! i = Some (l, x) → ∃ x', ls' !! i = Some (l, x') ∧
  ∀ t slot ret, workers x t = Returned slot ret → workers x' t = Returned slot ret.

#[export] Instance later_preorder : PreOrder later.
Proof.
  split.
  - intros ls i l x H. by exists x.
  - intros a b c Hab Hbc i l x H. destruct (Hab i l x H) as (x1 & H1 & K1).
    destruct (Hbc i l x1 H1) as (x2 & H2 & K2). exists x2. split; [done|]. auto.
Qed.

Definition lim_ok (ls : arena) (i : option nat) : Prop := match i with Some i => is_Some (ls !! i) | None => True end.

Definition op_ok (ls : arena) (k : nat) (o : op) : Prop :=
  match o_limiter o with
  | Some i => ∃ l x, ls !! i = Some (l, x) ∧
      match o_phase o with
      | Pacing => True
      | Started t | Finished t _ => ∃ slot ret, workers x k = Returned slot ret ∧ ret ≤ t
      end
  | None => True
  end.

Lemma lim_ok_later ls ls' i : later ls ls' → lim_ok ls i → lim_ok ls' i.
Proof. intros Hl. destruct i as [i|]; [|done]. intros [[l x] H]. destruct (Hl i l x H) as (x' & H' & _). by exists (l, x'). Qed.

Lemma op_ok_later ls ls' k o : later ls ls' → op_ok ls k o → op_ok ls' k o.
Proof.
  intros Hl. unfold op_ok. destruct (o_limiter o) as [i|]; [|done]. intros (l & x & H & Hp).
  destruct (Hl i l x H) as (x' & H' & K). exists l, x'. split; [done|]. destruct (o_phase o); [done|..];
    destruct Hp as (slot & ret & ? & ?); exists slot, ret; auto.
Qed.

Definition arena_ok (ls : arena) : Prop :=
  ∀ i l x, ls !! i = Some (l, x) → 1 ≤ interval_ns l ≤ u64_max ∧ limiter_reach l x.

(** The operations on a connection or of a batch have its limiter, and a connection that
    of the operation that opened it. *)
Definition origin_ok (s : BlastHTTP) (o : op) : Prop :=
  match o_work o with
  | WSendBytes c _ | WReadRaw c _ _ => ∃ conn, conns s !! c = Some conn ∧ o_limiter o = pr_limiter conn
  | WItem b _ => ∃ x, batches s !! b = Some x ∧ o_limiter o = b_limiter x
  | _ => True
  end.
Definition opener_ok (s : BlastHTTP) (conn : PyRawConnection) : Prop :=
  ∃ o url config, ops s !! pr_opened conn = Some o ∧ o_work o = WConnect url config ∧ o_limiter o = pr_limiter conn.

Record inv (s : BlastHTTP) : Prop := mkInv {
  inv_arena : arena_ok (limiters s);
  inv_ops : ∀ k o, ops s !! k = Some o → op_ok (limiters s) k o;
  inv_current : lim_ok (limiters s) (rate_limiter s);
  inv_conns : ∀ c conn, conns s !! c = Some conn → lim_ok (limiters s) (pr_limiter conn);
  inv_batches : ∀ b x, batches s !! b = Some x → lim_ok (limiters s) (b_limiter x);
  inv_origin : ∀ k o, ops s !! k = Some o → origin_ok s o;
  inv_opener : ∀ c conn, conns s !! c = Some conn → opener_ok s conn
}.

Lemma inv_new : inv BlastHTTP_new.
Proof. split; cbn; try done; by intros ? ? ?%lookup_nil_Some || intros ? ? ? ?%lookup_nil_Some. Qed.

(** Everything but what an operation is doing stays, and nothing is forgotten. *)
Record grows (s s' : BlastHTTP) : Prop := mkGrows {
  g_limiters : later (limiters s) (limiters s');
  g_ops : ∀ k o, ops s !! k = Some o → ∃ o', ops s' !! k = Some o' ∧ o_work o' = o_work o ∧ o_limiter o' = o_limiter o;
  g_conns : ∀ c x, conns s !! c = Some x →
    ∃ x', conns s' !! c = Some x' ∧ pr_limiter x' = pr_limiter x ∧ pr_opened x' = pr_opened x;
  g_batches : ∀ b x, batches s !! b = Some x → ∃ x', batches s' !! b = Some x' ∧ b_limiter x' = b_limiter x
}.

#[export] Instance grows_preorder : PreOrder grows.
Proof.
  split.
  - intros s. split; [done|eauto..].
  - intros a b c [L1 O1 C1 B1] [L2 O2 C2 B2]. split; [by etrans| | |].
    + intros k o H. destruct (O1 k o H) as (o1 & K1 & ? & ?). destruct (O2 k o1 K1) as (o2 & K2 & ? & ?).
      exists o2. split_and!; [done|congruence..].
    + intros k o H. destruct (C1 k o H) as (o1 & K1 & ? & ?). destruct (C2 k o1 K1) as (o2 & K2 & ? & ?).
      exists o2. split_and!; [done|congruence..].
    + intros k o H. destruct (B1 k o H) as (o1 & K1 & ?). destruct (B2 k o1 K1) as (o2 & K2 & ?).
      exists o2. split_and!; [done|congruence..].
Qed.

Lemma origin_ok_grows s s' o o' : grows s s' → origin_ok s o → o_work o' = o_work o → o_limiter o' = o_limiter o →
  origin_ok s' o'.
Proof.
  intros [_ _ Gc Gb] Ho Hw Hl. unfold origin_ok in *. rewrite Hw, Hl. destruct (o_work o); try done.
  - destruct Ho as (x & Hx & He). destruct (Gc _ _ Hx) as (x' & ? & ? & ?). exists x'. split; [done|congruence].
  - destruct Ho as (x & Hx & He). destruct (Gc _ _ Hx) as (x' & ? & ? & ?). exists x'. split; [done|congruence].
  - destruct Ho as (x & Hx & He). destruct (Gb _ _ Hx) as (x' & ? & ?). exists x'. split; [done|congruence].
Qed.
Lemma opener_ok_grows s s' x x' : grows s s' → opener_ok s x → pr_limiter x' = pr_limiter x → pr_opened x' = pr_opened x →
  opener_ok s' x'.
Proof.
  intros [_ Go _ _] (o & url & config & Ho & Hw & Hl) E1 E2. destruct (Go _ _ Ho) as (o' & Ho' & ? & ?).
  exists o', url, config. rewrite E2. split_and!; [done|congruence..].
Qed.

(** A step keeps [inv] when what is new in it is in order. *)
Lemma inv_grows s s' : inv s → grows s s' → arena_ok (limiters s') → lim_ok (limiters s') (rate_limiter s') →
  (∀ k o, ops s' !! k = Some o → (∃ o0, ops s !! k = Some o0 ∧ o_work o = o_work o0 ∧ o_limiter o = o_limiter o0 ∧
     (o_phase o = o_phase o0 ∨ op_ok (limiters s') k o)) ∨ (op_ok (limiters s') k o ∧ origin_ok s' o)) →
  (∀ c x, conns s' !! c = Some x →
     (∃ x0, conns s !! c = Some x0 ∧ pr_limiter x = pr_limiter x0 ∧ pr_opened x = pr_opened x0) ∨
     (lim_ok (limiters s') (pr_limiter x) ∧ opener_ok s' x)) →
  (∀ b x, batches s' !! b = Some x → (∃ x0, batches s !! b = Some x0 ∧ b_limiter x = b_limiter x0) ∨
     lim_ok (limiters s') (b_limiter x)) →
  inv s'.
Proof.
  intros [Ia Io Ic Icn Ib Ior Iop] Hg Ha Hr Ho Hc Hb. pose proof (g_limiters _ _ Hg) as Hl. split; [done| |done|..].
  - intros k o H. destruct (Ho k o H) as [(o0 & H0 & Hw & Hlim & [Hp|?])|[? _]]; [|done..].
    eapply op_ok_later in Hl; [|by apply Io]. unfold op_ok in *. by rewrite Hlim, Hp.
  - intros c x H. destruct (Hc c x H) as [(x0 & H0 & -> & _)|[? _]]; [|done]. eapply lim_ok_later; [done|by eapply Icn].
  - intros b x H. destruct (Hb b x H) as [(x0 & H0 & ->)|?]; [|done]. eapply lim_ok_later; [done|by eapply Ib].
  - intros k o H. destruct (Ho k o H) as [(o0 & H0 & Hw & Hlim & _)|[_ ?]]; [|done]. by eapply origin_ok_grows; [|by eapply Ior| |].
  - intros c x H. destruct (Hc c x H) as [(x0 & H0 & ? & ?)|[_ ?]]; [|done]. by eapply opener_ok_grows; [|by eapply Iop| |].
Qed.
Definition fine (s s' : BlastHTTP) : Prop := inv s' ∧ grows s s'.

Lemma fine_refl s : inv s → fine s s.
Proof. done. Qed.
Lemma fine_trans s s1 s2 : fine s s1 → (inv s1 → fine s1 s2) → fine s s2.
Proof. intros [H1 G1] H2. destruct (H2 H1) as [? G2]. split; [done|]. by etrans. Qed.

Lemma lookup_snoc {A} (l : list A) x k y : (l ++ [x]) !! k = Some y → l !! k = Some y ∨ (k = length l ∧ y = x).
Proof.
  intros [?|[? Hx]]%lookup_app_Some; [by left|]. apply list_lookup_singleton_Some in Hx as [? <-].
  right. split; [lia|done].
Qed.
Lemma lookup_snoc_old {A} (l : list A) x k y : l !! k = Some y → (l ++ [x]) !! k = Some y.
Proof. apply lookup_app_l_Some. Qed.

(** The states that differ in one component. *)
Section parts.
Context (s : BlastHTTP) (Hs : inv s).

(** Nothing of the state that [inv] reads differs but for what the goals name. *)
Ltac same := first [done | by intros; eexists | by intros ? ? ?; left; eexists; split_and!; eauto
                    | by intros ? ? ?; left; eexists; split; eauto].

Lemma new_op_fine w lim : lim_ok (limiters s) lim → origin_ok s (mkOp w lim Pacing) → fine s (new_op w lim s).
Proof.
  intros Hl Ho. assert (grows s (new_op w lim s)) as Hg.
  { split; cbn; [done| |by eauto..]. intros k o H. exists o. by rewrite (lookup_snoc_old _ _ _ _ H). }
  split; [|done]. apply (inv_grows s); cbn; [done|done|apply Hs|apply Hs| |same|same].
  intros k o [H|[-> ->]]%lookup_snoc; [left; exists o; by eauto|]. right. split; [|exact Ho].
  unfold op_ok. cbn. destruct lim as [i|]; [|done]. destruct Hl as [[l x] Hx]. by exists l, x.
Qed.

Lemma with_counter_fine n : fine s (with_counter n s).
Proof. split; [by destruct Hs; split|split; cbn; [done|by eauto..]]. Qed.
Lemma with_file_fine path body : fine s (with_file path body s).
Proof. split; [by destruct Hs; split|split; cbn; [done|by eauto..]]. Qed.

Lemma later_snoc ls l : later ls (ls ++ [(l, limiter_init)]).
Proof. intros i l0 x H. exists x. split; [by apply lookup_snoc_old|done]. Qed.

Lemma with_limiter_fine l : 1 ≤ interval_ns l ≤ u64_max → fine s (with_limiter l s).
Proof.
  intros Hl. assert (grows s (with_limiter l s)) as Hg by (split; cbn; [apply later_snoc|by eauto..]).
  split; [|done]. apply (inv_grows s); cbn; [done|done| | |same|same|same].
  - intros i l0 x [H|[-> [= -> ->]]]%lookup_snoc; [by apply (inv_arena _ Hs i)|]. split; [done|apply rtc_refl].
  - eapply lim_ok_later; [apply later_snoc|apply Hs].
Qed.

Lemma with_rate_limiter_fine i : lim_ok (limiters s) i → fine s (with_rate_limiter i s).
Proof. intros Hi. split; [by destruct Hs; split|split; cbn; [done|by eauto..]]. Qed.

Lemma with_phase_fine k w lim p p' : ops s !! k = Some (mkOp w lim p) → op_ok (limiters s) k (mkOp w lim p') →
  fine s (with_phase k p' s).
Proof.
  intros Hk Hp. assert (grows s (with_phase k p' s)) as Hg.
  { split; cbn; [done| |by eauto..]. intros j o H. destruct (decide (j = k)) as [->|Hne].
    - rewrite list_lookup_alter_eq, H. eexists. by split_and!.
    - rewrite list_lookup_alter_ne by done. by exists o. }
  split; [|done]. apply (inv_grows s); cbn; [done|done|apply Hs|apply Hs| |same|same].
  intros j o H. left. destruct (decide (j = k)) as [->|Hne].
  - rewrite list_lookup_alter_eq, Hk in H. injection H as <-. eexists. split_and!; [done..|by right].
  - rewrite list_lookup_alter_ne in H by done. exists o. by eauto.
Qed.

Lemma with_conns_fine x : lim_ok (limiters s) (pr_limiter x) → opener_ok s x → fine s (with_conns (conns s ++ [x]) s).
Proof.
  intros Hl Ho. assert (grows s (with_conns (conns s ++ [x]) s)) as Hg.
  { split; cbn; [done|by eauto| |by eauto]. intros c y H. exists y. by rewrite (lookup_snoc_old _ _ _ _ H). }
  split; [|done]. apply (inv_grows s); cbn; [done|done|apply Hs|apply Hs|same| |same].
  intros c y [H|[-> ->]]%lookup_snoc; [left; by exists y|by right].
Qed.

Lemma with_stream_fine c st : fine s (with_stream c st s).
Proof.
  set (f := λ p, mkPyRaw (mkHandle st (h_cert_info (inner p)) (h_alpn (inner p)) (h_peer_ip (inner p)))
    (pr_limiter p) (pr_opened p)).
  assert (grows s (with_stream c st s)) as Hg.
  { split; cbn; [done|by eauto| |by eauto]. intros j y H. destruct (decide (j = c)) as [->|Hne].
    - rewrite list_lookup_alter_eq, H. eexists. by split_and!.
    - rewrite list_lookup_alter_ne by done. by exists y. }
  split; [|done]. apply (inv_grows s); cbn; [done|done|apply Hs|apply Hs|same| |same].
  intros j y H. left. fold f in H. destruct (decide (j = c)) as [->|Hne].
  - rewrite list_lookup_alter_eq in H. destruct (conns s !! c) as [x|]; [|done]. injection H as <-. by exists x.
  - rewrite list_lookup_alter_ne in H by done. by exists y.
Qed.

Lemma add_batch_fine x : lim_ok (limiters s) (b_limiter x) → fine s (with_batches (batches s ++ [x]) s).
Proof.
  intros Hl. assert (grows s (with_batches (batches s ++ [x]) s)) as Hg.
  { split; cbn; [done|by eauto|by eauto|]. intros c y H. exists y. by rewrite (lookup_snoc_old _ _ _ _ H). }
  split; [|done]. apply (inv_grows s); cbn; [done|done|apply Hs|apply Hs|same|same|].
  intros c y [H|[-> ->]]%lookup_snoc; [left; by exists y|by right].
Qed.

Lemma advance_batch_fine b x x' : batches s !! b = Some x → b_limiter x' = b_limiter x →
  fine s (with_batches (<[b := x']> (batches s)) s).
Proof.
  intros Hb Hx. pose proof (lookup_lt_Some _ _ _ Hb) as Hlt.
  assert (grows s (with_batches (<[b := x']> (batches s)) s)) as Hg.
  { split; cbn; [done|by eauto|by eauto|]. intros c y H. destruct (decide (c = b)) as [->|Hne].
    - rewrite list_lookup_insert_eq by done. exists x'. split; [done|congruence].
    - rewrite list_lookup_insert_ne by done. by exists y. }
  split; [|done]. apply (inv_grows s); cbn; [done|done|apply Hs|apply Hs|same|same|].
  intros c y H. left. destruct (decide (c = b)) as [->|Hne].
  - rewrite list_lookup_insert_eq in H by done. injection H as <-. by exists x.
  - rewrite list_lookup_insert_ne in H by done. by exists y.
Qed.

Lemma with_limiter_state_fine i l x x' : limiters s !! i = Some (l, x) → limiter_step l x x' →
  fine s (with_limiter_state i x' s).
Proof.
  intros Hi Hx. assert (later (limiters s) (alter (λ y, (y.1, x')) i (limiters s))) as Hl.
  { intros j l0 y H. destruct (decide (j = i)) as [->|Hne].
    - rewrite list_lookup_alter_eq, H. rewrite Hi in H. injection H as <- <-. exists x'. split; [done|].
      intros t slot ret. by eapply limiter_step_returned.
    - rewrite list_lookup_alter_ne by done. by exists y. }
  assert (grows s (with_limiter_state i x' s)) as Hg by (split; cbn; [done|by eauto..]).
  split; [|done]. apply (inv_grows s); cbn; [done|done| | |same|same|same].
  - intros j l0 y H. destruct (decide (j = i)) as [->|Hne].
    + rewrite list_lookup_alter_eq, Hi in H. injection H as <- <-. destruct (inv_arena _ Hs _ _ _ Hi) as [? Hr].
      split; [done|]. eapply rtc_r; [exact Hr|done].
    + rewrite list_lookup_alter_ne in H by done. by apply (inv_arena _ Hs j).
  - eapply lim_ok_later; [exact Hl|apply Hs].
Qed.
End parts.

Section steps.
Context `{Python} (h1 h2 : Z → Z) (sends : RequestConfig → exec ClientError Response → Prop)
  (connects : bytes → RequestConfig → exec ClientError Handle → Prop).
Local Abbreviation quiet_step := (quiet_step h1 h2 sends connects).
Local Abbreviation blast_reach := (blast_reach h1 h2 sends connects).

(** Where the operation of a finished one leaves the state. *)
Lemma finishes_fine k lim s w o s' t : inv s → ops s !! k = Some (mkOp w lim (Started t)) →
  finishes sends connects k lim s w o s' → fine s s' ∧ ops s' = ops s.
Proof.
  intros Hs Hk Hf. destruct Hf as [| config path o create write r body Ho Hd | url config h Hc | | c conn d fl r st Hc Hr
    | c conn n ms late r st Hc Hr |];
    try (split; [by apply fine_refl|done]).
  - destruct body as [b|]; split; [by apply with_file_fine|done|by apply fine_refl|done].
  - split; [|done]. apply with_conns_fine; [done| |].
    + pose proof (inv_ops _ Hs _ _ Hk) as Hop. unfold op_ok in Hop. cbn in *. destruct lim as [i|]; [|done].
      destruct Hop as (l & x & Hl & _). by exists (l, x).
    + eexists _, url, config. split; [exact Hk|done].
  - split; [by apply with_stream_fine|done].
  - split; [by apply with_stream_fine|done].
Qed.

Lemma py_batch_fine configs rate s : inv s → fine s (py_batch h1 h2 configs rate s).2.
Proof.
  intros Hs. unfold py_batch. destruct (into_request_configs h1 h2 configs (counter s)) as [r n].
  destruct (with_counter_fine s Hs n) as [Hc Gc]. apply (fine_trans s (with_counter n s)); [done|]. intros _.
  destruct r as [cs|e|]; [|by apply fine_refl..].
  destruct (merge_limiters _ rate) as [p|[]|] eqn:Em; [|by apply fine_refl]. pose proof (merge_spec _ _ _ Em) as Hm.
  destruct p as [l|l|].
  - apply add_batch_fine; [done|]. apply Hc.
  - eapply fine_trans; [apply (with_limiter_fine _ Hc l), Hm|]. intros Hi.
    apply (add_batch_fine _ Hi (mkBatch (Some (length (limiters s))) cs None)). cbn.
    rewrite lookup_app_r, Nat.sub_diag by done. by eexists.
  - by apply add_batch_fine.
Qed.

Lemma quiet_fine s s' : inv s → quiet_step s s' → fine s s'.
Proof.
  intros Hs Hq. destruct Hq as [a m|???? ? ? ? ? ? ?|???? ? ? ? ? ? ?|configs rate|c conn d Hc|c conn n ms Hc|c conn Hc
    |i l x x' Hi Hx _|b lim c rest last Hb _|k w lim t Hk Hm|k w lim t o s' Hk Hf].
  - unfold py_request. destruct (request_config h1 h2 a m (counter s)) as [r n].
    apply (fine_trans s (with_counter n s)); [by apply with_counter_fine|]. intros Hc.
    destruct r; [|by apply fine_refl..]. apply new_op_fine; [done|apply Hc|done].
  - by apply new_op_fine; [|apply Hs|].
  - by apply new_op_fine; [|apply Hs|].
  - by apply py_batch_fine.
  - apply new_op_fine; [done|by eapply inv_conns|]. by exists conn.
  - apply new_op_fine; [done|by eapply inv_conns|]. by exists conn.
  - by apply with_stream_fine.
  - by eapply with_limiter_state_fine.
  - eapply fine_trans; [by eapply (advance_batch_fine s Hs b _ (mkBatch lim rest (Some (length (ops s)))))|]. intros Hi.
    apply new_op_fine; [done|by apply (inv_batches _ Hs _ _ Hb)|].
    exists (mkBatch lim rest (Some (length (ops s)))). split; [|done]. cbn. apply list_lookup_insert_eq. by eapply lookup_lt_Some.
  - eapply with_phase_fine; [done|exact Hk|]. unfold op_ok. cbn. destruct lim as [i|]; [|done].
    destruct Hm as (l & x & slot & ret & Hi & Hw & Hr & ->). exists l, x. split; [done|]. by exists slot, ret.
  - destruct (finishes_fine _ _ _ _ _ _ _ Hs Hk Hf) as [Hs' Ho]. eapply fine_trans; [exact Hs'|]. intros Hi.
    rewrite <- Ho in Hk. eapply with_phase_fine; [done|exact Hk|]. exact (inv_ops _ Hi _ _ Hk).
Qed.

Lemma set_rate_limit_fine rate s s' : inv s → py_set_rate_limit rate s = Ok s' → fine s s'.
Proof.
  intros Hs Hr. unfold py_set_rate_limit in Hr. apply bind_Ok in Hr as (o & Ho & Hr). injection Hr as <-.
  destruct o as [l|]; [|by apply with_rate_limiter_fine].
  assert (1 ≤ interval_ns l ≤ u64_max) as Hl.
  { unfold set_rate_limit in Ho. destruct rate as [r|]; [destruct (f64_pos r)|]; inv_bind; [|done..]. by eapply limiter_new_ok. }
  eapply fine_trans; [by apply (with_limiter_fine s Hs l)|]. intros Hi.
  apply with_rate_limiter_fine; [done|]. cbn. rewrite lookup_app_r, Nat.sub_diag by done. by eexists.
Qed.

Lemma blast_reach_inv s : blast_reach s → inv s.
Proof.
  apply rtc_invariant; [apply inv_new|]. intros a b [s' Hq|rate s' Hr] Ha; [by apply (quiet_fine a s')|].
  by eapply set_rate_limit_fine.
Qed.
Lemma quiet_steps_fine s s' : inv s → rtc quiet_step s s' → fine s s'.
Proof.
  intros Hs Hr. revert Hs. induction Hr as [s|a b c Hab _ IH]; intros Hs; [by apply fine_refl|].
  eapply fine_trans; [by apply quiet_fine|exact IH].
Qed.

(** ** The limit in force *)

(** Whether an operation takes the limiter of the object. *)
Definition direct (w : work) : bool := match w with WRequest _ | WDownload _ _ | WConnect _ _ => true | _ => false end.

(** The limiter [lim] is the one at [i], or one that a batch was given because it is
    stricter. *)
Definition at_least (s : BlastHTTP) (i : nat) (l : RateLimiter) (lim : option nat) : Prop :=
  lim = Some i ∨ ∃ j l' x, lim = Some j ∧ limiters s !! j = Some (l', x) ∧ stricter l l'.

(** Since [n] operations and [m] batches. *)
Record in_force (n m i : nat) (l : RateLimiter) (s : BlastHTTP) : Prop := mkInForce {
  if_current : rate_limiter s = Some i;
  if_limiter : ∃ x, limiters s !! i = Some (l, x);
  if_ops : ∀ k o, ops s !! k = Some o → (n ≤ k)%nat → direct (o_work o) = true → o_limiter o = Some i;
  if_batches : ∀ b x, batches s !! b = Some x → (m ≤ b)%nat → at_least s i l (b_limiter x)
}.

Lemma at_least_later s s' i l lim : later (limiters s) (limiters s') → at_least s i l lim → at_least s' i l lim.
Proof.
  intros Hl [->|(j & l' & x & -> & Hj & Hst)]; [by left|]. right. destruct (Hl j l' x Hj) as (x' & Hx' & _). by exists j, l', x'.
Qed.

(** An operation or a batch that was there before, or is new and paced as it should. *)
Definition op_from (s : BlastHTTP) (i k : nat) (o : op) : Prop :=
  (∃ o0, ops s !! k = Some o0 ∧ o_work o = o_work o0 ∧ o_limiter o = o_limiter o0) ∨
  (direct (o_work o) = true → o_limiter o = Some i).
Definition batch_from (s s' : BlastHTTP) (i : nat) (l : RateLimiter) (b : nat) (x : batch) : Prop :=
  (∃ x0, batches s !! b = Some x0 ∧ b_limiter x = b_limiter x0) ∨ at_least s' i l (b_limiter x).

Lemma in_force_grows n m i l s s' : in_force n m i l s → grows s s' → rate_limiter s' = rate_limiter s →
  (∀ k o, ops s' !! k = Some o → op_from s i k o) → (∀ b x, batches s' !! b = Some x → batch_from s s' i l b x) →
  in_force n m i l s'.
Proof.
  intros [Hc [x Hx] Ho Hb] Hg Hr Ho' Hb'. pose proof (g_limiters _ _ Hg) as Hl. split; [congruence| | |].
  - destruct (Hl _ _ _ Hx) as (x' & ? & _). by exists x'.
  - intros k o Hk Hn Hd. destruct (Ho' k o Hk) as [(o0 & H0 & Hw & ->)|?]; [|auto]. apply (Ho k o0 H0 Hn). congruence.
  - intros b y Hy Hm. destruct (Hb' b y Hy) as [(y0 & H0 & ->)|?]; [|done]. eapply at_least_later; [done|by eapply Hb].
Qed.

Lemma op_from_same s i k o : ops s !! k = Some o → op_from s i k o.
Proof. intros Hk. left. by exists o. Qed.
Lemma op_from_new s i w lim k o : (direct w = true → lim = Some i) →
  (ops s ++ [mkOp w lim Pacing]) !! k = Some o → op_from s i k o.
Proof. intros Hd [Hk|[-> ->]]%lookup_snoc; [by apply op_from_same|by right]. Qed.
Lemma op_from_phase s i k k' p o : alter (λ o, mkOp (o_work o) (o_limiter o) p) k' (ops s) !! k = Some o → op_from s i k o.
Proof.
  intros Hk. left. destruct (decide (k = k')) as [->|Hne].
  - rewrite list_lookup_alter_eq in Hk. destruct (ops s !! k') as [o0|]; [|done]. injection Hk as <-. by exists o0.
  - rewrite list_lookup_alter_ne in Hk by done. by exists o.
Qed.
Lemma batch_from_same s s' i l b x : batches s !! b = Some x → batch_from s s' i l b x.
Proof. intros Hb. left. by exists x. Qed.
Lemma batch_from_advanced s s' i l b c x0 x1 x : batches s !! c = Some x0 → b_limiter x1 = b_limiter x0 →
  <[c := x1]> (batches s) !! b = Some x → batch_from s s' i l b x.
Proof.
  intros Hc H1 Hx. left. destruct (decide (b = c)) as [->|Hne].
  - rewrite list_lookup_insert_eq in Hx by (by eapply lookup_lt_Some). injection Hx as <-. by exists x0.
  - rewrite list_lookup_insert_ne in Hx by done. by exists x.
Qed.

#[local] Hint Resolve op_from_same op_from_new op_from_phase batch_from_same batch_from_advanced : core.

(** A batch takes the limiter in force, or a stricter one. *)
Lemma py_batch_in_force n m i l configs rate s : inv s → in_force n m i l s →
  in_force n m i l (py_batch h1 h2 configs rate s).2.
Proof.
  intros Hs Hf. pose proof (proj2 (py_batch_fine configs rate s Hs)) as Hg.
  destruct (if_limiter _ _ _ _ _ Hf) as [xi Hi]. pose proof (if_current _ _ _ _ _ Hf) as Hc.
  apply (in_force_grows n m i l s); [done|done| | |]; revert Hg; unfold py_batch;
    destruct (into_request_configs h1 h2 configs (counter s)) as [[cs|e|] cnt]; cbn [snd]; eauto;
    destruct (merge_limiters _ rate) as [p|[]|] eqn:Em; cbn [snd]; eauto;
    pose proof (merge_spec _ _ _ Em) as Hm; cbn in Hm; rewrite Hc in Hm; cbn in Hm; rewrite Hi in Hm; cbn in Hm;
    destruct p as [l1|l1|]; eauto; try done; intros Hg b x [Hb|[-> ->]]%lookup_snoc; eauto; right; cbn.
  - by left.
  - right. exists (length (limiters s)), l1, limiter_init. split_and!; [done| |by apply Hm].
    cbn. rewrite lookup_app_r, Nat.sub_diag by done. done.
Qed.

Lemma in_force_step n m i l s s' : inv s → in_force n m i l s → quiet_step s s' → in_force n m i l s'.
Proof.
  intros Hs Hf Hq. pose proof (proj2 (quiet_fine s s' Hs Hq)) as Hg. pose proof (if_current _ _ _ _ _ Hf) as Hc.
  destruct Hq as [a z|???? ? ? ? ? ? ?|???? ? ? ? ? ? ?|configs rate|c conn d Hcn|c conn k ms Hcn|c conn Hcn
    |j l0 x x' Hj Hx _|b lim c rest last Hb _|k w lim t Hk Hm|k w lim t o s' Hk Hfin];
    [|..|]; try by (apply (in_force_grows n m i l s); cbn; eauto).
  - revert Hg. unfold py_request. destruct (request_config h1 h2 a z (counter s)) as [[config|e|] cnt]; cbn [snd]; intros Hg;
      apply (in_force_grows n m i l s); cbn; eauto.
  - by apply py_batch_in_force.
  - apply (in_force_grows n m i l s); cbn; [done..| |apply batch_from_same]. intros ? ?. by apply op_from_new.
  - apply (in_force_grows n m i l s); cbn; [done..| |apply batch_from_same]. intros ? ?. by apply op_from_new.
  - apply (in_force_grows n m i l s); cbn; [done..| |].
    + intros ? ?. by apply op_from_new.
    + intros b0 x. by apply (batch_from_advanced _ _ _ _ _ _ _ _ _ Hb).
  - assert (rate_limiter s' = rate_limiter s ∧ ops s' = ops s ∧ batches s' = batches s) as (E1 & E2 & E3).
    { destruct Hfin; try done. by destruct body. }
    apply (in_force_grows n m i l s); cbn; rewrite ?E1, ?E2, ?E3; eauto.
Qed.

Lemma in_force_steps n m i l s s' : inv s → in_force n m i l s → rtc quiet_step s s' → in_force n m i l s'.
Proof.
  intros Hs Hf Hr. induction Hr as [s|a b c Hab _ IH]; [done|]. apply IH; [by apply (quiet_fine a b)|by eapply in_force_step].
Qed.

(** ** The rate *)

(** The operations under limiter [i] that went past [acquire] by [deadline]. *)
Definition started_by (s : BlastHTTP) (i : nat) (deadline : Z) (k : nat) : bool :=
  match ops s !! k with
  | Some o =>
      bool_decide (o_limiter o = Some i) &&
      match o_phase o with Pacing => false | Started t | Finished t _ => t <=? deadline end
  | None => false
  end.
Definition started (s : BlastHTTP) (i : nat) (deadline : Z) : list nat :=
  List.filter (started_by s i deadline) (seq 0 (length (ops s))).

Lemma started_capped s i l x deadline : inv s → limiters s !! i = Some (l, x) → clock x < 2 ^ 64 →
  0 ≤ deadline → deadline + SUB_MS_SKIP_THRESHOLD_NS ≤ u64_max →
  (zlen (started s i deadline) - 1) * interval_ns l < deadline + SUB_MS_SKIP_THRESHOLD_NS.
Proof.
  intros Hs Hi Hx Hd0 Hd. destruct (inv_arena _ Hs _ _ _ Hi) as [Hl Hr].
  apply (limiter_rate_capped l x); [done|done|done| |done|done|].
  - apply NoDup_ListNoDup, List.NoDup_filter, seq_NoDup.
  - intros k [Hk Hst]%list_elem_of_In%filter_In. unfold started_by in Hst.
    destruct (ops s !! k) as [o|] eqn:Ho; [|done]. apply andb_true_iff in Hst as [Hlim%bool_decide_eq_true Hph].
    pose proof (inv_ops _ Hs _ _ Ho) as Hop. unfold op_ok in Hop. rewrite Hlim in Hop.
    destruct Hop as (l' & x' & Hi' & Hp). rewrite Hi in Hi'. injection Hi' as <- <-.
    destruct (o_phase o); [done|..]; destruct Hp as (slot & ret & ? & ?); exists slot, ret; (split; [done|lia]).
Qed.

(** C16: a rate limit set on an object paces all that is started through it: every
    request, download and raw connection from then on, every item of a batch unless
    the batch asked for a stricter limit, and every write to or read from a raw
    connection that was opened since, whatever the limit is when they are made; those
    on older connections keep the limit of their opening, and nothing that exists
    changes its limiter.  Of everything a limiter paces, by whatever tasks and in
    whatever interleaving, at most [(deadline + 1ms) / interval + 1] operations have
    gone to the wire by [deadline], counted from when it was set. *)
Theorem rate_limit_global (s0 s1 s2 : BlastHTTP) (rate : f64) :
  blast_reach s0 → f64_pos rate = true → py_set_rate_limit (Some rate) s0 = Ok s1 → rtc quiet_step s1 s2 →
  let i := length (limiters s0) in
  ∃ l x, RateLimiter_new rate = Ok l ∧ limiters s2 !! i = Some (l, x) ∧
  (∀ k o, ops s2 !! k = Some o → (length (ops s1) ≤ k)%nat →
     match o_work o with
     | WRequest _ | WDownload _ _ | WConnect _ _ => o_limiter o = Some i
     | WItem b _ => (length (batches s1) ≤ b)%nat → at_least s2 i l (o_limiter o)
     | WSendBytes c _ | WReadRaw c _ _ => ∃ conn o', conns s2 !! c = Some conn ∧ ops s2 !! pr_opened conn = Some o' ∧
         o_limiter o = o_limiter o' ∧ ((length (ops s1) ≤ pr_opened conn)%nat → o_limiter o = Some i)
     end) ∧
  (∀ k o, ops s1 !! k = Some o → ∃ o', ops s2 !! k = Some o' ∧ o_work o' = o_work o ∧ o_limiter o' = o_limiter o) ∧
  ∀ j lj xj deadline, limiters s2 !! j = Some (lj, xj) → clock xj < 2 ^ 64 → 0 ≤ deadline →
    deadline + SUB_MS_SKIP_THRESHOLD_NS ≤ u64_max →
    (zlen (started s2 j deadline) - 1) * interval_ns lj < deadline + SUB_MS_SKIP_THRESHOLD_NS.
Proof.
  intros Hr0 Hpos Hset Hq. pose proof (blast_reach_inv s0 Hr0) as Hs0.
  destruct (set_rate_limit_fine _ _ _ Hs0 Hset) as [Hs1 _]. destruct (quiet_steps_fine _ _ Hs1 Hq) as [Hs2 Hg].
  unfold py_set_rate_limit, set_rate_limit in Hset. rewrite Hpos in Hset.
  destruct (RateLimiter_new rate) as [l|[]|] eqn:El; [|done]. cbn in Hset. injection Hset as <-.
  assert (in_force (length (ops s0)) (length (batches s0)) (length (limiters s0)) l
    (with_rate_limiter (Some (length (limiters s0))) (with_limiter l s0))) as Hf.
  { split; cbn; [done| | |].
    - exists limiter_init. by rewrite lookup_app_r, Nat.sub_diag by done.
    - intros k o Hk%lookup_lt_Some. lia.
    - intros b y Hb%lookup_lt_Some. lia. }
  destruct (in_force_steps _ _ _ _ _ _ Hs1 Hf Hq) as [_ [x Hx] Ho Hb]. cbn.
  exists l, x. split_and!; [done|done| |apply Hg|by intros; apply started_capped with (x := xj)].
  intros k o Hk Hn. pose proof (inv_origin _ Hs2 _ _ Hk) as Hor. unfold origin_ok in Hor.
  destruct (o_work o) as [| | |c d|c n ms|b config] eqn:Ew; try (apply (Ho k o Hk Hn); by rewrite Ew).
  1-2: destruct Hor as (conn & Hc & Hl); destruct (inv_opener _ Hs2 _ _ Hc) as (o' & url & config & Ho' & Hw & Hl');
    exists conn, o'; (split_and!; [done|done|congruence|]); intros Hn'; rewrite Hl, <- Hl'; apply (Ho _ _ Ho' Hn'); by rewrite Hw.
  intros Hm. destruct Hor as (y & Hy & ->). by eapply Hb.
Qed.
End steps.

(** ** A download under a limit of 1000 per second *)

#[local] Instance blast_python : Python := {
  py_str _ := inr [];
  conversion_error _ := 0;
  extract_bytes _ := None
}.
Definition limited_blast : BlastHTTP := mkBlast [(mkLimiter 1000000, limiter_init)] (Some 0%nat) [] [] [] 0 [].
Definition a_download : work :=
  WDownload (download_config (bs "http://h/") None None None None None None None None) (bs "f").

(** Worker 0 after the points [l], with the cursor and the slots. *)
Definition passed (l : list pc) : nat → pc := fold_left (λ f p, upd f 0 p) l (λ _, AtLoad).
Definition at_point (next : Z) (l : list pc) (slots : list (nat * Z)) : BlastHTTP :=
  mkBlast [(mkLimiter 1000000, mkLS next 0 (passed l) slots)] (Some 0%nat) [mkOp a_download (Some 0%nat) Pacing] [] [] 0 [].
Local Abbreviation sample_step := (quiet_step (λ _, 0) (λ _, 0) (λ _ _, False) (λ _ _ _, False)).

Lemma at_point_step next l next' p slots slots' :
  limiter_step (mkLimiter 1000000) (mkLS next 0 (passed l) slots) (mkLS next' 0 (passed (l ++ [p])) slots') →
  sample_step (at_point next l slots) (at_point next' (l ++ [p]) slots').
Proof.
  intros Hs. eapply (st_limiter _ _ _ _ (at_point next l slots) 0); [reflexivity|exact Hs|]. intros [|t] Ht; [by eexists|].
  destruct Ht. unfold passed. cbn. by rewrite fold_left_app.
Qed.

Lemma rate_limit_global_witness : exists s2, rtc sample_step limited_blast s2 ∧ started s2 0 0 = [0%nat] ∧
  ∀ k o, ops s2 !! k = Some o → match o_work o with WDownload _ _ => o_limiter o = Some 0%nat | _ => True end.
Proof.
  pose (s2 := with_phase 0 (Started 0) (at_point 1000000 [AtClock 0; AtCas 0 0; AtWait 0; Returned 0 0] [(0%nat, 0)])).
  assert (rtc sample_step limited_blast s2) as Hr.
  { eapply rtc_l; [apply (st_download _ _ _ _ _ (bs "http://h/") (bs "f") None None None None None None None None)|].
    eapply rtc_l; [apply (at_point_step 0 [] 0 (AtClock 0) [] []); exact (step_load _ (mkLS 0 0 (passed []) []) 0 eq_refl)|].
    eapply rtc_l; [apply (at_point_step 0 [AtClock 0] 0 (AtCas 0 0) [] []);
      exact (step_clock _ (mkLS 0 0 (passed [AtClock 0]) []) 0 0 eq_refl)|].
    eapply rtc_l; [apply (at_point_step 0 [AtClock 0; AtCas 0 0] 1000000 (AtWait 0) [] [(0%nat, 0)]);
      exact (step_cas_ok _ (mkLS 0 0 (passed [AtClock 0; AtCas 0 0]) []) 0 0 0 eq_refl eq_refl)|].
    eapply rtc_l; [apply (at_point_step 1000000 [AtClock 0; AtCas 0 0; AtWait 0] 1000000 (Returned 0 0) [(0%nat, 0)] [(0%nat, 0)]);
      exact (step_wait _ (mkLS 1000000 0 (passed [AtClock 0; AtCas 0 0; AtWait 0]) [(0%nat, 0)]) 0 0 eq_refl)|].
    eapply rtc_l; [|apply rtc_refl]. apply (st_start _ _ _ _ _ 0 a_download (Some 0%nat) 0); [reflexivity|].
    eexists _, _, 0, 0. split_and!; [reflexivity|reflexivity|cbn; lia|reflexivity]. }
  exists s2. split; [exact Hr|]. split; [vm_compute; reflexivity|]. intros k o Hk.
  destruct (rate_limit_global (λ _, 0) (λ _, 0) (λ _ _, False) (λ _ _ _, False) BlastHTTP_new limited_blast s2 (f64_of_Z 1000))
    as (l & x & _ & _ & Ho & _); [apply rtc_refl|reflexivity|vm_compute; reflexivity|exact Hr|].
  specialize (Ho k o Hk (Nat.le_0_l k)). by destruct (o_work o).
Defined.
