(* ===== verification/PyH2.v ===== *)
(** * The HTTP/2 functions for Python (submodule blasthttp.h2 of src/python.rs)

    Argument conversion, defaults and errors around the encoder, the decoder, the
    frames and the probe; and what a Python program that encodes and decodes the
    blocks of one connection gets. *)
From S2P Require Import Prelude RustStd PyValue Frame Huffman Hpack HpackFacts HpackProps Probe.

(** ** Errors as text *)

(** [Display] of the error types (the [#[error(...)]] attributes). *)
Definition encode_error_text (e : EncodeError) : bytes :=
  match e with
  | EmptyName => bs "header name is empty"
  | InvalidValue =>
      bs "invalid characters in header value (CRLF, NUL, or other RFC 9113 §8.2.1-prohibited bytes); set allow_invalid_value to emit anyway"
  | InvalidName =>
      bs "invalid characters in header name (uppercase, space, or control chars); set allow_invalid_name to emit anyway"
  | BloatOutOfRange b => bs "length_bloat out of range (must be 0..=3): " ++ bs (pretty b)
  | StaticIndexOutOfRange i => bs "force_static_index out of range (must be 1..=61): " ++ bs (pretty i)
  end.
Definition huffman_error_text (e : HuffmanError) : bytes :=
  match e with
  | EosInStream => bs "Huffman EOS symbol appeared in the input stream"
  | BadPadding => bs "invalid Huffman padding at end of input"
  end.
Definition decode_error_text (e : DecodeError) : bytes :=
  match e with
  | UnexpectedEof pos => bs "unexpected end of input at position " ++ bs (pretty pos)
  | IntegerOverflow => bs "HPACK integer overflow (continuation bytes exceed u32 range)"
  | InvalidIndex idx => bs "invalid table index " ++ bs (pretty idx)
  | TableSizeTooLarge n m =>
      bs "dynamic-table-size-update of " ++ bs (pretty n) ++ bs " exceeds peer-announced max " ++ bs (pretty m)
  | Hpack.Huffman e => bs "Huffman decode failed: " ++ huffman_error_text e
  end.

Definition h2_encode_err_to_py (e : EncodeError) : PyErr := ValueError (encode_error_text e).
Definition h2_decode_err_to_py (e : DecodeError) : PyErr := ValueError (decode_error_text e).

(** ** Header *)

(** [Debug] of a text, which the message of a wrong [indexing] quotes. *)
Definition parse_indexing (debug : bytes → bytes) (s : option bytes) : exec PyErr Indexing :=
  match s with
  | None => Ok With
  | Some s =>
      if bool_decide (s = bs "with") then Ok With
      else if bool_decide (s = bs "without") then Ok Without
      else if bool_decide (s = bs "never") then Ok Never
      else Err (ValueError (bs "indexing must be one of 'with', 'without', 'never' (got " ++ debug s ++ bs ")"))
  end.

Definition PyH2Header : Type := Header.

Section python.
Context `{Python} (debug : bytes → bytes).

Definition bytes_from_py (obj : PyObj) : exec PyErr bytes :=
  match obj with
  | PyStr s => conversion obj s
  | PyBytes b => Ok b
  | _ => Err (TypeError (bs "expected str or bytes"))
  end.

Definition PyH2Header_new (name value : PyObj) (indexing : option bytes) (huffman_name huffman_value : option bool)
    (allow_invalid_value allow_invalid_name : bool) (length_bloat_name length_bloat_value : Z)
    (force_static_index : option Z) : exec PyErr PyH2Header :=
  name ← bytes_from_py name;
  value ← bytes_from_py value;
  indexing ← parse_indexing debug indexing;
  Ok (mkHeader name value indexing huffman_name huffman_value allow_invalid_value allow_invalid_name
        length_bloat_name length_bloat_value force_static_index).
End python.

(** ** Functions *)

Definition h2_encode_headers (headers : list PyH2Header) : exec PyErr bytes :=
  map_err h2_encode_err_to_py (encode_headers headers).

Definition probe_settings (settings : option (list (Z * Z))) (omit_settings : bool) : option (list (Z * Z)) :=
  if omit_settings then None else Some (default [] settings).

Definition h2_build_probe (headers : list PyH2Header) (body : option bytes) (send_preface : bool)
    (preface_override : option bytes) (settings : option (list (Z * Z))) (omit_settings : bool) (stream_id : Z)
    (split_headers_after : option Z) (pad_headers pad_data : Z) (priority : option (Z * Z * bool))
    (force_no_end_stream_on_headers : bool) (extra_frames_before_headers extra_frames_after : option bytes)
    : exec PyErr bytes :=
  map_err h2_encode_err_to_py
    (build_probe headers
       (mkProbeOpts send_preface preface_override (probe_settings settings omit_settings) stream_id body
          split_headers_after pad_headers pad_data priority force_no_end_stream_on_headers
          (default [] extra_frames_before_headers) (default [] extra_frames_after))).

(** The frame functions; a panic of the builder surfaces as an exception that nothing
    here describes. *)
Definition h2_build_raw_frame (frame_type flags stream_id : Z) (payload : bytes) : exec PyErr bytes :=
  build_raw_frame frame_type flags stream_id payload.
Definition h2_build_settings_frame (settings : option (list (Z * Z))) (ack : bool) : exec PyErr bytes :=
  build_settings_frame (default [] settings) ack.
Definition h2_build_headers_frame (header_block : bytes) (stream_id : Z) (end_stream end_headers : bool)
    (padding : Z) (priority : option (Z * Z * bool)) : exec PyErr bytes :=
  build_headers_frame {| Frame.header_block := header_block; Frame.stream_id := stream_id;
    Frame.end_stream := end_stream; Frame.end_headers := end_headers; Frame.padding := padding;
    Frame.priority := priority |}.
Definition h2_build_continuation_frame (header_block : bytes) (stream_id : Z) (end_headers : bool) : exec PyErr bytes :=
  build_continuation_frame header_block stream_id end_headers.
Definition h2_build_data_frame (data : bytes) (stream_id : Z) (end_stream : bool) (padding : Z) : exec PyErr bytes :=
  build_data_frame data stream_id end_stream padding.
Definition h2_build_window_update_frame (increment stream_id : Z) : exec PyErr bytes :=
  build_window_update_frame increment stream_id.

(** [for (i, b) in d.iter().take(8).enumerate() { arr[i] = *b }]. *)
Fixpoint copy_into (arr d : bytes) : bytes :=
  match arr, d with
  | _ :: arr, b :: d => b :: copy_into arr d
  | _, _ => arr
  end.
Definition ping_data (data : option bytes) : bytes :=
  copy_into (replicate 8 0) (take 8 (default (replicate 8 0) data)).
Definition h2_build_ping_frame (data : option bytes) (ack : bool) : exec PyErr bytes :=
  build_ping_frame (ping_data data) ack.

Definition h2_build_rst_stream_frame (stream_id error_code : Z) : exec PyErr bytes :=
  build_rst_stream_frame stream_id error_code.
Definition h2_build_goaway_frame (last_stream_id error_code : Z) (debug_data : option bytes) : exec PyErr bytes :=
  build_goaway_frame last_stream_id error_code (default [] debug_data).
Definition h2_build_priority_frame (stream_id dep_stream weight : Z) (exclusive : bool) : exec PyErr bytes :=
  build_priority_frame stream_id dep_stream weight exclusive.

(** ** Decoder *)

Definition PyH2Decoder : Type := Decoder.
Definition PyH2Decoder_new (max_table_size : Z) : PyH2Decoder := with_max_table_size max_table_size.

Definition decode (self : PyH2Decoder) (block : bytes) : option (exec PyErr (list (PyObj * PyObj)) * PyH2Decoder) :=
  '(self, r) ← decode_headers self block;
  Some ((λ pairs, map (λ h, (PyBytes h.1, PyBytes h.2)) pairs) <$> map_err h2_decode_err_to_py r, self).

(** The blocks of one connection, in order. *)
Fixpoint decode_all (self : PyH2Decoder) (blocks : list bytes) : option (list (exec PyErr (list (PyObj * PyObj))) * PyH2Decoder) :=
  match blocks with
  | [] => Some ([], self)
  | block :: blocks =>
      '(r, self) ← decode self block;
      '(rs, self) ← decode_all self blocks;
      Some (r :: rs, self)
  end.

(** ** Facts *)

Lemma ping_data_spec data : ping_data data = take 8 (default [] data ++ replicate 8 0).
Proof.
  unfold ping_data. destruct data as [d|]; [|done]. cbn [default from_option id].
  assert (∀ n d, copy_into (replicate n 0) (take n d) = take n (d ++ replicate n 0)) as Hc; [|apply Hc].
  clear d. intros n. assert (∀ m d, (n ≤ m)%nat → copy_into (replicate n 0) (take n d) = take n (d ++ replicate m 0)) as Hc.
  { induction n as [|n IH]; intros m d Hm; [done|]. destruct d as [|b d]; cbn.
    - destruct m as [|m]; [lia|]. cbn. f_equal. clear IH. revert m Hm.
      induction n as [|n IH]; intros m Hm; [done|]. destruct m as [|m]; [lia|]. cbn. f_equal. apply IH. lia.
    - f_equal. apply IH. lia. }
  intros d. by apply Hc.
Qed.

Section facts.
Context `{Python} (debug : bytes → bytes).

(** What the constructor refuses, with the first problem in argument order. *)
Lemma bytes_from_py_no_panic o : bytes_from_py o ≠ Panic.
Proof. destruct o; cbn [bytes_from_py]; auto with panic; done. Qed.

(** A Python value and the bytes it is. *)
Definition bytes_of (o : PyObj) : option bytes :=
  match o with PyStr s => s | PyBytes b => Some b | _ => None end.

Lemma bytes_from_py_ok o b : bytes_from_py o = Ok b ↔ bytes_of o = Some b.
Proof. destruct o as [| | | |[s|]| | | |]; cbn; naive_solver. Qed.

Lemma PyH2Header_new_ok n v ix hn hv av an bn bv st h :
  PyH2Header_new debug n v ix hn hv av an bn bv st = Ok h ↔
  ∃ nb vb i, bytes_of n = Some nb ∧ bytes_of v = Some vb ∧ parse_indexing debug ix = Ok i ∧
    h = mkHeader nb vb i hn hv av an bn bv st.
Proof.
  unfold PyH2Header_new. split.
  - intros (nb & Hn%bytes_from_py_ok & (vb & Hv%bytes_from_py_ok & (i & Hi & [= <-])%bind_Ok)%bind_Ok)%bind_Ok. eauto 8.
  - intros (nb & vb & i & Hn%bytes_from_py_ok & Hv%bytes_from_py_ok & Hi & ->). by rewrite Hn; cbn; rewrite Hv; cbn; rewrite Hi.
Qed.
End facts.

(** The arguments of [Header(...)], but the two length bloats, which are left at 0. *)
Record HeaderArgs := mkHeaderArgs {
  ha_name : PyObj;
  ha_value : PyObj;
  ha_indexing : option bytes;
  ha_huffman_name : option bool;
  ha_huffman_value : option bool;
  ha_allow_invalid_value : bool;
  ha_allow_invalid_name : bool;
  ha_force_static_index : option Z
}.

(** A block of such calls, and the headers they made. *)
Definition headers_made `{Python} (debug : bytes → bytes) (block : list HeaderArgs) (hs : list PyH2Header) : Prop :=
  Forall2 (λ a h, PyH2Header_new debug (ha_name a) (ha_value a) (ha_indexing a) (ha_huffman_name a) (ha_huffman_value a)
    (ha_allow_invalid_value a) (ha_allow_invalid_name a) 0 0 (ha_force_static_index a) = Ok h) block hs.

(** The pair of bytes that is to come back: the name is that of the static table where
    an index into it was forced. *)
Definition as_bytes (a : HeaderArgs) : PyObj * PyObj :=
  (PyBytes (match ha_force_static_index a with
            | Some i => (nth (Z.to_nat (i - 1)) STATIC_TABLE ([], [])).1
            | None => default [] (bytes_of (ha_name a))
            end),
   PyBytes (default [] (bytes_of (ha_value a)))).

Definition short (a : HeaderArgs) : Prop :=
  ∀ b, bytes_of (ha_name a) = Some b ∨ bytes_of (ha_value a) = Some b → wf_bytes b ∧ zlen b < 2 ^ 30.

Lemma headers_made_plain `{Python} debug block hs : headers_made debug block hs → Forall short block →
  Forall plain hs ∧ map (λ h, (PyBytes h.1, PyBytes h.2)) (map field hs) = map as_bytes block.
Proof.
  intros Hf. induction Hf as [|a h block hs Hh _ IH]; [done|]. intros [Hs Hss]%Forall_cons.
  apply PyH2Header_new_ok in Hh as (nb & vb & i & Hn & Hv & _ & ->). destruct (IH Hss) as [Hp He]. split.
  - constructor; [|done]. destruct (Hs nb) as [? ?]; [by left|]. destruct (Hs vb) as [? ?]; [by right|]. done.
  - cbn [map]. rewrite He. unfold as_bytes at 2. rewrite Hn, Hv. unfold field. cbn.
    by destruct (ha_force_static_index a).
Qed.

(** C30: a Python program that builds headers from texts or bytes, with any choice of
    indexing, Huffman coding, relaxed checks and forced static names, encodes each block
    on its own, and hands the blocks in order to one [Decoder] of any table size gets back
    exactly the bytes of the names and values, block by block, in order: the encoder never
    refers to the decoder's dynamic table, and whatever that table holds does not matter.
    Under a forced static index the name that comes back is the static table's.  Not
    covered are headers with a length bloat, which announce a wrong length on purpose, and
    names or values of 2^30 bytes or more. *)
Theorem h2_connection_roundtrip `{Python} (debug : bytes → bytes) (max_table_size : Z)
    (blocks : list (list HeaderArgs)) (headers : list (list PyH2Header)) (encoded : list bytes) :
  Forall2 (headers_made debug) blocks headers → Forall (Forall short) blocks →
  Forall2 (λ hs b, h2_encode_headers hs = Ok b) headers encoded →
  fst <$> decode_all (PyH2Decoder_new max_table_size) encoded = Some (map (λ block, Ok (map as_bytes block)) blocks).
Proof.
  intros Hm Hs. revert encoded. generalize (PyH2Decoder_new max_table_size).
  induction Hm as [|block hs blocks headers Hb _ IH]; intros d encoded He; [by apply Forall2_nil_inv_l in He as ->|].
  apply Forall2_cons_inv_l in He as (enc & encs & Henc & He & ->). apply Forall_cons in Hs as [Hs Hss].
  destruct (headers_made_plain _ _ _ Hb Hs) as [Hp Hf]. cbn [decode_all map].
  unfold h2_encode_headers in Henc. destruct (encode_headers hs) as [b|e|] eqn:Ee; [|done..].
  cbn in Henc. injection Henc as <-. apply encode_headers_loop_ok in Ee as [Ha ->]. cbn [app].
  unfold decode. rewrite decode_headers_block by done. cbn. specialize (IH Hss (fold_left after hs d) encs He).
  destruct (decode_all _ encs) as [[rs d']|]; [|done]. cbn in IH |- *. injection IH as ->. by rewrite Hf.
Qed.

#[local] Instance sample_python : Python := {
  py_str _ := inr [];
  conversion_error _ := 0;
  extract_bytes _ := None
}.

(** A plain header, and one with the name of entry 15 (accept-charset) and no indexing. *)
Definition sample_args : list HeaderArgs :=
  [mkHeaderArgs (PyStr (Some (bs "x-id"))) (PyBytes (bs "42")) None None None false false None;
   mkHeaderArgs (PyStr (Some (bs "x"))) (PyStr (Some (bs "u"))) (Some (bs "never")) None (Some false) false false (Some 15)].
Definition sample_headers : list PyH2Header :=
  [Header_new (bs "x-id") (bs "42"); mkHeader (bs "x") (bs "u") Never None (Some false) false false 0 0 (Some 15)].

Lemma h2_connection_roundtrip_witness :
  map as_bytes sample_args = [(PyBytes (bs "x-id"), PyBytes (bs "42")); (PyBytes (bs "accept-charset"), PyBytes (bs "u"))] ∧
  ∃ enc, h2_encode_headers sample_headers = Ok enc ∧
  fst <$> decode_all (PyH2Decoder_new 64) [enc; enc] = Some [Ok (map as_bytes sample_args); Ok (map as_bytes sample_args)].
Proof.
  split; [vm_compute; reflexivity|]. destruct (h2_encode_headers sample_headers) as [enc|e|] eqn:E; [|vm_compute in E; discriminate E..].
  exists enc. split; [done|].
  assert (headers_made (λ s, s) sample_args sample_headers) as Hm by (unfold headers_made, sample_args, sample_headers; repeat constructor).
  assert (Forall short sample_args) as Hs.
  { repeat constructor; unfold is_byte; cbn in *; match goal with H : _ ∨ _ |- _ => destruct H as [H|H]; injection H as <- end;
      try (apply (bs_wf "x-id") || apply (bs_wf "42") || apply (bs_wf "x") || apply (bs_wf "u")); vm_compute; congruence. }
  apply (h2_connection_roundtrip (λ s, s) 64 [sample_args; sample_args] [sample_headers; sample_headers]);
    repeat (exact Hm || exact Hs || exact E || constructor).
Defined.
