(* ===== verification/PyResponses.v ===== *)
(** * Response objects for Python (src/python.rs)

    Class Response and its companions: the getters, the cached [Headers] and [Request]
    objects (kept on a heap, since Python programs hold references to them), the
    constructors for tests, and the wrapper of a raw connection. *)
From stdpp Require Import gmap.
From S2P Require Import Prelude RustStd ClientError Wire PyValue Headers PyApi.
From S2P Require Raw.
From S2P Require Import Response.

(** ** Objects *)

Record PyRequest := mkPyRequest { rq_url : bytes; rq_method : bytes }.
Record PyResponse := mkPyResponse {
  inner : Response;
  headers_cache : option positive;
  request_cache : option positive
}.
Definition PyResponseHash : Type := ResponseHash.
Definition PyCertInfo : Type := CertInfo.
Definition PyRedirectHop : Type := RedirectHop.

(** The [Headers] and [Request] objects in existence. *)
Record heap := mkHeap { h_headers : gmap positive PyHeaders; h_requests : gmap positive PyRequest }.

Definition wrap (inner : Response) : PyResponse := mkPyResponse inner None None.

Definition PyRedirectHop_new (url : bytes) (status : Z) (peer_ip : option bytes) : PyRedirectHop :=
  mkHop url status peer_ip.

Section python.
Context `{Python}.

Definition response_body (body : option PyObj) : exec PyErr bytes :=
  match body with
  | None => Ok []
  | Some b =>
      match extract_string b with
      | Some s => Ok s
      | None => ok_or (extract_bytes b) (TypeError (bs "body must be bytes, str, or None"))
      end
  end.

Definition PyResponse_new (url : bytes) (status : Z) (headers : option (list (bytes * bytes))) (body : option PyObj)
    (request_url request_method : option bytes) (elapsed_ms : Z) (peer_ip : option bytes)
    (redirect_chain : option (list PyRedirectHop)) (cert_info : option PyCertInfo) : exec PyErr PyResponse :=
  body_bytes ← response_body body;
  Ok (mkPyResponse
        (mkResponse url status (default [] headers) body_bytes elapsed_ms (default [] redirect_chain) cert_info
           peer_ip (default url request_url) (default (bs "GET") request_method) [] None None None None None)
        None None).
End python.

(** ** Getters *)

Definition status_code (self : PyResponse) : Z := status (inner self).
Definition content (self : PyResponse) : bytes := body_bytes (inner self).

(** [as i32] of a [u64]. *)
Definition as_i32 (x : Z) : Z := let m := u32 x in if m <? 2 ^ 31 then m else m - 2 ^ 32.
(** The [timedelta] as its seconds and microseconds; [/] and [%] truncate. *)
Definition elapsed (self : PyResponse) : Z * Z :=
  let ms := as_i32 (elapsed_ms (inner self)) in
  (Z.quot ms 1000, Z.rem ms 1000 * 1000).

(** What the getters that only copy a field show. *)
Inductive pyval :=
  | PvNone | PvStr (s : bytes) | PvInt (z : Z) | PvBool (b : bool) | PvBytes (b : bytes)
  | PvDelta (seconds microseconds : Z) | PvCert (c : PyCertInfo) | PvHops (l : list PyRedirectHop) | PvStrs (l : list bytes).
Definition pv_option {A} (pv : A → pyval) (o : option A) : pyval := match o with Some a => pv a | None => PvNone end.

Inductive attribute :=
  | AUrl | AStatus | AStatusCode | AIsSuccess | AElapsedMs | AElapsed | ABodyBytes | AContent | ADecodeError
  | ACertInfo | APeerIp | ARedirectChain | ADebugLog | ARepr | ABool.

(** ** Texts *)

Definition response_repr (self : PyResponse) : bytes :=
  bs "Response(url='" ++ url (inner self) ++ bs "', status=" ++ bs (pretty (status (inner self))) ++ bs ")".
Definition request_repr (r : PyRequest) : bytes :=
  bs "Request(method='" ++ rq_method r ++ bs "', url='" ++ rq_url r ++ bs "')".
Definition hash_repr (h : PyResponseHash) : bytes :=
  bs "ResponseHash(body_md5='" ++ body_md5 h ++ bs "', body_mmh3=" ++ bs (pretty (body_mmh3 h)) ++ bs ")".

Definition attribute_of (self : PyResponse) (a : attribute) : pyval :=
  match a with
  | AUrl => PvStr (url (inner self))
  | AStatus => PvInt (status (inner self))
  | AStatusCode => PvInt (status_code self)
  | AIsSuccess => PvBool (is_success (inner self))
  | AElapsedMs => PvInt (elapsed_ms (inner self))
  | AElapsed => PvDelta (elapsed self).1 (elapsed self).2
  | ABodyBytes => PvBytes (body_bytes (inner self))
  | AContent => PvBytes (content self)
  | ADecodeError => pv_option PvStr (decode_error (inner self))
  | ACertInfo => pv_option PvCert (cert_info (inner self))
  | APeerIp => pv_option PvStr (peer_ip (inner self))
  | ARedirectChain => PvHops (redirect_chain (inner self))
  | ADebugLog => PvStrs (debug_log (inner self))
  | ARepr => PvStr (response_repr self)
  | ABool => PvBool true
  end.

(** A [Request] or [Headers] object is made on the first read, and the same object is
    given from then on. *)
Definition request (self : PyResponse) (h : heap) : positive * PyResponse * heap :=
  match request_cache self with
  | Some l => (l, self, h)
  | None =>
      let l := fresh (dom (h_requests h)) in
      (l, mkPyResponse (inner self) (headers_cache self) (Some l),
       mkHeap (h_headers h) (<[l := mkPyRequest (request_url (inner self)) (request_method (inner self))]> (h_requests h)))
  end.

(** In two halves: the check, and what follows when it found nothing.  Another thread
    may run between them. *)
Definition headers_check (self : PyResponse) : option positive := headers_cache self.
Definition headers_make (self : PyResponse) (h : heap) : positive * PyResponse * heap :=
  let l := fresh (dom (h_headers h)) in
  (l, mkPyResponse (inner self) (match headers_cache self with Some l' => Some l' | None => Some l end) (request_cache self),
   mkHeap (<[l := from_list (headers (inner self))]> (h_headers h)) (h_requests h)).
Definition headers_ (self : PyResponse) (h : heap) : positive * PyResponse * heap :=
  match headers_check self with Some l => (l, self, h) | None => headers_make self h end.

(** The getters that fill a cache of the response. *)
Definition on_inner {A} (get : Response → A * Response) (self : PyResponse) : A * PyResponse :=
  let '(a, r) := get (inner self) in (a, mkPyResponse r (headers_cache self) (request_cache self)).

(** [HTTPStatusError], which also carries the response object. *)
Definition raise_for_status (self : PyResponse) : exec PyErr () :=
  let s := status (inner self) in
  if (400 <=? s) && (s <? 600)
  then Err (HTTPStatusError (bs "HTTP " ++ bs (pretty s) ++ bs " for url '" ++ url (inner self) ++ bs "'"))
  else Ok tt.

(** [BatchResult.response]: a new object at each read. *)
Definition batch_response (r : PyBatchResult) : option PyResponse := (λ resp, wrap (clone resp)) <$> br_response r.

Inductive batch_attribute := BUrl | BError | BSuccess.
Definition batch_attribute_of (self : PyBatchResult) (a : batch_attribute) : pyval :=
  match a with
  | BUrl => PvStr (br_url self) | BError => pv_option PvStr (br_error self) | BSuccess => PvBool (success self)
  end.

(** The attributes of the companions. *)
Inductive hash_attribute := HBodyMd5 | HBodyMmh3 | HBodySha256 | HHeaderMd5 | HHeaderMmh3 | HHeaderSha256 | HRepr.
Definition hash_attribute_of (self : PyResponseHash) (a : hash_attribute) : pyval :=
  match a with
  | HBodyMd5 => PvStr (body_md5 self) | HBodyMmh3 => PvInt (body_mmh3 self) | HBodySha256 => PvStr (body_sha256 self)
  | HHeaderMd5 => PvStr (header_md5 self) | HHeaderMmh3 => PvInt (header_mmh3 self)
  | HHeaderSha256 => PvStr (header_sha256 self) | HRepr => PvStr (hash_repr self)
  end.

Inductive cert_attribute := CCommonName | CSans | CEmails | CIssuer | CNotBefore | CNotAfter | CFingerprint.
Definition cert_attribute_of (self : PyCertInfo) (a : cert_attribute) : pyval :=
  match a with
  | CCommonName => pv_option PvStr (common_name self) | CSans => PvStrs (sans self) | CEmails => PvStrs (emails self)
  | CIssuer => pv_option PvStr (issuer self) | CNotBefore => pv_option PvStr (not_before self)
  | CNotAfter => pv_option PvStr (not_after self) | CFingerprint => pv_option PvStr (fingerprint_sha256 self)
  end.

Inductive hop_attribute := PUrl | PStatus | PPeerIp.
Definition hop_attribute_of (self : PyRedirectHop) (a : hop_attribute) : pyval :=
  match a with
  | PUrl => PvStr (hop_url self) | PStatus => PvInt (hop_status self) | PPeerIp => pv_option PvStr (hop_peer_ip self)
  end.

(** ** Raw connections *)

(** What a call of the wrapper does: take a token when there is a limiter, then the
    operation. *)
Inductive raw_event := TakeToken | RawOp.
Definition limited {A} (limiter : bool) (op : Raw.RawConnection → exec ClientError A * Raw.RawConnection)
    (c : Raw.RawConnection) : exec PyErr A * Raw.RawConnection * list raw_event :=
  let '(r, c) := op c in (map_err runtime_error r, c, (if limiter then [TakeToken] else []) ++ [RawOp]).
Definition py_send_bytes (limiter : bool) (data : bytes) (flushed : option bytes) :=
  limited limiter (Raw.send_bytes data flushed).
Definition py_read_raw (limiter : bool) (max_bytes : Z) (timeout_ms : option Z) (timed_out : bool) :=
  limited limiter (Raw.read_raw max_bytes timeout_ms timed_out).
Definition py_close := limited false Raw.close.

(** ** What a Python program sees *)

Section views.
Context (md5 sha256 : bytes → bytes) (mmh3_32 : bytes → Z) (json_loads : bytes → exec PyErr PyObj).

(** [json.loads(response.text)], the interpreter's. *)
Definition json (self : PyResponse) : exec PyErr PyObj * PyResponse :=
  let '(text, self) := on_inner body self in (json_loads text, self).

(** The uses of one response, and of any [Headers] objects. *)
Inductive use :=
  | GetHeaders | GetRequest | GetBody | GetRawHeaders | GetCookies | GetHash
  | GetAttribute (a : attribute) | CallJson | CallRaiseForStatus
  | OnHeaders (l : positive) (op : header_op).
Inductive seen :=
  | SeenHeaders (l : positive) | SeenRequest (l : positive) | SeenBody (b : bytes) | SeenRawHeaders (b : bytes)
  | SeenCookies (c : gmap bytes bytes) | SeenHash (h : ResponseHash) | SeenValue (v : pyval)
  | SeenLoaded (r : exec PyErr PyObj) | SeenRaised (r : exec PyErr ()) | SeenNothing.

Definition step (s : PyResponse * heap) (u : use) : seen * (PyResponse * heap) :=
  let '(self, h) := s in
  match u with
  | GetHeaders => let '(l, self, h) := headers_ self h in (SeenHeaders l, (self, h))
  | GetRequest => let '(l, self, h) := request self h in (SeenRequest l, (self, h))
  | GetBody => let '(b, self) := on_inner body self in (SeenBody b, (self, h))
  | GetRawHeaders => let '(b, self) := on_inner raw_headers self in (SeenRawHeaders b, (self, h))
  | GetCookies => let '(c, self) := on_inner cookies self in (SeenCookies c, (self, h))
  | GetHash => let '(x, self) := on_inner (hash md5 sha256 mmh3_32) self in (SeenHash x, (self, h))
  | GetAttribute a => (SeenValue (attribute_of self a), (self, h))
  | CallJson => let '(r, self) := json self in (SeenLoaded r, (self, h))
  | CallRaiseForStatus => (SeenRaised (raise_for_status self), (self, h))
  | OnHeaders l op =>
      (SeenNothing, (self, mkHeap (alter (λ x, run_op x op) l (h_headers h)) (h_requests h)))
  end.
Fixpoint run (s : PyResponse * heap) (us : list use) : list seen * (PyResponse * heap) :=
  match us with
  | [] => ([], s)
  | u :: us => let '(o, s) := step s u in let '(os, s) := run s us in (o :: os, s)
  end.

(** What each use shows when [Headers] is [lh], [Request] is [lq], and nothing is
    cached or mutated otherwise. *)
Definition shows (r : Response) (lh lq : positive) (u : use) : seen :=
  match u with
  | GetHeaders => SeenHeaders lh
  | GetRequest => SeenRequest lq
  | GetBody => SeenBody (view md5 sha256 mmh3_32 r).1.1.1
  | GetRawHeaders => SeenRawHeaders (view md5 sha256 mmh3_32 r).1.1.2
  | GetCookies => SeenCookies (view md5 sha256 mmh3_32 r).1.2
  | GetHash => SeenHash (view md5 sha256 mmh3_32 r).2
  | GetAttribute a => SeenValue (attribute_of (wrap r) a)
  | CallJson => SeenLoaded (json_loads (view md5 sha256 mmh3_32 r).1.1.1)
  | CallRaiseForStatus => SeenRaised (raise_for_status (wrap r))
  | OnHeaders _ _ => SeenNothing
  end.

(** The mutations made through one object. *)
Definition ops_on (l : positive) (us : list use) : list header_op :=
  omap (λ u, match u with OnHeaders l' op => if decide (l' = l) then Some op else None | _ => None end) us.

Record settled (r : Response) (lh lq : positive) (s : PyResponse * heap) : Prop := {
  st_headers : headers_cache s.1 = Some lh;
  st_request : request_cache s.1 = Some lq;
  st_caches : caches_ok md5 sha256 mmh3_32 (inner s.1);
  st_view : view md5 sha256 mmh3_32 (inner s.1) = view md5 sha256 mmh3_32 r;
  st_clone : clone (inner s.1) = clone r
}.

(** What a response shows but for its caches. *)
Lemma clone_fields r r' : clone r = clone r' →
  (∀ a, attribute_of (wrap r) a = attribute_of (wrap r') a) ∧ raise_for_status (wrap r) = raise_for_status (wrap r').
Proof.
  destruct r, r'. unfold clone, set_caches. cbn. intros [= -> -> -> -> -> -> -> -> -> -> -> ->]. split; [|done].
  by intros [].
Qed.
Lemma attribute_wrap self a : attribute_of self a = attribute_of (wrap (inner self)) a.
Proof. by destruct a. Qed.
Lemma access_clone a r : clone (access_step md5 sha256 mmh3_32 a r) = clone r.
Proof. by destruct a. Qed.

(** A getter that fills a cache of a settled response. *)
Lemma settled_access {A} (get : Response → A * Response) (acc : access) r lh lq self h :
  settled r lh lq (self, h) → (∀ r, (get r).2 = access_step md5 sha256 mmh3_32 acc r) →
  settled r lh lq ((on_inner get self).2, h).
Proof.
  intros [Hh Hq Hc Hv Hl] Hget. cbn in *. unfold on_inner. specialize (Hget (inner self)).
  destruct (get (inner self)) as [a r']. cbn in Hget. subst r'.
  destruct (caches_ok_step md5 sha256 mmh3_32 acc _ Hc) as [Hc' Hv'].
  split; cbn; [done|done|done|by rewrite Hv'|by rewrite access_clone].
Qed.

Lemma settled_step r lh lq s u : settled r lh lq s →
  (step s u).1 = shows r lh lq u ∧ settled r lh lq (step s u).2 ∧
  h_headers (step s u).2.2 !! lh = (λ x, foldl run_op x (ops_on lh [u])) <$> h_headers s.2 !! lh ∧
  h_requests (step s u).2.2 = h_requests s.2.
Proof.
  intros Hs. pose proof Hs as [Hh Hq Hc Hv Hl]. destruct s as [self h]. cbn in Hh, Hq, Hc, Hv, Hl.
  assert (∀ x : option PyHeaders, (λ x, x) <$> x = x) as Hid by by intros [].
  pose proof (body_ok md5 sha256 mmh3_32 _ Hc) as Eb. pose proof (raw_headers_ok md5 sha256 mmh3_32 _ Hc) as Er.
  pose proof (cookies_ok md5 sha256 mmh3_32 _ Hc) as Ec. pose proof (hash_ok md5 sha256 mmh3_32 _ Hc) as Eh.
  destruct (clone_fields _ _ Hl) as [Ha Hr].
  destruct u as [| | | | | |a| | |l op]; cbn [step shows].
  - unfold headers_, headers_check. rewrite Hh. cbn. by rewrite Hid.
  - unfold request. rewrite Hq. cbn. by rewrite Hid.
  - pose proof (settled_access body AccBody r lh lq self h Hs (λ _, eq_refl)) as H'. unfold on_inner in *.
    destruct (body (inner self)) as [b r']. cbn -[view] in *. rewrite Hid, Eb, <- Hv. done.
  - pose proof (settled_access raw_headers AccRawHeaders r lh lq self h Hs (λ _, eq_refl)) as H'. unfold on_inner in *.
    destruct (raw_headers (inner self)) as [b r']. cbn -[view] in *. rewrite Hid, Er, <- Hv. done.
  - pose proof (settled_access cookies AccCookies r lh lq self h Hs (λ _, eq_refl)) as H'. unfold on_inner in *.
    destruct (cookies (inner self)) as [b r']. cbn -[view] in *. rewrite Hid, Ec, <- Hv. done.
  - pose proof (settled_access (hash md5 sha256 mmh3_32) AccHash r lh lq self h Hs (λ _, eq_refl)) as H'. unfold on_inner in *.
    destruct (hash md5 sha256 mmh3_32 (inner self)) as [b r']. cbn -[view] in *. rewrite Hid, Eh, <- Hv. done.
  - cbn. rewrite Hid, attribute_wrap, Ha. done.
  - pose proof (settled_access body AccBody r lh lq self h Hs (λ _, eq_refl)) as H'. unfold json, on_inner in *.
    destruct (body (inner self)) as [b r']. cbn -[view] in *. rewrite Hid, Eb, <- Hv. done.
  - cbn. rewrite Hid. change (raise_for_status self) with (raise_for_status (wrap (inner self))). by rewrite Hr.
  - split_and!; [done|by split| |done]. cbn. destruct (decide (l = lh)) as [->|Hne]; cbn.
    + by rewrite lookup_alter_eq.
    + rewrite lookup_alter_ne by done. by rewrite Hid.
Qed.
End views.

Section properties.
Context (md5 sha256 : bytes → bytes) (mmh3_32 : bytes → Z) (json_loads : bytes → exec PyErr PyObj).
Abbreviation run := (run md5 sha256 mmh3_32 json_loads).
Abbreviation step := (step md5 sha256 mmh3_32 json_loads).
Abbreviation shows := (shows md5 sha256 mmh3_32 json_loads).

Lemma settled_run r lh lq us : ∀ s, settled md5 sha256 mmh3_32 r lh lq s →
  (run s us).1 = map (shows r lh lq) us ∧
  h_headers (run s us).2.2 !! lh = (λ x, foldl run_op x (ops_on lh us)) <$> h_headers s.2 !! lh ∧
  h_requests (run s us).2.2 = h_requests s.2.
Proof.
  induction us as [|u us IH]; intros s Hs; [cbn; split_and!; try done; by destruct (_ !! _)|].
  destruct (settled_step md5 sha256 mmh3_32 json_loads r lh lq s u Hs) as (Ho & Hs' & Hh & Hq). cbn [PyResponses.run].
  destruct (step s u) as [o s1]. cbn in Ho, Hs', Hh, Hq. subst o. destruct (IH s1 Hs') as (Hos & Hh' & Hq').
  destruct (run s1 us) as [os s2]. cbn in *. subst os. split_and!; [done| |congruence].
  rewrite Hh', Hh. destruct (h_headers s.2 !! lh) as [x|]; [|done]. cbn. f_equal. rewrite <- foldl_app. f_equal.
  destruct u; [done..|]. cbn. by destruct (decide _).
Qed.

(** C29: from the first reads of its [headers] and [request] on, a response gives
    the same two objects at every read, so assignments through [r.headers] are seen by
    later reads, in order, and only by them: the text of the headers, the cookies, the
    body and the hashes remain those of the response as it was received, whatever is
    assigned and however often they are read, and so do all its other attributes,
    [json()] and [raise_for_status()].  Each read of [BatchResult.response], on
    the other hand, is a new object whose [headers] are the received ones. *)
Theorem response_views (r : Response) (h0 h1 : heap) (self : PyResponse) (lh lq : positive) (us : list use) :
  caches_ok md5 sha256 mmh3_32 r →
  run (wrap r, h0) [GetHeaders; GetRequest] = ([SeenHeaders lh; SeenRequest lq], (self, h1)) →
  lh ∉ dom (h_headers h0) ∧ lq ∉ dom (h_requests h0) ∧
  (run (self, h1) us).1 = map (shows r lh lq) us ∧
  h_headers (run (self, h1) us).2.2 !! lh = Some (run_ops (from_list (headers r)) (ops_on lh us)) ∧
  h_requests (run (self, h1) us).2.2 !! lq = Some (mkPyRequest (request_url r) (request_method r)) ∧
  ∀ b resp l self' h', br_response b = Some r → batch_response b = Some resp →
    headers_ resp (run (self, h1) us).2.2 = (l, self', h') →
    l ≠ lh ∧ h_headers h' !! l = Some (from_list (headers r)) ∧
    h_headers h' !! lh = h_headers (run (self, h1) us).2.2 !! lh.
Proof.
  intros Hc E. cbn in E. injection E as <- <- <- <-. cbn.
  set (lh := fresh (dom (h_headers h0))). set (lq := fresh (dom (h_requests h0))).
  assert (lh ∉ dom (h_headers h0)) as Hlh by apply is_fresh. assert (lq ∉ dom (h_requests h0)) as Hlq by apply is_fresh.
  set (s := (mkPyResponse r (Some lh) (Some lq), _)).
  assert (settled md5 sha256 mmh3_32 r lh lq s) as Hs by by split.
  destruct (settled_run r lh lq us s Hs) as (Ho & Hh & Hq).
  assert (h_headers (run s us).2.2 !! lh = Some (run_ops (from_list (headers r)) (ops_on lh us))) as Hh'.
  { rewrite Hh. cbn. by rewrite lookup_insert_eq. }
  split_and!; [done..| |].
  - rewrite Hq. cbn. by rewrite lookup_insert_eq.
  - intros b resp l self' h' Hb Hr Hg. unfold batch_response in Hr. rewrite Hb in Hr. cbn in Hr. injection Hr as <-.
    unfold headers_, headers_check, headers_make, wrap in Hg. cbn in Hg. injection Hg as <- _ <-. cbn.
    assert (fresh (dom (h_headers (run s us).2.2)) ≠ lh) as Hne.
    { intros Heq. pose proof (is_fresh (dom (h_headers (run s us).2.2))) as Hf. rewrite Heq in Hf.
      apply Hf. apply elem_of_dom. by rewrite Hh'. }
    rewrite lookup_insert_eq, lookup_insert_ne by done. done.
Qed.

(** If another thread makes the [Headers] object between the check and the rest of the
    getter, the getter still gives its own object, not the one that is kept: what is
    assigned through it is not seen by later reads. *)
Lemma headers_race (r : Response) (h0 h1 h2 : heap) (self1 self2 : PyResponse) (l1 l2 : positive) :
  headers_check (wrap r) = None → headers_make (wrap r) h0 = (l1, self1, h1) →
  headers_make self1 h1 = (l2, self2, h2) →
  l2 ≠ l1 ∧ ∀ h, headers_ self2 h = (l1, self2, h).
Proof.
  intros _ E1 E2. unfold headers_make, wrap in *. cbn in *. injection E1 as <- <- <-. cbn in E2.
  injection E2 as <- <- <-. split; [|done]. intros Heq.
  pose proof (is_fresh (dom (<[fresh (dom (h_headers h0)) := from_list (headers r)]> (h_headers h0)))) as Hf.
  rewrite Heq in Hf. apply Hf. rewrite dom_insert. set_solver.
Qed.

(** [elapsed] is [elapsed_ms] below 2^31 ms (24.8 days), and negative just above. *)
Lemma elapsed_exact self : 0 ≤ elapsed_ms (inner self) < 2 ^ 31 →
  (elapsed self).1 * 1000000 + (elapsed self).2 = elapsed_ms (inner self) * 1000 ∧ 0 ≤ (elapsed self).2 < 1000000.
Proof.
  intros Hm. unfold elapsed, as_i32. rewrite u32_small by lia. rewrite (proj2 (Z.ltb_lt _ _)) by lia. cbn [fst snd].
  pose proof (Z.quot_rem' (elapsed_ms (inner self)) 1000). pose proof (Z.rem_bound_pos (elapsed_ms (inner self)) 1000). lia.
Qed.

(** [raise_for_status] raises exactly for 400 to 599, which [is_success] never covers;
    below 200 and from 600 on neither does. *)
Lemma raise_for_status_spec self :
  (raise_for_status self = Ok tt ↔ ¬ 400 ≤ status (inner self) < 600) ∧
  (is_success (inner self) = true → raise_for_status self = Ok tt).
Proof.
  unfold raise_for_status, is_success. repeat case_match; split; try split; intros; try done; lia.
Qed.
End properties.

Definition sample_response : Response :=
  mkResponse (bs "http://h/") 200 [(bs "A", bs "1")] [] 0 [] None None (bs "http://h/") (bs "GET") [] None None None None None.

Lemma response_views_witness :
  let us := [OnHeaders 1 (HSet (bs "x") (bs "y")); GetHeaders] in
  exists self h1 lh lq, run (λ b, b) (λ b, b) (λ _, 0) (λ _, Panic) (wrap sample_response, mkHeap ∅ ∅) [GetHeaders; GetRequest] =
    ([SeenHeaders lh; SeenRequest lq], (self, h1)) /\
  (run (λ b, b) (λ b, b) (λ _, 0) (λ _, Panic) (self, h1) us).1 = [SeenNothing; SeenHeaders lh].
Proof.
  intros us. eexists _, _, _, _. split; [cbn; reflexivity|].
  refine (proj1 (proj2 (proj2 (response_views (λ b, b) (λ b, b) (λ _, 0) (λ _, Panic) sample_response (mkHeap ∅ ∅) _ _ _ _ us _ _)))).
  - split_and!; done.
  - cbn. reflexivity.
Defined.
