(* ===== verification/Json.v ===== *)
(** * JSON output (the Serialize impls of src/response.rs)

    A response as a JSON value, field by field, and the schema every response meets.
    serde_json's values are modelled as data; its printer is a parameter of [Cli]. *)
From stdpp Require Import gmap.
From S2P Require Import Prelude RustStd Utf8 Response PyResponses.

(** [serde_json::Value]; an object's entries are those of its map. *)
Inductive json :=
  | JNull
  | JBool (b : bool)
  | JNum (z : Z)
  | JStr (s : bytes)
  | JArr (l : list json)
  | JObj (entries : list (bytes * json)).

(** ** Digests *)

(** [{:02x}] of each byte; nothing when OpenSSL fails. *)
Definition hex_byte (b : Z) : bytes := map (λ x, if x <? 10 then 48 + x else 87 + x) [Z.div b 16; Z.modulo b 16].
Definition hex_digest (digest : option bytes) : bytes := concat (map hex_byte (default [] digest)).

Section digests.
(** The hash functions of openssl and murmur3, which may fail. *)
Context (md5_digest sha256_digest : bytes → option bytes) (murmur3_32 : bytes → option Z).

Definition md5_hex (data : bytes) : bytes := hex_digest (md5_digest data).
Definition sha256_hex (data : bytes) : bytes := hex_digest (sha256_digest data).
Definition mmh3_32 (data : bytes) : Z := as_i32 (default 0 (murmur3_32 data)).

(** ** Serialization *)

Definition json_option {A} (f : A → json) (o : option A) : json := match o with Some a => f a | None => JNull end.
(** [skip_serializing_if], and [skip_field]. *)
Definition json_field {A} (k : bytes) (f : A → json) (o : option A) : list (bytes * json) :=
  match o with Some a => [(k, f a)] | None => [] end.

Definition serialize_hop (h : RedirectHop) : json :=
  JObj ([(bs "url", JStr (hop_url h)); (bs "status", JNum (hop_status h))] ++ json_field (bs "peer_ip") JStr (hop_peer_ip h)).

Definition serialize_cert (c : CertInfo) : json :=
  JObj [(bs "common_name", json_option JStr (common_name c));
        (bs "sans", JArr (map JStr (sans c)));
        (bs "emails", JArr (map JStr (emails c)));
        (bs "issuer", json_option JStr (issuer c));
        (bs "not_before", json_option JStr (not_before c));
        (bs "not_after", json_option JStr (not_after c));
        (bs "fingerprint_sha256", json_option JStr (fingerprint_sha256 c))].

Definition serialize_hash (h : ResponseHash) : json :=
  JObj [(bs "body_md5", JStr (body_md5 h)); (bs "body_mmh3", JNum (body_mmh3 h));
        (bs "body_sha256", JStr (body_sha256 h)); (bs "header_md5", JStr (header_md5 h));
        (bs "header_mmh3", JNum (header_mmh3 h)); (bs "header_sha256", JStr (header_sha256 h))].

(** The value, and the response with its caches filled. *)
Definition serialize (r : Response) : json * Response :=
  let '(b, r) := body r in
  let '(raw, r) := raw_headers r in
  let '(c, r) := cookies r in
  let '(h, r) := hash md5_hex sha256_hex mmh3_32 r in
  (JObj ([(bs "url", JStr (url r));
          (bs "status", JNum (status r));
          (bs "headers", JArr (map (λ h, JArr [JStr h.1; JStr h.2]) (headers r)));
          (bs "body", JStr b);
          (bs "raw_headers", JStr raw);
          (bs "cookies", JObj (map (λ kv, (kv.1, JStr kv.2)) (map_to_list c)));
          (bs "hash", serialize_hash h);
          (bs "elapsed_ms", JNum (elapsed_ms r));
          (bs "redirect_chain", JArr (map serialize_hop (redirect_chain r)))]
         ++ json_field (bs "cert_info") serialize_cert (cert_info r)
         ++ json_field (bs "peer_ip") JStr (peer_ip r)
         ++ [(bs "request_url", JStr (request_url r)); (bs "request_method", JStr (request_method r))]
         ++ json_field (bs "decode_error") JStr (decode_error r)), r).
End digests.

(** [obj.remove(key)] and [obj.get(key)]. *)
Definition json_remove (key : bytes) (v : json) : json :=
  match v with
  | JObj entries => JObj (List.filter (λ e, negb (bool_decide (e.1 = key))) entries)
  | _ => v
  end.
Fixpoint entry (key : bytes) (entries : list (bytes * json)) : option json :=
  match entries with
  | [] => None
  | (k, v) :: entries => if bool_decide (k = key) then Some v else entry key entries
  end.
Definition json_get (key : bytes) (v : json) : option json :=
  match v with JObj entries => entry key entries | _ => None end.
Definition json_keys (v : json) : list bytes := match v with JObj entries => entries.*1 | _ => [] end.

(** ** Schemas *)

Inductive ty :=
  | TString
  | TInt (lo hi : Z)
  | TOption (t : ty)
  | TList (t : ty)
  | TPair (a b : ty)
  | TMap (t : ty)
  | TStruct (fields : list (bytes * bool * ty)).   (* name, whether required, type *)

Inductive has_type : json → ty → Prop :=
  | ht_string s : has_type (JStr s) TString
  | ht_int z lo hi : lo ≤ z ≤ hi → has_type (JNum z) (TInt lo hi)
  | ht_null t : has_type JNull (TOption t)
  | ht_some v t : has_type v t → has_type v (TOption t)
  | ht_list l t : Forall (λ v, has_type v t) l → has_type (JArr l) (TList t)
  | ht_pair v w a b : has_type v a → has_type w b → has_type (JArr [v; w]) (TPair a b)
  | ht_map l t : NoDup l.*1 → Forall (λ e, has_type e.2 t) l → has_type (JObj l) (TMap t)
  | ht_struct l fs : fields_typed l fs → has_type (JObj l) (TStruct fs)
with fields_typed : list (bytes * json) → list (bytes * bool * ty) → Prop :=
  | ft_nil : fields_typed [] []
  | ft_field k v req t l fs : has_type v t → fields_typed l fs → fields_typed ((k, v) :: l) ((k, req, t) :: fs)
  | ft_skip k t l fs : fields_typed l fs → fields_typed l ((k, false, t) :: fs).

Create HintDb typing discriminated.
#[export] Hint Constants Opaque : typing.
#[export] Hint Resolve ht_string ht_null ht_some ht_list ht_pair ht_map ht_struct ft_nil ft_field ft_skip : typing.

Definition t_u16 : ty := TInt 0 u16_max.
Definition t_i32 : ty := TInt (- 2 ^ 31) (2 ^ 31 - 1).
Definition t_u64 : ty := TInt 0 u64_max.
Definition t_hop : ty := TStruct [(bs "url", true, TString); (bs "status", true, t_u16); (bs "peer_ip", false, TString)].
Definition t_cert : ty :=
  TStruct [(bs "common_name", true, TOption TString); (bs "sans", true, TList TString); (bs "emails", true, TList TString);
           (bs "issuer", true, TOption TString); (bs "not_before", true, TOption TString);
           (bs "not_after", true, TOption TString); (bs "fingerprint_sha256", true, TOption TString)].
Definition t_hash : ty :=
  TStruct [(bs "body_md5", true, TString); (bs "body_mmh3", true, t_i32); (bs "body_sha256", true, TString);
           (bs "header_md5", true, TString); (bs "header_mmh3", true, t_i32); (bs "header_sha256", true, TString)].
Definition t_response : ty :=
  TStruct [(bs "url", true, TString); (bs "status", true, t_u16); (bs "headers", true, TList (TPair TString TString));
           (bs "body", true, TString); (bs "raw_headers", true, TString); (bs "cookies", true, TMap TString);
           (bs "hash", true, t_hash); (bs "elapsed_ms", true, t_u64); (bs "redirect_chain", true, TList t_hop);
           (bs "cert_info", false, t_cert); (bs "peer_ip", false, TString); (bs "request_url", true, TString);
           (bs "request_method", true, TString); (bs "decode_error", false, TString)].

(** ** Typing *)

(** The Rust types of the integer fields. *)
Definition wf_response (r : Response) : Prop :=
  0 ≤ status r ≤ u16_max ∧ 0 ≤ elapsed_ms r ≤ u64_max ∧ Forall (λ h, 0 ≤ hop_status h ≤ u16_max) (redirect_chain r).

Lemma as_i32_range x : - 2 ^ 31 ≤ as_i32 x ≤ 2 ^ 31 - 1.
Proof. unfold as_i32. pose proof (u32_range x). case_match; lia. Qed.

Lemma fields_optional {A} k (f : A → json) o t l fs :
  (∀ a, o = Some a → has_type (f a) t) → fields_typed l fs → fields_typed (json_field k f o ++ l) ((k, false, t) :: fs).
Proof. destruct o as [a|]; cbn; intros Ht Hl; auto with typing. Qed.
Lemma fields_optional_last {A} k (f : A → json) o t :
  (∀ a, o = Some a → has_type (f a) t) → fields_typed (json_field k f o) [(k, false, t)].
Proof. intros Ht. rewrite <- (app_nil_r (json_field _ _ _)). apply fields_optional; auto with typing. Qed.
Lemma option_typed {A} (f : A → json) o t : (∀ a, has_type (f a) t) → has_type (json_option f o) (TOption t).
Proof. destruct o; cbn; auto with typing. Qed.
Lemma strings_typed l : has_type (JArr (map JStr l)) (TList TString).
Proof. apply ht_list, Forall_map, Forall_true. auto with typing. Qed.
#[export] Hint Resolve fields_optional fields_optional_last option_typed strings_typed : typing.

Lemma serialize_cert_typed c : has_type (serialize_cert c) t_cert.
Proof. apply ht_struct. auto 20 with typing. Qed.
Lemma serialize_hop_typed h : 0 ≤ hop_status h ≤ u16_max → has_type (serialize_hop h) t_hop.
Proof. intros Hs. apply ht_struct. apply ft_field; [auto with typing|]. apply ft_field; [by constructor|]. auto with typing. Qed.

Section digests.
Context (md5_digest sha256_digest : bytes → option bytes) (murmur3_32 : bytes → option Z).
Abbreviation serialize := (serialize md5_digest sha256_digest murmur3_32).
Abbreviation caches_ok := (caches_ok (md5_hex md5_digest) (sha256_hex sha256_digest) (mmh3_32 murmur3_32)).

Lemma serialize_hash_typed b h : has_type (serialize_hash
  (compute (md5_hex md5_digest) (sha256_hex sha256_digest) (mmh3_32 murmur3_32) b h)) t_hash.
Proof.
  apply ht_struct. repeat (apply ft_field; [first [apply ht_string|apply ht_int, as_i32_range]|]). auto with typing.
Qed.

(** The object that is written, in terms of what the response means. *)
Definition response_fields (r : Response) : list (bytes * json) :=
  [(bs "url", JStr (url r));
   (bs "status", JNum (status r));
   (bs "headers", JArr (map (λ h, JArr [JStr h.1; JStr h.2]) (headers r)));
   (bs "body", JStr (from_utf8_lossy (body_bytes r)));
   (bs "raw_headers", JStr (build_raw_headers (headers r)));
   (bs "cookies", JObj (map (λ kv, (kv.1, JStr kv.2)) (map_to_list (parse_set_cookies (headers r)))));
   (bs "hash", serialize_hash (compute (md5_hex md5_digest) (sha256_hex sha256_digest) (mmh3_32 murmur3_32)
                                 (body_bytes r) (build_raw_headers (headers r))));
   (bs "elapsed_ms", JNum (elapsed_ms r));
   (bs "redirect_chain", JArr (map serialize_hop (redirect_chain r)))]
  ++ json_field (bs "cert_info") serialize_cert (cert_info r)
  ++ json_field (bs "peer_ip") JStr (peer_ip r)
  ++ [(bs "request_url", JStr (request_url r)); (bs "request_method", JStr (request_method r))]
  ++ json_field (bs "decode_error") JStr (decode_error r).

Lemma serialize_eq r : caches_ok r → (serialize r).1 = JObj (response_fields r) ∧ caches_ok (serialize r).2 ∧
  view (md5_hex md5_digest) (sha256_hex sha256_digest) (mmh3_32 murmur3_32) (serialize r).2 =
  view (md5_hex md5_digest) (sha256_hex sha256_digest) (mmh3_32 murmur3_32) r.
Proof.
  intros H0. unfold Json.serialize. pose proof (body_ok _ _ _ r H0) as Eb.
  destruct (caches_ok_step _ _ _ AccBody r H0) as [H1 V1]. cbn [access_step] in H1, V1.
  pose proof (raw_headers_ok _ _ _ _ H1) as Er. destruct (caches_ok_step _ _ _ AccRawHeaders _ H1) as [H2 V2].
  cbn [access_step] in H2, V2.
  pose proof (cookies_ok _ _ _ _ H2) as Ec. destruct (caches_ok_step _ _ _ AccCookies _ H2) as [H3 V3].
  cbn [access_step] in H3, V3.
  pose proof (hash_ok _ _ _ _ H3) as Eh. destruct (caches_ok_step _ _ _ AccHash _ H3) as [H4 V4].
  cbn [access_step] in H4, V4. rewrite V3, V2, V1 in V4.
  split_and!; [|exact H4|exact V4]. cbn [fst]. unfold response_fields. cbn in Eb, Er, Ec, Eh |- *.
  unfold build_raw_headers in *. by rewrite Eb, Ec, Eh, Er.
Qed.

Lemma response_fields_typed r : wf_response r → fields_typed (response_fields r)
  (match t_response with TStruct fs => fs | _ => [] end).
Proof.
  intros (Hs & He & Hh). unfold response_fields. cbn [t_response app].
  repeat (apply ft_field; [first [apply ht_string|by apply ht_int|idtac]|]).
  - apply ht_list, Forall_map, Forall_true. auto with typing.
  - apply ht_map.
    + change (NoDup (((λ kv, (kv.1, JStr kv.2)) <$> map_to_list (parse_set_cookies (headers r))).*1)).
      rewrite <- list_fmap_compose. exact (NoDup_fst_map_to_list _).
    + apply Forall_map, Forall_true. intros x. apply ht_string.
  - apply serialize_hash_typed.
  - apply ht_list, Forall_map. by eapply Forall_impl; [exact Hh|apply serialize_hop_typed].
  - apply fields_optional; [auto using serialize_cert_typed|]. apply fields_optional; [auto with typing|].
    auto with typing.
Qed.

(** What JSON readers find under a key. *)
Definition member (k : bytes) (e : json) (r : Response) : Prop := (k, e) ∈ response_fields r.

Lemma entry_unique k v l : NoDup l.*1 → (k, v) ∈ l → entry k l = Some v.
Proof.
  induction l as [|[k' v'] l IH]; cbn; [by intros _ ?%elem_of_nil|]. intros [Hk Hn]%NoDup_cons [Heq|Hin]%elem_of_cons.
  - injection Heq as -> ->. by rewrite bool_decide_true.
  - rewrite bool_decide_false; [by apply IH|]. intros ->. apply Hk. by apply (list_elem_of_fmap_2 fst) in Hin.
Qed.

Lemma field_keys {A} k (f : A → json) o : (json_field k f o).*1 `sublist_of` [k].
Proof. destruct o; cbn; [done|apply sublist_nil_l]. Qed.

Definition response_keys : list bytes :=
  map bs ["url"; "status"; "headers"; "body"; "raw_headers"; "cookies"; "hash"; "elapsed_ms"; "redirect_chain";
          "cert_info"; "peer_ip"; "request_url"; "request_method"; "decode_error"]%string.

Lemma response_fields_keys r : (response_fields r).*1 `sublist_of` response_keys.
Proof.
  unfold response_fields, response_keys. rewrite !fmap_app.
  change (map bs _) with (map bs ["url"; "status"; "headers"; "body"; "raw_headers"; "cookies"; "hash"; "elapsed_ms"; "redirect_chain"]%string
    ++ [bs "cert_info"] ++ [bs "peer_ip"] ++ map bs ["request_url"; "request_method"]%string ++ [bs "decode_error"]).
  do 4 (apply sublist_app; [first [apply field_keys|reflexivity]|]). apply field_keys.
Qed.

Lemma response_keys_nodup : NoDup response_keys.
Proof. refine (bool_decide_unpack _ _). vm_compute. exact I. Qed.

(** C31: the JSON form of a response always meets one schema: every field has its
    type, integers are within the width of their Rust type (the murmur hash is signed),
    [cert_info], [peer_ip] and [decode_error] are absent when there is none, no key
    comes twice, and there are at most 14 of them.  The body is the lossy text, the
    hashes are those of the bytes and of the header text, whichever caches were filled
    before; the bytes of the body and the debug log are not written. *)
Theorem response_json_typed (r : Response) : caches_ok r → wf_response r →
  let '(v, r') := serialize r in
  has_type v t_response ∧ NoDup (json_keys v) ∧ 11 ≤ zlen (json_keys v) ≤ 14 ∧
  (∀ k e, (k, e) ∈ response_fields r → json_get k v = Some e) ∧
  (json_get (bs "cert_info") v = None ↔ cert_info r = None) ∧
  (json_get (bs "peer_ip") v = None ↔ peer_ip r = None) ∧
  (json_get (bs "decode_error") v = None ↔ decode_error r = None) ∧
  json_get (bs "body_bytes") v = None ∧ json_get (bs "debug_log") v = None ∧
  caches_ok r' ∧ (serialize r').1 = v.
Proof.
  intros Hc Hw. destruct (serialize_eq r Hc) as (Hv & Hc' & Hview).
  destruct (serialize r) as [v r'] eqn:E. cbn [fst snd] in *. subst v.
  pose proof (sublist_NoDup _ _ response_keys_nodup (response_fields_keys r)) as Hn.
  split_and!; try done.
  - apply ht_struct, response_fields_typed, Hw.
  - unfold zlen. cbn. destruct (cert_info r), (peer_ip r), (decode_error r); cbn; lia.
  - unfold zlen. cbn. destruct (cert_info r), (peer_ip r), (decode_error r); cbn; lia.
  - intros k e. cbn. by apply entry_unique.
  - cbn. destruct (cert_info r), (peer_ip r), (decode_error r); by split.
  - cbn. destruct (cert_info r), (peer_ip r), (decode_error r); by split.
  - cbn. destruct (cert_info r), (peer_ip r), (decode_error r); by split.
  - cbn. by destruct (cert_info r), (peer_ip r), (decode_error r).
  - cbn. by destruct (cert_info r), (peer_ip r), (decode_error r).
  - destruct (serialize_eq r' Hc') as (-> & _). f_equal.
    replace r' with (serialize r).2 by by rewrite E. done.
Qed.
End digests.

(** A response with every optional field: 14 of them, where [serialize_struct] announces
    13. *)
Definition full_response : Response :=
  mkResponse (bs "http://h/") 200 [(bs "A", bs "1")] [104; 105] 5 [mkHop (bs "http://g/") 302 None]
    (Some (mkCert None [] [] None None None None)) (Some (bs "1.2.3.4")) (bs "http://g/") (bs "GET") [] (Some (bs "x"))
    None None None None.

Lemma response_json_typed_witness :
  has_type (serialize (λ _, Some [10; 255]) (λ _, None) (λ _, Some (2 ^ 32 - 1)) full_response).1 t_response /\
  zlen (json_keys (serialize (λ _, Some [10; 255]) (λ _, None) (λ _, Some (2 ^ 32 - 1)) full_response).1) = 14.
Proof.
  pose proof (response_json_typed (λ _, Some [10; 255]) (λ _, None) (λ _, Some (2 ^ 32 - 1)) full_response) as Hr.
  split; [|vm_compute; reflexivity].
  destruct (serialize _ _ _ full_response) as [v r']. apply Hr.
  - split_and!; done.
  - unfold wf_response. cbn. split_and!; try done. constructor; [|constructor]. cbn. done.
Defined.
