(* ===== verification/Cli.v ===== *)
(** * The command line (src/main.rs)

    From the parsed arguments to what is printed and the exit code.  clap's parser,
    the file system and serde_json's printer are parameters; the client is an
    interface ([CliClient]) that the real client implements ([cli_hyper]). *)
From S2P Require Import Prelude RustStd ClientError Uri Config Batch Dispatch.
From S2P Require Import Wire Decompress Request Conn SharedCache Client Send SendLog.
From S2P Require Import Json.
From S2P Require Response Cookies RequestProps DecompressProps SendExamples.

Abbreviation Response := Response.Response.

Record Cli := mkCli {
  cli_url : option bytes;
  cli_method : bytes;
  cli_headers : list bytes;
  cli_data : option bytes;
  cli_file : option bytes;
  cli_concurrency : Z;
  cli_rate_limit : option f64;
  cli_verify : bool;
  cli_max_body_size : option Z;
  cli_follow_redirects : bool;
  cli_max_redirects : Z;
  cli_no_redirect_cookies : bool;
  cli_timeout : option Z;
  cli_proxy : option bytes;
  cli_no_proxy : list bytes;
  cli_ciphers : option bytes;
  cli_min_tls : option bytes;
  cli_max_tls : option bytes;
  cli_verbose : Z
}.

(** ** Configurations *)

Definition parse_header (s : bytes) : option (bytes * bytes) :=
  '(name, value) ← split_once (ch ":") s;
  Some (trim name, trim value).

Definition build_config (cli : Cli) (url : bytes) : RequestConfig :=
  let c := RequestConfig_new url in
  mkConfig (cfg_url c) (Some (cli_method cli))
    (if bool_decide (cli_headers cli = []) then cfg_headers c else Some (omap parse_header (cli_headers cli)))
    (cli_data cli) (cli_timeout cli) (cli_max_body_size cli) (Some (cli_follow_redirects cli))
    (Some (cli_max_redirects cli)) (Some (negb (cli_no_redirect_cookies cli))) (Some (cli_verify cli)) (cli_proxy cli)
    (cli_no_proxy cli) (cli_ciphers cli) (cli_min_tls cli) (cli_max_tls cli) (retries c) (retry_wait_min_ms c)
    (retry_wait_max_ms c) (raw_path c) (request_target c) (resolve_ip c) (alpn_protocols c) (cli_verbose cli).

(** What the options ask for: each [-H] text gives a header of what is before and after
    its first colon, trimmed, and one without a colon none; what has no option is left to
    its default. *)
Inductive asked_headers : list bytes → list (bytes * bytes) → Prop :=
  | asked_none : asked_headers [] []
  | asked_no_colon t ts hs : ch ":" ∉ t → asked_headers ts hs → asked_headers (t :: ts) hs
  | asked_header name value ts hs : ch ":" ∉ name → asked_headers ts hs →
      asked_headers ((name ++ ch ":" :: value) :: ts) ((trim name, trim value) :: hs).

Definition asked (cli : Cli) (url : bytes) (c : RequestConfig) : Prop :=
  cfg_url c = url ∧ method c = cli_method cli ∧ cfg_body c = cli_data cli ∧
  asked_headers (cli_headers cli) (default [] (cfg_headers c)) ∧
  timeout_seconds c = cli_timeout cli ∧ max_body_size c = cli_max_body_size cli ∧
  should_follow_redirects c = cli_follow_redirects cli ∧ redirect_limit c = cli_max_redirects cli ∧
  should_forward_redirect_cookies c = negb (cli_no_redirect_cookies cli) ∧
  should_verify_certs c = cli_verify cli ∧ proxy c = cli_proxy cli ∧ no_proxy c = cli_no_proxy cli ∧
  cipher_string c = cli_ciphers cli ∧ min_tls_version c = cli_min_tls cli ∧ max_tls_version c = cli_max_tls cli ∧
  verbosity c = cli_verbose cli ∧
  retries c = None ∧ retry_wait_min_ms c = None ∧ retry_wait_max_ms c = None ∧ raw_path c = None ∧
  request_target c = None ∧ resolve_ip c = None ∧ alpn_protocols c = None.

Lemma parse_headers_asked ts : asked_headers ts (omap parse_header ts).
Proof.
  induction ts as [|t ts IH]; [constructor|]. cbn. unfold parse_header at 1. destruct (split_once (ch ":") t) as [[a b]|] eqn:E; cbn.
  - apply split_once_spec in E as [-> Ha]. by constructor.
  - apply split_once_none in E. by constructor.
Qed.

Lemma build_config_asked cli url : asked cli url (build_config cli url).
Proof.
  split_and!; try done. cbn [cfg_headers build_config]. case_bool_decide as Hh; [rewrite Hh; constructor|].
  apply parse_headers_asked.
Qed.

(** [str::lines]: split after each LF, without a CR before it; a last empty piece is
    not a line. *)
Definition strip_cr (l : bytes) : bytes := default l (strip_suffix l [13]).
Definition lines (s : bytes) : list bytes :=
  match rev (split 10 s) with
  | last :: before => map strip_cr (rev before) ++ (if bool_decide (last = []) then [] else [last])
  | [] => []
  end.

Definition batch_urls (content : bytes) : list bytes :=
  List.filter (λ l, negb (bool_decide (l = [])) && negb (starts_with l (bs "#"))) (map trim (lines content)).

(** The lines of a text, each ended by LF or CR LF, but perhaps the last one. *)
Inductive file_lines : bytes → list bytes → Prop :=
  | lines_end : file_lines [] []
  | lines_last l : l ≠ [] → 10 ∉ l → file_lines l [l]
  | lines_lf l rest ls : 10 ∉ l → last l ≠ Some 13 → file_lines rest ls → file_lines (l ++ 10 :: rest) (l :: ls)
  | lines_crlf l rest ls : 10 ∉ l → file_lines rest ls → file_lines (l ++ 13 :: 10 :: rest) (l :: ls).

(** The URLs among them: trimmed, not empty and not a comment. *)
Inductive listed_urls : list bytes → list bytes → Prop :=
  | no_urls : listed_urls [] []
  | skipped l ls urls : trim l = [] ∨ head (trim l) = Some (ch "#") → listed_urls ls urls → listed_urls (l :: ls) urls
  | taken l ls urls : trim l ≠ [] → head (trim l) ≠ Some (ch "#") → listed_urls ls urls →
      listed_urls (l :: ls) (trim l :: urls).

Lemma lines_cons l rest : 10 ∉ l → lines (l ++ 10 :: rest) = strip_cr l :: lines rest.
Proof.
  intros Hl. unfold lines. rewrite DecompressProps.split_sep by done. cbn [rev].
  destruct (rev (split 10 rest)) as [|x before] eqn:E.
  - apply (f_equal (@rev _)) in E. rewrite rev_involutive in E. destruct (split_cons 10 rest) as (? & ? & Hs). cbn in E. congruence.
  - cbn [app]. rewrite rev_app_distr. done.
Qed.

Lemma strip_cr_end l : strip_cr (l ++ [13]) = l.
Proof.
  unfold strip_cr, strip_suffix. rewrite (proj2 (ends_with_spec (l ++ [13]) [13])) by (by exists l).
  cbn [default]. rewrite length_app. cbn. by rewrite Nat.add_sub, take_app_length.
Qed.
Lemma strip_cr_none l : last l ≠ Some 13 → strip_cr l = l.
Proof.
  intros Hl. unfold strip_cr, strip_suffix. destruct (ends_with l [13]) eqn:E; [|done].
  apply ends_with_spec in E as [k ->]. by rewrite last_snoc in Hl.
Qed.

Lemma lines_file s : file_lines s (lines s).
Proof.
  remember (length s) as n eqn:Hn. revert s Hn. induction (lt_wf n) as [n _ IH]. intros s ->.
  destruct (split_once 10 s) as [[l rest]|] eqn:E.
  - apply split_once_spec in E as [-> Hl]. rewrite lines_cons by done.
    assert (file_lines rest (lines rest)) as Hr.
    { eapply IH; [|reflexivity]. rewrite length_app. cbn. lia. }
    destruct (decide (last l = Some 13)) as [H13|H13].
    + apply last_Some in H13 as [k ->]. rewrite strip_cr_end, <- (assoc_L (++)). apply lines_crlf; [set_solver|done].
    + rewrite strip_cr_none by done. by apply lines_lf.
  - apply split_once_none in E. unfold lines. rewrite DecompressProps.split_clean by done. cbn.
    case_bool_decide as Hs; [subst; constructor|by constructor].
Qed.

Lemma batch_urls_listed content : listed_urls (lines content) (batch_urls content).
Proof.
  unfold batch_urls. induction (lines content) as [|l ls IH]; [constructor|]. cbn [map List.filter].
  destruct (bool_decide (trim l = [])) eqn:E1; cbn [negb andb].
  { apply bool_decide_eq_true in E1. apply skipped; [by left|done]. }
  apply bool_decide_eq_false in E1. destruct (starts_with (trim l) (bs "#")) eqn:E2; cbn [negb].
  - apply starts_with_spec in E2 as [k Hk]. apply skipped; [right; by rewrite Hk|done].
  - apply taken; [done| |done]. intros Hh. destruct (trim l) as [|x t]; [done|]. injection Hh as ->.
    assert (starts_with (ch "#" :: t) (bs "#") = true); [|congruence]. apply starts_with_spec. by exists t.
Qed.

(** ** Output *)

(** serde_json's printers: the text, or why there is none. *)
Class JsonPrinter := {
  to_string : json → bytes + bytes;
  to_string_pretty : json → bytes + bytes
}.

Inductive output := Stdout (line : bytes) | Stderr (line : bytes).

Section main.
Context `{JsonPrinter} (md5_digest sha256_digest : bytes → option bytes) (murmur3_32 : bytes → option Z).

Definition serialize_response (resp : Response) (verbose : Z) : bytes + bytes :=
  let value := (serialize md5_digest sha256_digest murmur3_32 resp).1 in
  let value := if verbose <? 2 then json_remove (bs "body") value else value in
  if verbose >=? 1 then to_string_pretty value else to_string value.

(** What is printed and the exit code; a panic prints elsewhere and exits with 101. *)
Definition single_output (cli : Cli) (sent : exec ClientError Response) : list output * Z :=
  match sent with
  | Ok response =>
      match serialize_response response (cli_verbose cli) with
      | inr json => ([Stdout json], 0)
      | inl e => ([Stderr (bs "Error serializing response: " ++ e)], 1)
      end
  | Err e => ([Stderr (bs "Error: " ++ message e)], 1)
  | Panic => ([], 101)
  end.

Definition result_output (cli : Cli) (r : BatchResult Response) : list output :=
  match result r with
  | Ok resp => match serialize_response resp (cli_verbose cli) with inr json => [Stdout json] | inl _ => [] end
  | Err e => [Stderr (bs "Error [" ++ Dispatch.url r ++ bs "]: " ++ message e)]
  | Panic => []
  end.

Definition sending (cli : Cli) (n : Z) : output :=
  Stderr (bs "Sending " ++ bs (pretty n) ++ bs " requests (concurrency: " ++ bs (pretty (cli_concurrency cli)) ++ bs ")...").

(** The two runs: what is sent, and what is printed. *)
Inductive command :=
  | Refuse (out : list output)                                         (* exit code 1 *)
  | Single (config : RequestConfig)
  | Batch (banner : output) (configs : list RequestConfig).

Definition run_single (cli : Cli) : exec Empty_set command := url ← unwrap (cli_url cli); Ok (Single (build_config cli url)).

(** [content] is what [read_to_string] gives, or its error. *)
Definition run_batch (cli : Cli) (file_path : bytes) (content : bytes + bytes) : command :=
  match content with
  | inl e => Refuse [Stderr (bs "Error reading " ++ file_path ++ bs ": " ++ e)]
  | inr content =>
      let urls := batch_urls content in
      if bool_decide (urls = []) then Refuse [Stderr (bs "No URLs found in " ++ file_path)]
      else Batch (sending cli (zlen urls)) (map (build_config cli) urls)
  end.

Definition main (cli : Cli) (read_to_string : bytes → bytes + bytes) : exec Empty_set command :=
  if negb (bool_decide (is_Some (cli_url cli))) && negb (bool_decide (is_Some (cli_file cli)))
  then Ok (Refuse [Stderr (bs "Error: provide a URL or use -f <file>")])
  else match cli_file cli with
       | Some file_path => Ok (run_batch cli file_path (read_to_string file_path))
       | None => run_single cli
       end.
End main.

(** ** A whole run *)

(** What the program uses of its client: a call with a configuration, the lines it
    writes to standard error on the way, and how it ends.  The lines are the messages it
    collects, from verbosity 1 on, and a response comes with them and with nothing cached. *)
Class CliClient := {
  cli_sends : RequestConfig → list bytes → exec ClientError Response → Prop;
  cli_sends_lines config lines o : cli_sends config lines o →
    ∃ msgs, lines = echoed config.(verbosity) msgs ∧ ∀ r, o = Ok r → Response.debug_log r = msgs;
  cli_sends_fresh config lines r : cli_sends config lines (Ok r) →
    Response.body_cache r = None ∧ Response.raw_headers_cache r = None ∧
    Response.cookies_cache r = None ∧ Response.hash_cache r = None
}.

(** Lists taken apart in turns, each from its front. *)
Inductive interleaved {A} : list (list A) → list A → Prop :=
  | interleaved_done ls : Forall (λ l, l = []) ls → interleaved ls []
  | interleaved_take ls1 x l ls2 out :
      interleaved (ls1 ++ l :: ls2) out → interleaved (ls1 ++ (x :: l) :: ls2) (x :: out).

Section runs.
Context `{JsonPrinter} (md5_digest sha256_digest : bytes → option bytes) (murmur3_32 : bytes → option Z).
Context `{CliClient} (task_panicked : bytes).

#[local] Instance cli_client : HttpClient RequestConfig Response :=
  { url_of := cfg_url; sends config o := ∃ lines, cli_sends config lines o }.

Abbreviation single_output := (single_output md5_digest sha256_digest murmur3_32).
Abbreviation result_output := (result_output md5_digest sha256_digest murmur3_32).

(** The lines of a finished task. *)
Definition task_lines (t : RequestConfig * task) (lines : list bytes) : Prop :=
  match t.2 with Finished o => cli_sends t.1 lines o | _ => False end.

(** What is printed, in order, and the exit code: the client's lines first, those of a
    batch's requests in any interleaving, then the results.  (The text of a panic, which
    Rust's runtime prints, is not included.) *)
Inductive runs (cli : Cli) : command → list output → Z → Prop :=
  | runs_refuse out : runs cli (Refuse out) out 1
  | runs_single config lines o : cli_sends config lines o →
      runs cli (Single config) (map Stderr lines ++ (single_output cli o).1) (single_output cli o).2
  | runs_batch banner configs picked s results logs printed :
      merge_limiters None (cli_rate_limit cli) = Ok picked →
      send_batch_reach configs (cli_concurrency cli) s → send_batch_results task_panicked s = Some results →
      Forall2 task_lines s.(tasks) logs → interleaved logs printed →
      runs cli (Batch banner configs) (banner :: map Stderr printed ++ concat (map (result_output cli) results)) 0
  | runs_batch_panic banner configs :
      merge_limiters None (cli_rate_limit cli) = Panic → runs cli (Batch banner configs) [banner] 101.

(** The value that is printed for a response: its fields in their order, the body's
    only from verbosity 2 on, with the bytes as text. *)
Definition printed_value (verbose : Z) (resp : Response) (v : json) : Prop :=
  ∃ fields, v = JObj fields ∧
    fields `sublist_of` response_fields md5_digest sha256_digest murmur3_32 resp ∧
    (∀ e, e ∈ response_fields md5_digest sha256_digest murmur3_32 resp → (e ∈ fields ↔ (e.1 = bs "body" → 2 ≤ verbose))) ∧
    entry (bs "body") fields =
      if 2 <=? verbose then Some (JStr (Utf8.from_utf8_lossy (Response.body_bytes resp))) else None.

(** serde_json's text of that value, pretty from verbosity 1 on, or its error. *)
Definition response_text (verbose : Z) (resp : Response) (r : bytes + bytes) : Prop :=
  ∃ v, printed_value verbose resp v ∧ r = if 1 <=? verbose then to_string_pretty v else to_string v.

(** The lines of one call. *)
Definition said (verbose : Z) (lines : list bytes) (o : exec ClientError Response) : Prop :=
  (verbose < 1 → lines = []) ∧
  (1 ≤ verbose → ∃ msgs, lines = map (app (bs "[blasthttp] ")) msgs ∧ ∀ r, o = Ok r → Response.debug_log r = msgs).

(** What one URL of a batch adds to the results. *)
Definition batch_printed (verbose : Z) (url : bytes) (o : exec ClientError Response) (out : list output) : Prop :=
  match o with
  | Ok resp => ∃ r, response_text verbose resp r ∧ out = match r with inr json => [Stdout json] | inl _ => [] end
  | Err e => out = [Stderr (bs "Error [" ++ url ++ bs "]: " ++ message e)]
  | Panic => out = [Stderr (bs "Error [<unknown>]: " ++ task_panicked)]
  end.

(** ** Lemmas *)

Lemma fresh_caches_ok (r : Response) :
  Response.body_cache r = None → Response.raw_headers_cache r = None → Response.cookies_cache r = None →
  Response.hash_cache r = None →
  Response.caches_ok (md5_hex md5_digest) (sha256_hex sha256_digest) (mmh3_32 murmur3_32) r.
Proof. intros H1 H2 H3 H4. split_and!; intros ?; congruence. Qed.

Lemma filter_sublist_of {A} (f : A → bool) (l : list A) : List.filter f l `sublist_of` l.
Proof. induction l as [|x l IH]; cbn; [done|]. destruct (f x); by constructor. Qed.
Lemma filter_all {A} (l : list A) : List.filter (λ _, true) l = l.
Proof. induction l as [|e l IH]; [done|]. cbn. by rewrite IH. Qed.
Lemma entry_filtered key (l : list (bytes * json)) : entry key (List.filter (λ e, negb (bool_decide (e.1 = key))) l) = None.
Proof.
  induction l as [|[k v] l IH]; [done|]. cbn. destruct (bool_decide (k = key)) eqn:E; cbn; [done|by rewrite E].
Qed.

Lemma serialize_response_text resp verbose :
  Response.caches_ok (md5_hex md5_digest) (sha256_hex sha256_digest) (mmh3_32 murmur3_32) resp →
  response_text verbose resp (serialize_response md5_digest sha256_digest murmur3_32 resp verbose).
Proof.
  intros Hc. unfold serialize_response.
  destruct (serialize_eq md5_digest sha256_digest murmur3_32 resp Hc) as (-> & _). unfold json_remove.
  set (fields := response_fields _ _ _ resp).
  assert (verbose <? 2 = negb (2 <=? verbose)) as -> by apply Z.ltb_antisym.
  assert (verbose >=? 1 = (1 <=? verbose)) as -> by apply Z.geb_leb.
  eexists. split; [|reflexivity]. destruct (Z.leb_spec 2 verbose) as [Hv|Hv]; cbn [negb].
  - exists fields. split_and!; [done..| |].
    + intros e He. tauto.
    + by destruct (Z.leb_spec 2 verbose); [|lia].
  - eexists. split_and!; [reflexivity|apply filter_sublist_of| |].
    + intros e He. rewrite !list_elem_of_In, filter_In, <- list_elem_of_In. destruct (bool_decide_reflect (e.1 = bs "body")); cbn.
      * split; [by intros []|intros Hb; specialize (Hb e0); lia].
      * by split.
    + destruct (Z.leb_spec 2 verbose); [lia|]. apply entry_filtered.
Qed.

Lemma sent_text config lines resp verbose : cli_sends config lines (Ok resp) →
  response_text verbose resp (serialize_response md5_digest sha256_digest murmur3_32 resp verbose).
Proof.
  intros Hs. destruct (cli_sends_fresh _ _ _ Hs) as (? & ? & ? & ?). by apply serialize_response_text, fresh_caches_ok.
Qed.

Lemma sent_said cli url lines o : cli_sends (build_config cli url) lines o → said (cli_verbose cli) lines o.
Proof.
  intros Hs. destruct (cli_sends_lines _ _ _ Hs) as (msgs & -> & Hr). cbn [verbosity build_config]. unfold echoed. split; intros Hv.
  - by destruct (Z.leb_spec 1 (cli_verbose cli)); [lia|].
  - destruct (Z.leb_spec 1 (cli_verbose cli)); [|lia]. by exists msgs.
Qed.

Lemma sent_entry cli url lines o : cli_sends (build_config cli url) lines o →
  batch_printed (cli_verbose cli) url o
    (result_output cli (join_result task_panicked (build_config cli url, Finished o))).
Proof.
  intros Hs. destruct o as [resp|e|]; [|done..]. eexists. split; [by eapply sent_text|].
  unfold Cli.result_output. cbn. by destruct (serialize_response _ _ _ _ _).
Qed.

(** What one URL's call gave: its lines, its outcome, what is printed for it. *)
Definition url_ran (cli : Cli) (url : bytes) (x : list bytes * exec ClientError Response * list output) : Prop :=
  let '(lines, o, out) := x in
  (∃ config, asked cli url config ∧ cli_sends config lines o) ∧ said (cli_verbose cli) lines o ∧
  batch_printed (cli_verbose cli) url o out.

(** The tasks of a finished batch, URL by URL. *)
Lemma tasks_ran cli urls l logs : l.*1 = map (build_config cli) urls → Forall2 task_lines l logs →
  ∃ ran, Forall2 (url_ran cli) urls ran ∧ map (fst ∘ fst) ran = logs ∧
    map (result_output cli) (map (join_result task_panicked) l) = map snd ran.
Proof.
  intros Hl Hlogs. revert urls Hl. induction Hlogs as [|[c t] lines l logs Ht _ IH]; intros [|url urls] Hl; try done; [by exists []|].
  cbn in Hl. injection Hl as -> Hl. destruct (IH urls Hl) as (ran & Hran & Hlog & Hout). unfold task_lines in Ht. cbn in Ht.
  destruct t as [| |o]; [done..|].
  exists ((lines, o, result_output cli (join_result task_panicked (build_config cli url, Finished o))) :: ran).
  split_and!; [|cbn; congruence|cbn [map snd]; congruence]. constructor; [|done].
  split_and!; [by eauto using build_config_asked|by eapply sent_said|by eapply sent_entry].
Qed.

(** C32: the program refuses with exit code 1 and a message on standard error when it
    has neither a URL nor a file, cannot read the file, or finds no URL in it. Every
    request is made as the options ask, for its own URL. A single request prints the
    JSON of the response on standard output with exit code 0, or the error on standard
    error with exit code 1. A batch prints a line with the number of requests, and then
    for each URL of the file (trimmed lines that are not empty and not comments), in the
    order of the file, whatever the order of completion, what that URL's own request
    gave: the JSON on standard output, or its error on standard error; it exits with 0
    even if every request failed. Before that, from verbosity 1 on, the requests' debug
    messages go to standard error, each with the prefix [[blasthttp] ]: a request's own
    in their order (for a response they are its [debug_log]), those of a batch's
    requests in some interleaving; at verbosity 0 there are none. Nothing else is
    printed, the text of a panic apart. The JSON has the response's fields,
    pretty-printed from verbosity 1 on, and the body only from verbosity 2 on. (A rate limit
    that the limiter refuses panics, with exit code 101.) *)
Theorem cli_runs (cli : Cli) (read_to_string : bytes → bytes + bytes) (cmd : command) (out : list output) (code : Z) :
  0 ≤ cli_concurrency cli → main cli read_to_string = Ok cmd → runs cli cmd out code →
  match cli_file cli, cli_url cli with
  | None, None => out = [Stderr (bs "Error: provide a URL or use -f <file>")] ∧ code = 1
  | None, Some url => ∃ config lines o result, asked cli url config ∧ cli_sends config lines o ∧
      said (cli_verbose cli) lines o ∧
      out = map Stderr lines ++ result ∧
      match o with
      | Ok resp => ∃ r, response_text (cli_verbose cli) resp r ∧
          match r with
          | inr json => result = [Stdout json] ∧ code = 0
          | inl e => result = [Stderr (bs "Error serializing response: " ++ e)] ∧ code = 1
          end
      | Err e => result = [Stderr (bs "Error: " ++ message e)] ∧ code = 1
      | Panic => result = [] ∧ code = 101
      end
  | Some path, _ =>
      match read_to_string path with
      | inl e => out = [Stderr (bs "Error reading " ++ path ++ bs ": " ++ e)] ∧ code = 1
      | inr content =>
          ∃ ls urls, file_lines content ls ∧ listed_urls ls urls ∧ (
          (urls = [] ∧ out = [Stderr (bs "No URLs found in " ++ path)] ∧ code = 1) ∨
          (urls ≠ [] ∧ code = 0 ∧ ∃ ran printed,
             Forall2 (url_ran cli) urls ran ∧ interleaved (map (fst ∘ fst) ran) printed ∧
             out = sending cli (zlen urls) :: map Stderr printed ++ concat (map snd ran)) ∨
          (urls ≠ [] ∧ code = 101 ∧ merge_limiters None (cli_rate_limit cli) = Panic ∧ out = [sending cli (zlen urls)]))
      end
  end.
Proof.
  intros Hn Hm Hr. unfold main in Hm. destruct (cli_file cli) as [path|] eqn:Ef.
  - replace (negb _ && negb _) with false in Hm by (rewrite (bool_decide_true (is_Some (Some path))) by done; by rewrite andb_false_r).
    injection Hm as <-. unfold run_batch in Hr. destruct (read_to_string path) as [e|content]; [by inversion Hr|].
    exists (lines content), (batch_urls content). split_and!; [apply lines_file|apply batch_urls_listed|].
    cbn zeta in *. case_bool_decide as Hu; [left; by inversion Hr|]. right.
    inversion Hr as [| |? ? picked s results logs printed Hp Hreach Hres Hlogs Hint|? ? Hp]; subst; [left|by right].
    split_and!; [done..|]. pose proof (send_batch_reach_inv _ _ s Hn Hreach) as Hi.
    unfold send_batch_results in Hres. destruct (all_finished s) eqn:Ha; [|done]. injection Hres as <-.
    destruct (final_task _ _ _ Hi Ha) as [Htasks _].
    destruct (tasks_ran cli _ _ _ Htasks Hlogs) as (ran & Hran & <- & ->). by exists ran, printed.
  - destruct (cli_url cli) as [url|] eqn:Eu.
    + cbn in Hm. unfold run_single in Hm. rewrite Eu in Hm. cbn in Hm. injection Hm as <-.
      inversion Hr as [|? lines o Hs| |]; subst. exists (build_config cli url), lines, o, (single_output cli o).1.
      split_and!; [apply build_config_asked|done|by eapply sent_said|done|]. unfold Cli.single_output. destruct o as [resp|e|]; [|done..].
      eexists. split; [by eapply sent_text|]. by destruct (serialize_response _ _ _ resp _).
    + cbn in Hm. injection Hm as <-. by inversion Hr.
Qed.
End runs.

(** ** The real client *)

Section hyper.
Context {R : Type} `{!Read R} `{Headers : !HeaderMap}.
Context (parse_uri : bytes → bytes + Uri) (builder_error : Request → option bytes)
  (refuses : ssl_call → option bytes) (to_str : bytes → option bytes)
  (new_decoder : flavor → bytes → R) (spare : list bytes → Z) (domain_str : bytes → option bytes)
  (lossy debug_lossy : bytes → bytes) (debug_text : option bytes → bytes) (debug_list : list bytes → bytes).

Local Abbreviation call env :=
  (send env parse_uri builder_error refuses to_str new_decoder spare domain_str lossy debug_lossy debug_text debug_list).

(** A call on any network, with a cache that earlier calls left. *)
Definition hyper_sends (config : RequestConfig) (lines : list bytes) (o : exec ClientError Response) : Prop :=
  ∃ env self tr made, cache_steps parse_uri refuses HyperClient_new made self ∧
    (call env config self tr).1 = o ∧ stderr (call env config self tr).2.(log) = lines.

Lemma hyper_lines config lines o : hyper_sends config lines o →
  ∃ msgs, lines = echoed config.(verbosity) msgs ∧ ∀ r, o = Ok r → Response.debug_log r = msgs.
Proof.
  intros (env & self & tr & made & _ & <- & <-). edestruct (send_logs env) as [Hl Hf]. eexists. split; [exact Hl|].
  intros r Hr. by destruct (Hf r Hr).
Qed.

Lemma hyper_fresh config lines r : hyper_sends config lines (Ok r) →
  Response.body_cache r = None ∧ Response.raw_headers_cache r = None ∧
  Response.cookies_cache r = None ∧ Response.hash_cache r = None.
Proof.
  intros (env & self & tr & made & _ & Hr & _). edestruct (send_logs env) as [_ Hf]. by destruct (Hf r Hr).
Qed.

#[export] Instance cli_hyper : CliClient :=
  {| cli_sends := hyper_sends; cli_sends_lines := hyper_lines; cli_sends_fresh := hyper_fresh |}.
End hyper.

(** A run with one URL, verbosely, in the small world of [SendExamples]: the answer is a
    redirect that is not followed. *)
Definition sample_cli : Cli :=
  mkCli (Some (bs "http://a.test/")) (bs "GET") [bs "A: 1"; bs "bad"] None None 50 None false None false 10 false None None []
    None None None 1.
#[local] Instance sample_printer : JsonPrinter :=
  { to_string _ := inr []; to_string_pretty v := inr (Cookies.join (bs ",") (json_keys v)) }.

Example sample_headers : cfg_headers (build_config sample_cli (bs "http://h/")) = Some [(bs "A", bs "1")].
Proof. vm_compute. reflexivity. Qed.
Example sample_urls : batch_urls ([32; 97; 13; 10; 10] ++ bs "#c" ++ [10; 98]) = [[97]; [98]].
Proof. vm_compute. reflexivity. Qed.

#[local] Existing Instances RequestProps.grouped_headers DecompressProps.toy_read.
#[local] Instance sample_client : CliClient :=
  cli_hyper SendExamples.toy_parse (λ _, None) (λ _, None) SendExamples.toy_to_str DecompressProps.toy_decoder (λ _, 2)
    SendExamples.toy_psl (λ b, b) (λ b, b) (λ _, []) (λ _, []).
Definition sample_call : exec ClientError Response * St :=
  send SendExamples.toy_env SendExamples.toy_parse (λ _, None) (λ _, None) SendExamples.toy_to_str DecompressProps.toy_decoder
    (λ _, 2) SendExamples.toy_psl (λ b, b) (λ b, b) (λ _, []) (λ _, [])
    (build_config sample_cli (bs "http://a.test/")) HyperClient_new [].
Definition sample_out : list output * Z :=
  (map Stderr (stderr (log sample_call.2)) ++ (single_output (λ _, None) (λ _, None) (λ _, None) sample_cli sample_call.1).1,
   (single_output (λ _, None) (λ _, None) (λ _, None) sample_cli sample_call.1).2).

Lemma sample_runs : runs (λ _, None) (λ _, None) (λ _, None) (bs "p") sample_cli
  (Single (build_config sample_cli (bs "http://a.test/"))) sample_out.1 sample_out.2.
Proof.
  apply runs_single. exists SendExamples.toy_env, HyperClient_new, [], []. split; [constructor|].
  split; reflexivity.
Qed.

Lemma cli_runs_witness :
  head sample_out.1 = Some (Stderr (bs "[blasthttp] -> GET http://a.test/")) ∧
  last sample_out.1 = Some (Stdout (bs "url,status,headers,raw_headers,cookies,hash,elapsed_ms,redirect_chain,peer_ip,request_url,request_method")) ∧
  sample_out.2 = 0 ∧
  ∃ config lines o result, asked sample_cli (bs "http://a.test/") config ∧ cli_sends config lines o ∧ said 1 lines o ∧
    sample_out.1 = map Stderr lines ++ result ∧
    match o with
    | Ok resp => ∃ r, response_text (λ _, None) (λ _, None) (λ _, None) 1 resp r ∧
        match r with
        | inr json => result = [Stdout json] ∧ sample_out.2 = 0
        | inl e => result = [Stderr (bs "Error serializing response: " ++ e)] ∧ sample_out.2 = 1
        end
    | Err e => result = [Stderr (bs "Error: " ++ message e)] ∧ sample_out.2 = 1
    | Panic => result = [] ∧ sample_out.2 = 101
    end.
Proof.
  split_and!; [vm_compute; reflexivity|vm_compute; reflexivity|vm_compute; reflexivity|].
  exact (cli_runs (λ _, None) (λ _, None) (λ _, None) (bs "p") sample_cli (λ _, inl []) _ _ _
    (proj1 (Z.leb_le 0 50) eq_refl) eq_refl sample_runs).
Defined.
