(* ===== verification/Connector.v ===== *)
(** * The connector in detail (src/client/hyper.rs)

    What [OpenSslConnector::call] does step by step, the certificate summary it takes
    from a finished handshake, and the search for the system's certificates.  OpenSSL,
    the file system and the environment variables are parameters.  [call] implements
    the slot update that [Conn] uses. *)
From stdpp Require Import gmap.
From S2P Require Import Prelude RustStd NetAddr ClientError Uri Config Request Response Json Conn.

(** ** Certificates *)

(** What the code reads of an X.509 certificate: name entries with their kind and text
    (none when it is not convertible), alternative names, validity, digest. *)
Inductive Nid := COMMONNAME | PKCS9_EMAILADDRESS | OtherNid.
#[export] Instance Nid_eq_dec : EqDecision Nid.
Proof. solve_decision. Defined.
Inductive GeneralName := DnsName (s : bytes) | EmailName (s : bytes) | OtherName.
Record X509 := mkX509 {
  subject_name : list (Nid * option bytes);
  issuer_name : list (Nid * option bytes);
  subject_alt_names : option (list GeneralName);
  x_not_before : bytes;
  x_not_after : bytes;
  x_sha256 : option bytes
}.

Definition entries_by_nid (nid : Nid) (name : list (Nid * option bytes)) : list (option bytes) :=
  (List.filter (λ e, bool_decide (e.1 = nid)) name).*2.
Definition dnsname (n : GeneralName) : option bytes := match n with DnsName s => Some s | _ => None end.
Definition email (n : GeneralName) : option bytes := match n with EmailName s => Some s | _ => None end.

(** [if !emails.contains(&s) { emails.push(s) }]. *)
Definition push_new (emails : list bytes) (s : bytes) : list bytes :=
  if bool_decide (s ∈ emails) then emails else emails ++ [s].

Definition cert_emails (cert : X509) : list bytes :=
  let emails := omap id (entries_by_nid PKCS9_EMAILADDRESS (subject_name cert)) in
  let emails := foldl push_new emails (omap id (entries_by_nid PKCS9_EMAILADDRESS (issuer_name cert))) in
  match subject_alt_names cert with
  | Some names => foldl push_new emails (omap email names)
  | None => emails
  end.

Definition fingerprint (digest : bytes) : bytes := joined (bs ":") (map hex_byte digest).

(** [entries_by_nid(COMMONNAME).next().and_then(...)]. *)
Definition name_cn (name : list (Nid * option bytes)) : option bytes :=
  default None (head (entries_by_nid COMMONNAME name)).

Definition cert_info_of (cert : X509) : CertInfo :=
  mkCert (name_cn (subject_name cert)) (omap dnsname (default [] (subject_alt_names cert))) (cert_emails cert)
    (name_cn (issuer_name cert)) (Some (x_not_before cert)) (Some (x_not_after cert))
    (option_map fingerprint (x_sha256 cert)).
Definition extract_cert_info (peer_certificate : option X509) : option CertInfo :=
  option_map cert_info_of peer_certificate.

Lemma push_new_elem l s x : x ∈ push_new l s ↔ x ∈ l ∨ x = s.
Proof. unfold push_new. case_bool_decide; set_solver. Qed.
Lemma push_new_nodup l s : NoDup l → NoDup (push_new l s).
Proof. unfold push_new. case_bool_decide; [done|]. intros. apply NoDup_app. split_and!; [done|set_solver|apply NoDup_singleton]. Qed.
Lemma push_all_spec k : ∀ l, (∀ x, x ∈ foldl push_new l k ↔ x ∈ l ∨ x ∈ k) ∧ (NoDup l → NoDup (foldl push_new l k)) ∧
  l `prefix_of` foldl push_new l k.
Proof.
  induction k as [|s k IH]; intros l; cbn [foldl]; [split_and!; set_solver|].
  destruct (IH (push_new l s)) as (H1 & H2 & H3). split_and!.
  - intros x. rewrite H1, push_new_elem. set_solver.
  - intros. by apply H2, push_new_nodup.
  - etrans; [|exact H3]. unfold push_new. case_bool_decide; [done|by apply prefix_app_r].
Qed.

(** The addresses of the subject come first as they are; those of the issuer and the
    alternative names are added once each. *)
Lemma cert_emails_spec cert :
  let subject := omap id (entries_by_nid PKCS9_EMAILADDRESS (subject_name cert)) in
  subject `prefix_of` cert_emails cert ∧
  (NoDup subject → NoDup (cert_emails cert)) ∧
  ∀ x, x ∈ cert_emails cert ↔ x ∈ subject ∨ x ∈ omap id (entries_by_nid PKCS9_EMAILADDRESS (issuer_name cert)) ∨
    x ∈ omap email (default [] (subject_alt_names cert)).
Proof.
  intros subject. unfold cert_emails. fold subject.
  destruct (push_all_spec (omap id (entries_by_nid PKCS9_EMAILADDRESS (issuer_name cert))) subject) as (H1 & H2 & H3).
  destruct (subject_alt_names cert) as [names|]; cbn [default from_option id].
  - destruct (push_all_spec (omap email names) (foldl push_new subject (omap id (entries_by_nid PKCS9_EMAILADDRESS (issuer_name cert)))))
      as (K1 & K2 & K3). split_and!; [by etrans|auto|]. intros x. rewrite K1, H1. set_solver.
  - split_and!; [done..|]. intros x. rewrite H1. set_solver.
Qed.

(** ** The system's certificates *)

Definition CA_FILE_PATHS : list bytes :=
  [bs "/etc/ssl/certs/ca-certificates.crt"; bs "/etc/pki/tls/certs/ca-bundle.crt"; bs "/etc/ssl/ca-bundle.pem";
   bs "/etc/pki/ca-trust/extracted/pem/tls-ca-bundle.pem"; bs "/etc/ssl/cert.pem"].
Definition CA_DIR_PATHS : list bytes :=
  [bs "/etc/ssl/certs"; bs "/etc/pki/tls/certs"; bs "/system/etc/security/cacerts"].

Inductive ca_source := CaFile (path : bytes) | CaDir (path : bytes) | CaDefaults.

(** The environment variables, the file system, and what OpenSSL refuses. *)
Record system := mkSystem {
  ssl_cert_file : option bytes;
  ssl_cert_dir : option bytes;
  is_file : bytes → bool;
  is_dir : bytes → bool;
  ca_refuses : ca_source → option bytes
}.

Section system.
Context (sys : system).

Definition accepts_source (s : ca_source) : bool := bool_decide (ca_refuses sys s = None).
Definition usable_file (p : bytes) : bool := is_file sys p && accepts_source (CaFile p).
Definition usable_dir (p : bytes) : bool := is_dir sys p && accepts_source (CaDir p).
Definition first_file : list ca_source := option_list (option_map CaFile (List.find usable_file CA_FILE_PATHS)).

(** What is loaded into the store, in order. *)
Definition load_files : exec ClientError (list ca_source) :=
  match ssl_cert_file sys with
  | Some cert_file =>
      if is_file sys cert_file then
        match ca_refuses sys (CaFile cert_file) with
        | Some e => Err (err_tls (bs "failed to load CA file '" ++ cert_file ++ bs "': " ++ e))
        | None => Ok [CaFile cert_file]
        end
      else Ok first_file
  | None => Ok first_file
  end.
Definition load_dirs : list ca_source :=
  match ssl_cert_dir sys with
  | Some cert_dir => if usable_dir cert_dir then [CaDir cert_dir] else []
  | None => option_list (option_map CaDir (List.find usable_dir CA_DIR_PATHS))
  end.
Definition load_system_ca_certs : exec ClientError (list ca_source) :=
  files ← load_files;
  let loaded := files ++ load_dirs in
  if bool_decide (loaded = []) then
    match ca_refuses sys CaDefaults with
    | Some e => Err (err_tls (bs "no system CA certificates found: " ++ e))
    | None => Ok [CaDefaults]
    end
  else Ok loaded.
End system.

(** ** One connection *)

Inductive handshake := Handshaken | HandshakeFails (e : bytes) | HandshakeHangs.

(** How the network and OpenSSL answer one call; texts are the errors. *)
Record dial_env := mkDial {
  d_tcp : option bytes;
  d_peer : option IpAddr;
  ssl_new : option bytes;
  set_hostname : bytes → option bytes;
  set_ip : IpAddr → option bytes;
  set_host : bytes → option bytes;
  stream_new : option bytes;
  d_connect : handshake;
  d_cert : option X509;
  d_alpn : option bytes
}.

(** The stream, with the identity that the handshake was made with. *)
Inductive ConnectionStream := PlainStream | TlsStream (identity : Identity) (alpn_h2 : bool).

(** What hyper is told: whether HTTP/2 was negotiated. *)
Definition connected (s : ConnectionStream) : bool := match s with TlsStream _ true => true | _ => false end.

Definition refused_as (r : option bytes) : exec bytes () := match r with Some e => Err e | None => Ok tt end.

Section call.
Context (e : dial_env).

Definition set_identity (host : bytes) (verify : bool) : exec bytes Identity :=
  sni ← match parse_ip host with None => refused_as (set_hostname e host);; Ok (Some host) | Some _ => Ok None end;
  pinned ← (if verify then
              match parse_ip host with
              | Some ip => refused_as (set_ip e ip);; Ok (Some (inl ip))
              | None => refused_as (set_host e host);; Ok (Some (inr host))
              end
            else Ok None);
  Ok (mkIdentity sni pinned).

(** [connect_timeout] is in seconds; the slots are the certificate and the peers. *)
Definition call (c : OpenSslConnector) (uri : Uri) (slots : option CertInfo * gmap bytes IpAddr)
    : exec bytes ConnectionStream * (option CertInfo * gmap bytes IpAddr) :=
  let host := default [] uri.(Uri.host) in
  match d_tcp e with
  | Some err => (Err err, slots)
  | None =>
      let '(cert_slot, peer_slot) := slots in
      let peer_slot := match peer_slot_key uri, d_peer e with
                       | Some key, Some ip => <[key := ip]> peer_slot
                       | _, _ => peer_slot
                       end in
      if negb (bool_decide (uri.(scheme_str) = Some (bs "https"))) then (Ok PlainStream, (cert_slot, peer_slot))
      else
        let setup := refused_as (ssl_new e);;
                     identity ← set_identity host (verify_peer (ssl c));
                     refused_as (stream_new e);; Ok identity in
        match setup with
        | Ok identity =>
            match d_connect e with
            | HandshakeHangs =>
                (Err (bs "TLS handshake with " ++ host ++ bs " timed out after " ++ bs (pretty (connect_timeout c)) ++ bs "s"),
                 (cert_slot, peer_slot))
            | HandshakeFails err => (Err err, (cert_slot, peer_slot))
            | Handshaken =>
                (Ok (TlsStream identity (bool_decide (d_alpn e = Some (bs "h2")))),
                 (extract_cert_info (d_cert e), peer_slot))
            end
        | Err err => (Err err, (cert_slot, peer_slot))
        | Panic => (Panic, (cert_slot, peer_slot))
        end
  end.

Lemma set_identity_eq host verify i : set_identity host verify = Ok i → i = ssl_identity host verify.
Proof.
  unfold set_identity, ssl_identity, refused_as. intros Hi. inv_bind.
  destruct (parse_ip host) as [ip|] eqn:E; destruct verify; repeat (case_match; try done); inv_bind; try done;
    try (rewrite bool_decide_false by done); try (rewrite bool_decide_true by done); done.
Qed.
End call.

(** What [Conn] is told of a call that got through to the peer. *)
Definition opened_by (uri : Uri) (e : dial_env) (r : exec bytes ConnectionStream) : opened :=
  mkOpened uri (d_peer e) (match r with Ok (TlsStream _ _) => Some (extract_cert_info (d_cert e)) | _ => None end).

(** C22: a call of the connector leaves in the shared slots exactly what [Conn]
    says: nothing when the connection fails; else the peer's address under the key of
    the URI, and the certificate of a handshake that was completed, no other.  It gives
    a plain stream only for what is not https, and a TLS stream only after a handshake
    with the server name and pinned identity of that host; hyper is told of HTTP/2
    exactly when h2 was negotiated. *)
Theorem connector_call_refined (c : CachedClient) (uri : Uri) (e : dial_env) :
  let '(r, (cert, peers)) := call e (connector c) uri (cert_slot c, peer_slot c) in
  (is_Some (d_tcp e) → cert = cert_slot c ∧ peers = peer_slot c ∧ exec_ok r = None) ∧
  (d_tcp e = None → connector_call c (opened_by uri e r) = mkCached (inner c) (connector c) cert peers) ∧
  r ≠ Panic ∧
  (∀ s, r = Ok s →
    match s with
    | PlainStream => scheme_str uri ≠ Some (bs "https") ∧ connected s = false
    | TlsStream identity h2 =>
        scheme_str uri = Some (bs "https") ∧ d_connect e = Handshaken ∧
        identity = ssl_identity (default [] (Uri.host uri)) (verify_peer (ssl (connector c))) ∧
        (verify_peer (ssl (connector c)) = true → is_Some (pinned identity)) ∧
        (connected s = true ↔ d_alpn e = Some (bs "h2"))
    end).
Proof.
  unfold call. destruct (d_tcp e) as [err|] eqn:Ed; [split_and!; try done; by intros _|].
  set (setup := refused_as (ssl_new e);; _).
  destruct (bool_decide (scheme_str uri = Some (bs "https"))) eqn:Eh; cbn [negb].
  2: { split_and!; [by intros []|intros _|done|].
       - unfold connector_call, opened_by. cbn [o_uri o_peer o_handshake]. by rewrite Eh.
       - intros s [= <-]. by apply bool_decide_eq_false in Eh. }
  destruct setup as [identity|err|] eqn:Es.
  - assert (identity = ssl_identity (default [] (Uri.host uri)) (verify_peer (ssl (connector c)))) as Hi.
    { unfold setup in Es. inv_bind. by apply set_identity_eq in Es1. }
    destruct (d_connect e) eqn:Ec;
      (split_and!; [by intros []|intros _; unfold connector_call, opened_by; cbn [o_uri o_peer o_handshake]; by rewrite Eh|done|]); intros s [= <-].
    apply bool_decide_eq_true in Eh. split_and!; [done|done|done| |].
    + rewrite Hi. unfold ssl_identity. cbn. intros ->. by eexists.
    + cbn. case_bool_decide; naive_solver.
  - split_and!; [by intros []|intros _; unfold connector_call, opened_by; cbn [o_uri o_peer o_handshake]; by rewrite Eh|done|done].
  - exfalso. unfold setup, set_identity, refused_as in Es. destruct (ssl_new e); [done|]. cbn in Es.
    destruct (parse_ip _); cbn in Es.
    + destruct (verify_peer _); cbn in Es; [destruct (set_ip e _); cbn in Es; [done|]|]; by destruct (stream_new e).
    + destruct (set_hostname e _); cbn in Es; [done|].
      destruct (verify_peer _); cbn in Es; [destruct (set_host e _); cbn in Es; [done|]|]; by destruct (stream_new e).
Qed.

(** The certificates that a verifying connector trusts: at most one bundle
    and one directory, the variables' own when they name a usable one; an
    [SSL_CERT_FILE] that OpenSSL refuses is an error, one that is no file is passed
    over; a set [SSL_CERT_DIR] replaces the known directories even when it is not
    usable.  OpenSSL's own defaults are taken only when nothing else was found, and
    their refusal is an error: verification never goes on with an empty store. *)
Theorem ca_certs_spec (sys : system) :
  match load_system_ca_certs sys with
  | Ok sources =>
      sources ≠ [] ∧ Forall (λ s, ca_refuses sys s = None) sources ∧
      (CaDefaults ∈ sources → sources = [CaDefaults]) ∧
      (∀ f, CaFile f ∈ sources → is_file sys f = true ∧
         (∀ g, CaFile g ∈ sources → g = f) ∧
         (∀ v, ssl_cert_file sys = Some v → is_file sys v = true → f = v) ∧
         (ssl_cert_file sys ≠ Some f → f ∈ CA_FILE_PATHS)) ∧
      (∀ d, CaDir d ∈ sources → is_dir sys d = true ∧
         match ssl_cert_dir sys with Some v => d = v | None => d ∈ CA_DIR_PATHS end)
  | Err _ =>
      (∃ v, ssl_cert_file sys = Some v ∧ is_file sys v = true ∧ is_Some (ca_refuses sys (CaFile v))) ∨
      is_Some (ca_refuses sys CaDefaults)
  | Panic => False
  end.
Proof.
  unfold load_system_ca_certs.
  assert (∀ (P : bytes → bool) l x, List.find P l = Some x → P x = true ∧ x ∈ l) as Hfind.
  { intros P l x Hx. apply find_some in Hx as [? ?]. by rewrite list_elem_of_In. }
  assert (∀ f, first_file sys = [CaFile f] → usable_file sys f = true ∧ f ∈ CA_FILE_PATHS) as Hfirst.
  { unfold first_file. intros f. destruct (List.find _ _) eqn:E; cbn; [|done]. intros [= <-]. by apply Hfind in E. }
  assert (first_file sys = [] ∨ ∃ f, first_file sys = [CaFile f]) as Hshape.
  { unfold first_file. destruct (List.find _ _); cbn; [right; by eexists|by left]. }
  assert (load_dirs sys = [] ∨ ∃ d, load_dirs sys = [CaDir d] ∧ usable_dir sys d = true ∧
    match ssl_cert_dir sys with Some v => d = v | None => d ∈ CA_DIR_PATHS end) as Hdirs.
  { unfold load_dirs. destruct (ssl_cert_dir sys) as [v|].
    - destruct (usable_dir sys v) eqn:E; [right; by exists v|by left].
    - destruct (List.find _ _) as [d|] eqn:E; cbn; [|by left]. apply Hfind in E as [? ?]. right. by exists d. }
  assert (match load_files sys with
          | Ok files => files = [] ∨ ∃ f, files = [CaFile f] ∧ usable_file sys f = true ∧
              (∀ v, ssl_cert_file sys = Some v → is_file sys v = true → f = v) ∧
              (ssl_cert_file sys ≠ Some f → f ∈ CA_FILE_PATHS)
          | Err _ => ∃ v, ssl_cert_file sys = Some v ∧ is_file sys v = true ∧ is_Some (ca_refuses sys (CaFile v))
          | Panic => False
          end) as Hfiles.
  { unfold load_files. destruct (ssl_cert_file sys) as [v|] eqn:Ev.
    - destruct (is_file sys v) eqn:Ef.
      + destruct (ca_refuses sys (CaFile v)) eqn:Er; [exists v; rewrite Er; by eauto|]. right. exists v. split_and!; [done| | |].
        * unfold usable_file, accepts_source. by rewrite Ef, Er.
        * by intros ? [= <-].
        * done.
      + destruct Hshape as [->|(f & Hf)]; [by left|]. right. exists f. destruct (Hfirst f Hf). split_and!; [done..| |done].
        intros ? [= <-] ?. congruence.
    - destruct Hshape as [->|(f & Hf)]; [by left|]. right. exists f. by destruct (Hfirst f Hf). }
  destruct (load_files sys) as [files|err|]; cbn [mbind exec_bind]; [|by left|done].
  assert (∀ f, usable_file sys f = true → is_file sys f = true ∧ ca_refuses sys (CaFile f) = None) as Huf.
  { unfold usable_file, accepts_source. intros f [? ?%bool_decide_eq_true]%andb_true_iff. done. }
  assert (∀ d, usable_dir sys d = true → is_dir sys d = true ∧ ca_refuses sys (CaDir d) = None) as Hud.
  { unfold usable_dir, accepts_source. intros d [? ?%bool_decide_eq_true]%andb_true_iff. done. }
  destruct Hfiles as [->|(f & -> & Hf & Hv & Hp)], Hdirs as [->|(d & -> & Hd & Hdv)]; cbn [app];
    [rewrite bool_decide_true by done; destruct (ca_refuses sys CaDefaults) eqn:Er; [by right; eexists|]
    |rewrite bool_decide_false by done..];
    repeat match goal with H : usable_file _ _ = true |- _ => apply Huf in H as [? ?] | H : usable_dir _ _ = true |- _ => apply Hud in H as [? ?] end;
    (split_and!; [done|by repeat constructor|set_solver|set_solver|set_solver]).
Qed.
