(* ===== verification/Streams.v ===== *)
(** * Streams, senders and the OpenSSL providers (src/client/hyper.rs)

    The stream that hyper polls is a plain or a TLS one and passes every poll on; the
    one-shot sender of a direct request is an HTTP/1 or an HTTP/2 one; the OpenSSL
    providers are loaded once per process.  Streams and senders of tokio and hyper are
    the type classes [Polled] and [Sender]. *)
From S2P Require Import Prelude ClientError Request Conn Client Connector.

(** ** ConnectionStream *)

Inductive Poll (A : Type) := Ready (a : A) | Pending.
Arguments Ready {A}.
Arguments Pending {A}.

(** The polls of a stream (with [hyper_util]'s adapter): reading into a buffer with room
    for so many bytes, writing, flushing, shutting down. *)
Inductive poll_op := PollRead (room : Z) | PollWrite (buf : bytes) | PollFlush | PollShutdown.
Inductive polled := PRead (b : bytes) | PWritten (n : Z) | PDone.
Class Polled (T : Type) := poll : poll_op → T → Poll (exec bytes polled) * T.

Section stream.
Context {Tcp Ssl : Type} `{Polled Tcp} `{Polled Ssl}.

Inductive wrapped := Plain (tcp : Tcp) | Tls (stream : Ssl) (alpn_h2 : bool).

Definition poll_read (room : Z) (self : wrapped) : Poll (exec bytes polled) * wrapped :=
  match self with
  | Plain tcp => let '(r, tcp) := poll (PollRead room) tcp in (r, Plain tcp)
  | Tls stream h2 => let '(r, stream) := poll (PollRead room) stream in (r, Tls stream h2)
  end.
Definition poll_write (buf : bytes) (self : wrapped) : Poll (exec bytes polled) * wrapped :=
  match self with
  | Plain tcp => let '(r, tcp) := poll (PollWrite buf) tcp in (r, Plain tcp)
  | Tls stream h2 => let '(r, stream) := poll (PollWrite buf) stream in (r, Tls stream h2)
  end.
Definition poll_flush (self : wrapped) : Poll (exec bytes polled) * wrapped :=
  match self with
  | Plain tcp => let '(r, tcp) := poll PollFlush tcp in (r, Plain tcp)
  | Tls stream h2 => let '(r, stream) := poll PollFlush stream in (r, Tls stream h2)
  end.
Definition poll_shutdown (self : wrapped) : Poll (exec bytes polled) * wrapped :=
  match self with
  | Plain tcp => let '(r, tcp) := poll PollShutdown tcp in (r, Plain tcp)
  | Tls stream h2 => let '(r, stream) := poll PollShutdown stream in (r, Tls stream h2)
  end.

#[export] Instance wrapped_polled : Polled wrapped := λ op self,
  match op with
  | PollRead room => poll_read room self
  | PollWrite buf => poll_write buf self
  | PollFlush => poll_flush self
  | PollShutdown => poll_shutdown self
  end.

(** What [Connector] keeps of it. *)
Definition forget (identity : Identity) (self : wrapped) : ConnectionStream :=
  match self with Plain _ => PlainStream | Tls _ h2 => TlsStream identity h2 end.
End stream.

(** Any sequence of polls. *)
Fixpoint poll_all `{Polled T} (ops : list poll_op) (t : T) : list (Poll (exec bytes polled)) * T :=
  match ops with
  | [] => ([], t)
  | op :: ops => let '(r, t) := poll op t in let '(rs, t) := poll_all ops t in (r :: rs, t)
  end.

(** hyper gets from the wrapper, poll for poll, what the stream inside gives; and what it
    was told about HTTP/2 stays true. *)
Lemma polls_pass_through {Tcp Ssl} `{Polled Tcp, Polled Ssl} (ops : list poll_op) :
  (∀ tcp : Tcp, poll_all ops (Plain tcp : @wrapped Tcp Ssl) = ((poll_all ops tcp).1, Plain (poll_all ops tcp).2)) ∧
  (∀ (ssl : Ssl) h2, poll_all ops (Tls ssl h2 : @wrapped Tcp Ssl) = ((poll_all ops ssl).1, Tls (poll_all ops ssl).2 h2)).
Proof.
  induction ops as [|op ops [IH1 IH2]]; [done|]. split.
  - intros tcp. cbn [poll_all]. assert (poll op (Plain tcp : @wrapped Tcp Ssl) = ((poll op tcp).1, Plain (poll op tcp).2)) as ->
      by (destruct op; cbn; by destruct (poll _ tcp)).
    rewrite IH1. destruct (poll op tcp) as [r tcp']. cbn. by destruct (poll_all ops tcp').
  - intros ssl h2. cbn [poll_all]. assert (poll op (Tls ssl h2 : @wrapped Tcp Ssl) = ((poll op ssl).1, Tls (poll op ssl).2 h2)) as ->
      by (destruct op; cbn; by destruct (poll _ ssl)).
    rewrite IH2. destruct (poll op ssl) as [r ssl']. cbn. by destruct (poll_all ops ssl').
Qed.

Lemma polls_keep_connected {Tcp Ssl} `{Polled Tcp, Polled Ssl} (ops : list poll_op) (s : @wrapped Tcp Ssl) id :
  connected (forget id (poll_all ops s).2) = connected (forget id s).
Proof.
  destruct (polls_pass_through (Tcp := Tcp) (Ssl := Ssl) ops) as [Hp Ht].
  destruct s as [tcp|ssl h2]; [by rewrite Hp|by rewrite Ht].
Qed.

(** ** DirectSender *)

Class Sender (T : Type) := sends_one : Request → T → answer HttpResponse * T.

Section sender.
Context {S1 S2 : Type} `{Sender S1} `{Sender S2}.
Inductive DirectSender := Http1 (s : S1) | Http2 (s : S2).
Definition send_request (request : Request) (self : DirectSender) : answer HttpResponse * DirectSender :=
  match self with
  | Http1 s => let '(r, s) := sends_one request s in (r, Http1 s)
  | Http2 s => let '(r, s) := sends_one request s in (r, Http2 s)
  end.
End sender.

(** ** ensure_legacy_provider *)

(** [Once]: a call that panics poisons it, and a poisoned one panics. *)
Inductive Once := Incomplete | Complete | Poisoned.

(** [load_default] and [load_legacy] say whether OpenSSL has the provider; those loaded
    stay for the life of the process. *)
Definition ensure_legacy_provider (load_default load_legacy : bool) (init : Once) : exec Empty_set () * Once :=
  match init with
  | Complete => (Ok tt, Complete)
  | Poisoned => (Panic, Poisoned)
  | Incomplete => if load_default then if load_legacy then (Ok tt, Complete) else (Panic, Poisoned) else (Panic, Poisoned)
  end.

Fixpoint ensures (loads : list (bool * bool)) (init : Once) : list (exec Empty_set ()) * Once :=
  match loads with
  | [] => ([], init)
  | (d, l) :: loads =>
      let '(r, init) := ensure_legacy_provider d l init in let '(rs, init) := ensures loads init in (r :: rs, init)
  end.

(** The first call decides for the process: after a success every call succeeds, whatever
    a second load would do; after a failure every call panics. *)
Lemma first_load_decides d l loads :
  (ensures ((d, l) :: loads) Incomplete).1 =
    replicate (S (length loads)) (if d && l then Ok tt else Panic).
Proof.
  assert (∀ loads, (ensures loads Complete).1 = replicate (length loads) (Ok tt)) as Hc.
  { induction loads0 as [|[d0 l0] k IH]; [done|]. cbn. destruct (ensures k Complete) as [rs i]. cbn in *. by rewrite IH. }
  assert (∀ loads, (ensures loads Poisoned).1 = replicate (length loads) Panic) as Hp.
  { induction loads0 as [|[d0 l0] k IH]; [done|]. cbn. destruct (ensures k Poisoned) as [rs i]. cbn in *. by rewrite IH. }
  specialize (Hc loads). specialize (Hp loads).
  destruct d, l; cbn; [destruct (ensures loads Complete) as [rs i]|destruct (ensures loads Poisoned) as [rs i]..];
    cbn in *; by f_equal.
Qed.
