(* ===== verification/Process.v ===== *)
(** * A process and its clients (src/client/hyper.rs)

    What [Conn] and [Client] leave out of [get_or_build] and [connect_stream]: the OpenSSL
    providers, which are loaded once per process, and the mutex around the cache of a
    client, which a panic inside [get_or_build] poisons. *)
From stdpp Require Import gmap.
From S2P Require Import Prelude ClientError Uri Config Request Conn Streams.

Section process.
Context (parse_uri : bytes → bytes + Uri) (refuses : ssl_call → option bytes).
(** Whether OpenSSL has the providers: asked at most once. *)
Context (load_default load_legacy : bool).

(** [ensure_legacy_provider] and what the caller does next. *)
Definition with_provider {A} (k : exec ClientError A) (init : Once) : exec ClientError A * Once :=
  match ensure_legacy_provider load_default load_legacy init with
  | (Ok _, init) => (k, init)
  | (_, init) => (Panic, init)
  end.

(** A client: its cache behind the mutex. *)
Record shared_client := mkShared { sc_poisoned : bool; sc_cached : HyperClient }.
Record process := mkProcess { p_init : Once; p_clients : list shared_client }.
Definition process_init : process := mkProcess Incomplete [].

(** What a call makes when there is no entry; the guard is held. *)
Definition build_entry (config : RequestConfig) (mode : ConnMode) (init : Once) : exec ClientError CachedClient * Once :=
  let '(connector, init) := with_provider (OpenSslConnector_new refuses config) init in
  (connector ← connector; inner ← build_inner parse_uri mode; Ok (mkCached inner connector None ∅), init).

Definition lock_poisoned : ClientError := err_other (bs "client lock poisoned").

Definition get_or_build_locked (config : RequestConfig) (mode : ConnMode) (self : shared_client) (init : Once)
    : exec ClientError CachedClient * shared_client * Once :=
  if sc_poisoned self then (Err lock_poisoned, self, init)
  else match sc_cached self !! mode with
       | Some cached => (Ok cached, self, init)
       | None =>
           match build_entry config mode init with
           | (Ok cached, init) => (Ok cached, mkShared false (<[mode := cached]> (sc_cached self)), init)
           | (Err e, init) => (Err e, self, init)
           | (Panic, init) => (Panic, mkShared true (sc_cached self), init)
           end
       end.

(** The TLS part of a direct stream, up to the handshake. *)
Definition direct_settings (config : RequestConfig) (init : Once) : exec ClientError SslConnector * Once :=
  with_provider (ssl_settings refuses config direct_alpn) init.

(** ** Runs *)

(** What tasks do with the clients of the process, in the order of the locks: a new
    client, a call of [get_or_build], a connection opened through an entry, a direct TLS
    stream. *)
Inductive operation :=
  | NewClient
  | GetOrBuild (k : nat) (config : RequestConfig) (mode : ConnMode)
  | Connected (k : nat) (mode : ConnMode) (o : opened)
  | DirectTls (config : RequestConfig).
Inductive outcome :=
  | Built (r : exec ClientError CachedClient) | Settings (r : exec ClientError SslConnector) | Nothing.

Definition opens (mode : ConnMode) (o : opened) (self : HyperClient) : HyperClient := alter (λ c, connector_call c o) mode self.

Definition step (p : process) (op : operation) : outcome * process :=
  match op with
  | NewClient => (Nothing, mkProcess (p_init p) (p_clients p ++ [mkShared false HyperClient_new]))
  | GetOrBuild k config mode =>
      match p_clients p !! k with
      | None => (Nothing, p)
      | Some self =>
          let '(r, self, init) := get_or_build_locked config mode self (p_init p) in
          (Built r, mkProcess init (<[k := self]> (p_clients p)))
      end
  | Connected k mode o =>
      (Nothing, mkProcess (p_init p)
                  (alter (λ self, mkShared (sc_poisoned self) (opens mode o (sc_cached self))) k (p_clients p)))
  | DirectTls config => let '(r, init) := direct_settings config (p_init p) in (Settings r, mkProcess init (p_clients p))
  end.

Fixpoint run (p : process) (ops : list operation) : list outcome * process :=
  match ops with
  | [] => ([], p)
  | op :: ops => let '(o, p) := step p op in let '(os, p) := run p ops in (o :: os, p)
  end.

(** The same without locks and providers, as [Conn] has it. *)
Definition plain_step (cs : list HyperClient) (op : operation) : outcome * list HyperClient :=
  match op with
  | NewClient => (Nothing, cs ++ [HyperClient_new])
  | GetOrBuild k config mode =>
      match cs !! k with
      | None => (Nothing, cs)
      | Some self =>
          let r := get_or_build parse_uri refuses self config mode in
          (Built (fst <$> r), match r with Ok (_, self) => <[k := self]> cs | _ => cs end)
      end
  | Connected k mode o => (Nothing, alter (opens mode o) k cs)
  | DirectTls config => (Settings (ssl_settings refuses config direct_alpn), cs)
  end.
Fixpoint plain_run (cs : list HyperClient) (ops : list operation) : list outcome * list HyperClient :=
  match ops with
  | [] => ([], cs)
  | op :: ops => let '(o, cs) := plain_step cs op in let '(os, cs) := plain_run cs ops in (o :: os, cs)
  end.

(** The calls of [get_or_build] are for modes with a pooled client: [conn_mode]'s, but
    for the forward proxy, which the program dispatches otherwise. *)
Definition pooled (op : operation) : Prop :=
  match op with GetOrBuild _ _ mode => is_Some (mode_tls mode) | _ => True end.

Definition panicked (o : outcome) : bool :=
  match o with Built r => is_panic r | Settings r => is_panic r | Nothing => false end.

(** What the calls of [get_or_build] on client [k] gave, in order. *)
Definition built_by (k : nat) (ops : list operation) (outs : list outcome) : list (exec ClientError CachedClient) :=
  omap (λ '(op, o), match op, o with
        | GetOrBuild k' _ _, Built r => if decide (k' = k) then Some r else None
        | _, _ => None
        end) (zip ops outs).

Lemma built_by_cons k op ops o outs : built_by k (op :: ops) (o :: outs) = built_by k [op] [o] ++ built_by k ops outs.
Proof. unfold built_by. cbn. by repeat case_match. Qed.

(** ** Facts *)

(** Nothing in building a connector panics. *)
Lemma then_no_panic {E A B} (m : exec E A) (k : A → exec E B) :
  is_panic m = false → (∀ a, is_panic (k a) = false) → is_panic (m ≫= k) = false.
Proof. destruct m; cbn; auto. Qed.
Lemma ssl_try_no_panic c ctx : is_panic (ssl_try refuses c ctx) = false.
Proof. unfold ssl_try. by case_match. Qed.
Lemma proto_version_no_panic v call ctx : is_panic (proto_version refuses v call ctx) = false.
Proof.
  destruct v as [v|]; [|done]. apply then_no_panic; [unfold parse_tls_version; repeat case_match; done|]. intros a.
  apply then_no_panic; [apply ssl_try_no_panic|done].
Qed.
Lemma alpn_no_panic protos : is_panic (encode_alpn_protocols protos) = false.
Proof.
  induction protos as [|p protos IH]; [done|]. cbn [encode_alpn_protocols]. repeat case_match; try done. by apply then_no_panic.
Qed.
Lemma ssl_settings_no_panic config alpn : is_panic (ssl_settings refuses config alpn) = false.
Proof.
  unfold ssl_settings. repeat (apply then_no_panic; [|intros ?]);
    repeat case_match; auto using ssl_try_no_panic, proto_version_no_panic, alpn_no_panic.
Qed.
Lemma build_inner_no_panic mode : is_Some (mode_tls mode) → is_panic (build_inner parse_uri mode) = false.
Proof.
  destruct mode as [k|u|u k|u k]; cbn; intros [? Hm]; try done;
    (apply then_no_panic; [|done]); unfold proxy_uri_of, parse_url; by case_match.
Qed.

Lemma get_or_build_no_panic self config mode : is_Some (mode_tls mode) →
  is_panic (get_or_build parse_uri refuses self config mode) = false.
Proof.
  intros Hm. unfold get_or_build. case_match; [done|]. unfold OpenSslConnector_new.
  apply then_no_panic; [by apply then_no_panic; [apply ssl_settings_no_panic|]|]. intros c.
  by apply then_no_panic; [apply build_inner_no_panic|].
Qed.

(** ** Where the providers load *)

Definition unpoisoned (cs : list HyperClient) : list shared_client := map (mkShared false) cs.

Lemma with_provider_loads {A} (k : exec ClientError A) init : load_default && load_legacy = true → init ≠ Poisoned →
  with_provider k init = (k, Complete).
Proof.
  intros [H1 H2]%andb_true_iff Hi. unfold with_provider, ensure_legacy_provider. rewrite H1, H2. by destruct init.
Qed.

Lemma get_or_build_unlocked config mode self init : load_default && load_legacy = true → init ≠ Poisoned → is_Some (mode_tls mode) →
  ∃ init', init' ≠ Poisoned ∧
  get_or_build_locked config mode (mkShared false self) init =
    let r := get_or_build parse_uri refuses self config mode in
    (fst <$> r, mkShared false (match r with Ok (_, self) => self | _ => self end), init').
Proof.
  intros Hl Hi Hm. pose proof (get_or_build_no_panic self config mode Hm) as Hp.
  unfold get_or_build_locked, get_or_build in *. cbn [sc_poisoned sc_cached]. destruct (self !! mode) as [c|]; [by exists init|].
  exists Complete. split; [done|]. unfold build_entry. rewrite with_provider_loads by done.
  destruct (OpenSslConnector_new refuses config) as [c| |]; cbn in *; [|done..].
  by destruct (build_inner parse_uri mode).
Qed.

Lemma run_loads ops init cs : load_default && load_legacy = true → init ≠ Poisoned → Forall pooled ops →
  ∃ init', run (mkProcess init (unpoisoned cs)) ops =
    ((plain_run cs ops).1, mkProcess init' (unpoisoned (plain_run cs ops).2)) ∧
  Forall (λ o, panicked o = false) (plain_run cs ops).1.
Proof.
  intros Hl. revert init cs. induction ops as [|op ops IH]; intros init cs Hi Hops; [by exists init|].
  apply Forall_cons in Hops as [Hop Hops]. cbn [run plain_run].
  assert (∃ init1, init1 ≠ Poisoned ∧ step (mkProcess init (unpoisoned cs)) op =
    ((plain_step cs op).1, mkProcess init1 (unpoisoned (plain_step cs op).2)) ∧ panicked (plain_step cs op).1 = false)
    as (init1 & Hi1 & -> & Hp).
  { unfold unpoisoned. destruct op as [|k config mode|k mode o|config]; cbn [step plain_step p_init p_clients fst snd].
    - exists init. by rewrite map_app.
    - rewrite list_lookup_fmap. destruct (cs !! k) as [self|] eqn:Hk; cbn [fmap option_fmap option_map]; [|by exists init].
      destruct (get_or_build_unlocked config mode self init Hl Hi Hop) as (init1 & Hi1 & ->). exists init1.
      pose proof (get_or_build_no_panic self config mode Hop) as Hp.
      assert (∀ x : HyperClient, <[k := mkShared false x]> (map (mkShared false) cs) = map (mkShared false) (<[k := x]> cs)) as Hins.
      { intros x. symmetry. apply list_fmap_insert. }
      destruct (get_or_build parse_uri refuses self config mode) as [[c self']| |]; cbn in *; rewrite ?Hins; [done| |done].
      by rewrite list_insert_id.
    - exists init. split_and!; [done| |done]. do 2 f_equal. symmetry. apply (list_fmap_alter (mkShared false)). by apply Forall_true.
    - exists Complete. unfold direct_settings. rewrite with_provider_loads by done. split_and!; [done..|apply ssl_settings_no_panic]. }
  destruct (plain_step cs op) as [o cs1]. cbn [fst snd] in *. destruct (IH init1 cs1 Hi1 Hops) as (init' & -> & Hps). exists init'.
  destruct (plain_run cs1 ops) as [os cs2]. cbn in *. split; [done|by constructor].
Qed.

(** ** Where they do not *)

Lemma with_provider_fails {A} (k : exec ClientError A) init : load_default && load_legacy = false → init ≠ Complete →
  with_provider k init = (Panic, Poisoned).
Proof.
  intros Hl Hi. unfold with_provider, ensure_legacy_provider. destruct init; [|done|done].
  destruct load_default; [|done]. by destruct load_legacy.
Qed.

Lemma get_or_build_fails config mode self init : load_default && load_legacy = false → init ≠ Complete → sc_cached self = ∅ →
  get_or_build_locked config mode self init =
    if sc_poisoned self then (Err lock_poisoned, self, init) else (Panic, mkShared true ∅, Poisoned).
Proof.
  intros Hl Hi Hc. unfold get_or_build_locked, build_entry. case_match; [done|].
  by rewrite Hc, lookup_empty, with_provider_fails.
Qed.

(** The outcomes still to come on a client that is poisoned, or is not. *)
Definition one_panic (poisoned : bool) (l : list (exec ClientError CachedClient)) : Prop :=
  if poisoned then ∃ n, l = replicate n (Err lock_poisoned)
  else l = [] ∨ ∃ n, l = Panic :: replicate n (Err lock_poisoned).

Definition poisoned_at (k : nat) (cs : list shared_client) : bool := default false (sc_poisoned <$> cs !! k).

Lemma poisoned_at_insert k k' c cs : is_Some (cs !! k') →
  poisoned_at k (<[k' := c]> cs) = if decide (k' = k) then sc_poisoned c else poisoned_at k cs.
Proof.
  intros Hk. unfold poisoned_at. case_decide as Heq.
  - subst. by rewrite list_lookup_insert_eq by by apply lookup_lt_is_Some.
  - by rewrite list_lookup_insert_ne.
Qed.

Lemma poisoned_at_alter k k' f cs : (∀ c, sc_poisoned (f c) = sc_poisoned c) →
  poisoned_at k (alter f k' cs) = poisoned_at k cs.
Proof.
  intros Hf. unfold poisoned_at. rewrite list_lookup_alter. case_decide as Hk; [|done]. subst k'.
  destruct (cs !! k) as [c|]; [|done]. exact (Hf c).
Qed.

(** A step, seen from client [k]: what it makes of the outcomes to come. *)
Lemma step_fails op init cs : load_default && load_legacy = false → init ≠ Complete → Forall (λ c, sc_cached c = ∅) cs →
  ∃ o init' cs', step (mkProcess init cs) op = (o, mkProcess init' cs') ∧ init' ≠ Complete ∧
    Forall (λ c, sc_cached c = ∅) cs' ∧ (∀ r, o = Settings r → r = Panic) ∧
    ∀ k l, one_panic (poisoned_at k cs') l → one_panic (poisoned_at k cs) (built_by k [op] [o] ++ l).
Proof.
  intros Hl Hi Hcs. unfold built_by. destruct op as [|k' config mode|k' mode o|config]; cbn [step p_init p_clients].
  - eexists _, _, _. split_and!; [done|done|by apply Forall_app_2; [|constructor]|done|]. intros k l. cbn. unfold poisoned_at.
    destruct (cs !! k) as [c|] eqn:E; [by rewrite (lookup_app_l_Some _ _ _ c)|]. rewrite lookup_app_r by by apply lookup_ge_None.
    destruct ([_] !! _) as [c|] eqn:E'; [|done]. by apply list_lookup_singleton_Some in E' as [_ <-].
  - destruct (cs !! k') as [self|] eqn:E; [|by eexists _, _, _].
    assert (sc_cached self = ∅) as Hs by exact (Forall_lookup_1 _ _ _ _ Hcs E).
    rewrite get_or_build_fails by done. destruct (sc_poisoned self) eqn:Hp; eexists _, _, _.
    + rewrite list_insert_id by done. split_and!; [done..|]. intros k l. cbn. case_decide as Hk; [|done]. subst k'.
      unfold poisoned_at. rewrite E. cbn. rewrite Hp. intros [n ->]. by exists (S n).
    + split_and!; [done|done|by apply Forall_insert|done|]. intros k l. rewrite poisoned_at_insert by done. cbn. case_decide as Hk; [|done].
      subst k'. unfold poisoned_at. rewrite E. cbn. rewrite Hp. intros [n ->]. right. by exists n.
  - eexists _, _, _. split_and!; [done|done| |done|].
    + apply Forall_alter; [done|]. intros c _ Hc. cbn. rewrite Hc. apply alter_empty.
    + intros k l. by rewrite poisoned_at_alter.
  - unfold direct_settings. rewrite with_provider_fails by done. eexists _, _, _. split_and!; [done..|by intros r [= <-]|done].
Qed.

Lemma run_fails ops init cs : load_default && load_legacy = false → init ≠ Complete → Forall (λ c, sc_cached c = ∅) cs →
  let '(outs, p) := run (mkProcess init cs) ops in
  (∀ r, Settings r ∈ outs → r = Panic) ∧ (∀ k, one_panic (poisoned_at k cs) (built_by k ops outs)) ∧
  Forall (λ c, sc_cached c = ∅) (p_clients p).
Proof.
  intros Hl. revert init cs. induction ops as [|op ops IH]; intros init cs Hi Hcs; cbn [run].
  { split_and!; [by intros r ?%elem_of_nil| |done]. intros k. cbn. destruct (poisoned_at k cs); [by exists 0%nat|by left]. }
  destruct (step_fails op init cs Hl Hi Hcs) as (o & init' & cs' & -> & Hi' & Hcs' & Ho & Hk).
  specialize (IH init' cs' Hi' Hcs'). destruct (run _ ops) as [outs p]. destruct IH as (H1 & H2 & H3).
  split_and!; [|intros k; rewrite built_by_cons; exact (Hk k _ (H2 k))|done]. intros r [?|?]%elem_of_cons; [by apply Ho|by apply H1].
Qed.

(** ** The property *)

(** C19: a process with any number of clients, each used by any number of tasks.
    Where OpenSSL has its providers, locks and providers never show: every call of
    [get_or_build] and every TLS setup gives exactly what [Conn] says, none panics, and no
    lock is poisoned.  Where it has not, the process never makes a TLS connection: every
    direct one panics, and of the calls on one client the first panics with the guard held
    and all later ones return the error of the poisoned lock; no entry is ever made. *)
Theorem provider_decides (ops : list operation) : Forall pooled ops →
  let '(outs, p) := run process_init ops in
  (load_default && load_legacy = true →
     outs = (plain_run [] ops).1 ∧ p_clients p = unpoisoned (plain_run [] ops).2 ∧ Forall (λ o, panicked o = false) outs) ∧
  (load_default && load_legacy = false →
     (∀ r, Settings r ∈ outs → r = Panic) ∧
     (∀ k, built_by k ops outs = [] ∨ ∃ n, built_by k ops outs = Panic :: replicate n (Err lock_poisoned)) ∧
     Forall (λ c, sc_cached c = ∅) (p_clients p)).
Proof.
  intros Hops. destruct (run process_init ops) as [outs p] eqn:E. split; intros Hl.
  - destruct (run_loads ops Incomplete [] Hl ltac:(done) Hops) as (init' & Hr & Hp). unfold process_init in E.
    change (unpoisoned []) with (@nil shared_client) in Hr. rewrite Hr in E. by injection E as <- <-.
  - pose proof (run_fails ops Incomplete [] Hl ltac:(done) ltac:(constructor)) as Hf. unfold process_init in E. rewrite E in Hf. exact Hf.
Qed.
End process.

(** Without the legacy provider: a panic, then the poisoned lock. *)
Lemma provider_decides_witness :
  let mode := Direct (from_config (RequestConfig_new (bs "https://a/"))) in
  let ops := [NewClient; GetOrBuild 0 (RequestConfig_new (bs "https://a/")) mode; GetOrBuild 0 (RequestConfig_new (bs "https://a/")) mode] in
  let outs := (run (λ _, inl []) (λ _, None) true false process_init ops).1 in
  Forall pooled ops ∧ length (built_by 0 ops outs) = 2%nat ∧
  ∃ n, built_by 0 ops outs = Panic :: replicate n (Err lock_poisoned).
Proof.
  intros mode ops outs. assert (Forall pooled ops) as Ho by (repeat constructor; by eexists).
  assert (length (built_by 0 ops outs) = 2%nat) as Hlen by (vm_compute; reflexivity). split; [exact Ho|split; [exact Hlen|]].
  pose proof (provider_decides (λ _, inl []) (λ _, None) true false ops Ho) as H. unfold outs in *.
  destruct (run (λ _, inl []) (λ _, None) true false process_init ops) as [os p]. cbn [fst] in *.
  destruct (proj1 (proj2 (proj2 H eq_refl)) 0%nat) as [Hn|Hn]; [|exact Hn]. rewrite Hn in Hlen. discriminate Hlen.
Defined.
