(* ===== verification/Mock.v ===== *)
(** * The mock client (src/mock.rs)

    The handlers a test registers, how a request picks one, the redirect loop over the
    answers, and the batch iterator that puts mocked results before those of a real
    client.  The Python code the mock calls (patterns, comparisons, callbacks, the
    predicate, the real client) is given by two interfaces. *)
From S2P Require Import Prelude RustStd Utf8 PyValue Multipart Batch PyApi.
From S2P Require Response.

(** ** Data *)

Record MockRequest := mkMockRequest {
  mq_url : bytes;
  mq_method : bytes;
  mq_headers : list (PyObj * PyObj);
  mq_content : bytes
}.

Record MockResponse := mkMockResponse { ms_status_code : Z; ms_text : bytes; ms_headers : PyObj }.

(** [match_headers] and [match_json] are Python dicts. *)
Inductive HandlerKind :=
  | HResponse (status_code : Z) (body : bytes) (headers : list (bytes * bytes))
      (match_headers match_json : option (list (PyObj * PyObj)))
  | HCallback (callback : PyObj).

Record Handler := mkHandler {
  hd_url : option PyObj;
  hd_method : option bytes;
  hd_kind : HandlerKind
}.

Record MockState := mkMockState { handlers : list Handler; recycled : list Handler }.
Definition MockState_new : MockState := mkMockState [] [].

Definition kind_clone_with_gil (k : HandlerKind) : HandlerKind :=
  match k with
  | HResponse status_code body headers match_headers match_json =>
      HResponse status_code body headers match_headers match_json
  | HCallback callback => HCallback callback
  end.
Definition clone_with_gil (h : Handler) : Handler :=
  mkHandler (hd_url h) (hd_method h) (kind_clone_with_gil (hd_kind h)).

(** The Python library calls: [pattern.search(url)] as a truth value, [==], [json],
    [urllib.parse.urlparse], and the text of an exception. *)
Record ParsedUrl := mkParsedUrl { p_scheme : bytes; p_netloc : bytes; p_hostname : option bytes }.
Class MockPython := {
  re_search : PyObj → bytes → Z + bool;
  py_eq : PyObj → PyObj → Z + bool;
  json_dumps : PyObj → Z + bytes;
  json_loads : bytes → option PyObj;
  urlparse : bytes → Z + ParsedUrl;
  err_text : PyErr → bytes
}.

(** ** Helpers *)

Definition make_response (url method : bytes) (status_code : Z) (body : bytes) (headers : list (bytes * bytes)) : Response :=
  Response.mkResponse url status_code headers body 0 [] None None url method [] None None None None None.

Definition ensure_content_type (headers : list (bytes * bytes)) (dflt : bytes) : list (bytes * bytes) :=
  if existsb (λ h, eq_ignore_ascii_case h.1 (bs "content-type")) headers then headers
  else headers ++ [(bs "Content-Type", dflt)].

Section helpers.
Context `{Python, MockPython}.

Fixpoint list_values (k : bytes) (items : list PyObj) : exec PyErr (list (bytes * bytes)) :=
  match items with
  | [] => Ok []
  | item :: items => v ← extract_string_or item; out ← list_values k items; Ok ((k, v) :: out)
  end.
Fixpoint dict_headers (entries : list (PyObj * PyObj)) : exec PyErr (list (bytes * bytes)) :=
  match entries with
  | [] => Ok []
  | (k, v) :: entries =>
      k_str ← extract_string_or k;
      vs ← match v with
           | PyList items => list_values k_str items
           | _ => v ← extract_string_or v; Ok [(k_str, v)]
           end;
      out ← dict_headers entries;
      Ok (vs ++ out)
  end.
Fixpoint pair_headers (entries : list PyObj) : exec PyErr (list (bytes * bytes)) :=
  match entries with
  | [] => Ok []
  | entry :: entries => tup ← conversion entry (extract_pair entry); out ← pair_headers entries; Ok (tup :: out)
  end.
Definition normalize_headers (headers : option PyObj) : exec PyErr (list (bytes * bytes)) :=
  match headers with
  | None => Ok []
  | Some (PyDict d) => dict_headers d
  | Some (PyList l) => pair_headers l
  | Some _ => Err (TypeError (bs "headers must be a dict, list of (name, value) tuples, or None"))
  end.

Definition url_matches (pattern : option PyObj) (url : bytes) : exec PyErr bool :=
  match pattern with
  | None => Ok true
  | Some pat =>
      match extract_string pat with
      | Some s => Ok (bool_decide (s = url))
      | None => raised (re_search pat url)
      end
  end.

Definition body_from_arg (body : option PyObj) : exec PyErr bytes :=
  match body with
  | None => Ok []
  | Some b =>
      if is_none b then Ok []
      else match extract_string b with
           | Some s => Ok s
           | None => ok_or (extract_bytes b) (TypeError (bs "body must be str, bytes, or None"))
           end
  end.

(** The loop over the expected entries. *)
Fixpoint subset_match (expected actual : list (PyObj * PyObj)) : exec PyErr bool :=
  match expected with
  | [] => Ok true
  | (k, v) :: expected =>
      key_str ← extract_string_or k;
      match dict_get key_str actual with
      | Some a => same ← raised (py_eq a v); if same : bool then subset_match expected actual else Ok false
      | None => Ok false
      end
  end.
Definition header_subset_match (expected req_headers : list (PyObj * PyObj)) : exec PyErr bool :=
  subset_match expected req_headers.
Definition json_subset_match (expected : list (PyObj * PyObj)) (body : bytes) : exec PyErr bool :=
  if bool_decide (body = []) then Ok (bool_decide (expected = []))
  else if is_utf8 body then
    match json_loads body with
    | Some (PyDict parsed) => subset_match expected parsed
    | _ => Ok false
    end
  else Ok false.

(** ** Picking a handler *)

(** The tests of one handler, in order. *)
Definition handler_matches (h : Handler) (url method : bytes) (req_headers : list (PyObj * PyObj)) (body : bytes)
    : exec PyErr bool :=
  u ← url_matches (hd_url h) url;
  if negb u then Ok false
  else if match hd_method h with Some m => negb (eq_ignore_ascii_case m method) | None => false end then Ok false
  else match hd_kind h with
       | HResponse _ _ _ match_headers match_json =>
           a ← match match_headers with Some mh => header_subset_match mh req_headers | None => Ok true end;
           if negb a then Ok false
           else match match_json with Some mj => json_subset_match mj body | None => Ok true end
       | HCallback _ => Ok true
       end.

(** [chosen_idx]. *)
Fixpoint chosen (matches : Handler → exec PyErr bool) (l : list Handler) : exec PyErr (option nat) :=
  match l with
  | [] => Ok None
  | h :: l => b ← matches h; if b : bool then Ok (Some O) else i ← chosen matches l; Ok (fmap (M:=option) S i)
  end.

(** The mutex of the state is held from the first test to the pick, over the calls into
    Python too, so no registration and no other pick comes between them ([pick_exclusive]
    in MockProps): they are one step here, and the tests, which see nothing of the mock
    but the handlers under the lock, are functions.  Who waits for the lock, and that a
    test which hands over the GIL can block for good, is not part of this step; it is the
    subject of [pick_deadlock] there. *)
Definition pick_handler (url method : bytes) (req_headers : list (PyObj * PyObj)) (body : bytes)
    : py MockState (option Handler) := λ st,
  let matches h := handler_matches h url method req_headers body in
  match chosen matches (handlers st) with
  | Ok (Some i) =>
      match handlers st !! i with
      | Some h => (Ok (Some h), mkMockState (delete i (handlers st)) (recycled st ++ [clone_with_gil h]))
      | None => (Panic, st)
      end
  | Ok None =>
      (c ← chosen matches (recycled st);
       match c with
       | Some i => h ← unwrap (recycled st !! i); Ok (Some (clone_with_gil h))
       | None => Ok None
       end, st)
  | Err e => (Err e, st)
  | Panic => (Panic, st)
  end.

Inductive DispatchPlan :=
  | DResponse (r : Response)
  | DCallback (callback : PyObj) (mock_request : MockRequest).

Definition headers_dict (headers : list (bytes * bytes)) : list (PyObj * PyObj) :=
  foldl (λ d h, dict_set h.1 (PyStr (Some h.2)) d) [] headers.

Definition plan_dispatch (url method : bytes) (headers : list (bytes * bytes)) (body : bytes)
    : py MockState DispatchPlan :=
  let req_headers_dict := headers_dict headers in
  handler ← pick_handler url method req_headers_dict body;
  match handler with
  | None => pure (Err (RuntimeError (bs "No mock response registered for " ++ method ++ bs " " ++ url)))
  | Some h =>
      match hd_kind h with
      | HResponse status_code resp_body resp_headers _ _ =>
          mret (DResponse (make_response url method status_code resp_body resp_headers))
      | HCallback callback => mret (DCallback callback (mkMockRequest url method req_headers_dict body))
      end
  end.

(** ** Registering *)

Definition push_handler (h : Handler) : py MockState () := λ st,
  (Ok tt, mkMockState (handlers st ++ [h]) (recycled st)).

Definition add_response (url : option PyObj) (method text : option bytes) (json content : option PyObj)
    (status_code : Z) (headers : option PyObj) (match_headers match_json : option (list (PyObj * PyObj)))
    : py MockState () :=
  '(header_list, body) ← pure (
    header_list ← normalize_headers headers;
    match text, json, content with
    | Some t, _, _ => Ok (ensure_content_type header_list (bs "text/plain; charset=utf-8"), t)
    | None, Some j, _ => s ← raised (json_dumps j); Ok (ensure_content_type header_list (bs "application/json"), s)
    | None, None, Some c =>
        let header_list := ensure_content_type header_list (bs "application/octet-stream") in
        match extract_bytes c with
        | Some b => Ok (header_list, b)
        | None => s ← ok_or (extract_string c) (TypeError (bs "content must be bytes or str")); Ok (header_list, s)
        end
    | None, None, None => Ok (header_list, [])
    end);
  push_handler (mkHandler url method (HResponse status_code body header_list match_headers match_json)).

Definition add_callback (callback : PyObj) (url : option PyObj) : py MockState () :=
  push_handler (mkHandler url None (HCallback callback)).

(** [MockResponse(...)]. *)
Definition MockResponse_new (status_code : Z) (json : option PyObj) (text : option bytes) (headers : option PyObj)
    : exec PyErr MockResponse :=
  text ← match text, json with
         | Some t, _ => Ok t
         | None, Some j => raised (json_dumps j)
         | None, None => Ok []
         end;
  Ok (mkMockResponse status_code text (default (PyDict []) headers)).

(** Assignments to its attributes.  [headers] keeps the object itself. *)
Inductive mock_attribute := SetStatusCode (z : Z) | SetText (t : bytes) | SetHeaders (value : PyObj).
Definition assign (m : MockResponse) (a : mock_attribute) : MockResponse :=
  match a with
  | SetStatusCode z => mkMockResponse z (ms_text m) (ms_headers m)
  | SetText t => mkMockResponse (ms_status_code m) t (ms_headers m)
  | SetHeaders value => mkMockResponse (ms_status_code m) (ms_text m) value
  end.

(** What a callback returned, once awaited. *)
Inductive CallbackResult := ReturnsMock (m : MockResponse) | ReturnsResponse (r : Response) | ReturnsOther (o : PyObj).

Definition callback_result_to_response (result : CallbackResult) (url method : bytes) : exec PyErr Response :=
  match result with
  | ReturnsMock mr =>
      header_list ← normalize_headers (Some (ms_headers mr));
      Ok (make_response url method (ms_status_code mr) (ms_text mr)
            (ensure_content_type header_list (bs "text/plain; charset=utf-8")))
  | ReturnsResponse r => Ok (Response.clone r)
  | ReturnsOther _ => Err (TypeError (bs "callback must return MockResponse or blasthttp.Response"))
  end.
End helpers.

(** ** The client *)

(** The mock client: the handler state is behind a mutex shared with its iterators, so
    it lives in the world, next to the boundary counter and the rest of Python. *)
Record PyBlasthttpMock := mkMock { real_client : option PyObj; should_mock_fn : option PyObj }.
Record world (W : Type) := mkWorld { w_mock : MockState; w_counter : Z; w_rest : W }.
Arguments mkWorld {W}.
Arguments w_mock {W}.
Arguments w_counter {W}.
Arguments w_rest {W}.

Definition PyBlasthttpMock_new (real_client should_mock_fn : option PyObj) : PyBlasthttpMock * MockState :=
  (mkMock real_client should_mock_fn, MockState_new).

(** A call into Python: it may raise, and may change anything (a callback may register
    handlers). *)
Definition call (W A : Type) : Type := world W → (PyErr + A) * world W.

(** The Python objects the mock calls, a coroutine being awaited; and [others], what
    other tasks do to the world between two dispatches of one request. *)
Class Interpreter (W : Type) := {
  call_callback : PyObj → MockRequest → call W CallbackResult;
  call_predicate : PyObj → bytes → call W bool;
  client_request : PyObj → bytes → list (bytes * PyObj) → call W PyObj;
  open_stream : PyObj → list PyBatchConfig → Z → option f64 → call W PyObj;
  next_item : PyObj → call W PyObj;
  others : world W → world W
}.

Definition run {W A} (c : call W A) : py (world W) A := λ w,
  match c w with (inr a, w) => (Ok a, w) | (inl e, w) => (Err e, w) end.
Definition with_mock {W A} (m : py MockState A) : py (world W) A := λ w,
  let '(r, st) := m (w_mock w) in (r, mkWorld st (w_counter w) (w_rest w)).
Definition with_counter {W A} (m : Z → exec PyErr A * Z) : py (world W) A := λ w,
  let '(r, n) := m (w_counter w) in (r, mkWorld (w_mock w) n (w_rest w)).

(** What [request] gives: the mock's response, or what the real client's call gave. *)
Inductive Answer := FromMock (r : Response) | FromClient (o : PyObj).

Section client.
Context `{Python, MockPython, Interpreter W} (h1 h2 : Z → Z).

Definition dispatch_one (url method : bytes) (headers : list (bytes * bytes)) (body : bytes) : py (world W) Response :=
  plan ← with_mock (plan_dispatch url method headers body);
  match plan with
  | DResponse resp => mret resp
  | DCallback callback mock_request =>
      result ← run (call_callback callback mock_request);
      pure (callback_result_to_response result url method)
  end.

Definition should_intercept (self : PyBlasthttpMock) (url : bytes) : py (world W) bool :=
  match should_mock_fn self with
  | None => mret true
  | Some f => parsed ← pure (raised (urlparse url)); run (call_predicate f (default [] (p_hostname parsed)))
  end.

Definition kwarg (name : bytes) (o : option PyObj) : list (bytes * PyObj) :=
  match o with Some o => [(name, o)] | None => [] end.
Definition delegate_request (self : PyBlasthttpMock) (url : bytes) (method : option bytes)
    (headers body files : option PyObj) (follow_redirects : option bool) (max_redirects : option Z)
    : py (world W) PyObj :=
  match real_client self with
  | None =>
      pure (Err (RuntimeError (bs "URL " ++ url ++ bs " is excluded by should_mock_fn but no real_client was provided")))
  | Some client =>
      run (client_request client url
        (kwarg (bs "method") ((λ m, PyStr (Some m)) <$> method) ++ kwarg (bs "headers") headers
         ++ kwarg (bs "body") body ++ kwarg (bs "files") files
         ++ kwarg (bs "follow_redirects") (PyBool <$> follow_redirects)
         ++ kwarg (bs "max_redirects") (PyInt <$> max_redirects)))
  end.

(** *** Redirects *)

Definition location (headers : list (bytes * bytes)) : option bytes :=
  snd <$> List.find (λ h, eq_ignore_ascii_case h.1 (bs "location")) headers.
Definition resolve (current_url loc : bytes) : bytes :=
  if starts_with loc (bs "/") then
    match urlparse current_url with
    | inr parsed => p_scheme parsed ++ bs "://" ++ p_netloc parsed ++ loc
    | inl _ => loc
    end
  else loc.
Definition next_url (current_url : bytes) (response : Response) : option bytes :=
  if bool_decide (Response.status response ∈ [301; 302; 303; 307; 308])
  then resolve current_url <$> location (Response.headers response) else None.

Fixpoint request_loop (fuel : nat) (follow : bool) (max_hops : Z) (method : bytes)
    (headers : list (bytes * bytes)) (body current_url : bytes) (hops : Z) : py (world W) Response :=
  match fuel with
  | O => pure Panic
  | S fuel => λ w, (
      response ← dispatch_one current_url method headers body;
      if negb follow then mret response
      else match next_url current_url response with
           | None => mret response
           | Some loc =>
               let hops := u32 (hops + 1) in
               if hops >? max_hops then
                 pure (Err (RuntimeError (bs "exceeded " ++ bs (pretty max_hops)
                                          ++ bs " redirects starting from mock dispatch")))
               else request_loop fuel follow max_hops method headers body loc hops
           end) (others w)
  end.

(** One round for the first answer and one for each hop. *)
Definition mock_fuel (max_hops : Z) : nat := S (S (Z.to_nat max_hops)).

Definition request_body (files body : option PyObj) (header_list : list (bytes * bytes))
    : py (world W) (list (bytes * bytes) * bytes) :=
  match files with
  | Some f =>
      if is_none f then pure (b ← body_from_arg body; Ok (header_list, b))
      else '(boundary, mp_body) ← with_counter (build_multipart h1 h2 f);
           mret (ensure_content_type header_list (bs "multipart/form-data; boundary=" ++ boundary), mp_body)
  | None => pure (b ← body_from_arg body; Ok (header_list, b))
  end.

Definition request (self : PyBlasthttpMock) (url : bytes) (method : option bytes) (headers body files : option PyObj)
    (follow_redirects : option bool) (max_redirects : option Z) : py (world W) Answer :=
  intercept ← should_intercept self url;
  if negb intercept then
    FromClient <$> delegate_request self url method headers body files follow_redirects max_redirects
  else
    _ ← pure (reject_body_with_files body files);
    header_list ← pure (normalize_headers headers);
    '(header_list, body_bytes) ← request_body files body header_list;
    let max_hops := default 10 max_redirects in
    FromMock <$> request_loop (mock_fuel max_hops) (default false follow_redirects) max_hops
                   (default (bs "GET") method) header_list body_bytes url 0.
End client.

(** ** Batches *)

Record MockBatchEntry := mkEntry {
  me_url : bytes;
  me_method : bytes;
  me_headers : list (bytes * bytes);
  me_body : bytes
}.

(** An item of the stream: a result of the mock, or what the real client yielded. *)
Inductive BatchItem := Mocked (r : PyBatchResult) | Passed (o : PyObj).

Record MockBatchIterState := mkIter {
  pending_mocks : list MockBatchEntry;
  passthrough_iter : option PyObj;
  buffered : list PyObj;
  exhausted : bool
}.

Definition end_of_stream : PyErr := StopAsyncIteration (bs "end of stream").

Section batch.
Context `{Python, MockPython, Interpreter W} (h1 h2 : Z → Z).

(** An argument, [None] dropped. *)
Definition given (o : option PyObj) : option PyObj :=
  match o with Some o => if is_none o then None else Some o | None => None end.

Definition batch_entry (cfg : PyBatchConfig) : py (world W) MockBatchEntry :=
  '(body_bytes, final_headers) ← with_counter
    (apply_body_and_files h1 h2 (given (a_body cfg)) (given (a_files cfg)) (a_headers cfg));
  mret (mkEntry (a_url cfg) (default (bs "GET") (a_method cfg)) (default [] final_headers) (default [] body_bytes)).

Fixpoint split_configs (self : PyBlasthttpMock) (configs : list PyBatchConfig)
    : py (world W) (list MockBatchEntry * list PyBatchConfig) :=
  match configs with
  | [] => mret ([], [])
  | cfg :: configs =>
      intercept ← should_intercept self (a_url cfg);
      if intercept : bool then
        entry ← batch_entry cfg;
        '(mocks, passed) ← split_configs self configs;
        mret (entry :: mocks, passed)
      else
        '(mocks, passed) ← split_configs self configs;
        mret (mocks, cfg :: passed)
  end.

Definition request_batch_stream (self : PyBlasthttpMock) (configs : list PyBatchConfig) (concurrency : Z)
    (rate_limit : option f64) : py (world W) MockBatchIterState :=
  '(mock_entries, passthrough_configs) ← split_configs self configs;
  passthrough_iter ← match real_client self, passthrough_configs with
                     | Some client, _ :: _ =>
                         stream ← run (open_stream client passthrough_configs concurrency rate_limit);
                         mret (Some stream)
                     | _, _ => mret None
                     end;
  mret (mkIter mock_entries passthrough_iter [] false).

Definition batch_result_obj (url : bytes) (r : exec PyErr Response) : PyBatchResult :=
  match r with
  | Ok resp => BatchResult_new url (Some resp) None
  | Err e => BatchResult_new url None (Some (err_text e))
  | Panic => BatchResult_new url None None
  end.

(** A dispatch whose failure is a value. *)
Definition caught {S A} (m : py S A) : py S (exec PyErr A) := λ s,
  match m s with (Panic, s) => (Panic, s) | (r, s) => (Ok r, s) end.
Definition dispatch_entry (entry : MockBatchEntry) : py (world W) BatchItem :=
  resp_or_err ← caught (dispatch_one (me_url entry) (me_method entry) (me_headers entry) (me_body entry));
  mret (Mocked (batch_result_obj (me_url entry) resp_or_err)).

(** [__anext__], awaited: the item or exception, and the iterator and world after. *)
Fixpoint anext (fuel : nat) : py (MockBatchIterState * world W) BatchItem := λ '(it, w),
  match fuel with
  | O => (Panic, (it, w))
  | S fuel =>
      match buffered it, pending_mocks it with
      | item :: rest, _ =>
          (Ok (Passed item), (mkIter (pending_mocks it) (passthrough_iter it) rest (exhausted it), w))
      | [], entry :: rest =>
          let '(r, w) := dispatch_entry entry w in
          (r, (mkIter rest (passthrough_iter it) [] (exhausted it), w))
      | [], [] =>
          match (if exhausted it then None else passthrough_iter it) with
          | None => (Err end_of_stream, (mkIter [] (passthrough_iter it) [] true, w))
          | Some iter =>
              match next_item iter w with
              | (inr (PyList []), w) => anext fuel (it, w)
              | (inr (PyList (first :: rest)), w) =>
                  (Ok (Passed first), (mkIter [] (passthrough_iter it) rest (exhausted it), w))
              | (inr value, w) => (Ok (Passed value), (it, w))
              | (inl (StopAsyncIteration _), w) => (Err end_of_stream, (mkIter [] (passthrough_iter it) [] true, w))
              | (inl e, w) => (Err e, (it, w))
              end
          end
      end
  end.

(** The loop of [request_batch]. *)
Fixpoint drain (fuel : nat) (out : list BatchItem) : py (MockBatchIterState * world W) (list BatchItem) := λ s,
  match fuel with
  | O => (Panic, s)
  | S fuel =>
      match anext (S fuel) s with
      | (Ok v, s) => drain fuel (out ++ [v]) s
      | (Err (StopAsyncIteration _), s) => (Ok out, s)
      | (Err e, s) => (Err e, s)
      | (Panic, s) => (Panic, s)
      end
  end.

Definition request_batch (fuel : nat) (self : PyBlasthttpMock) (configs : list PyBatchConfig) (concurrency : Z)
    (rate_limit : option f64) : py (world W) (list BatchItem) :=
  it ← request_batch_stream self configs concurrency rate_limit;
  (λ w, let '(r, (_, w)) := drain fuel [] (it, w) in (r, w)) : py (world W) (list BatchItem).
End batch.
