(* ===== verification/MockProps.v ===== *)
(** * Properties of the mock client

    Handler selection against its specification, the redirect loop, the batch
    iterator, and the lock of the selection. *)
From S2P Require Import Prelude RustStd PyValue Multipart Batch PyApi Mock.
From S2P Require Response.

(** ** Selection *)

Lemma clone_with_gil_eq h : clone_with_gil h = h.
Proof. by destruct h as [? ? []]. Qed.

Lemma chosen_first f (m : Handler → bool) l : (∀ h, h ∈ l → f h = Ok (m h)) →
  chosen f l = Ok (fst <$> list_find (λ h, m h = true) l).
Proof.
  induction l as [|h l IH]; intros Hm; [done|]. cbn [chosen list_find].
  rewrite (Hm h) by by left. cbn. rewrite IH by (intros; apply Hm; by right).
  destruct (m h); [done|]. cbn. by destruct (list_find _ l) as [[]|].
Qed.

Lemma chosen_sound f l i : chosen f l = Ok (Some i) → is_Some (l !! i).
Proof.
  revert i. induction l as [|h l IH]; intros i; [done|]. cbn [chosen].
  destruct (f h) as [[]|e|]; cbn; try done; [by intros [= <-]; exists h|].
  destruct (chosen f l) as [[j|]|e|] eqn:E; cbn; try done. intros [= <-]. by apply IH.
Qed.

Lemma chosen_no_panic f l : (∀ h, f h ≠ Panic) → chosen f l ≠ Panic.
Proof.
  intros Hf. induction l as [|h l IH]; [done|]. cbn [chosen]. pose proof (Hf h).
  destruct (f h) as [[]|e|]; cbn; try done. by destruct (chosen f l).
Qed.

Section selection.
Context `{Python, MockPython}.

(** A picked handler and the state after, for any outcome of the tests. *)
Definition moved (h : Handler) (st st' : MockState) : Prop :=
  ∃ pre post, handlers st = pre ++ h :: post ∧ st' = mkMockState (pre ++ post) (recycled st ++ [h]).

Lemma pick_cases url method rh body st :
  let '(r, st') := pick_handler url method rh body st in
  match r with
  | Ok (Some h) => moved h st st' ∨ st' = st ∧ h ∈ recycled st
  | Ok None | Err _ => st' = st
  | Panic => False ∨ chosen (λ h, handler_matches h url method rh body) (handlers st) = Panic
             ∨ chosen (λ h, handler_matches h url method rh body) (recycled st) = Panic
  end.
Proof.
  unfold pick_handler. set (f := λ h, handler_matches h url method rh body).
  destruct (chosen f (handlers st)) as [[i|]|e|] eqn:E; [|  |done|by right; left].
  - destruct (chosen_sound _ _ _ E) as [h Hh]. rewrite Hh, clone_with_gil_eq. left.
    exists (take i (handlers st)), (drop (S i) (handlers st)).
    by rewrite take_drop_middle, delete_take_drop.
  - destruct (chosen f (recycled st)) as [[i|]|e|] eqn:E'; cbn; [|done|done|by right; right].
    destruct (chosen_sound _ _ _ E') as [h Hh]. rewrite Hh. cbn. rewrite clone_with_gil_eq. right.
    split; [done|]. by eapply list_elem_of_lookup_2.
Qed.

(** When the tests of every handler have a truth value [m], a pick is the first
    registered match, which moves; failing that the first used match, which stays. *)
Definition pick_spec (m : Handler → bool) (st : MockState) : option Handler * MockState :=
  match list_find (λ h, m h = true) (handlers st) with
  | Some (i, h) => (Some h, mkMockState (delete i (handlers st)) (recycled st ++ [h]))
  | None => (head (List.filter m (recycled st)), st)
  end.

Lemma find_head m l : snd <$> list_find (λ h : Handler, m h = true) l = head (List.filter m l).
Proof.
  induction l as [|h l IH]; [done|]. cbn [list_find List.filter]. destruct (m h); [done|]. cbn.
  rewrite <- IH. by destruct (list_find _ l) as [[]|].
Qed.

Lemma pick_handler_spec m url method rh body st :
  (∀ h, h ∈ handlers st ++ recycled st → handler_matches h url method rh body = Ok (m h)) →
  pick_handler url method rh body st = (Ok (pick_spec m st).1, (pick_spec m st).2).
Proof.
  intros Hm. unfold pick_handler, pick_spec. set (f := λ h, handler_matches h url method rh body).
  rewrite (chosen_first f m (handlers st)) by (intros; apply Hm; set_solver).
  destruct (list_find _ (handlers st)) as [[i h]|] eqn:E; cbn.
  - apply list_find_Some in E as (-> & _). by rewrite clone_with_gil_eq.
  - rewrite (chosen_first f m (recycled st)) by (intros; apply Hm; set_solver). rewrite <- find_head.
    destruct (list_find _ (recycled st)) as [[i h]|] eqn:E'; cbn; [|done].
    apply list_find_Some in E' as (-> & _). cbn. by rewrite clone_with_gil_eq.
Qed.

(** ** Every history *)

(** What is done to the shared state, in the order the lock is taken: registrations
    and dispatches of any requests, tasks and callbacks interleaved. *)
Inductive mock_op :=
  | OpAddResponse (url : option PyObj) (method text : option bytes) (json content : option PyObj) (status_code : Z)
      (headers : option PyObj) (match_headers match_json : option (list (PyObj * PyObj)))
  | OpAddCallback (callback : PyObj) (url : option PyObj)
  | OpDispatch (url method : bytes) (headers : list (bytes * bytes)) (body : bytes).

Definition run_mock_op (st : MockState) (op : mock_op) : MockState :=
  match op with
  | OpAddResponse url method text json content status headers mh mj =>
      (add_response url method text json content status headers mh mj st).2
  | OpAddCallback callback url => (add_callback callback url st).2
  | OpDispatch url method headers body => (plan_dispatch url method headers body st).2
  end.
Definition run_mock : list mock_op → MockState := foldl run_mock_op MockState_new.

(** The handlers an operation registers: none for a dispatch or a failed call. *)
Definition registers (op : mock_op) : list Handler := handlers (run_mock_op MockState_new op).
Definition registered (ops : list mock_op) : list Handler := concat (map registers ops).

Lemma run_add st op : (∀ u m h b, op ≠ OpDispatch u m h b) →
  run_mock_op st op = mkMockState (handlers st ++ registers op) (recycled st).
Proof.
  intros Hop. unfold registers. destruct op as [url method text json content status headers mh mj|callback url|];
    [| done | naive_solver].
  cbn. unfold add_response, mbind, py_bind, pure.
  match goal with |- context [exec_bind ?E ?A ?B ?k (normalize_headers headers)] =>
    destruct (exec_bind E A B k (normalize_headers headers)) as [[hl b]|e|] end;
    [done|cbn; rewrite app_nil_r; by destruct st..].
Qed.

Lemma plan_dispatch_state u m h b st : (plan_dispatch u m h b st).2 = (pick_handler u m (headers_dict h) b st).2.
Proof.
  unfold plan_dispatch, mbind, py_bind. destruct (pick_handler _ _ _ _ st) as [[[hd|]|e|] st']; [|done..].
  by destruct (hd_kind hd).
Qed.

Lemma run_dispatch st u m h b : let st' := run_mock_op st (OpDispatch u m h b) in st' = st ∨ ∃ hd, moved hd st st'.
Proof.
  cbn. rewrite plan_dispatch_state. pose proof (pick_cases u m (headers_dict h) b st) as Hp.
  destruct (pick_handler u m (headers_dict h) b st) as [[[hd|]|e|] st'] eqn:E; cbn; [|by left..|].
  - destruct Hp as [Hp|[-> _]]; [right; by exists hd|by left].
  - left. unfold pick_handler in E. repeat case_match; simplify_eq/=; done.
Qed.

Lemma moved_perm h st st' : moved h st st' →
  handlers st' ++ recycled st' ≡ₚ handlers st ++ recycled st ∧ handlers st' `sublist_of` handlers st.
Proof.
  intros (pre & post & Hh & ->). cbn. rewrite Hh. split; [solve_Permutation|].
  apply sublist_app; [done|]. by apply sublist_cons.
Qed.
End selection.

Section history.
Context `{Python, MockPython}.

Lemma run_mock_invariant ops :
  handlers (run_mock ops) ++ recycled (run_mock ops) ≡ₚ registered ops ∧
  handlers (run_mock ops) `sublist_of` registered ops.
Proof.
  unfold run_mock. induction ops as [|op ops [IHp IHs]] using rev_ind; [done|].
  rewrite foldl_snoc. unfold registered in *. rewrite map_app, concat_app. cbn [map concat]. rewrite app_nil_r.
  set (st := foldl run_mock_op MockState_new ops) in *.
  assert (registers op = [] ∧ (run_mock_op st op = st ∨ ∃ h, moved h st (run_mock_op st op)) ∨
          run_mock_op st op = mkMockState (handlers st ++ registers op) (recycled st)) as [[-> Hr]| ->].
  { destruct op as [| |u m h b]; [right; by apply run_add..|]. left. split; [|apply run_dispatch].
    unfold registers. destruct (run_dispatch MockState_new u m h b) as [->|(hd & pre & post & Hh & _)]; [done|].
    by destruct pre. }
  - rewrite app_nil_r. destruct Hr as [->|(h & [Hp Hs]%moved_perm)]; [done|]. split; [by rewrite Hp|by etrans].
  - cbn. split; [rewrite <- IHp; solve_Permutation|by apply sublist_app].
Qed.

Lemma filter_none m l : list_find (λ h : Handler, m h = true) l = None ↔ List.filter m l = [].
Proof.
  pose proof (find_head m l) as Hf. destruct (list_find _ l) as [[i h]|]; cbn in Hf.
  - split; [done|]. intros E. by rewrite E in Hf.
  - split; [|done]. by destruct (List.filter m l).
Qed.

(** A found handler splits the list. *)
Lemma find_split m l i (h : Handler) : list_find (λ h, m h = true) l = Some (i, h) →
  ∃ pre post, l = pre ++ h :: post ∧ delete i l = pre ++ post ∧ m h = true ∧ List.filter m pre = [].
Proof.
  intros (Hi & Hm & Hpre)%list_find_Some. exists (take i l), (drop (S i) l).
  rewrite take_drop_middle, delete_take_drop by done. split_and!; [done..|]. apply filter_none, list_find_None.
  apply Forall_forall. intros h' [j Hj]%list_elem_of_lookup. apply lookup_take_Some in Hj as [Hj ?]. by apply (Hpre j).
Qed.

Lemma filter_nil_perm (m : Handler → bool) l l' : l ≡ₚ l' → List.filter m l = [] ↔ List.filter m l' = [].
Proof.
  induction 1 as [|h l l' _ IH|h h' l|l1 l2 l3 _ IH1 _ IH2]; cbn [List.filter]; [done| | |by etrans].
  - by destruct (m h).
  - by destruct (m h), (m h').
Qed.

(** C24: whatever was registered and requested before, by any tasks in any
    order, no handler is lost, duplicated or reordered among the unused ones.  If no
    test of a handler raises, whether a request finds a handler depends only on what
    was registered, not on what was used: it fails exactly when no registered handler
    matches.  It is answered by the first unused match in order of registration, which
    from then on is the most recently used; when only used handlers match, by the
    first of those, and nothing changes. *)
Theorem mock_history (ops : list mock_op) :
  let st := run_mock ops in
  handlers st ++ recycled st ≡ₚ registered ops ∧ handlers st `sublist_of` registered ops ∧
  ∀ url method headers body (m : Handler → bool),
    (∀ h, h ∈ registered ops → handler_matches h url method (headers_dict headers) body = Ok (m h)) →
    ∃ picked st', pick_handler url method (headers_dict headers) body st = (Ok picked, st') ∧
    (picked = None ↔ List.filter m (registered ops) = []) ∧
    ∀ h, picked = Some h → m h = true ∧ h ∈ registered ops ∧
      ((∃ pre post, handlers st = pre ++ h :: post ∧ List.filter m pre = [] ∧
          st' = mkMockState (pre ++ post) (recycled st ++ [h])) ∨
       (List.filter m (handlers st) = [] ∧ head (List.filter m (recycled st)) = Some h ∧ st' = st)).
Proof.
  intros st. destruct (run_mock_invariant ops) as [Hp Hs]. fold st in Hp, Hs. split_and!; [done|done|].
  intros url method headers body m Hm. exists (pick_spec m st).1, (pick_spec m st).2.
  split; [apply pick_handler_spec; intros h; rewrite Hp; apply Hm|]. rewrite <- (filter_nil_perm m _ _ Hp), List.filter_app.
  unfold pick_spec. destruct (list_find _ (handlers st)) as [[i h]|] eqn:E; cbn.
  - destruct (find_split _ _ _ _ E) as (pre & post & Hh & -> & Hmh & Hpre). split.
    + split; [done|]. intros [Ha _]%app_eq_nil. apply filter_none in Ha. congruence.
    + intros ? [= <-]. split_and!; [done| |by left; exists pre, post]. rewrite <- Hp, Hh. set_solver.
  - apply filter_none in E as ->. cbn. split; [by destruct (List.filter m (recycled st))|]. intros h Hh.
    assert (h ∈ List.filter m (recycled st)) as [Hin Hmh]%list_elem_of_In%filter_In by
      (destruct (List.filter m (recycled st)); [done|]; cbn in Hh; injection Hh as ->; by left).
    apply list_elem_of_In in Hin. split_and!; [done| |by right]. rewrite <- Hp. set_solver.
Qed.

(** The same request, [n] times. *)
Fixpoint picks (n : nat) (url method : bytes) (rh : list (PyObj * PyObj)) (body : bytes) (st : MockState)
    : list (exec PyErr (option Handler)) * MockState :=
  match n with
  | O => ([], st)
  | S n =>
      let '(r, st) := pick_handler url method rh body st in
      let '(rs, st) := picks n url method rh body st in (r :: rs, st)
  end.

(** Repeated, a request is answered by each unused matching handler once,
    in order of registration, and from then on always by the oldest matching one of
    those used up; handlers that do not match stay where they are. *)
Theorem mock_replay (n : nat) (url method : bytes) (rh : list (PyObj * PyObj)) (body : bytes) (st : MockState)
    (m : Handler → bool) :
  (∀ h, h ∈ handlers st ++ recycled st → handler_matches h url method rh body = Ok (m h)) →
  let fresh := List.filter m (handlers st) in
  let '(rs, st') := picks n url method rh body st in
  rs = map (λ h, Ok (Some h)) (take n fresh)
       ++ replicate (n - length fresh) (Ok (head (List.filter m (recycled st ++ fresh)))) ∧
  recycled st' = recycled st ++ take n fresh ∧
  List.filter (λ h, negb (m h)) (handlers st') = List.filter (λ h, negb (m h)) (handlers st).
Proof.
  revert st. induction n as [|n IH]; intros st Hm fresh; [by cbn; rewrite !app_nil_r|].
  unfold fresh. clear fresh.
  cbn [picks]. rewrite (pick_handler_spec m) by done. unfold pick_spec.
  destruct (list_find _ (handlers st)) as [[i h]|] eqn:E; cbn [fst snd].
  - destruct (find_split _ _ _ _ E) as (pre & post & Hh & -> & Hmh & Hpre).
    specialize (IH (mkMockState (pre ++ post) (recycled st ++ [h]))). cbn [handlers recycled] in IH.
    destruct (picks n _ _ _ _ _) as [rs st']. rewrite Hh. rewrite !List.filter_app in *. cbn [List.filter] in *.
    rewrite Hpre, Hmh in *. cbn [app negb] in *. destruct IH as (-> & -> & ->).
    { intros h' Hin. apply Hm. rewrite Hh. set_solver. }
    cbn. rewrite Hmh, <- !(assoc_L (++)). done.
  - apply filter_none in E. specialize (IH st Hm). destruct (picks n _ _ _ _ _) as [rs st'].
    rewrite E in *. destruct IH as (-> & -> & ->). rewrite !take_nil, List.filter_app. cbn.
    rewrite !app_nil_r, Nat.sub_0_r. done.
Qed.
End history.

(** ** Redirects *)

Lemma py_bind_no_panic {S A B} (m : py S A) (k : A → py S B) s :
  (m s).1 ≠ Panic → (∀ a s', (k a s').1 ≠ Panic) → ((m ≫= k) s).1 ≠ Panic.
Proof. intros Hm Hk. unfold mbind, py_bind. destruct (m s) as [[a|e|] s'] eqn:E; naive_solver. Qed.
Lemma run_no_panic {W A} (c : call W A) w : (run c w).1 ≠ Panic.
Proof. unfold run. by destruct (c w) as [[e|a] w']. Qed.
#[export] Hint Resolve run_no_panic : panic.

Section redirects.
Context `{Python, MockPython, Interpreter W}.

Lemma subset_match_no_panic expected actual : subset_match expected actual ≠ Panic.
Proof.
  induction expected as [|[k v] expected IH]; cbn [subset_match]; [done|].
  apply bind_no_panic; [auto with panic|]. intros key _. destruct (dict_get key actual); [|done].
  apply bind_no_panic; [auto with panic|]. by intros [] _.
Qed.
#[local] Hint Resolve subset_match_no_panic : panic.

Lemma handler_matches_no_panic h url method rh body : handler_matches h url method rh body ≠ Panic.
Proof.
  unfold handler_matches. apply bind_no_panic; [unfold url_matches; no_panic|]. intros u _.
  destruct u; cbn [negb]; [|done]. destruct (match hd_method h with Some _ => _ | None => _ end); [done|].
  destruct (hd_kind h) as [? ? ? mh mj|]; [|done]. apply bind_no_panic.
  { destruct mh; [apply subset_match_no_panic|done]. }
  intros [] _; cbn [negb]; [|done]. destruct mj; [|done]. unfold json_subset_match. no_panic.
Qed.

Lemma pick_handler_no_panic url method rh body st : (pick_handler url method rh body st).1 ≠ Panic.
Proof.
  pose proof (pick_cases url method rh body st) as Hp. destruct (pick_handler _ _ _ _ _) as [[| |] st']; [done..|].
  destruct Hp as [[]|[Hp|Hp]]; by apply chosen_no_panic in Hp; [|intros; apply handler_matches_no_panic].
Qed.

Lemma list_values_no_panic k items : list_values k items ≠ Panic.
Proof. induction items as [|i l IH]; cbn [list_values]; [done|]. no_panic. Qed.
Lemma dict_headers_no_panic entries : dict_headers entries ≠ Panic.
Proof.
  induction entries as [|[k v] l IH]; cbn [dict_headers]; [done|]. apply bind_no_panic; [auto with panic|]. intros k' _.
  apply bind_no_panic; [destruct v; try apply list_values_no_panic; no_panic|]. intros vs _. no_panic.
Qed.
Lemma pair_headers_no_panic entries : pair_headers entries ≠ Panic.
Proof. induction entries as [|e l IH]; cbn [pair_headers]; [done|]. no_panic. Qed.
Lemma normalize_headers_no_panic headers : normalize_headers headers ≠ Panic.
Proof.
  destruct headers as [[]|]; cbn [normalize_headers]; auto using dict_headers_no_panic, pair_headers_no_panic; done.
Qed.

Lemma plan_dispatch_no_panic url method headers body st : (plan_dispatch url method headers body st).1 ≠ Panic.
Proof.
  apply py_bind_no_panic; [apply pick_handler_no_panic|]. intros [h|] st'; [|done]. by destruct (hd_kind h).
Qed.

Lemma dispatch_one_no_panic url method headers body (w : world W) : (dispatch_one url method headers body w).1 ≠ Panic.
Proof.
  apply py_bind_no_panic.
  - unfold with_mock. pose proof (plan_dispatch_no_panic url method headers body (w_mock w)).
    by destruct (plan_dispatch url method headers body (w_mock w)).
  - intros [r|cb mr] w'; [done|]. apply py_bind_no_panic; [auto with panic|]. intros res w''. unfold pure. cbn.
    destruct res; [|done..]. cbn [callback_result_to_response]. apply bind_no_panic; [apply normalize_headers_no_panic|done].
Qed.

(** What redirects to where: the status says so and the first Location header, under
    any spelling of its name, says where, a path being one of the server that
    answered. *)
Definition names_location (h : bytes * bytes) : Prop := to_ascii_lowercase h.1 = bs "location".
Definition redirects (url : bytes) (r : Response) (to : bytes) : Prop :=
  Response.status r ∈ [301; 302; 303; 307; 308] ∧
  ∃ pre n loc post, Response.headers r = pre ++ (n, loc) :: post ∧ names_location (n, loc) ∧
    Forall (λ h, ¬ names_location h) pre ∧
    ((∃ path p, loc = ch "/" :: path ∧ urlparse url = inr p ∧ to = p_scheme p ++ bs "://" ++ p_netloc p ++ loc) ∨
     (((∃ e, urlparse url = inl e) ∨ ∀ path, loc ≠ ch "/" :: path) ∧ to = loc)).

Lemma location_named h : eq_ignore_ascii_case h.1 (bs "location") = true ↔ names_location h.
Proof. unfold eq_ignore_ascii_case, names_location. rewrite bool_decide_eq_true. done. Qed.

Lemma location_first l loc : location l = Some loc ↔
  ∃ pre n post, l = pre ++ (n, loc) :: post ∧ names_location (n, loc) ∧ Forall (λ h, ¬ names_location h) pre.
Proof.
  unfold location. induction l as [|h l IH]; cbn [List.find].
  { split; [done|]. intros ([|x pre] & n & post & [=] & _). }
  destruct (eq_ignore_ascii_case h.1 (bs "location")) eqn:E.
  - cbn. split.
    + intros [= <-]. exists [], h.1, l. split_and!; [by destruct h|by apply location_named|constructor].
    + intros ([|x pre] & n & post & Hl & Hn & Hp); [injection Hl as -> _; done|]. injection Hl as <- _.
      apply Forall_cons in Hp as [Hp _]. by apply location_named in E.
  - rewrite IH. split; intros (pre & n & post & Hl & Hn & Hp).
    + exists (h :: pre), n, post. subst l. split_and!; [done..|]. constructor; [|done]. rewrite <- location_named. congruence.
    + destruct pre as [|x pre]; injection Hl as -> ->; [apply location_named in Hn; cbn in *; congruence|].
      apply Forall_cons in Hp as [_ Hp]. by exists pre, n, post.
Qed.

Lemma resolve_to url loc to : resolve url loc = to ↔
  (∃ path p, loc = ch "/" :: path ∧ urlparse url = inr p ∧ to = p_scheme p ++ bs "://" ++ p_netloc p ++ loc) ∨
  (((∃ e, urlparse url = inl e) ∨ ∀ path, loc ≠ ch "/" :: path) ∧ to = loc).
Proof.
  unfold resolve. destruct loc as [|b path].
  { split; [intros <-; right; split; [by right|done]|]. intros [(? & ? & [=] & _)|[_ ->]]. done. }
  destruct (decide (b = ch "/")) as [->|Hb].
  - cbn [starts_with]. assert (starts_with (ch "/" :: path) (bs "/") = true) as -> by (unfold starts_with; by rewrite bool_decide_true).
    destruct (urlparse url) as [e|p]; split.
    + intros <-. right. split; [left; by exists e|done].
    + intros [(? & ? & _ & [=] & _)|[_ ->]]. done.
    + intros <-. left. by exists path, p.
    + intros [(path' & p' & [= <-] & [= <-] & ->)|[[[e [=]]|Hn] _]]; [done|]. by destruct (Hn path).
  - assert (starts_with (b :: path) (bs "/") = false) as ->.
    { unfold starts_with. rewrite bool_decide_false; [done|]. cbn. intros [= E]. by apply Hb. }
    split; [intros <-; right; split; [right; by intros ? [= -> _]|done]|].
    intros [(? & ? & [= -> _] & _)|[_ ->]]; done.
Qed.

Lemma next_url_redirects url r to : next_url url r = Some to ↔ redirects url r to.
Proof.
  unfold next_url, redirects. case_bool_decide as Hs; [|by split; [|intros [? _]]].
  split.
  - intros Hn. split; [done|]. destruct (location (Response.headers r)) as [loc|] eqn:El; [|done]. injection Hn as Hr.
    apply location_first in El as (pre & n & post & Hl & Hn & Hp). exists pre, n, loc, post. split_and!; [done..|]. by apply resolve_to.
  - intros (_ & pre & n & loc & post & Hl & Hn & Hp & Ht). apply resolve_to in Ht as <-.
    rewrite (proj2 (location_first (Response.headers r) loc)); [done|]. by exists pre, n, post.
Qed.

Lemma next_url_final url r : next_url url r = None ↔ ∀ to, ¬ redirects url r to.
Proof.
  rewrite eq_None_not_Some. split.
  - intros Hn to Hr%next_url_redirects. apply Hn. by exists to.
  - intros Hn [to Hr%next_url_redirects]. by apply (Hn to).
Qed.

(** A chain of followed redirects: from one address and world, by so many answers that
    redirect, to another. *)
Inductive walk (method : bytes) (headers : list (bytes * bytes)) (body : bytes)
    : bytes → world W → Z → bytes → world W → Prop :=
  | walk_here url w : walk method headers body url w 0 url w
  | walk_hop url w r w1 loc n url' w' :
      dispatch_one url method headers body (others w) = (Ok r, w1) → redirects url r loc →
      walk method headers body loc w1 n url' w' → walk method headers body url w (n + 1) url' w'.

(** How a chain ends, with its last answer, when [hops] redirects went before it. *)
Inductive stops (follow : bool) (max_hops hops n : Z) (url : bytes) : exec PyErr Response → exec PyErr Response → Prop :=
  | stops_unfollowed r : follow = false → n = 0 → stops follow max_hops hops n url (Ok r) (Ok r)
  | stops_final r : (∀ to, ¬ redirects url r to) → stops follow max_hops hops n url (Ok r) (Ok r)
  | stops_failed e : stops follow max_hops hops n url (Err e) (Err e)
  | stops_exceeded r loc : follow = true → hops + n = max_hops → redirects url r loc →
      stops follow max_hops hops n url (Ok r)
        (Err (RuntimeError (bs "exceeded " ++ bs (pretty max_hops) ++ bs " redirects starting from mock dispatch"))).

Lemma request_loop_walk fuel follow max_hops method headers body url hops (w : world W) :
  0 ≤ hops ≤ max_hops → max_hops < u32_max → max_hops - hops < Z.of_nat fuel →
  ∃ n url' w' answer,
    walk method headers body url w n url' w' ∧ 0 ≤ n ≤ max_hops - hops ∧ (follow = false → n = 0) ∧
    dispatch_one url' method headers body (others w') =
      (answer, (request_loop fuel follow max_hops method headers body url hops w).2) ∧
    stops follow max_hops hops n url' answer (request_loop fuel follow max_hops method headers body url hops w).1.
Proof.
  revert url hops w. induction fuel as [|fuel IH]; intros url hops w Hh Hmax Hf; [lia|].
  cbn [request_loop]. unfold mbind, py_bind.
  pose proof (dispatch_one_no_panic url method headers body (others w)) as Hnp.
  destruct (dispatch_one url method headers body (others w)) as [[r|e|] w1] eqn:E; [| |done].
  2: { exists 0, url, w, (Err e). split_and!; [constructor|lia|lia|done|done|constructor]. }
  destruct follow; cbn [negb].
  2: { exists 0, url, w, (Ok r). split_and!; [constructor|lia|lia|done|done|by constructor]. }
  destruct (next_url url r) as [loc|] eqn:El.
  2: { exists 0, url, w, (Ok r). split_and!; [constructor|lia|lia|done|done|by apply stops_final, next_url_final]. }
  apply next_url_redirects in El. rewrite u32_small by (unfold u32_max in *; lia). destruct (hops + 1 >? max_hops) eqn:Eh.
  { apply Z.gtb_lt in Eh. exists 0, url, w, (Ok r). split_and!; [constructor|lia|lia|done|done|].
    eapply stops_exceeded; [done|lia|done]. }
  rewrite Z.gtb_ltb in Eh. apply Z.ltb_ge in Eh.
  destruct (IH loc (hops + 1) w1) as (n & url' & w' & answer & Hw & Hn & _ & Hd & Hs); [lia..|].
  exists (n + 1), url', w', answer. split_and!; [by eapply walk_hop|lia|lia|done|done|].
  destruct Hs; [done|by apply stops_final|constructor|]. eapply stops_exceeded; [done|lia|done].
Qed.
End redirects.

Section request.
Context `{Python, MockPython, Interpreter W} (h1 h2 : Z → Z).

Lemma should_intercept_no_panic self url (w : world W) : (should_intercept self url w).1 ≠ Panic.
Proof.
  unfold should_intercept. destruct (should_mock_fn self); [|done].
  apply py_bind_no_panic; [unfold pure; cbn; auto with panic|]. intros. auto with panic.
Qed.
Lemma delegate_request_no_panic self url method headers body files follow max (w : world W) :
  (delegate_request self url method headers body files follow max w).1 ≠ Panic.
Proof. unfold delegate_request. destruct (real_client self); [auto with panic|done]. Qed.
Lemma with_counter_no_panic {A} (m : Z → exec PyErr A * Z) (w : world W) :
  (∀ n, (m n).1 ≠ Panic) → (with_counter m w).1 ≠ Panic.
Proof. intros Hm. unfold with_counter. specialize (Hm (w_counter w)). by destruct (m (w_counter w)). Qed.
Lemma body_from_arg_no_panic body : body_from_arg body ≠ Panic.
Proof. unfold body_from_arg. no_panic. Qed.
Lemma request_body_no_panic files body hl (w : world W) : (request_body h1 h2 files body hl w).1 ≠ Panic.
Proof.
  assert ((pure (b ← body_from_arg body; Ok (hl, b)) w : exec PyErr _ * world W).1 ≠ Panic) as Hp.
  { unfold pure. cbn. apply bind_no_panic; [apply body_from_arg_no_panic|done]. }
  unfold request_body. destruct files as [f|]; [|done]. destruct (is_none f); [done|].
  apply py_bind_no_panic; [|by intros []]. apply with_counter_no_panic. intros n. apply build_multipart_no_panic.
Qed.

Lemma fmap_no_panic {S A B} (f : A → B) (m : py S A) s : (m s).1 ≠ Panic → ((f <$> m) s).1 ≠ Panic.
Proof. unfold fmap, py_fmap. by destruct (m s) as [[] ?]. Qed.

(** C23: a mocked request ends, without a panic, within its redirect limit.
    When it is intercepted and its arguments are in order, it is a chain of dispatches
    in which every answer but the last redirects to the next address (one of the five
    statuses, and its first Location header, a path being one of the same server): it gives the
    first answer that does not redirect (the first one of all, when redirects are not
    followed), the exception of the dispatch that raised, or the limit's error after
    exactly that many redirects and one more answer that redirects.  What is excluded
    from the mock is an error when there is no real client. *)
Theorem mock_request (self : PyBlasthttpMock) (url : bytes) (method : option bytes) (headers body files : option PyObj)
    (follow : option bool) (max_redirects : option Z) (w : world W) :
  let max_hops := default 10 max_redirects in
  let '(res, w') := request h1 h2 self url method headers body files follow max_redirects w in
  0 ≤ max_hops < u32_max →
  res ≠ Panic ∧
  (∀ w1, should_intercept self url w = (Ok false, w1) → real_client self = None →
     res = Err (RuntimeError (bs "URL " ++ url ++ bs " is excluded by should_mock_fn but no real_client was provided"))) ∧
  (∀ w1 hl hl' b w2, should_intercept self url w = (Ok true, w1) → reject_body_with_files body files = Ok tt →
     normalize_headers headers = Ok hl → request_body h1 h2 files body hl w1 = (Ok (hl', b), w2) →
     ∃ n url' w3 answer r,
       walk (default (bs "GET") method) hl' b url w2 n url' w3 ∧ 0 ≤ n ≤ max_hops ∧ (follow ≠ Some true → n = 0) ∧
       dispatch_one url' (default (bs "GET") method) hl' b (others w3) = (answer, w') ∧
       stops (default false follow) max_hops 0 n url' answer r ∧ res = FromMock <$> r).
Proof.
  intros max_hops. destruct (request _ _ _ _ _ _ _ _ _ _ w) as [res w'] eqn:E. intros Hmax.
  pose proof (λ hl' b w2, request_loop_walk (mock_fuel max_hops) (default false follow) max_hops
    (default (bs "GET") method) hl' b url 0 w2 ltac:(lia) ltac:(lia) ltac:(unfold mock_fuel; lia)) as Hloop.
  assert (res = (request h1 h2 self url method headers body files follow max_redirects w).1) as Eres by by rewrite E.
  assert (w' = (request h1 h2 self url method headers body files follow max_redirects w).2) as Ew by by rewrite E.
  clear E. split_and!.
  - rewrite Eres. apply py_bind_no_panic; [apply should_intercept_no_panic|]. intros [] w1; cbn [negb].
    2: { apply fmap_no_panic, delegate_request_no_panic. }
    apply py_bind_no_panic; [unfold pure, reject_body_with_files; cbn; by case_match|]. intros _ w1'.
    apply py_bind_no_panic; [apply normalize_headers_no_panic|]. intros hl w2.
    apply py_bind_no_panic; [apply request_body_no_panic|]. intros [hl' b] w3. apply fmap_no_panic.
    destruct (Hloop hl' b w3) as (n & url' & w4 & answer & _ & _ & _ & _ & Hs). fold max_hops. by destruct Hs.
  - intros w1 Hi Hc. rewrite Eres. unfold request, mbind, py_bind. rewrite Hi. cbn [negb].
    unfold delegate_request. by rewrite Hc.
  - intros w1 hl hl' b w2 Hi Hr Hn Hb. unfold request, mbind, py_bind in Eres, Ew. rewrite Hi in Eres, Ew.
    cbn [negb] in Eres, Ew. unfold pure in Eres, Ew. rewrite Hr, Hn, Hb in Eres, Ew. fold max_hops in Eres, Ew.
    destruct (Hloop hl' b w2) as (n & url' & w3 & answer & Hw & Hle & Hf & Hd & Hs).
    unfold fmap, py_fmap in Eres, Ew. destruct (request_loop _ _ _ _ _ _ _ _ w2) as [r w4]. cbn in *. subst.
    exists n, url', w3, answer, r. split_and!; [done|lia|lia| |done|done|done].
    intros Hfol. apply Hf. by destruct follow as [[]|].
Qed.
End request.

(** ** Batches *)

Section batch.
Context `{Python, MockPython, Interpreter W} (h1 h2 : Z → Z).

(** *** What the mock is to do with a config *)

(** Whether an address is the mock's: every one is without a predicate; otherwise the
    predicate is asked about the host name that urllib finds in it, or about no name. *)
Inductive intercepts (self : PyBlasthttpMock) (url : bytes) (w : world W) : bool → world W → Prop :=
  | intercepts_all : should_mock_fn self = None → intercepts self url w true w
  | intercepts_asked f parsed name b w' :
      should_mock_fn self = Some f → urlparse url = inr parsed →
      p_hostname parsed = Some name ∨ (p_hostname parsed = None ∧ name = []) →
      call_predicate f name w = (inr b, w') → intercepts self url w b w'.

(** An argument that is not given, or is [None]. *)
Definition absent (o : option PyObj) : Prop := o = None ∨ o = Some PyNone.
(** The bytes a body stands for: none, a text's UTF-8, or a bytes-like object's. *)
Definition body_bytes_of (o : option PyObj) (b : bytes) : Prop :=
  (absent o ∧ b = []) ∨ o = Some (PyStr (Some b)) ∨
  (∃ x, o = Some x ∧ x ≠ PyNone ∧ (∀ s, x ≠ PyStr (Some s)) ∧ extract_bytes x = Some b).

(** The request that a config of the batch asks for. *)
Inductive asks_for (cfg : PyBatchConfig) (w : world W) : MockBatchEntry → world W → Prop :=
  | asks_with_body b :
      absent (a_files cfg) → body_bytes_of (a_body cfg) b →
      asks_for cfg w (mkEntry (a_url cfg) (default (bs "GET") (a_method cfg)) (default [] (a_headers cfg)) b) w
  | asks_with_files files boundary b n :
      a_files cfg = Some files → files ≠ PyNone → absent (a_body cfg) →
      build_multipart h1 h2 files (w_counter w) = (Ok (boundary, b), n) →
      let own := default [] (a_headers cfg) in
      let type := (bs "Content-Type", bs "multipart/form-data; boundary=" ++ boundary) in
      ∀ hs, (Exists (λ h, to_ascii_lowercase h.1 = bs "content-type") own ∧ hs = own ∨
             Forall (λ h, to_ascii_lowercase h.1 ≠ bs "content-type") own ∧ hs = own ++ [type]) →
      asks_for cfg w (mkEntry (a_url cfg) (default (bs "GET") (a_method cfg)) hs b) (mkWorld (w_mock w) n (w_rest w)).

(** The configs one by one: the mock's become requests, the others are kept. *)
Inductive separated (self : PyBlasthttpMock)
    : list PyBatchConfig → world W → list MockBatchEntry → list PyBatchConfig → world W → Prop :=
  | separated_none w : separated self [] w [] [] w
  | separated_mocked cfg configs w w1 e w2 mocks passed w3 :
      intercepts self (a_url cfg) w true w1 → asks_for cfg w1 e w2 → separated self configs w2 mocks passed w3 →
      separated self (cfg :: configs) w (e :: mocks) passed w3
  | separated_passed cfg configs w w1 mocks passed w3 :
      intercepts self (a_url cfg) w false w1 → separated self configs w1 mocks passed w3 →
      separated self (cfg :: configs) w mocks (cfg :: passed) w3.

Lemma should_intercept_intercepts self url w b w' :
  should_intercept self url w = (Ok b, w') ↔ intercepts self url w b w'.
Proof.
  unfold should_intercept. split.
  - destruct (should_mock_fn self) as [f|] eqn:Ef; [|by intros [= <- <-]; constructor]. unfold mbind, py_bind, pure, raised, run.
    destruct (urlparse url) as [e|parsed] eqn:Eu; [done|]. destruct (call_predicate _ _ w) as [[e|x] w1] eqn:Ec; intros [= <- <-].
    eapply intercepts_asked; [done|exact Eu| |exact Ec]. destruct (p_hostname parsed); [by left|by right].
  - intros [Hf|f parsed name x w1 Hf Hu Hn Hc]; rewrite Hf; [done|]. unfold mbind, py_bind, pure, raised, run. rewrite Hu.
    assert (default [] (p_hostname parsed) = name) as -> by (destruct Hn as [->|[-> ->]]; done). by rewrite Hc.
Qed.

Lemma coerce_body_bytes o b : (∃ x, coerce_body o = Ok x ∧ default [] x = b) ↔ body_bytes_of o b.
Proof.
  unfold coerce_body, body_bytes_of, absent. destruct o as [x|].
  - destruct (is_none x) eqn:En.
    { destruct x; try done. split; [intros (? & [= <-] & <-); left; auto|]. intros [[_ ->]|[[=]|(? & [= <-] & ? & _)]]; [by exists None|done]. }
    assert (x ≠ PyNone) as Hx by by intros ->. destruct (extract_string x) as [s|] eqn:Es.
    + destruct x as [| | | |[s'|]| | | |]; try done. cbn in Es. injection Es as ->. split.
      * intros (? & [= <-] & <-). by right; left.
      * intros [[[[=]|[=]] _]|[[= ->]|(? & [= <-] & _ & Hn & _)]]; [by eexists|by destruct (Hn s)].
    + assert (∀ s, x ≠ PyStr (Some s)) as Hs by (intros s ->; done). destruct (extract_bytes x) as [c|] eqn:Ec; split.
      * intros (? & [= <-] & <-). right; right. by exists x.
      * intros [[[[=]|[= ->]] _]|[[= ->]|(? & [= <-] & _ & _ & Hc)]]; [done|by destruct (Hs b)|]. exists (Some c). by rewrite Ec in Hc; injection Hc as ->.
      * by intros (? & ? & _).
      * intros [[[[=]|[= ->]] _]|[[= ->]|(? & [= <-] & _ & _ & Hc)]]; [done|by destruct (Hs b)|congruence].
  - split; [intros (? & [= <-] & <-); left; auto|]. intros [[_ ->]|[[=]|(? & [=] & _)]]. by exists None.
Qed.
Lemma has_content_type_spec hs :
  if has_content_type hs then Exists (λ h, to_ascii_lowercase h.1 = bs "content-type") hs
  else Forall (λ h, to_ascii_lowercase h.1 ≠ bs "content-type") hs.
Proof.
  unfold has_content_type. induction hs as [|h hs IH]; cbn [existsb]; [constructor|].
  unfold eq_ignore_ascii_case at 1. change (to_ascii_lowercase (bs "content-type")) with (bs "content-type").
  case_bool_decide; cbn [orb]; [by left|]. destruct (existsb _ hs); [by right|by constructor].
Qed.

Lemma batch_entry_asks cfg w e w' : batch_entry h1 h2 cfg w = (Ok e, w') ↔ asks_for cfg w e w'.
Proof.
  assert (∀ o, absent o ↔ given o = None) as Habs.
  { intros o. unfold absent, given. destruct o as [[]|]; cbn; naive_solver. }
  assert (∀ o b, body_bytes_of (given o) b ↔ body_bytes_of o b) as Hgiven.
  { intros o b. unfold body_bytes_of, absent, given. destruct o as [[]|]; cbn; naive_solver. }
  assert (∀ o, is_set o = negb (bool_decide (given o = None))) as Hset by (intros [[]|]; done).
  assert (∀ o, given (given o) = given o) as Hgg by (intros [[]|]; done).
  unfold batch_entry, mbind, py_bind, with_counter.
  unfold apply_body_and_files, reject_body_with_files. rewrite !Hset, !Hgg.
  destruct (given (a_files cfg)) as [f|] eqn:Ef.
  - assert (a_files cfg = Some f ∧ f ≠ PyNone) as [Hf Hfn] by (unfold given in Ef; destruct (a_files cfg) as [[]|]; cbn in Ef; simplify_eq; done).
    assert (is_none f = false) as Hnf by by destruct f.
    destruct (given (a_body cfg)) as [bd|] eqn:Eb.
    { cbn. split; [done|]. intros [b Ha _|files boundary b n Hf' _ Ha]; [apply Habs in Ha; congruence|apply Habs in Ha; congruence]. }
    cbn [andb negb bool_decide]. rewrite bool_decide_true by done. cbn [negb andb]. rewrite Hnf.
    destruct (build_multipart h1 h2 f (w_counter w)) as [[[boundary b]|x|] n] eqn:Em; cbn.
    + pose proof (has_content_type_spec (default [] (a_headers cfg))) as Hct. split.
      * intros [= <- <-]. eapply asks_with_files; [done|done|by apply Habs|exact Em|].
        destruct (has_content_type _); [by left|by right].
      * inversion 1 as [b' Ha|files boundary' b' n' Hf' _ _ Em' own type hs Hhs]; subst.
        { apply Habs in Ha. unfold given in *. congruence. }
        rewrite Hf in Hf'. injection Hf' as <-. rewrite Em in Em'. injection Em' as <- <- <-. do 3 f_equal. subst own type.
        destruct Hhs as [[Hx ->]|[Hx ->]]; destruct (has_content_type _); try done; exfalso;
          [apply Exists_exists in Hx as (h & Hin & Hh); by apply (proj1 (Forall_forall _ _) Hct h)
          |apply Exists_exists in Hct as (h & Hin & Hh); by apply (proj1 (Forall_forall _ _) Hx h)].
    + split; [done|]. inversion 1; subst; [apply Habs in H3; congruence|congruence].
    + split; [done|]. inversion 1; subst; [apply Habs in H3; congruence|congruence].
  - assert (∀ hs b c, coerce_body (given (a_body cfg)) = Ok b → hs = default [] (a_headers cfg) → c = default [] b →
      asks_for cfg w (mkEntry (a_url cfg) (default (bs "GET") (a_method cfg)) hs c) w) as Hplain.
    { intros hs b c Hc -> ->. apply asks_with_body; [by apply Habs|]. apply Hgiven, coerce_body_bytes. by exists b. }
    assert (mkWorld (w_mock w) (w_counter w) (w_rest w) = w) as Hw by by destruct w.
    rewrite (bool_decide_true (@None PyObj = None)), andb_false_r by done. cbn. rewrite Hw.
    destruct (coerce_body (given (a_body cfg))) as [b|x|] eqn:Ec; cbn.
    + split; [intros [= <- <-]; by eapply Hplain|].
      inversion 1 as [b' Ha Hb|files boundary' b' n' Hf' Hfn]; subst.
      * apply Hgiven, coerce_body_bytes in Hb as (y & Hy & <-). rewrite Hy in Ec. by injection Ec as ->.
      * exfalso. apply Hfn. unfold given in Ef. rewrite Hf' in Ef. cbn in Ef. by destruct files.
    + split; [done|]. inversion 1 as [b' Ha Hb|files boundary' b' n' Hf' Hfn]; subst.
      * apply Hgiven, coerce_body_bytes in Hb as (y & Hy & _). congruence.
      * exfalso. apply Hfn. unfold given in Ef. rewrite Hf' in Ef. cbn in Ef. by destruct files.
    + split; [done|]. inversion 1 as [b' Ha Hb|files boundary' b' n' Hf' Hfn]; subst.
      * apply Hgiven, coerce_body_bytes in Hb as (y & Hy & _). congruence.
      * exfalso. apply Hfn. unfold given in Ef. rewrite Hf' in Ef. cbn in Ef. by destruct files.
Qed.

Lemma split_configs_separated self configs w mocks passed w' :
  split_configs h1 h2 self configs w = (Ok (mocks, passed), w') ↔ separated self configs w mocks passed w'.
Proof.
  split.
  - revert w mocks passed w'. induction configs as [|cfg configs IH]; intros w mocks passed w'; cbn [split_configs].
    { intros [= <- <- <-]. constructor. }
    unfold mbind, py_bind. destruct (should_intercept self (a_url cfg) w) as [[[]|e|] w1] eqn:Ei; [| |done..];
      apply should_intercept_intercepts in Ei.
    + destruct (batch_entry h1 h2 cfg w1) as [[e| |] w2] eqn:Ee; [|done..]. apply batch_entry_asks in Ee.
      destruct (split_configs h1 h2 self configs w2) as [[[ms ps]| |] w3] eqn:Es; [|done..]. intros [= <- <- <-].
      eapply separated_mocked; [exact Ei|exact Ee|by apply IH].
    + destruct (split_configs h1 h2 self configs w1) as [[[ms ps]| |] w3] eqn:Es; [|done..]. intros [= <- <- <-].
      eapply separated_passed; [exact Ei|by apply IH].
  - induction 1 as [|cfg configs w w1 e w2 mocks passed w3 Hi He _ IH|cfg configs w w1 mocks passed w3 Hi _ IH]; [done|..];
      cbn [split_configs]; unfold mbind, py_bind; rewrite (proj2 (should_intercept_intercepts _ _ _ _ _) Hi).
    + by rewrite (proj2 (batch_entry_asks _ _ _ _) He), IH.
    + by rewrite IH.
Qed.

(** The requests of a batch, dispatched one after another: each has a result under its
    own URL, with the answer, as it was made, or the text of what was raised. *)
Inductive dispatched : list MockBatchEntry → world W → list BatchItem → world W → Prop :=
  | dispatched_none w : dispatched [] w [] w
  | dispatched_answered e entries w w1 resp items w' :
      dispatch_one (me_url e) (me_method e) (me_headers e) (me_body e) w = (Ok resp, w1) → dispatched entries w1 items w' →
      dispatched (e :: entries) w (Mocked (mkPyBatchResult (me_url e) (Some (Response.clone resp)) None) :: items) w'
  | dispatched_raised e entries w w1 x items w' :
      dispatch_one (me_url e) (me_method e) (me_headers e) (me_body e) w = (Err x, w1) → dispatched entries w1 items w' →
      dispatched (e :: entries) w (Mocked (mkPyBatchResult (me_url e) None (Some (err_text x))) :: items) w'.

Lemma dispatched_total entries : ∀ w, ∃ items w', dispatched entries w items w'.
Proof.
  induction entries as [|e entries IH]; intros w; [by exists [], w; constructor|].
  pose proof (dispatch_one_no_panic (me_url e) (me_method e) (me_headers e) (me_body e) w) as Hp.
  destruct (dispatch_one _ _ _ _ w) as [[resp|x|] w1] eqn:E; [| |done]; destruct (IH w1) as (items & w' & Hd);
    eexists _, w'; [by eapply dispatched_answered|by eapply dispatched_raised].
Qed.

(** What a value of the real client's stream stands for. *)
Definition items_of (v : PyObj) : list PyObj := match v with PyList l => l | _ => [v] end.

(** The real client's stream yields these values and stops. *)
Fixpoint yields (iter : PyObj) (vs : list PyObj) (w w' : world W) : Prop :=
  match vs with
  | [] => ∃ msg, next_item iter w = (inl (StopAsyncIteration msg), w')
  | v :: vs => ∃ w1, next_item iter w = (inr v, w1) ∧ yields iter vs w1 w'
  end.

Lemma drain_mocks entries w items w' : dispatched entries w items w' → ∀ fuel out iter,
  drain (length entries + fuel) out (mkIter entries iter [] false, w) = drain fuel (out ++ items) (mkIter [] iter [] false, w').
Proof.
  induction 1 as [|e entries w w1 resp items w' Hd _ IH|e entries w w1 x items w' Hd _ IH]; intros fuel out iter;
    cbn [length plus]; [by rewrite app_nil_r|..];
    cbn [drain anext buffered pending_mocks passthrough_iter exhausted]; unfold dispatch_entry, caught, mbind, py_bind;
    rewrite Hd; cbn; rewrite IH; by rewrite <- (assoc_L (++)).
Qed.

Lemma drain_buffered buf : ∀ fuel out iter ex (w : world W),
  drain (length buf + fuel) out (mkIter [] iter buf ex, w) = drain fuel (out ++ map Passed buf) (mkIter [] iter [] ex, w).
Proof.
  induction buf as [|o buf IH]; intros fuel out iter ex w; cbn [length plus]; [by rewrite app_nil_r|].
  cbn [drain anext buffered pending_mocks passthrough_iter exhausted]. rewrite IH. by rewrite <- (assoc_L (++)).
Qed.

(** More rounds than needed change nothing. *)
Lemma anext_more fuel s : (anext fuel s).1 ≠ Panic → ∀ fuel', (fuel ≤ fuel')%nat → anext fuel' s = anext fuel s.
Proof.
  revert s. induction fuel as [|fuel IH]; intros [it w] Hn fuel' Hle; [done|]. destruct fuel' as [|fuel']; [lia|].
  cbn [anext] in *. destruct (buffered it); [|done]. destruct (pending_mocks it); [|done].
  destruct (if exhausted it then None else passthrough_iter it); [|done].
  destruct (next_item p w) as [[e|v] w1]; [done|]. destruct v as [| | | | | |[|v l]| |]; try done. apply IH; [done|lia].
Qed.

Lemma anext_yields iter vs : ∀ (w w' : world W), yields iter vs w w' →
  (∃ w1 pre v post, vs = pre ++ v :: post ∧ items_of v ≠ [] ∧ concat (map items_of pre) = [] ∧ yields iter post w1 w' ∧
     ∃ first rest, items_of v = first :: rest ∧
     ∀ fuel, (length vs < fuel)%nat → anext fuel (mkIter [] (Some iter) [] false, w) =
               (Ok (Passed first), (mkIter [] (Some iter) rest false, w1))) ∨
  (concat (map items_of vs) = [] ∧
     ∀ fuel, (length vs < fuel)%nat → anext fuel (mkIter [] (Some iter) [] false, w) =
               (Err end_of_stream, (mkIter [] (Some iter) [] true, w'))).
Proof.
  induction vs as [|v vs IH]; intros w w' Hy; cbn [yields] in Hy.
  - right. destruct Hy as [msg Hy]. split; [done|]. intros [|fuel] Hf; [cbn in Hf; lia|]. cbn. by rewrite Hy.
  - destruct Hy as (w1 & Hn & Hy). destruct (decide (items_of v = [])) as [Hv|Hv].
    + destruct (IH w1 w' Hy) as [(w2 & pre & v' & post & -> & Hv' & Hpre & Hpost & first & rest & Hi & Ha)|[Hc Ha]].
      * left. exists w2, (v :: pre), v', post. cbn [map concat app]. rewrite Hv. split_and!; [done..|].
        exists first, rest. split; [done|]. intros [|fuel] Hf; [lia|]. cbn [anext buffered pending_mocks passthrough_iter exhausted].
        rewrite Hn. destruct v as [| | | | | |[]| |]; try done. apply Ha. cbn in Hf. lia.
      * right. cbn [map concat]. rewrite Hv. split; [done|]. intros [|fuel] Hf; [lia|].
        cbn [anext buffered pending_mocks passthrough_iter exhausted].
        rewrite Hn. destruct v as [| | | | | |[]| |]; try done. apply Ha. cbn in Hf. lia.
    + left. exists w1, [], v, vs. split_and!; [done..|]. destruct (items_of v) as [|first rest] eqn:Ei; [done|].
      exists first, rest. split; [done|]. intros [|fuel] Hf; [lia|]. cbn [anext buffered pending_mocks passthrough_iter exhausted].
      rewrite Hn. by destruct v as [| | | | | |[]| |]; cbn in Ei; simplify_eq.
Qed.

Lemma drain_yields iter vs : ∀ fuel out (w w' : world W), yields iter vs w w' →
  (length vs + length (concat (map items_of vs)) + 1 < fuel)%nat →
  drain fuel out (mkIter [] (Some iter) [] false, w) =
    (Ok (out ++ map Passed (concat (map items_of vs))), (mkIter [] (Some iter) [] true, w')).
Proof.
  induction vs as [vs IH] using (induction_ltof1 _ length). intros fuel out w w' Hy Hf.
  destruct fuel as [|fuel]; [lia|]. cbn [drain].
  destruct (anext_yields iter vs w w' Hy) as [(w1 & pre & v & post & -> & _ & Hpre & Hpost & first & rest & Hi & Ha)|[Hc Ha]].
  - rewrite Ha by (rewrite length_app in *; cbn in *; lia). rewrite map_app, concat_app, Hpre in Hf. cbn [map concat app] in Hf.
    rewrite Hi in Hf. rewrite !length_app in Hf. cbn [length] in Hf.
    replace fuel with (length rest + (fuel - length rest))%nat by lia.
    rewrite drain_buffered, (IH post) with (w' := w'); [|unfold ltof; rewrite length_app; cbn; lia|done|lia].
    rewrite map_app, concat_app, Hpre. cbn [map concat app]. rewrite Hi. cbn [app map].
    rewrite map_app, <- !(assoc_L (++)). done.
  - rewrite Ha by lia. rewrite Hc. cbn. by rewrite app_nil_r.
Qed.

Lemma drain_no_stream fuel out (w : world W) : (0 < fuel)%nat →
  drain fuel out (mkIter [] None [] false, w) = (Ok out, (mkIter [] None [] true, w)).
Proof. intros Hf. destruct fuel as [|fuel]; [lia|]. done. Qed.

(** Each config goes to one side, in order. *)
Lemma separated_sides self configs w mocks passed w' : separated self configs w mocks passed w' →
  map me_url mocks ++ map a_url passed ≡ₚ map a_url configs ∧
  map me_url mocks `sublist_of` map a_url configs ∧ passed `sublist_of` configs.
Proof.
  induction 1 as [|cfg configs w w1 e w2 mocks passed w3 Hi He _ (Hp & Hm & Hs)|cfg configs w w1 mocks passed w3 Hi _ (Hp & Hm & Hs)]; [done|..]; cbn.
  - assert (me_url e = a_url cfg) as -> by by destruct He.
    split_and!; [by rewrite Hp|by apply sublist_skip|by apply sublist_cons].
  - split_and!; [|by apply sublist_cons|by apply sublist_skip]. rewrite <- Hp. solve_Permutation.
Qed.

(** C25: [request_batch] gives one result for each config that the mock is to answer, in
    the order of the configs, and then everything the real client's stream yields, lists
    flattened, in its order, when that stream ends.  A config is the mock's if there is no
    predicate or the predicate accepts its host; then it is dispatched with its own
    method (GET if it has none), headers and body or files, and its result carries the
    answer or the text of the exception.  The others are passed on, untouched and in
    order, in one stream of the real client.  But with no real client they are dropped:
    there are results for the mock's configs only, and no error. *)
Theorem mock_batch_complete (self : PyBlasthttpMock) (configs : list PyBatchConfig) (concurrency : Z)
    (rate_limit : option f64) (mocks : list MockBatchEntry) (passed : list PyBatchConfig) (w w1 : world W) :
  separated self configs w mocks passed w1 →
  map me_url mocks ++ map a_url passed ≡ₚ map a_url configs ∧ map me_url mocks `sublist_of` map a_url configs ∧
  passed `sublist_of` configs ∧
  (real_client self = None ∨ passed = [] → ∃ items w', dispatched mocks w1 items w' ∧
     ∀ fuel, (length mocks < fuel)%nat →
       request_batch h1 h2 fuel self configs concurrency rate_limit w = (Ok items, w')) ∧
  (∀ client stream w2, real_client self = Some client → passed ≠ [] →
     open_stream client passed concurrency rate_limit w1 = (inr stream, w2) →
     ∃ items w3, dispatched mocks w2 items w3 ∧
     ∀ vs w4 fuel, yields stream vs w3 w4 → (length mocks + length vs + length (concat (map items_of vs)) + 1 < fuel)%nat →
       request_batch h1 h2 fuel self configs concurrency rate_limit w =
         (Ok (items ++ map Passed (concat (map items_of vs))), w4)).
Proof.
  intros Hsep. destruct (separated_sides _ _ _ _ _ _ Hsep) as (Hp & Hm & Hsub).
  apply split_configs_separated in Hsep as Hs. split_and!; [done..| |].
  - intros Hc. destruct (dispatched_total mocks w1) as (items & w' & Hd). exists items, w'. split; [done|]. intros fuel Hf.
    unfold request_batch, request_batch_stream, mbind, py_bind. rewrite Hs.
    replace (match real_client self with Some _ => _ | None => _ end) with (mret None : py (world W) (option PyObj))
      by (destruct Hc as [->| ->]; [done|by destruct (real_client self)]).
    cbn. replace fuel with (length mocks + (fuel - length mocks))%nat by lia.
    rewrite (drain_mocks _ _ _ _ Hd). by rewrite drain_no_stream by lia.
  - intros client stream w2 Hc Hne Ho. destruct (dispatched_total mocks w2) as (items & w3 & Hd). exists items, w3.
    split; [done|]. intros vs w4 fuel Hy Hf. unfold request_batch, request_batch_stream, mbind, py_bind.
    rewrite Hs, Hc. destruct passed as [|p passed]; [done|]. unfold run at 1. rewrite Ho. cbn [mret py_ret].
    replace fuel with (length mocks + (fuel - length mocks))%nat by lia.
    rewrite (drain_mocks _ _ _ _ Hd). by rewrite (drain_yields stream vs) with (w' := w4) by (done || lia).
Qed.
End batch.

(** ** The lock of [pick_handler]

    Threads that pick a handler: each runs Python code and so holds the GIL; it waits for
    the mutex with the GIL in its hand; and a test that runs Python code may hand the GIL
    over while the mutex is held. *)
Inductive phase := Outside | Waiting | Testing | Suspended | Done.
Record locks := mkLocks { gil : option nat; mutex : option nat; phase_of : nat → phase }.
Definition set_phase (t : nat) (p : phase) (f : nat → phase) : nat → phase := λ u, if decide (u = t) then p else f u.

Inductive lock_step : locks → locks → Prop :=
  | take_gil t m f : f t = Outside → lock_step (mkLocks None m f) (mkLocks (Some t) m f)
  | call_pick t m f : f t = Outside → lock_step (mkLocks (Some t) m f) (mkLocks (Some t) m (set_phase t Waiting f))
  | lock_mutex t f : f t = Waiting → lock_step (mkLocks (Some t) None f) (mkLocks (Some t) (Some t) (set_phase t Testing f))
  | hand_over t m f : f t = Testing → lock_step (mkLocks (Some t) m f) (mkLocks None m (set_phase t Suspended f))
  | come_back t m f : f t = Suspended → lock_step (mkLocks None m f) (mkLocks (Some t) m (set_phase t Testing f))
  | unlock t m f : f t = Testing → lock_step (mkLocks (Some t) m f) (mkLocks None None (set_phase t Done f)).

Definition locks_init : locks := mkLocks None None (λ _, Outside).
Definition under_lock (p : phase) : Prop := p = Testing ∨ p = Suspended.
Definition exclusive (s : locks) : Prop := ∀ t, under_lock (phase_of s t) ↔ mutex s = Some t.

Lemma set_phase_under t p f u : under_lock (set_phase t p f u) ↔ (u = t ∧ under_lock p) ∨ (u ≠ t ∧ under_lock (f u)).
Proof. unfold set_phase. case_decide; naive_solver. Qed.

Lemma lock_step_exclusive s s' : lock_step s s' → exclusive s → exclusive s'.
Proof.
  intros Hst Hx t. specialize (Hx t) as Ht.
  destruct Hst as [u m f Hu|u m f Hu|u f Hu|u m f Hu|u m f Hu|u m f Hu]; pose proof (Hx u) as Hxu; cbn in *;
    rewrite ?set_phase_under; unfold under_lock in *; rewrite ?Hu in *; destruct (decide (t = u)) as [->|]; naive_solver.
Qed.

(** Between the first test of one thread and its pick no other thread is under the lock. *)
Lemma pick_exclusive s : rtc lock_step locks_init s → exclusive s.
Proof.
  intros Hr. assert (exclusive locks_init) as Hi by (intros t; unfold under_lock; cbn; naive_solver).
  induction Hr; eauto using lock_step_exclusive.
Qed.

(** A test that hands over the GIL to a thread which then waits for the mutex: neither
    goes on, ever. *)
Lemma pick_deadlock : ∃ s, rtc lock_step locks_init s ∧ phase_of s 0%nat = Suspended ∧ phase_of s 1%nat = Waiting ∧
  ∀ s', ¬ lock_step s s'.
Proof.
  set (f := set_phase 1%nat Waiting (set_phase 0%nat Suspended (set_phase 0%nat Testing (set_phase 0%nat Waiting (λ _, Outside))))).
  exists (mkLocks (Some 1%nat) (Some 0%nat) f). split_and!; [|done|done|].
  - eapply rtc_l; [by apply (take_gil 0)|]. eapply rtc_l; [by apply call_pick|]. eapply rtc_l; [by apply lock_mutex|].
    eapply rtc_l; [by apply hand_over|]. eapply rtc_l; [by apply (take_gil 1)|]. eapply rtc_l; [by apply call_pick|]. apply rtc_refl.
  - intros s' Hs. inversion Hs; subst; done.
Qed.

(** ** Assigned attributes *)

(** A callback may change the [MockResponse] it made, any number of times: the answer has
    the status and the text assigned last. *)
Lemma assigned_answer `{Python, MockPython} (m : MockResponse) (l : list mock_attribute) url method r :
  callback_result_to_response (ReturnsMock (foldl assign m l)) url method = Ok r →
  Response.status r = foldl (λ z a, match a with SetStatusCode z' => z' | _ => z end) (ms_status_code m) l ∧
  Response.body_bytes r = foldl (λ t a, match a with SetText t' => t' | _ => t end) (ms_text m) l.
Proof.
  intros Hr. cbn in Hr. inv_bind. cbn. clear. revert m.
  induction l as [|a l IH]; intros m; [done|]. cbn. destruct (IH (assign m a)) as [-> ->]. by destruct a.
Qed.
