(* ===== verification/MockExamples.v ===== *)
(** * The mock client on concrete inputs

    A small interpreter and, for each theorem of [MockProps] and the batch theorem of
    [PyApi], an instance where its hypotheses hold. *)
From S2P Require Import Prelude RustStd ClientError Config Batch Dispatch PyValue Multipart PyApi Mock MockProps.
From S2P Require Response.

#[local] Instance sample_python : Python := {
  py_str _ := inr [];
  conversion_error _ := 0;
  extract_bytes o := match o with PyBytes b => Some b | _ => None end
}.

(** A pattern matches everything; texts are equal when they are; nothing parses as JSON;
    an address is one of host [h] or, behind [http://r], of host [r]. *)
#[local] Instance sample_mock : MockPython := {
  re_search _ _ := inr true;
  py_eq a b := inr (bool_decide (extract_string a = extract_string b));
  json_dumps _ := inr (bs "{}");
  json_loads _ := None;
  urlparse url := let name := if starts_with url (bs "http://r") then bs "r" else bs "h" in
    inr (mkParsedUrl (bs "http") name (Some name));
  err_text _ := bs "error"
}.

(** A callback redirects to [/a]; the predicate accepts every host but [r]; the
    real client's stream, object 7, yields a list of two and an empty one. *)
#[local] Instance sample_interpreter : Interpreter Z := {
  call_callback _ _ w := (inr (ReturnsMock (mkMockResponse 302 [] (PyList [PyTuple [PyStr (Some (bs "Location")); PyStr (Some (bs "/a"))]]))), w);
  call_predicate _ host w := (inr (negb (bool_decide (host = bs "r"))), w);
  client_request _ _ _ w := (inr PyNone, w);
  open_stream _ _ _ _ w := (inr (PyOther 7), w);
  next_item _ w :=
    (if decide (w_rest w = 0) then inr (PyList [PyInt 1; PyInt 2])
     else if decide (w_rest w = 1) then inr (PyList []) else inl (StopAsyncIteration []),
     mkWorld (w_mock w) (w_counter w) (w_rest w + 1));
  others w := w
}.

Definition sample_ops : list mock_op :=
  [OpAddResponse (Some (PyStr (Some (bs "http://h/a")))) None (Some (bs "one")) None None 200 None None None;
   OpAddCallback (PyOther 1) (Some (PyStr (Some (bs "http://h/"))));
   OpDispatch (bs "http://h/") (bs "GET") [] []].
Definition sample_world : world Z := mkWorld (run_mock sample_ops) 0 0.

Example sample_redirect : exists r w,
  request (λ _, 0) (λ _, 0) (mkMock None None) (bs "http://h/") None None None None (Some true) None sample_world = (Ok (FromMock r), w) ∧
  Response.url r = bs "http://h/a" ∧ Response.body_bytes r = bs "one" ∧ length (recycled (w_mock w)) = 2%nat.
Proof. eexists _, _. split; [vm_compute; reflexivity|]. done. Qed.

(** Handlers whose URL is a text. *)
Definition for_url (url : bytes) (h : Handler) : bool :=
  match hd_url h with Some (PyStr (Some u)) => bool_decide (u = url) | _ => true end.

Lemma mock_history_witness :
  handlers (run_mock sample_ops) ++ recycled (run_mock sample_ops) ≡ₚ registered sample_ops ∧
  handlers (run_mock sample_ops) `sublist_of` registered sample_ops ∧
  ∃ h, (pick_handler (bs "http://h/") (bs "GET") (headers_dict []) [] (run_mock sample_ops)).1 = Ok (Some h) ∧
    hd_kind h = HCallback (PyOther 1) ∧ h ∈ registered sample_ops.
Proof.
  pose proof (mock_history sample_ops) as (Hp & Hs & Hpick). split_and!; [exact Hp|exact Hs|].
  destruct (Hpick (bs "http://h/") (bs "GET") [] [] (for_url (bs "http://h/"))) as (picked & st' & He & Hn & Hh).
  { intros h Hin. vm_compute in Hin. repeat (apply elem_of_cons in Hin as [->|Hin]; [vm_compute; reflexivity|]).
    by apply not_elem_of_nil in Hin. }
  vm_compute in He. destruct picked as [h|]; [|discriminate He]. injection He as <- <-.
  eexists. split; [vm_compute; reflexivity|]. split; [reflexivity|]. by apply (Hh _ eq_refl).
Defined.

Definition static (body : bytes) : Handler := mkHandler None None (HResponse 200 body [] None None).

Lemma mock_replay_witness :
  (picks 3 (bs "u") (bs "GET") [] [] (mkMockState [static [1]; static [2]] [])).1 =
    [Ok (Some (static [1])); Ok (Some (static [2])); Ok (Some (static [1]))].
Proof.
  pose proof (mock_replay 3 (bs "u") (bs "GET") [] [] (mkMockState [static [1]; static [2]] []) (λ _, true)) as Hr.
  cbn zeta in Hr. destruct (picks _ _ _ _ _ _) as [rs st']. destruct Hr as (-> & _); [|reflexivity].
  intros h Hh. cbn in Hh. repeat (apply elem_of_cons in Hh as [->|Hh]; [reflexivity|]). by apply elem_of_nil in Hh.
Defined.

Lemma mock_request_witness :
  (request (λ _, 0) (λ _, 0) (mkMock None None) (bs "http://h/") None None None None (Some true) None sample_world).1 ≠ Panic.
Proof.
  pose proof (mock_request (λ _, 0) (λ _, 0) (mkMock None None) (bs "http://h/") None None None None (Some true) None
    sample_world) as Hr.
  cbn zeta in Hr. destruct (request _ _ _ _ _ _ _ _ _ _ _) as [res w]. apply Hr. split; [|reflexivity]. vm_compute. discriminate.
Defined.

Definition sample_config (url : bytes) : PyBatchConfig :=
  mkArgs url None None None None None None None None None None None None None None None None None None None None None.

(** One config for the mock and one for the real client, with and without a client. *)
Definition two_configs : list PyBatchConfig := [sample_config (bs "http://h/a"); sample_config (bs "http://r/x")].
Definition sample_entry : MockBatchEntry := mkEntry (bs "http://h/a") (bs "GET") [] [].

Lemma two_separated client :
  separated (λ _, 0) (λ _, 0) (mkMock client (Some (PyOther 8))) two_configs sample_world [sample_entry]
    [sample_config (bs "http://r/x")] sample_world.
Proof.
  eapply separated_mocked; [| |eapply separated_passed; [|constructor]].
  - eapply intercepts_asked; [reflexivity|vm_compute; reflexivity|by left|vm_compute; reflexivity].
  - apply asks_with_body; [by left|left; split; [by left|done]].
  - eapply intercepts_asked; [reflexivity|vm_compute; reflexivity|by left|vm_compute; reflexivity].
Qed.

Lemma mock_batch_complete_witness :
  (∃ r w, (request_batch (λ _, 0) (λ _, 0) 20 (mkMock (Some (PyOther 9)) (Some (PyOther 8))) two_configs 50 None sample_world) =
     (Ok [Mocked r; Passed (PyInt 1); Passed (PyInt 2)], w) ∧ br_url r = bs "http://h/a") ∧
  (∃ r w, request_batch (λ _, 0) (λ _, 0) 20 (mkMock None (Some (PyOther 8))) two_configs 50 None sample_world =
     (Ok [Mocked r], w) ∧ br_url r = bs "http://h/a").
Proof.
  split.
  - destruct (mock_batch_complete (λ _, 0) (λ _, 0) _ _ 50 None _ _ _ _ (two_separated (Some (PyOther 9))))
      as (_ & _ & _ & _ & H).
    destruct (H (PyOther 9) (PyOther 7) sample_world eq_refl ltac:(done) eq_refl) as (items & w3 & Hd & Hr).
    inversion Hd as [|? ? ? w1 resp ? ? Hone Hrest|? ? ? ? ? ? ? Hone]; subst;
      [|vm_compute in Hone; discriminate Hone].
    vm_compute in Hone. injection Hone as <- <-. inversion Hrest; subst. eexists _, _. split.
    + apply (Hr [PyList [PyInt 1; PyInt 2]; PyList []]); [|cbn; lia].
      eexists. split; [vm_compute; reflexivity|]. eexists. split; [vm_compute; reflexivity|]. eexists. vm_compute. reflexivity.
    + reflexivity.
  - destruct (mock_batch_complete (λ _, 0) (λ _, 0) _ _ 50 None _ _ _ _ (two_separated None)) as (_ & _ & _ & H & _).
    destruct H as (items & w' & Hd & Hr); [by left|].
    inversion Hd as [|? ? ? w1 resp ? ? Hone Hrest|? ? ? ? ? ? ? Hone]; subst;
      [|vm_compute in Hone; discriminate Hone].
    inversion Hrest; subst. eexists _, _. split; [apply Hr; cbn; lia|reflexivity].
Defined.

(** One configuration, a client that always times out, and the batch that ran it. *)
Definition sample_send (c : RequestConfig) (o : exec ClientError PyApi.Response) : Prop := o = Err (err_timeout (bs "t")).
#[local] Existing Instance hyper_client.

Lemma sample_reach (c : RequestConfig) : send_batch_reach (H := hyper_client sample_send) [c] 1
  (mkBS [] [(c, Finished (Err (err_timeout (bs "t"))))] 1).
Proof.
  eapply rtc_l; [apply batch_dispatch|]. cbn [app].
  eapply rtc_l; [apply (batch_start [] [] c []); lia|].
  eapply rtc_l; [by apply (batch_finish [] [] c [] _ (Err (err_timeout (bs "t"))))|]. apply rtc_refl.
Qed.

Lemma request_batch_agrees_witness : exists config n,
  into_request_configs (λ _, 0) (λ _, 0) [sample_config (bs "http://h/")] 0 = (Ok [config], n) ∧
  ∀ results, send_batch_results (H := hyper_client sample_send) (bs "p")
    (mkBS [] [(config, Finished (Err (err_timeout (bs "t"))))] 1) = Some results → length results = 1%nat.
Proof.
  destruct (into_request_configs (λ _, 0) (λ _, 0) [sample_config (bs "http://h/")] 0) as [[[|config [|]]|e|] n] eqn:E;
    try (vm_compute in E; discriminate E).
  exists config, n. split; [done|]. intros results Hr.
  apply (request_batch_agrees (λ _, 0) (λ _, 0) sample_send (bs "p") [sample_config (bs "http://h/")] 0 n 1 [config]
    (mkBS [] [(config, Finished (Err (err_timeout (bs "t"))))] 1) results); [lia|done|apply sample_reach|done].
Defined.
