(* ===== verification/PyTexts.v ===== *)
(** * What the Python module shows: texts and names (src/python.rs, src/mock.rs)

    The [__repr__]s that quote other texts, with the standard library's [Debug] format
    of a string, and the tables of names that the module and its submodules register. *)
From S2P Require Import Prelude RustStd Utf8 Frame PyValue Headers PyApi.
From S2P Require Hpack.
From S2P Require Import Response PyResponses PyH2 Mock.

(** ** [{:?}] of a string *)

(** A hexadecimal number without leading zeros, below 256. *)
Definition short_hex (b : Z) : bytes :=
  let digit d := if d <? 10 then 48 + d else 87 + d in
  if b <? 16 then [digit b] else [digit (b / 16); digit (b mod 16)].

Definition escape_ascii (b : Z) : bytes :=
  if b =? 0 then bs "\0" else if b =? 9 then bs "\t" else if b =? 10 then bs "\n" else if b =? 13 then bs "\r"
  else if b =? 34 then [92; 34] else if b =? 92 then [92; 92]
  else if (b <? 32) || (b =? 127) then bs "\u{" ++ short_hex b ++ bs "}"
  else [b].

Section debug.
(** What becomes of a character outside ASCII is in the standard library's Unicode
    tables: itself if it is printable, or an escape. *)
Context (debug_wide : bytes → bytes).

Fixpoint debug_chars (skip : nat) (s : bytes) : bytes :=
  match s with
  | [] => []
  | b :: s' =>
      match skip with
      | S skip => debug_chars skip s'
      | O =>
          if b <? 128 then escape_ascii b ++ debug_chars 0 s'
          else let n := pred (first_char b s').2 in debug_wide (b :: take n s') ++ debug_chars n s'
      end
  end.
Definition debug_str (s : bytes) : bytes := [34] ++ debug_chars 0 s ++ [34].
Definition debug_option (o : option bytes) : bytes :=
  match o with Some s => bs "Some(" ++ debug_str s ++ bs ")" | None => bs "None" end.

(** [[a, b]] and [(a, b)]. *)
Fixpoint commas (l : list bytes) : bytes :=
  match l with [] => [] | [x] => x | x :: l => x ++ bs ", " ++ commas l end.
Definition debug_vec {A} (show : A → bytes) (l : list A) : bytes := bs "[" ++ commas (map show l) ++ bs "]".
Definition debug_pair (p : bytes * bytes) : bytes := bs "(" ++ debug_str p.1 ++ bs ", " ++ debug_str p.2 ++ bs ")".

(** ** The texts of the objects *)

Definition cert_repr (c : PyCertInfo) : bytes :=
  bs "CertInfo(cn=" ++ debug_option (common_name c) ++ bs ", sans=" ++ debug_vec debug_str (sans c) ++ bs ")".
Definition hop_repr (h : PyRedirectHop) : bytes :=
  bs "RedirectHop(url='" ++ hop_url h ++ bs "', status=" ++ dec (hop_status h) ++ bs ", peer_ip=" ++
  debug_option (hop_peer_ip h) ++ bs ")".
Definition headers_repr (h : PyHeaders) : bytes := bs "Headers(" ++ debug_vec debug_pair (h_list h) ++ bs ")".
Definition batch_result_repr (r : PyBatchResult) : bytes :=
  match br_response r with
  | Some resp => bs "BatchResult(url='" ++ br_url r ++ bs "', status=" ++ dec (status resp) ++ bs ")"
  | None => bs "BatchResult(url='" ++ br_url r ++ bs "', error=" ++ debug_option (br_error r) ++ bs ")"
  end.
Definition h2_header_repr (h : Hpack.Header) : bytes :=
  bs "Header(name=" ++ debug_str (from_utf8_lossy (Hpack.name h)) ++ bs ", value=" ++
  debug_str (from_utf8_lossy (Hpack.value h)) ++ bs ")".
Definition mock_request_repr (r : MockRequest) : bytes :=
  bs "MockRequest(method='" ++ mq_method r ++ bs "', url='" ++ mq_url r ++ bs "')".
Definition mock_response_repr (r : MockResponse) : bytes := bs "MockResponse(status_code=" ++ dec (ms_status_code r) ++ bs ")".

(** [iter(headers)]: the lower-case names at the time of the call. *)
Definition headers_iter `{HashOrder} (h : PyHeaders) : list bytes := keys h.

(** Two ASCII strings with the same text are the same: no escape begins another. *)
Definition distinct_escapes (a b : Z) : bool :=
  (a =? b) || (negb (starts_with (escape_ascii a) (escape_ascii b)) && negb (starts_with (escape_ascii b) (escape_ascii a))).
Lemma escapes_distinct : forallb (λ a, forallb (distinct_escapes a) (map Z.of_nat (seq 0 128))) (map Z.of_nat (seq 0 128)) = true.
Proof. vm_compute. reflexivity. Qed.

Lemma byte_listed b : 0 ≤ b < 128 → In b (map Z.of_nat (seq 0 128)).
Proof. intros Hb. apply in_map_iff. exists (Z.to_nat b). split; [lia|]. apply in_seq. lia. Qed.

Lemma escape_prefix a b r r' : 0 ≤ a < 128 → 0 ≤ b < 128 → escape_ascii a ++ r = escape_ascii b ++ r' → a = b ∧ r = r'.
Proof.
  intros Ha Hb He. assert (a = b) as ->; [|split; [done|]; by apply app_inv_head in He].
  pose proof escapes_distinct as Hd. rewrite forallb_forall in Hd. specialize (Hd a (byte_listed a Ha)).
  rewrite forallb_forall in Hd. specialize (Hd b (byte_listed b Hb)). unfold distinct_escapes in Hd.
  destruct (Z.eqb_spec a b) as [|Hne]; [done|]. cbn [orb] in Hd. apply andb_true_iff in Hd as [H1 H2].
  apply negb_true_iff in H1, H2. unfold starts_with in *. apply bool_decide_eq_false in H1, H2. exfalso.
  destruct (decide (length (escape_ascii a) ≤ length (escape_ascii b))%nat) as [Hl|Hl].
  - apply H2. apply (f_equal (take (length (escape_ascii a)))) in He. by rewrite take_app_length, take_app_le in He.
  - apply H1. apply (f_equal (take (length (escape_ascii b)))) in He. rewrite take_app_length, take_app_le in He by lia. done.
Qed.

Lemma debug_str_inj s t : Forall (λ b, 0 ≤ b < 128) s → Forall (λ b, 0 ≤ b < 128) t → debug_str s = debug_str t → s = t.
Proof.
  intros Hs Ht He. unfold debug_str in He. apply app_inv_head in He. revert t Ht He.
  induction Hs as [|a s Ha Hs IH]; intros t Ht He; destruct Ht as [|b t Hb Ht].
  - done.
  - exfalso. cbn [debug_chars] in He. rewrite (proj2 (Z.ltb_lt b 128)) in He by lia. cbn [app] in He.
    revert He. unfold escape_ascii. repeat case_match; cbn; intros [= He]; try discriminate; lia.
  - exfalso. cbn [debug_chars] in He. rewrite (proj2 (Z.ltb_lt a 128)) in He by lia. cbn [app] in He.
    revert He. unfold escape_ascii. repeat case_match; cbn; intros [= He]; try discriminate; lia.
  - cbn [debug_chars] in He. rewrite (proj2 (Z.ltb_lt a 128)), (proj2 (Z.ltb_lt b 128)), <- !(assoc_L (++)) in He by lia.
    destruct (escape_prefix _ _ _ _ Ha Hb He) as [-> He']. f_equal. by apply IH.
Qed.
End debug.

(** ** The module and its submodules *)

Inductive h2_function :=
  | EncodeHeaders | BuildProbe | BuildRawFrame | BuildSettingsFrame | BuildHeadersFrame | BuildContinuationFrame
  | BuildDataFrame | BuildWindowUpdateFrame | BuildPingFrame | BuildRstStreamFrame | BuildGoawayFrame | BuildPriorityFrame.
Definition friendly (f : h2_function) : string :=
  match f with
  | EncodeHeaders => "encode_headers" | BuildProbe => "build_probe" | BuildRawFrame => "build_raw_frame"
  | BuildSettingsFrame => "build_settings_frame" | BuildHeadersFrame => "build_headers_frame"
  | BuildContinuationFrame => "build_continuation_frame" | BuildDataFrame => "build_data_frame"
  | BuildWindowUpdateFrame => "build_window_update_frame" | BuildPingFrame => "build_ping_frame"
  | BuildRstStreamFrame => "build_rst_stream_frame" | BuildGoawayFrame => "build_goaway_frame"
  | BuildPriorityFrame => "build_priority_frame"
  end.
(** The name of the [#[pyfunction]]. *)
Definition function_name (f : h2_function) : string := ("h2_" ++ friendly f)%string.

Inductive member := MClass | MBytes (b : bytes) | MInt (z : Z) | MFunction (f : h2_function) | MException | MModule | MText (s : bytes).

(** What registration does to the interpreter: [add], [add_function] and [setattr] of
    what [getattr] finds in the module, an entry in [sys.modules], and a call of
    [MutableMapping.register] with a class of the module. *)
Inductive registration :=
  | Add (name : string) (m : member) | AddFunction (f : h2_function) | Alias (name from : string)
  | SysModule (name : string) | AsMapping (name : string).

Definition module_dict : Type := list (string * member).
Fixpoint getattr (name : string) (m : module_dict) : option member :=
  match m with [] => None | (n, v) :: m => if bool_decide (n = name) then Some v else getattr name m end.
Definition setattr (name : string) (v : member) (m : module_dict) : module_dict :=
  (name, v) :: List.filter (λ e, negb (bool_decide (e.1 = name))) m.

Record modules := mkModules { m_dict : module_dict; m_sys_modules : list string; m_mappings : list string }.
Definition in_dict (f : module_dict → module_dict) (m : modules) : modules := mkModules (f (m_dict m)) (m_sys_modules m) (m_mappings m).

Definition register (m : modules) (r : registration) : option modules :=
  match r with
  | Add name v => Some (in_dict (setattr name v) m)
  | AddFunction f => Some (in_dict (setattr (function_name f) (MFunction f)) m)
  | Alias name from => v ← getattr from (m_dict m); Some (in_dict (setattr name v) m)
  | SysModule name => Some (mkModules (m_dict m) (name :: m_sys_modules m) (m_mappings m))
  | AsMapping name => _ ← getattr name (m_dict m); Some (mkModules (m_dict m) (m_sys_modules m) (name :: m_mappings m))
  end.
Definition register_all (rs : list registration) (m : modules) : option modules :=
  foldl (λ m r, m ≫= λ m, register m r) (Some m) rs.
Definition no_modules : modules := mkModules [] [] [].

Definition h2_constants : list (string * Z) :=
  [("FRAME_DATA", FRAME_DATA); ("FRAME_HEADERS", FRAME_HEADERS); ("FRAME_PRIORITY", FRAME_PRIORITY);
   ("FRAME_RST_STREAM", FRAME_RST_STREAM); ("FRAME_SETTINGS", FRAME_SETTINGS); ("FRAME_PING", FRAME_PING);
   ("FRAME_GOAWAY", FRAME_GOAWAY); ("FRAME_WINDOW_UPDATE", FRAME_WINDOW_UPDATE); ("FRAME_CONTINUATION", FRAME_CONTINUATION);
   ("FLAG_END_STREAM", FLAG_END_STREAM); ("FLAG_ACK", FLAG_ACK); ("FLAG_END_HEADERS", FLAG_END_HEADERS);
   ("FLAG_PADDED", FLAG_PADDED); ("FLAG_PRIORITY", FLAG_PRIORITY);
   ("SETTINGS_HEADER_TABLE_SIZE", SETTINGS_HEADER_TABLE_SIZE); ("SETTINGS_ENABLE_PUSH", SETTINGS_ENABLE_PUSH);
   ("SETTINGS_MAX_CONCURRENT_STREAMS", SETTINGS_MAX_CONCURRENT_STREAMS);
   ("SETTINGS_INITIAL_WINDOW_SIZE", SETTINGS_INITIAL_WINDOW_SIZE); ("SETTINGS_MAX_FRAME_SIZE", SETTINGS_MAX_FRAME_SIZE);
   ("SETTINGS_MAX_HEADER_LIST_SIZE", SETTINGS_MAX_HEADER_LIST_SIZE)]%string.
Definition h2_functions : list h2_function :=
  [EncodeHeaders; BuildProbe; BuildRawFrame; BuildSettingsFrame; BuildHeadersFrame; BuildContinuationFrame; BuildDataFrame;
   BuildWindowUpdateFrame; BuildPingFrame; BuildRstStreamFrame; BuildGoawayFrame; BuildPriorityFrame].

(** The calls on the new module; those on its parent are in [blasthttp_module]. *)
Definition register_h2_submodule : list registration :=
  [Add "Header" MClass; Add "Decoder" MClass; Add "PREFACE" (MBytes PREFACE)] ++
  map (λ '(n, z), Add n (MInt z)) h2_constants ++
  map AddFunction h2_functions ++
  map (λ f, Alias (friendly f) (function_name f)) h2_functions.

Definition register_mock_submodule : list registration :=
  [Add "BlasthttpMock" MClass; Add "MockRequest" MClass; Add "MockResponse" MClass; Add "MockBatchIterator" MClass;
   Add "TimeoutException" MException].

Definition register_headers_as_mapping : list registration := [AsMapping "Headers"].

(** [version] is the package's. *)
Definition blasthttp_module (version : bytes) : list registration :=
  [Add "__version__" (MText version); Add "BlastHTTP" MClass; Add "BatchConfig" MClass; Add "Response" MClass;
   Add "BatchResult" MClass; Add "BatchResultIterator" MClass; Add "CertInfo" MClass; Add "ResponseHash" MClass;
   Add "RedirectHop" MClass; Add "Headers" MClass; Add "Request" MClass; Add "RawConnection" MClass;
   Add "HTTPStatusError" MException; Add "h2" MModule; SysModule "blasthttp.h2"; Add "mock" MModule;
   SysModule "blasthttp.mock"] ++ register_headers_as_mapping.

(** No [getattr] of the registration fails; every function has its two names, and every
    constant its own. *)
Lemma h2_module_complete : ∃ m, m_dict <$> register_all register_h2_submodule no_modules = Some m ∧
  (∀ f, getattr (friendly f) m = Some (MFunction f) ∧ getattr (function_name f) m = Some (MFunction f)) ∧
  (∀ n z, In (n, z) h2_constants → getattr n m = Some (MInt z)) ∧
  getattr "PREFACE" m = Some (MBytes PREFACE) ∧ length m = (3 + length h2_constants + 2 * length h2_functions)%nat.
Proof.
  eexists. split; [vm_compute; reflexivity|]. split_and!; [by intros []| |done|done].
  intros n z H. repeat (destruct H as [[= <- <-]|H]; [done|]). done.
Qed.

(** [import blasthttp.h2] and [import blasthttp.mock] find the submodules, and [Headers]
    is registered as a [MutableMapping]: the class is there when it is looked up. *)
Lemma modules_register version : is_Some (register_all register_mock_submodule no_modules) ∧
  ∃ m, register_all (blasthttp_module version) no_modules = Some m ∧ m_mappings m = ["Headers"%string] ∧
    "blasthttp.h2"%string ∈ m_sys_modules m ∧ "blasthttp.mock"%string ∈ m_sys_modules m.
Proof.
  split; [by eexists|]. eexists. split; [cbn; reflexivity|]. cbn. split_and!; [done|set_solver..].
Qed.
