(* ===== verification/Whole.v ===== *)
(** * From a Python batch to its results

    The parts put together: the conversion of [BatchConfig]s (PyApi), the drivers under
    their limiter (Dispatch, Batch, Paced), the real client with its shared cache
    (Send, SharedCache), and the results and chunks handed back (PyApi). *)
From stdpp Require Import gmap.
From S2P Require Import Prelude RustStd ClientError Uri Config Batch Dispatch Paced.
From S2P Require Import Wire Decompress Request Response Conn SharedCache Client ClientProps Send SendProps.
From S2P Require Import PyValue PyApi.
From S2P Require Import DecompressProps.
From S2P Require SendExamples MockExamples.

(** The ranges of the numbers, but the largest [max_redirects] (see [wf_config]). *)
Definition wf_args (a : PyArgs) : Prop :=
  0 ≤ default 10 (a_max_redirects a) < u32_max ∧ 0 ≤ default 1 (a_retries a) ∧
  0 ≤ default 1000 (a_retry_wait_min_ms a) ∧ 0 ≤ default 30000 (a_retry_wait_max_ms a) ≤ u64_max.

Section whole.
Context `{Python} (h1 h2 : Z → Z) (task_panicked : bytes).
Context {R : Type} `{!Read R} `{Headers : !HeaderMap}.
Context (parse_uri : bytes → bytes + Uri) (builder_error : Request → option bytes)
  (refuses : ssl_call → option bytes) (to_str : bytes → option bytes)
  (new_decoder : flavor → bytes → R) (spare : list bytes → Z) (domain_str : bytes → option bytes)
  (lossy debug_lossy : bytes → bytes) (debug_text : option bytes → bytes) (debug_list : list bytes → bytes).

Local Abbreviation call env :=
  (send env parse_uri builder_error refuses to_str new_decoder spare domain_str lossy debug_lossy debug_text debug_list).
Local Abbreviation good_result := (good_result parse_uri to_str).
Local Abbreviation allowed :=
  (allowed parse_uri builder_error refuses to_str domain_str).
Local Abbreviation third_party env := (third_party env parse_uri refuses to_str).

(** What a task of the batch may get from [client.send]: the network is any, the shared
    cache is what the earlier calls left, and the others go on meanwhile ([third_party]). *)
Definition client_sends (config : RequestConfig) (o : exec ClientError Response) : Prop :=
  ∃ env self tr made, third_party env ∧ cache_steps parse_uri refuses HyperClient_new made self ∧
    (call env config self tr).1 = o.
#[local] Instance real_client : HttpClient RequestConfig Response := hyper_client client_sends.

(** The result that a [BatchConfig] is owed: its own URL, and either the response that a
    call of [send] with its configuration got, or the text of its error. *)
Definition served (c : PyBatchConfig) (r : PyBatchResult) : Prop :=
  br_url r = a_url c ∧ ∃ n n' config env self tr new,
    request_config h1 h2 c None n = (Ok config, n') ∧
    trace (call env config self tr).2 = tr ++ new ∧
    (∀ pre e post, new = pre ++ e :: post → allowed config pre e) ∧
    match request_result (call env config self tr).1 with
    | Ok response => good_result config new response ∧ br_response r = Some response ∧ br_error r = None
    | Err (RuntimeError msg) => br_response r = None ∧ br_error r = Some msg
    | _ => False
    end.

(** *** The client *)

(** A network where nothing answers. *)
Definition dark_env : Env := {|
  env_request _ _ _ _ := ([], Fails []);
  env_dial _ _ := Within (Fails []);
  env_tunnel _ := TunnelTimesOut;
  env_ssl_setup _ _ := None;
  env_tls _ := Within (Fails []);
  env_handshake _ _ := Fails [];
  env_direct _ _ := Fails [];
  env_forward_dial _ _ := Fails [];
  env_forward _ _ := Fails [];
  env_elapsed_ms _ := 0;
  env_now_unix _ := 0;
  env_others _ _ c := c
|}.

Context (Hascii : text_ascii to_str) (Hroot : root_parses parse_uri).

Lemma client_sends_total config : ∃ o : exec ClientError Response, sends config o.
Proof.
  eexists. exists dark_env, HyperClient_new, [], []. split_and!; [|constructor|done].
  split_and!; [done|done|]. intros. exists []. constructor.
Qed.

Lemma client_served c config n n' o : wf_args c → request_config h1 h2 c None n = (Ok config, n') →
  client_sends config o → o ≠ Panic ∧ served c (to_py_batch_result (mkResult (cfg_url config) o)).
Proof.
  intros Hc Hreq (env & self & tr & made & H3 & Hs & Ho).
  assert (wf_config config) as Hwf.
  { revert Hreq. unfold request_config. destruct (apply_body_and_files _ _ _ _ _ _) as [[[b h]|e|] k]; try done.
    intros [= <- _]. destruct Hc as (? & ? & ? & ?). unfold wf_config, max_body, redirect_limit, max_retries, retry_wait_min, retry_wait_max.
    cbn. split_and!; lia. }
  pose proof (cache_steps_ok _ _ _ _ _ Hs (cache_ok_empty parse_uri refuses)) as Hok.
  destruct (send_events env parse_uri builder_error refuses to_str new_decoder spare domain_str lossy debug_lossy
    debug_text debug_list config self tr H3 Hwf Hok) as (new & Ht & Ha & _ & Hr). rewrite Ho in Hr.
  split; [by intros ->|]. split.
  { rewrite <- (request_config_url _ _ _ _ _ _ _ Hreq). by destruct o. }
  exists n, n', config, env, self, tr, new. split_and!; [done|done|done|]. rewrite Ho. by destruct o.
Qed.

(** *** The tasks of a finished batch *)

Lemma tasks_served cs configs (ts : list (RequestConfig * task)) : Forall wf_args cs →
  Forall2 (λ c config, ∃ n n', request_config h1 h2 c None n = (Ok config, n')) cs configs →
  ts.*1 = configs → Forall (λ t, ∃ o, t.2 = Finished o ∧ client_sends t.1 o) ts →
  Forall2 served cs (map to_py_batch_result (map (join_result task_panicked) ts)) ∧
  map (join_result task_panicked) ts = flat_map task_emit ts.
Proof.
  intros Hw Hc. revert ts. induction Hc as [|c config cs configs (n & n' & Hreq) _ IH]; intros ts Hts Hf.
  - destruct ts; [|done]. by split.
  - destruct ts as [|[config' t] ts]; [done|]. cbn in Hts. injection Hts as -> Hts.
    apply Forall_cons in Hw as [Hwc Hw]. apply Forall_cons in Hf as [(o & Ho & Hs) Hf]. cbn in Ho, Hs. subst t.
    destruct (IH Hw ts Hts Hf) as [IH1 IH2]. destruct (client_served c config n n' o Hwc Hreq Hs) as [Hp Hserved].
    cbn [map flat_map]. split.
    + constructor; [|done]. by destruct o.
    + rewrite IH2. by destruct o.
Qed.

(** C17: a batch from its [BatchConfig]s to what Python gets, for a [concurrency] of at
    least 1 and redirect limits below the largest [u32].  Over the real client,
    under the limiter, in any interleaving of the tasks, of other callers of the limiter
    and of other calls on the shared cache, and against any network: [request_batch] can
    always come to its results, and they are, in order, one per [BatchConfig], that
    config's URL with the response of a good call of [send] made with its configuration
    or the text of that call's error, never a panic.  The chunks of
    [request_batch_stream] put together are a permutation of such results, whatever the
    timing of the iteration. *)
Theorem batch_end_to_end (cs : list PyBatchConfig) (counter counter' concurrency : Z)
    (configs : list RequestConfig) (shared : option (RateLimiter * limiter_state)) (rate_limit : option f64) :
  Forall wf_args cs → 1 ≤ concurrency → into_request_configs h1 h2 cs counter = (Ok configs, counter') →
  shared_ok (length configs) shared →
  (∀ limiter p0 p, paced_init (D := batch_state) shared rate_limit configs concurrency = Ok (limiter, p0) →
     rtc (paced_step limiter (length configs)) p0 p →
     (∃ p' results, rtc (paced_step limiter (length configs)) p p' ∧
        send_batch_results task_panicked (p_driver p') = Some results) ∧
     (∀ results, send_batch_results task_panicked (p_driver p) = Some results →
        Forall2 served cs (map to_py_batch_result results))) ∧
  (∀ limiter p0 p, paced_init (D := stream_state) shared rate_limit configs concurrency = Ok (limiter, p0) →
     rtc (paced_step limiter (length configs)) p0 p →
     (∃ p', rtc (paced_step limiter (length configs)) p p' ∧ all_finished (base (p_driver p')) = true) ∧
     (all_finished (base (p_driver p)) = true → ∀ timing, (upcoming timing).*2 = channel (p_driver p) →
        ∃ rs batches, Forall2 served cs rs ∧ chunks (S (length (upcoming timing))) timing = Some batches ∧
          concat batches ≡ₚ rs)).
Proof.
  intros Hw Hn Hc Hsh. pose proof (into_request_configs_spec h1 h2 _ _ _ _ Hc) as Hcs.
  split; intros limiter p0 p Hinit Hr;
    (assert (paced_inv limiter configs concurrency p) as Hi by (eapply paced_reach_inv; [lia|done..]));
    pose proof (d_ok_base _ _ _ (pi_driver _ _ _ _ Hi)) as Hb; split.
  - destruct (paced_completes _ _ _ _ client_sends_total Hn Hi) as (p' & Hp' & Ha).
    exists p', (map (join_result task_panicked) (tasks (p_driver p'))). split; [done|].
    unfold send_batch_results. cbn in Ha. by rewrite Ha.
  - intros results Hres. unfold send_batch_results in Hres.
    destruct (all_finished (p_driver p)) eqn:Ha; [|done]. injection Hres as <-.
    destruct (final_task _ _ _ Hb Ha) as [Hts Hf]. by destruct (tasks_served cs configs _ Hw Hcs Hts Hf).
  - apply (paced_completes _ _ _ _ client_sends_total Hn Hi).
  - intros Ha timing Ht. destruct (final_task _ _ _ Hb Ha) as [Hts Hf].
    destruct (tasks_served cs configs _ Hw Hcs Hts Hf) as [Hserved Hemit].
    change (d_base (p_driver p)) with (base (p_driver p)) in *.
    destruct timing as [l e]. destruct (chunks_spec l e (S (length l)) ltac:(lia)) as (batches & Hb1 & Hb2 & _).
    exists (map to_py_batch_result (map (join_result task_panicked) (tasks (base (p_driver p))))), batches.
    split_and!; [done|done|]. rewrite Hb2, Hemit. unfold results_of. cbn in Ht.
    rewrite <- (map_map snd to_py_batch_result). apply Permutation_map. change (map snd l) with (l.*2). rewrite Ht.
    apply (stream_channel configs concurrency), (pi_run _ _ _ _ Hi).
Qed.
End whole.

#[local] Existing Instance RequestProps.grouped_headers.

(** One config in the small world of [SendExamples]. *)
Definition toy_sends : RequestConfig → exec ClientError Response → Prop :=
  client_sends SendExamples.toy_parse (λ _, None) (λ _, None) SendExamples.toy_to_str
    DecompressProps.toy_decoder (λ _, 2) SendExamples.toy_psl (λ b, b) (λ b, b) (λ _, []) (λ _, []).
#[local] Instance toy_client : HttpClient RequestConfig Response := hyper_client toy_sends.
#[local] Existing Instance MockExamples.sample_python.

Lemma batch_end_to_end_witness :
  let cs := [MockExamples.sample_config (bs "http://h/")] in
  ∃ configs n (p0 p : @paced batch_state) results,
    into_request_configs (λ _, 0) (λ _, 0) cs 0 = (Ok configs, n) ∧
    paced_init None None configs 1 = Ok (None, p0) ∧
    rtc (paced_step None (length configs)) p0 p ∧
    send_batch_results (bs "panic") (p_driver p) = Some results ∧
    Forall2 (served (λ _, 0) (λ _, 0) SendExamples.toy_parse (λ _, None) (λ _, None)
      SendExamples.toy_to_str DecompressProps.toy_decoder (λ _, 2) SendExamples.toy_psl (λ b, b) (λ b, b) (λ _, [])
      (λ _, [])) cs (map to_py_batch_result results).
Proof.
  intros cs.
  destruct (into_request_configs (λ _, 0) (λ _, 0) cs 0) as [[configs|e|] n] eqn:E;
    [|vm_compute in E; discriminate E..].
  destruct SendExamples.toy_third_party as (Hascii & Hroot & _).
  destruct (batch_end_to_end (λ _, 0) (λ _, 0) (bs "panic") SendExamples.toy_parse
    (λ _, None) (λ _, None) SendExamples.toy_to_str DecompressProps.toy_decoder (λ _, 2) SendExamples.toy_psl (λ b, b)
    (λ b, b) (λ _, []) (λ _, []) Hascii Hroot cs 0 n 1 configs None None) as [Hbatch _].
  - apply Forall_singleton. unfold wf_args, u32_max, u64_max. cbn. lia.
  - lia.
  - exact E.
  - intros ? ? [=].
  - set (p0 := mkPaced (send_batch_init configs 1 : @batch_state RequestConfig Response) limiter_init []).
    destruct (Hbatch None p0 p0) as [(p & results & Hp & Hres) _]; [reflexivity|apply rtc_refl|].
    destruct (Hbatch None p0 p) as [_ Hserved]; [reflexivity|exact Hp|].
    exists configs, n, p0, p, results. split_and!; [reflexivity|reflexivity|exact Hp|exact Hres|by apply Hserved].
Defined.
