(* ===== verification/RepoTestsWire.v ===== *)
(** * The repository's unit tests, continued

    h2/, client/hyper.rs, response.rs, multipart.rs, client/mod.rs and batch.rs, as in
    [RepoTests]. *)
From stdpp Require Import gmap.
From S2P Require Import Prelude RustStd ClientError Uri Config Huffman Hpack Frame Probe.
From S2P Require Request RequestProps Response Decompress Multipart MockClient Raw Wire.

Definition hex_value (c : Z) : Z := if is_digit c then c - 48 else c - 87.
Fixpoint unhex (s : bytes) : bytes :=
  match s with a :: b :: s => hex_value a * 16 + hex_value b :: unhex s | _ => [] end.
Definition hex (s : string) : bytes := unhex (bs s).

(** ** h2/huffman.rs *)
Module HuffmanTests.
Example rfc7541_c_4 :
  map (λ s, encode (bs s)) ["www.example.com"; "no-cache"; "custom-key"; "custom-value"; EmptyString]%string =
  map hex ["f1e3c2e5f23a6ba0ab90f4ff"; "a8eb10649cbf"; "25a849e95ba97d7f"; "25a849e95bb8e8b4bf"; EmptyString]%string.
Proof. vm_compute. reflexivity. Qed.
Example encoded_len_matches : (encoded_len (bs "www.example.com"), encoded_len []) = (12, 0).
Proof. vm_compute. reflexivity. Qed.
Example decode_rfc7541_c_4 :
  map (λ s, decode (hex s)) ["f1e3c2e5f23a6ba0ab90f4ff"; "a8eb10649cbf"; "25a849e95ba97d7f"; "25a849e95bb8e8b4bf"; EmptyString]%string
  = map (λ s, Ok (bs s)) ["www.example.com"; "no-cache"; "custom-key"; "custom-value"; EmptyString]%string.
Proof. vm_compute. reflexivity. Qed.
Example decode_round_trip_all_byte_values :
  let input := map Z.of_nat (seq 0 256) in decode (encode input) = Ok input.
Proof. vm_compute. reflexivity. Qed.
Example decode_accepts_eos_prefix_padding : decode (encode (bs "a")) = Ok (bs "a").
Proof. vm_compute. reflexivity. Qed.
End HuffmanTests.

(** ** h2/hpack.rs *)
Module HpackTests.
Example read_integer_examples :
  (read_integer [0x0a] 0 5, read_integer [0x1f; 0x9a; 0x0a] 0 5, read_integer [0x2a] 0 8) = (Ok (10, 1), Ok (1337, 3), Ok (42, 1)).
Proof. vm_compute. reflexivity. Qed.

(** The headers decoded by a new decoder, and the length of its table after. *)
Definition decoded (s : string) : option (list (bytes * bytes) * nat) :=
  match decode_headers Decoder_new (hex s) with
  | Some (d, Ok hs) => Some (hs, length (dynamic_table d))
  | _ => None
  end.
Definition pair_of (n v : string) : bytes * bytes := (bs n, bs v).

Example c_2_1_literal_with_incremental_indexing :
  decoded "400a637573746f6d2d6b65790d637573746f6d2d686561646572" = Some ([pair_of "custom-key" "custom-header"], 1%nat).
Proof. vm_compute. reflexivity. Qed.
Example c_2_2_literal_without_indexing :
  decoded "040c2f73616d706c652f70617468" = Some ([pair_of ":path" "/sample/path"], 0%nat).
Proof. vm_compute. reflexivity. Qed.
Example c_2_3_literal_never_indexed :
  decoded "100870617373776f726406736563726574" = Some ([pair_of "password" "secret"], 0%nat).
Proof. vm_compute. reflexivity. Qed.
Example c_2_4_indexed_header_field : decoded "82" = Some ([pair_of ":method" "GET"], 0%nat).
Proof. vm_compute. reflexivity. Qed.
Definition first_request : list (bytes * bytes) :=
  [pair_of ":method" "GET"; pair_of ":scheme" "http"; pair_of ":path" "/"; pair_of ":authority" "www.example.com"].
Example c_3_1_first_request : decoded "828684410f7777772e6578616d706c652e636f6d" = Some (first_request, 1%nat).
Proof. vm_compute. reflexivity. Qed.
Example c_4_1_first_request_huffman : decoded "828684418cf1e3c2e5f23a6ba0ab90f4ff" = Some (first_request, 1%nat).
Proof. vm_compute. reflexivity. Qed.

Definition raw (n v : string) (i : Indexing) (force : option Z) : Header :=
  mkHeader (bs n) (bs v) i (Some false) (Some false) false false 0 0 force.
Definition new (n v : string) : Header := Header_new (bs n) (bs v).

Example round_trip_strict_encoder_decoder :
  match encode_headers [raw ":method" "POST" With None; new "content-type" "text/html; charset=utf-8"; new "x-custom-header" "hello"] with
  | Ok block => match decode_headers Decoder_new block with Some (_, r) => exec_ok r | None => None end
  | _ => None
  end = Some [pair_of ":method" "POST"; pair_of "content-type" "text/html; charset=utf-8"; pair_of "x-custom-header" "hello"].
Proof. vm_compute. reflexivity. Qed.

Example dynamic_table_eviction :
  let d := with_max_table_size 100 in
  let d := add_to_dynamic_table d (replicate 30 97) (replicate 30 118) in
  let d := add_to_dynamic_table d (replicate 30 98) (replicate 30 118) in length (dynamic_table d) = 1%nat.
Proof. vm_compute. reflexivity. Qed.
Example single_oversized_entry_clears_table :
  let d := add_to_dynamic_table (with_max_table_size 100) [97] [118] in
  (length (dynamic_table d), length (dynamic_table (add_to_dynamic_table d (replicate 100 120) (replicate 100 121)))) = (1%nat, 0%nat).
Proof. vm_compute. reflexivity. Qed.

Example integer_examples :
  (write_integer (E := EncodeError) [] 10 5 0 0, write_integer (E := EncodeError) [] 1337 5 0 0,
   write_integer (E := EncodeError) [] 42 8 0 0) = (Ok [10], Ok [0x1f; 0x9a; 0x0a], Ok [0x2a]).
Proof. vm_compute. reflexivity. Qed.
Example string_raw_custom_key :
  write_string (E := EncodeError) [] (bs "custom-key") (Some false) 0 = Ok (0x0a :: bs "custom-key").
Proof. vm_compute. reflexivity. Qed.
Example string_huffman_auto_picks_shorter :
  write_string (E := EncodeError) [] (bs "www.example.com") None 0 = Ok (0x8c :: hex "f1e3c2e5f23a6ba0ab90f4ff").
Proof. vm_compute. reflexivity. Qed.
Example rfc7541_c_2_1_literal_with_indexing :
  encode_headers [raw "custom-key" "custom-header" With None] = Ok (hex "400a637573746f6d2d6b65790d637573746f6d2d686561646572").
Proof. vm_compute. reflexivity. Qed.
Example rfc7541_c_2_2_literal_without_indexing :
  encode_headers [mkHeader (bs ":path") (bs "/sample/path") Without None (Some false) false false 0 0 (Some 4)]
  = Ok (hex "040c2f73616d706c652f70617468").
Proof. vm_compute. reflexivity. Qed.
Example rfc7541_c_2_3_literal_never_indexed :
  encode_headers [raw "password" "secret" Never None] = Ok (hex "100870617373776f726406736563726574").
Proof. vm_compute. reflexivity. Qed.

Definition crlf_value : bytes := bs "has" ++ [13; 10] ++ bs "crlf".
Example rejects_invalid_value_by_default : encode_headers [Header_new (bs "x-foo") crlf_value] = Err InvalidValue.
Proof. vm_compute. reflexivity. Qed.
Example allow_invalid_value_emits_crlf :
  encode_headers [mkHeader (bs "x-foo") crlf_value With (Some false) (Some false) true false 0 0 None]
  = Ok ([0x40; 5] ++ bs "x-foo" ++ [9] ++ crlf_value).
Proof. vm_compute. reflexivity. Qed.
Example rejects_uppercase_name_by_default : encode_headers [new "X-Foo" "val"] = Err InvalidName.
Proof. vm_compute. reflexivity. Qed.
Example allow_invalid_name_emits_uppercase :
  encode_headers [mkHeader (bs "X-Foo") (bs "val") With (Some false) (Some false) false true 0 0 None]
  = Ok ([0x40; 5] ++ bs "X-Foo" ++ [3] ++ bs "val").
Proof. vm_compute. reflexivity. Qed.
Example pseudo_headers_always_allowed : is_Some (exec_ok (encode_headers [new ":method" "GET"])).
Proof. vm_compute. by eexists. Qed.
Definition bloated (value : bytes) (bloat : Z) : Header := mkHeader (bs "x") value With (Some false) (Some false) false false 0 bloat None.
Example length_bloat_adds_continuation_bytes :
  match encode_headers [bloated (replicate 200 97) 0], encode_headers [bloated (replicate 200 97) 2] with
  | Ok a, Ok b => zlen b = zlen a + 2
  | _, _ => False
  end.
Proof. vm_compute. reflexivity. Qed.
Example small_integer_bloat_is_ignored_not_panic :
  encode_headers [bloated (bs "y") 2] = Ok ([0x40; 1] ++ bs "x" ++ [1] ++ bs "y").
Proof. vm_compute. reflexivity. Qed.
End HpackTests.

(** ** h2/frame.rs and h2/probe.rs *)
Module FrameTests.
Example raw_frame_length_encoding :
  build_raw_frame (E := EncodeError) FRAME_DATA 0 1 (bs "x") = Ok ([0; 0; 1; FRAME_DATA; 0; 0; 0; 0; 1] ++ bs "x").
Proof. vm_compute. reflexivity. Qed.
Example settings_frame_empty_and_ack :
  (build_settings_frame (E := EncodeError) [] false, build_settings_frame (E := EncodeError) [] true) =
  (Ok [0; 0; 0; FRAME_SETTINGS; 0; 0; 0; 0; 0], Ok [0; 0; 0; FRAME_SETTINGS; FLAG_ACK; 0; 0; 0; 0]).
Proof. vm_compute. reflexivity. Qed.
Example settings_frame_encodes_pairs :
  build_settings_frame (E := EncodeError) [(SETTINGS_HEADER_TABLE_SIZE, 4096); (SETTINGS_MAX_FRAME_SIZE, 16384)] false
  = Ok [0; 0; 12; FRAME_SETTINGS; 0; 0; 0; 0; 0; 0; 1; 0; 0; 0x10; 0; 0; 5; 0; 0; 0x40; 0].
Proof. vm_compute. reflexivity. Qed.
Example headers_frame_end_stream_and_end_headers :
  build_headers_frame (E := EncodeError) (Build_HeadersFrameOpts (bs "xx") 1 true true 0 None)
  = Ok ([0; 0; 2; FRAME_HEADERS; Z.lor FLAG_END_STREAM FLAG_END_HEADERS; 0; 0; 0; 1] ++ bs "xx").
Proof. vm_compute. reflexivity. Qed.
Example headers_frame_with_padding :
  build_headers_frame (E := EncodeError) (Build_HeadersFrameOpts (bs "x") 1 false true 3 None)
  = Ok ([0; 0; 5; FRAME_HEADERS; Z.lor FLAG_END_HEADERS FLAG_PADDED; 0; 0; 0; 1] ++ [3] ++ bs "x" ++ [0; 0; 0]).
Proof. vm_compute. reflexivity. Qed.
Example data_frame_default :
  build_data_frame (E := EncodeError) (bs "hello") 1 true 0
  = Ok ([0; 0; 5; FRAME_DATA; FLAG_END_STREAM; 0; 0; 0; 1] ++ bs "hello").
Proof. vm_compute. reflexivity. Qed.
Example rst_stream_frame_encoding :
  build_rst_stream_frame (E := EncodeError) 1 8 = Ok [0; 0; 4; FRAME_RST_STREAM; 0; 0; 0; 0; 1; 0; 0; 0; 8].
Proof. vm_compute. reflexivity. Qed.
Example goaway_frame_encoding :
  build_goaway_frame (E := EncodeError) 7 1 (bs "debug")
  = Ok ([0; 0; 13; FRAME_GOAWAY; 0; 0; 0; 0; 0] ++ [0; 0; 0; 7] ++ [0; 0; 0; 1] ++ bs "debug").
Proof. vm_compute. reflexivity. Qed.

(** The frames of a probe after its preface: type and payload. *)
Fixpoint frames (fuel : nat) (b : bytes) : list (Z * bytes) :=
  match fuel, b with
  | S fuel, l2 :: l1 :: l0 :: t :: _ :: _ :: _ :: _ :: _ :: rest =>
      let n := Z.to_nat (l2 * 65536 + l1 * 256 + l0) in (t, take n rest) :: frames fuel (drop n rest)
  | _, _ => []
  end.
Definition default_probe (opts : ProbeOpts) : option (bytes * list (Z * bytes)) :=
  match build_probe (map (λ '(n, v), Header_new (bs n) (bs v))
    [(":method", "GET"); (":path", "/"); (":authority", "example.com"); (":scheme", "https")]%string) opts with
  | Ok out => Some (take (length PREFACE) out, frames (length out) (drop (length PREFACE) out))
  | _ => None
  end.
Definition types (x : option (bytes * list (Z * bytes))) : option (bool * list Z) :=
  (λ '(p, fs), (bool_decide (p = PREFACE), fs.*1)) <$> x.

Example default_probe_has_preface_settings_headers :
  types (default_probe ProbeOpts_default) = Some (true, [FRAME_SETTINGS; FRAME_HEADERS]).
Proof. vm_compute. reflexivity. Qed.
Example probe_with_body_emits_data_frame :
  (λ '(_, fs), last fs) <$> default_probe (mkProbeOpts true None (Some []) 1 (Some (bs "hello")) None 0 0 None false [] [])
  = Some (Some (FRAME_DATA, bs "hello")).
Proof. vm_compute. reflexivity. Qed.
Example split_headers_emits_continuation :
  types (default_probe (mkProbeOpts true None (Some []) 1 None (Some 2) 0 0 None false [] []))
  = Some (true, [FRAME_SETTINGS; FRAME_HEADERS; FRAME_CONTINUATION]).
Proof. vm_compute. reflexivity. Qed.
Example skipping_settings_omits_frame :
  types (default_probe (mkProbeOpts true None None 1 None None 0 0 None false [] [])) = Some (true, [FRAME_HEADERS]).
Proof. vm_compute. reflexivity. Qed.
End FrameTests.

(** ** client/hyper.rs: the parts that need no compressed bytes *)
Module RequestTests.
Import Request.
#[local] Existing Instance RequestProps.grouped_headers.
Example test_backoff :
  map (λ '(n, lo), retry_backoff n lo 30000) [(0, 1000); (1, 1000); (2, 1000); (10, 1000); (0, 500); (1, 500)]
  = [1000; 2000; 4000; 30000; 500; 1000].
Proof. vm_compute. reflexivity. Qed.

(** The URI of the tests, and what [parse] makes of its origin form. *)
Definition test_uri : Uri := mkUri (Some (bs "http")) (Some (bs "example.com")) (Some 8080) (bs "/path") (Some (bs "q=1"))
  (Some (bs "example.com:8080")) (bs "http://example.com:8080/path?q=1").
Definition origin : Uri := mkUri None None None (bs "/path") (Some (bs "q=1")) None (bs "/path?q=1").
Definition parse (s : bytes) : bytes + Uri := if bool_decide (s = bs "/path?q=1") then inr origin else inl (bs "invalid uri").

Definition config (headers : option (list (string * string))) : RequestConfig :=
  mkConfig (uri_text test_uri) None (map (λ '(n, v), (bs n, bs v)) <$> headers) None None None None None None None None []
    None None None None None None None None None None 0.
Definition built (headers : option (list (string * string))) (origin_form manual : bool) (cookies : option string) : option Request :=
  exec_ok (build_request parse (λ _, None) test_uri (config headers) origin_form manual (bs <$> cookies)).
Definition all (name : string) (r : option Request) : list bytes :=
  match r with Some r => (List.filter (named (bs name)) (r_headers r)).*2 | None => [] end.

Example test_build_request_auto_host_from_uri : all "host" (built None true true None) = [bs "example.com:8080"].
Proof. vm_compute. reflexivity. Qed.
Example test_build_request_no_manual_host_for_pooled_path : all "host" (built None false false None) = [].
Proof. vm_compute. reflexivity. Qed.
Example test_build_request_custom_host_overrides_auto :
  (all "host" (built (Some [("Host", "custom.host")]%string) true true None),
   all "host" (built (Some [("Host", "custom.host")]%string) false false None)) = ([bs "custom.host"], [bs "custom.host"]).
Proof. vm_compute. reflexivity. Qed.
Example test_build_request_multiple_host_headers :
  all "host" (built (Some [("Host", "first.host"); ("Host", "second.host")]%string) true true None) = [bs "first.host"; bs "second.host"].
Proof. vm_compute. reflexivity. Qed.
Example test_chain_cookies_merge_into_a_well_formed_header :
  map (λ caller, all "cookie" (built (Some [("Cookie", caller)]%string) false false (Some "chain=9"%string)))
    ["a=1"; "a=1;"; "a=1; "; "a=1 ;  "; EmptyString]%string
  = [[bs "a=1; chain=9"]; [bs "a=1; chain=9"]; [bs "a=1; chain=9"]; [bs "a=1; chain=9"]; [bs "chain=9"]].
Proof. vm_compute. reflexivity. Qed.
Example test_build_request_forms :
  ((λ r, uri_text (r_uri r)) <$> built None true true None, (λ r, uri_text (r_uri r)) <$> built None false false None)
  = (Some (bs "/path?q=1"), Some (bs "http://example.com:8080/path?q=1")).
Proof. vm_compute. reflexivity. Qed.
Example test_zlib_header_detection :
  map Decompress.has_zlib_header [[0x78; 0x9c]; bs "x"; []; [0x78; 0x9d]; [0x08; 0x1d; 0x00; 0xe2; 0xff]] = [true; false; false; false; true].
Proof. vm_compute. reflexivity. Qed.

(** A body of many frames, the cap in the middle, at the end, and beyond. *)
Definition kilobytes (n : nat) : list Decompress.frame := replicate n (Decompress.Data (replicate 1024 120)).
Example test_read_body_cap :
  map (λ n, (λ '(b, cut), (zlen b, cut)) <$> exec_ok (Decompress.read_body (kilobytes n) 4096)) [6%nat; 4%nat; 3%nat]
  = [Some (4096, true); Some (4096, false); Some (3072, false)].
Proof. vm_compute. reflexivity. Qed.
End RequestTests.

(** ** response.rs, multipart.rs, client/mod.rs and batch.rs *)
Module ResponseTests.
Import Response.
Example test_build_raw_headers :
  (build_raw_headers [(bs "content-type", bs "text/html"); (bs "server", bs "nginx")], build_raw_headers [],
   build_raw_headers [(bs "X-Foo", bs "bar")])
  = (bs "content-type: text/html" ++ [13; 10] ++ bs "server: nginx", [], bs "X-Foo: bar").
Proof. vm_compute. reflexivity. Qed.

Definition cookies_of (l : list (string * string)) : list (bytes * bytes) :=
  map_to_list (parse_set_cookies (map (λ '(n, v), (bs n, bs v)) l)).
Example test_parse_set_cookies :
  map cookies_of
    [[("Set-Cookie", "session=abc123; Path=/; HttpOnly")]; [("Set-Cookie", "x=first"); ("Set-Cookie", "x=second")];
     [("set-cookie", "y=z")]; [("Set-Cookie", "  k = v  ; Path=/")]; [("Set-Cookie", "broken; Path=/")];
     [("Cookie", "session=should-be-ignored"); ("Content-Type", "text/html")]]%string
  = [[(bs "session", bs "abc123")]; [(bs "x", bs "second")]; [(bs "y", bs "z")]; [(bs "k", bs "v")]; []; []].
Proof. vm_compute. reflexivity. Qed.
Example test_parse_set_cookies_multiple :
  let c := parse_set_cookies [(bs "Set-Cookie", bs "a=1; Path=/"); (bs "Set-Cookie", bs "b=2")] in
  (c !! bs "a", c !! bs "b", length (map_to_list c)) = (Some (bs "1"), Some (bs "2"), 2%nat).
Proof. vm_compute. reflexivity. Qed.

Example quote_header_escapes_break_chars :
  map Multipart.quote_header [[97; 34; 98; 92; 99]; bs "line1" ++ [13; 10] ++ bs "line2"; bs "plain.txt"]
  = map bs ["a%22b%5Cc"; "line1%0D%0Aline2"; "plain.txt"]%string.
Proof. vm_compute. reflexivity. Qed.
Example boundary_is_unique :
  let '(a, n) := Multipart.random_boundary (λ x, x) (λ x, x + 1) 0 in let '(b, _) := Multipart.random_boundary (λ x, x) (λ x, x + 1) n in
  (bool_decide (a = b), zlen a, starts_with a (bs "blasthttp-boundary-")) = (false, 51, true).
Proof. vm_compute. reflexivity. Qed.
End ResponseTests.

Module MockTests.
Import MockClient.
Definition config (method : option string) (body : option string) (headers : list (string * string)) : RequestConfig :=
  mkConfig (bs "https://example.com") (bs <$> method) (Some (map (λ '(n, v), (bs n, bs v)) headers)) (bs <$> body) None None None
    None None None None [] None None None None None None None None None None 0.
Definition seen (m : MockClient) (c : RequestConfig) : option (Z * bytes * nat) :=
  (λ r, (Response.status r, Response.body_bytes r, length (Response.headers r))) <$> exec_ok (answer m c).

Example test_mock_returns :
  (seen (MockClient_new 200 (bs "OK")) (config None None []), seen (MockClient_new 404 (bs "Not Found")) (config None None []),
   seen (MockClient_new 204 []) (config None None [])) =
  (Some (200, bs "OK", 0%nat), Some (404, bs "Not Found", 0%nat), Some (204, [], 0%nat)).
Proof. vm_compute. reflexivity. Qed.
Example test_mock_echo :
  seen (with_echo (MockClient_new 200 [])) (config (Some "POST"%string) (Some "hello"%string) [("a", "1"); ("b", "2")]%string)
  = Some (200, bs "method=POST body=hello headers=2", 0%nat).
Proof. vm_compute. reflexivity. Qed.
Example test_mock_returns_headers :
  seen (with_headers [(bs "content-type", bs "application/json"); (bs "x-custom", bs "test")] (MockClient_new 200 (bs "ok")))
    (config None None []) = Some (200, bs "ok", 2%nat).
Proof. vm_compute. reflexivity. Qed.
Example test_mock_error :
  answer (with_error (bs "connection refused")) (config None None []) = Err (err_connection (bs "connection refused")).
Proof. reflexivity. Qed.
End MockTests.

(** client/raw.rs: a peer that echoes, one that closes, and a closed handle. *)
Module RawTests.
Import Wire Raw.
Definition echo (b : list bytes) : RawConnection := Some (mkTcp b None [] []).
Example roundtrip_send_then_read :
  let '(r, c) := send_bytes (bs "hello blasthttp") None (echo [bs "hello blasthttp"]) in
  (r, (read_raw 1024 (Some 2000) false c).1) = (Ok tt, Ok (bs "hello blasthttp")).
Proof. vm_compute. reflexivity. Qed.
Example read_timeout_returns_empty : (read_raw 1024 (Some 100) true (echo [])).1 = Ok [].
Proof. vm_compute. reflexivity. Qed.
Example closed_handle :
  let c := (close (echo [])).2 in
  ((send_bytes (bs "anything") None c).1, (read_raw 1024 (Some 100) false c).1, (close c).1) =
  (Err closed, Err closed, Ok tt).
Proof. vm_compute. reflexivity. Qed.
Example read_zero_and_peer_close :
  ((read_raw 0 (Some 100) false (echo [bs "x"])).1, (read_raw 1024 (Some 1000) false (echo [])).1) = (Ok [], Ok []).
Proof. vm_compute. reflexivity. Qed.
End RawTests.
